(** * The fused recurrent delta rule (fla/ops/delta_rule/fused_recurrent.py)

    A shallow embedding of the Triton kernels, of the Python functions that
    launch them and of the public entry point, followed by the properties
    stated about them.  The constructor of the RWKV7 configuration
    (fla/models/rwkv7/configuration_rwkv7.py) and the single-step update of
    the causal convolution (fla/modules/convolution.py) are embedded after
    them.

    Conventions of the embedding.
    - Tensor elements live in a type [R] with the operations of the class
      [Arith]; the casts [.to(tl.float32)] and [.to(dtype)] are the identity.
      The statements that compare the code with a mathematical reference ask
      for the ring laws ([ArithLaws]); the others hold for every
      interpretation of the operations.
    - A tensor is its shape and its flat, row-major storage, a map from
      element offsets to elements.  A Triton pointer into a tensor is an
      offset; a block of pointers [p + tl.arange(0, n)] is its base [p].
    - A block of [n] lanes is a function on the lane numbers [0..n-1].
    - [torch.empty]-like allocations take their contents from an explicit
      [junk] argument: whatever the allocator left in memory.
    - A kernel is specialised on which of its arguments are [None] when it
      is launched, before any program of the grid runs: a launch whose live
      branches use a [None] argument as a pointer raises. *)

From Stdlib Require Import ZArith List Bool Lia String Ring Permutation.
Import ListNotations.
Local Open Scope Z_scope.

(** ** Elements *)

Class Arith (R : Type) : Type := {
  zero : R;
  one : R;
  add : R -> R -> R;
  sub : R -> R -> R;
  mul : R -> R -> R;
  opp : R -> R;
  gt0 : R -> bool;          (* Python's [x > 0] *)
  rsqrt : Z -> R            (* Python's [n ** -0.5] *)
}.

Class ArithLaws (R : Type) {A : Arith R} : Prop := {
  arith_ring : ring_theory zero one add mul sub opp (@eq R)
}.

(** Exact integer arithmetic.  [Z] has the reciprocal square root of 1 only:
    the instance is meant for inputs with [K = 1] or an explicit scale. *)
#[export] Instance ArithZ : Arith Z := {|
  zero := 0; one := 1;
  add := Z.add; sub := Z.sub; mul := Z.mul; opp := Z.opp;
  gt0 := fun x => 0 <? x;
  rsqrt := fun _ => 1
|}.

(** ** Errors

    The exceptions of Python that the code raises or runs into.
    [KernelError] is the error of a kernel launch that Triton refuses: here,
    a kernel that uses as a pointer an argument that is [None]. *)

Inductive error : Type :=
| ValueError (msg : string)
| AssertionError (msg : string)
| IndexError
| ZeroDivisionError
| TypeError
| EinopsError
| KernelError.

Inductive result (A : Type) : Type :=
| Ok (a : A)
| Raise (e : error).
Arguments Ok {A} a.
Arguments Raise {A} e.

Definition bind {A B} (r : result A) (f : A -> result B) : result B :=
  match r with
  | Ok a => f a
  | Raise e => Raise e
  end.

Notation "x <- c1 ;; c2" := (bind c1 (fun x => c2))
  (at level 61, c1 at next level, right associativity).
Notation "c1 ;;; c2" := (bind c1 (fun _ => c2))
  (at level 61, right associativity).

Definition py_assert (b : bool) (msg : string) : result unit :=
  if b then Ok tt else Raise (AssertionError msg).

(** ** Triton's host-side helpers *)

(** [triton.next_power_of_2] *)
Definition next_power_of_2 (n : Z) : Z :=
  let n := n - 1 in
  let n := Z.lor n (Z.shiftr n 1) in
  let n := Z.lor n (Z.shiftr n 2) in
  let n := Z.lor n (Z.shiftr n 4) in
  let n := Z.lor n (Z.shiftr n 8) in
  let n := Z.lor n (Z.shiftr n 16) in
  let n := Z.lor n (Z.shiftr n 32) in
  n + 1.

(** [triton.cdiv(x, y) = (x + y - 1) // y] *)
Definition cdiv (x y : Z) : result Z :=
  if y =? 0 then Raise ZeroDivisionError else Ok ((x + y - 1) / y).

(** ** Blocks, loads and stores *)

Definition mem (R : Type) : Type := Z -> R.
Definition vec (R : Type) : Type := Z -> R.
Definition mat (R : Type) : Type := Z -> Z -> R.

Section Blocks.
Context {R : Type} {A : Arith R}.

Fixpoint sum_upto (n : nat) (f : Z -> R) : R :=
  match n with
  | O => zero
  | S m => add (sum_upto m f) (f (Z.of_nat m))
  end.

(** [tl.sum] of a block of [n] lanes (and [torch.sum] along a dimension of
    size [n]): the lanes are added from lane 0 on. *)
Definition tl_sum (n : Z) (f : vec R) : R := sum_upto (Z.to_nat n) f.

Definition upd (m : mem R) (a : Z) (x : R) : mem R :=
  fun a' => if a' =? a then x else m a'.

(** [tl.load(p + tl.arange(0, n), mask=mask, other=0)] *)
Definition tl_load (m : mem R) (p : Z) (mask : Z -> bool) : vec R :=
  fun i => if mask i then m (p + i) else zero.

(** A store through a block of [n] pointers, [p i] being the pointer of
    lane [i]: the lanes whose mask is set are written. *)
Fixpoint store_upto (n : nat) (m : mem R) (p : Z -> Z) (x : vec R) (mask : Z -> bool) : mem R :=
  match n with
  | O => m
  | S i =>
      let m' := store_upto i m p x mask in
      if mask (Z.of_nat i) then upd m' (p (Z.of_nat i)) (x (Z.of_nat i)) else m'
  end.

(** [tl.store(p + tl.arange(0, n), x, mask=mask)] *)
Definition tl_store (n : Z) (m : mem R) (p : Z) (x : vec R) (mask : Z -> bool) : mem R :=
  store_upto (Z.to_nat n) m (fun i => p + i) x mask.

(** The two-dimensional blocks of the state: [p a b] is the pointer of lane
    [(a, b)], for [a] below [n1] and [b] below [n2]. *)
Definition tl_load2 (m : mem R) (p : Z -> Z -> Z) (mask : Z -> Z -> bool) : mat R :=
  fun a b => if mask a b then m (p a b) else zero.

Fixpoint store2_upto (n1 : nat) (n2 : nat) (m : mem R) (p : Z -> Z -> Z) (x : mat R)
    (mask : Z -> Z -> bool) : mem R :=
  match n1 with
  | O => m
  | S i =>
      let a := Z.of_nat i in
      store_upto n2 (store2_upto i n2 m p x mask) (p a) (x a) (mask a)
  end.

Definition tl_store2 (n1 n2 : Z) (m : mem R) (p : Z -> Z -> Z) (x : mat R)
    (mask : Z -> Z -> bool) : mem R :=
  store2_upto (Z.to_nat n1) (Z.to_nat n2) m p x mask.

End Blocks.

(** ** The forward kernel *)

Section FwdKernel.
Context {R : Type} {A : Arith R}.

(** The buffers the forward kernel writes: [u], [o] and, when the final state
    is asked for, [ht]. *)
Record fwd_bufs : Type := {
  fb_u : mem R;
  fb_o : mem R;
  fb_ht : option (mem R)
}.

(** The variables of the loop over the timesteps. *)
Record fwd_loop : Type := {
  f_h : mat R;                      (* b_h, of shape [BV, BK] *)
  f_q : Z; f_k : Z; f_v : Z;      (* p_q, p_k, p_v *)
  f_pu : Z; f_beta : Z; f_po : Z; (* p_u, p_beta, p_o *)
  f_u : mem R; f_o : mem R            (* the contents of u and o *)
}.

Variables (q k v beta : mem R) (h0 : option (mem R)).
Variable cu_seqlens : option (list Z).
Variable scale : R.
Variables (T B H K V BK BV : Z).
Variable IS_BETA_HEADWISE : bool.

(** One iteration of [for _ in range(0, T)]. *)
Definition fwd_kernel_step (mask_k mask_v : Z -> bool) (st : fwd_loop) : fwd_loop :=
  let b_k := tl_load k (f_k st) mask_k in
  let b_v := tl_load v (f_v st) mask_v in
  let b_q := fun i => mul (tl_load q (f_q st) mask_k i) scale in
  let b_v_minus := fun j => tl_sum BK (fun i => mul (f_h st j i) (b_k i)) in
  let b_v := fun j => sub (b_v j) (b_v_minus j) in
  let b_beta :=
    if IS_BETA_HEADWISE then tl_load beta (f_beta st) mask_v
    else fun _ => beta (f_beta st) in
  let u' := tl_store BV (f_u st) (f_pu st) b_v mask_v in
  let b_v := fun j => mul (b_v j) (b_beta j) in
  let b_h := fun j i => add (f_h st j i) (mul (b_k i) (b_v j)) in
  let b_o := fun j => tl_sum BK (fun i => mul (b_h j i) (b_q i)) in
  let o' := tl_store BV (f_o st) (f_po st) b_o mask_v in
  {| f_h := b_h;
     f_q := f_q st + H * K;
     f_k := f_k st + H * K;
     f_v := f_v st + H * V;
     f_pu := f_pu st + H * V;
     f_beta := f_beta st + H * (if IS_BETA_HEADWISE then V else 1);
     f_po := f_po st + H * V;
     f_u := u';
     f_o := o' |}.

(** The sequence handled by program [i_n]: its first token, and its length,
    together with the length [all] of the flattened token dimension. *)
Definition seq_bounds (i_n : Z) : Z * Z * Z :=
  match cu_seqlens with
  | Some cu =>
      let bos := nth (Z.to_nat i_n) cu 0 in
      let eos := nth (Z.to_nat (i_n + 1)) cu 0 in
      (bos, T, eos - bos)
  | None => (i_n * T, B * T, T)
  end.

Definition fused_recurrent_delta_rule_fwd_kernel
    (pid : Z * Z * Z) (bufs : fwd_bufs) : fwd_bufs :=
  let '(i_v, i_k, i_nh) := pid in
  let i_n := i_nh / H in
  let i_h := i_nh mod H in
  let '(bos, all, T) := seq_bounds i_n in
  let p_q := (bos * H + i_h) * K + i_k * BK in
  let p_k := (bos * H + i_h) * K + i_k * BK in
  let p_v := (bos * H + i_h) * V + i_v * BV in
  let p_u := (bos * H + i_h) * V + i_v * BV in
  let p_beta :=
    if IS_BETA_HEADWISE then (bos * H + i_h) * V + i_v * BV
    else bos * H + i_h in
  let p_o := ((i_k * all + bos) * H + i_h) * V + i_v * BV in
  let mask_k := fun i => i_k * BK + i <? K in
  let mask_v := fun j => i_v * BV + j <? V in
  let mask_h := fun j i => mask_k i && mask_v j in
  let p_h := fun j i => i_nh * K * V + (i_k * BK + i) * V + (i_v * BV + j) in
  let b_h : mat R := fun _ _ => zero in
  let b_h :=
    match h0 with
    | Some h0 => fun j i => add (b_h j i) (tl_load2 h0 p_h mask_h j i)
    | None => b_h
    end in
  let st :=
    Nat.iter (Z.to_nat T) (fwd_kernel_step mask_k mask_v)
      {| f_h := b_h; f_q := p_q; f_k := p_k; f_v := p_v;
         f_pu := p_u; f_beta := p_beta; f_po := p_o;
         f_u := fb_u bufs; f_o := fb_o bufs |} in
  {| fb_u := f_u st;
     fb_o := f_o st;
     fb_ht :=
       match fb_ht bufs with
       | Some ht => Some (tl_store2 BV BK ht p_h (f_h st) mask_h)
       | None => None
       end |}.

End FwdKernel.

(** ** Tensors and kernel launches *)

Record tensor (R : Type) : Type := {
  shape : list Z;
  data : mem R;
  requires_grad : bool
}.
Arguments shape {R} t.
Arguments data {R} t.
Arguments requires_grad {R} t.

Definition program : Type := Z * Z * Z.

(** What a call does not determine: the contents of freshly allocated,
    uninitialised buffers ([junk i] for the [i]-th allocation of a function),
    and the order in which the programs of a grid take effect. *)
Record runtime (R : Type) : Type := {
  junk : nat -> mem R;
  schedule : list program -> list program
}.
Arguments junk {R} r.
Arguments schedule {R} r.

(** Every program of a grid runs, once. *)
Definition fair {R} (rt : runtime R) : Prop :=
  forall l, Permutation l (schedule rt l).

Definition arange (n : Z) : list Z := map Z.of_nat (seq 0 (Z.to_nat n)).

(** The program ids [(tl.program_id(0), tl.program_id(1), tl.program_id(2))]
    of a grid. *)
Definition grid_programs (grid : Z * Z * Z) : list program :=
  let '(n0, n1, n2) := grid in
  flat_map (fun i2 =>
    flat_map (fun i1 => map (fun i0 => (i0, i1, i2)) (arange n0)) (arange n1))
    (arange n2).

(** [kernel[grid](...)] *)
Definition launch {R S} (rt : runtime R) (grid : Z * Z * Z)
    (kernel : program -> S -> S) (s : S) : S :=
  fold_left (fun s pid => kernel pid s) (schedule rt (grid_programs grid)) s.

Definition numel (s : list Z) : Z := fold_right Z.mul 1 s.

Section TensorOps.
Context {R : Type} {A : Arith R}.

(** [torch.empty(shape)], [x.new_empty(shape)], [torch.empty_like(x)] *)
Definition new_empty (rt : runtime R) (site : nat) (s : list Z) : tensor R :=
  {| shape := s; data := junk rt site; requires_grad := false |}.

(** [x.shape[-1]] *)
Definition shape_last (s : list Z) : result Z :=
  match rev s with
  | d :: _ => Ok d
  | [] => Raise IndexError
  end.

(** [x.shape[0]] *)
Definition shape_first (s : list Z) : result Z :=
  match s with
  | d :: _ => Ok d
  | [] => Raise IndexError
  end.

(** [B, T, H, K = x.shape] *)
Definition unpack4 (s : list Z) : result (Z * Z * Z * Z) :=
  match s with
  | [a; b; c; d] => Ok (a, b, c, d)
  | _ => Raise (ValueError "not enough or too many values to unpack")
  end.

(** [x.squeeze(0)] *)
Definition squeeze0 (x : tensor R) : tensor R :=
  match shape x with
  | 1 :: s => {| shape := s; data := data x; requires_grad := requires_grad x |}
  | _ => x
  end.

(** [x.sum(0)] *)
Definition sum0 (x : tensor R) : tensor R :=
  match shape x with
  | n :: s =>
      {| shape := s;
         data := fun a => tl_sum n (fun i => data x (i * numel s + a));
         requires_grad := requires_grad x |}
  | [] => x
  end.

(** [torch.ones_like(x[..., 0])] *)
Definition ones_like_drop_last (x : tensor R) : result (tensor R) :=
  match rev (shape x) with
  | [] => Raise IndexError
  | d :: _ =>
      if d <=? 0 then Raise IndexError
      else Ok {| shape := removelast (shape x); data := fun _ => one;
                 requires_grad := false |}
  end.

Definition ndim (x : tensor R) : nat := List.length (shape x).

Definition len (cu : list Z) : Z := Z.of_nat (List.length cu).

End TensorOps.

(** ** The forward launcher *)

Section Fwd.
Context {R : Type} {A : Arith R}.
Variable rt : runtime R.

(** The launcher once the block sizes [BK] and [BV] are chosen. *)
Definition fwd_with_blocks (BK BV : Z)
    (q k v beta : tensor R) (scale : R) (initial_state : option (tensor R))
    (output_final_state : bool) (cu_seqlens : option (list Z))
    (B T H K V N : Z)
    : result (tensor R * tensor R * option (tensor R)) :=
  NK <- cdiv K BK ;;
  NV <- cdiv V BV ;;
  py_assert (NK =? 1) "NK > 1 is not supported yet" ;;;
  let o := new_empty rt 0 (NK :: shape v) in
  let final_state :=
    if output_final_state then Some (new_empty rt 1 [N; H; K; V]) else None in
  let grid := (NV, NK, N * H) in
  let u := new_empty rt 2 (shape v) in
  let bufs :=
    launch rt grid
      (fused_recurrent_delta_rule_fwd_kernel
         (data q) (data k) (data v) (data beta) (option_map data initial_state)
         cu_seqlens scale T B H K V BK BV
         (Nat.eqb (ndim beta) (ndim v)))
      {| fb_u := data u; fb_o := data o; fb_ht := option_map data final_state |} in
  let o := {| shape := shape o; data := fb_o bufs; requires_grad := false |} in
  let u := {| shape := shape u; data := fb_u bufs; requires_grad := false |} in
  let final_state :=
    match final_state, fb_ht bufs with
    | Some t, Some d => Some {| shape := shape t; data := d; requires_grad := false |}
    | _, _ => None
    end in
  let o := squeeze0 o in
  Ok (o, u, final_state).

Definition fused_recurrent_delta_rule_fwd
    (q k v beta : tensor R) (scale : R) (initial_state : option (tensor R))
    (output_final_state : bool) (cu_seqlens : option (list Z))
    : result (tensor R * tensor R * option (tensor R)) :=
  V <- shape_last (shape v) ;;
  BTHK <- unpack4 (shape k) ;;
  let '(B, T, H, K) := BTHK in
  let N := match cu_seqlens with None => B | Some cu => len cu - 1 end in
  let BK := next_power_of_2 K in
  let BV := Z.min (next_power_of_2 V) 8 in
  fwd_with_blocks BK BV q k v beta scale initial_state output_final_state
    cu_seqlens B T H K V N.

End Fwd.

(** ** The backward kernel *)

Section BwdKernel.
Context {R : Type} {A : Arith R}.

(** The buffers the backward kernel writes. *)
Record bwd_bufs : Type := {
  bb_dq : mem R;
  bb_dk : mem R;
  bb_dv : mem R;
  bb_db : mem R;
  bb_dh0 : option (mem R)
}.

(** The variables of the first loop, which walks the timesteps backwards. *)
Record bwd_loop1 : Type := {
  r_dh : mat R;                        (* b_dh, of shape [BK, BV] *)
  r_q : Z; r_k : Z; r_v : Z; r_do : Z; (* p_q, p_k, p_v, p_do *)
  r_pdk : Z; r_pdv : Z;                (* p_dk, p_dv *)
  r_pdbeta : Z; r_beta : Z;            (* p_dbeta, p_beta *)
  r_dk : mem R; r_dv : mem R; r_db : mem R
}.

(** The variables of the second loop, which walks them forwards again. *)
Record bwd_loop2 : Type := {
  s_h : mat R;                         (* b_h, of shape [BK, BV] *)
  s_k : Z; s_v : Z; s_do : Z;          (* p_k, p_v, p_do *)
  s_pdq : Z; s_pdk : Z; s_pdv : Z;     (* p_dq, p_dk, p_dv *)
  s_beta : Z;                          (* p_beta *)
  s_dq : mem R; s_dk : mem R
}.

Variables (q k v beta : mem R) (h0 : option (mem R)) (dht : option (mem R)).
Variable do : mem R.
Variable cu_seqlens : option (list Z).
Variable scale : R.
Variables (B T H K V BK BV NK : Z).
Variable IS_BETA_HEADWISE : bool.

(** One iteration of the first [for _ in range(T)]. *)
Definition bwd_kernel_step1 (mask_k mask_v : Z -> bool) (st : bwd_loop1) : bwd_loop1 :=
  let b_q := fun i => mul (tl_load q (r_q st) mask_k i) scale in
  let b_k := tl_load k (r_k st) mask_k in
  let b_v := tl_load v (r_v st) mask_v in
  let b_do := tl_load do (r_do st) mask_v in
  let b_beta :=
    if IS_BETA_HEADWISE then tl_load beta (r_beta st) mask_v
    else fun _ => beta (r_beta st) in
  let b_dh := fun i j => add (r_dh st i j) (mul (b_q i) (b_do j)) in
  let b_dk := fun i => tl_sum BV (fun j => mul (b_dh i j) (mul (b_v j) (b_beta j))) in
  let b_dv := fun j => tl_sum BK (fun i => mul (b_dh i j) (b_k i)) in
  let b_db := fun j => mul (b_dv j) (b_v j) in
  let b_dv := fun j => mul (b_dv j) (b_beta j) in
  let dk' := tl_store BK (r_dk st) (r_pdk st) b_dk mask_k in
  let dv' := tl_store BV (r_dv st) (r_pdv st) b_dv mask_v in
  let db' :=
    if IS_BETA_HEADWISE then tl_store BV (r_db st) (r_pdbeta st) b_db mask_v
    else upd (r_db st) (r_pdbeta st) (tl_sum BV b_db) in
  let b_dh := fun i j => sub (b_dh i j) (mul (b_k i) (b_dv j)) in
  {| r_dh := b_dh;
     r_q := r_q st - H * K;
     r_k := r_k st - H * K;
     r_v := r_v st - H * V;
     r_do := r_do st - H * V;
     r_pdk := r_pdk st - H * K;
     r_pdv := r_pdv st - H * V;
     r_pdbeta := r_pdbeta st - H * (if IS_BETA_HEADWISE then V else 1);
     r_beta := r_beta st - H * (if IS_BETA_HEADWISE then V else 1);
     r_dk := dk'; r_dv := dv'; r_db := db' |}.

(** One iteration of the second [for _ in range(0, T)]; [dv] is only read. *)
Definition bwd_kernel_step2 (dv : mem R) (mask_k mask_v : Z -> bool)
    (st : bwd_loop2) : bwd_loop2 :=
  let b_dk := tl_load (s_dk st) (s_pdk st) mask_k in
  let b_dv := tl_load dv (s_pdv st) mask_v in
  let b_dk := fun i => sub (b_dk i) (tl_sum BV (fun j => mul (b_dv j) (s_h st i j))) in
  let dk' := tl_store BK (s_dk st) (s_pdk st) b_dk mask_k in
  let b_k := tl_load k (s_k st) mask_k in
  let b_v := tl_load v (s_v st) mask_v in
  let b_do := tl_load do (s_do st) mask_v in
  let b_beta :=
    if IS_BETA_HEADWISE then tl_load beta (s_beta st) mask_v
    else fun _ => beta (s_beta st) in
  let b_v := fun j => mul (b_v j) (b_beta j) in
  let b_h := fun i j => add (s_h st i j) (mul (b_k i) (b_v j)) in
  let d_q := fun i => mul (tl_sum BV (fun j => mul (b_h i j) (b_do j))) scale in
  let dq' := tl_store BK (s_dq st) (s_pdq st) d_q mask_k in
  {| s_h := b_h;
     s_k := s_k st + H * K;
     s_v := s_v st + H * V;
     s_do := s_do st + H * V;
     s_pdq := s_pdq st + H * K;
     s_pdk := s_pdk st + H * K;
     s_pdv := s_pdv st + H * V;
     s_beta := s_beta st + H * (if IS_BETA_HEADWISE then V else 1);
     s_dq := dq'; s_dk := dk' |}.

(** The body of the kernel, run by one program.  [USE_INITIAL_STATE] is
    [h0 is not None] and [USE_FINAL_STATE_GRADIENT] is [dht is not None].
    Under [USE_INITIAL_STATE] the body stores through [dh0]; the kernel below
    is refused when there is no such buffer, so that the body only runs with
    [dh0] present whenever [h0] is. *)
Definition bwd_kernel_program
    (pid : program) (bufs : bwd_bufs) : bwd_bufs :=
  let '(i_v, i_k, i_nh) := pid in
  let i_n := i_nh / H in
  let i_h := i_nh mod H in
  let '(bos, all, T) := seq_bounds cu_seqlens T B i_n in
  let mask_k := fun i => i_k * BK + i <? K in
  let mask_v := fun j => i_v * BV + j <? V in
  let p_q := (bos * H + i_h) * K + i_k * BK + (T - 1) * H * K in
  let p_k := (bos * H + i_h) * K + i_k * BK + (T - 1) * H * K in
  let p_v := (bos * H + i_h) * V + i_v * BV + (T - 1) * H * V in
  let p_do := (bos * H + i_h) * V + i_v * BV + (T - 1) * H * V in
  let p_dk := ((i_v * all + bos) * H + i_h) * K + i_k * BK + (T - 1) * H * K in
  let p_dv := ((i_k * all + bos) * H + i_h) * V + i_v * BV + (T - 1) * H * V in
  let p_beta :=
    if IS_BETA_HEADWISE then (bos + T - 1) * H * V + i_h * V + i_v * BV
    else (bos + T - 1) * H + i_h in
  let p_dbeta :=
    if IS_BETA_HEADWISE then ((i_v * NK + i_k) * all + bos + T - 1) * H * V + i_h * V
    else (i_v * all + bos + T - 1) * H + i_h in
  let mask_h := fun i j => mask_k i && mask_v j in
  let p_h := fun i j => i_nh * K * V + (i_k * BK + i) * V + (i_v * BV + j) in
  let b_dh : mat R := fun _ _ => zero in
  let b_dh :=
    match dht with
    | Some dht => fun i j => add (b_dh i j) (tl_load2 dht p_h mask_h i j)
    | None => b_dh
    end in
  let st1 :=
    Nat.iter (Z.to_nat T) (bwd_kernel_step1 mask_k mask_v)
      {| r_dh := b_dh; r_q := p_q; r_k := p_k; r_v := p_v; r_do := p_do;
         r_pdk := p_dk; r_pdv := p_dv; r_pdbeta := p_dbeta; r_beta := p_beta;
         r_dk := bb_dk bufs; r_dv := bb_dv bufs; r_db := bb_db bufs |} in
  let dh0' :=
    match h0, bb_dh0 bufs with
    | Some _, Some dh0 => Some (tl_store2 BK BV dh0 p_h (r_dh st1) mask_h)
    | Some _, None => None      (* not reached: such a launch is refused *)
    | None, dh0 => dh0
    end in
  let b_h : mat R := fun _ _ => zero in
  let p_k := (bos * H + i_h) * K + i_k * BK in
  let p_v := (bos * H + i_h) * V + i_v * BV in
  let p_beta :=
    if IS_BETA_HEADWISE then (bos * H + i_h) * V + i_v * BV
    else bos * H + i_h in
  let p_do := (bos * H + i_h) * V + i_v * BV in
  let p_dq := ((i_v * all + bos) * H + i_h) * K + i_k * BK in
  let p_dk := ((i_v * all + bos) * H + i_h) * K + i_k * BK in
  let p_dv := ((i_k * all + bos) * H + i_h) * V + i_v * BV in
  let b_h :=
    match h0 with
    | Some h0 => fun i j => add (b_h i j) (tl_load2 h0 p_h mask_h i j)
    | None => b_h
    end in
  let st2 :=
    Nat.iter (Z.to_nat T) (bwd_kernel_step2 (r_dv st1) mask_k mask_v)
      {| s_h := b_h; s_k := p_k; s_v := p_v; s_do := p_do;
         s_pdq := p_dq; s_pdk := p_dk; s_pdv := p_dv; s_beta := p_beta;
         s_dq := bb_dq bufs; s_dk := r_dk st1 |} in
  {| bb_dq := s_dq st2;
     bb_dk := s_dk st2;
     bb_dv := r_dv st1;
     bb_db := r_db st1;
     bb_dh0 := dh0' |}.

(** The kernel as it is launched with the argument [dh0].  The heuristic of
    line 102 sets [USE_INITIAL_STATE] from [h0] alone, and lines 200-202 then
    compute [dh0 + offsets] and store through it: with [h0] given and
    [dh0 = None] there is no pointer to add to, and Triton raises an error
    instead of running the programs (the class of the error is Triton's, it
    is [KernelError] here).  Otherwise the programs of the grid run the
    body. *)
Definition fused_recurrent_delta_rule_bwd_kernel (dh0 : option (mem R))
    : result (program -> bwd_bufs -> bwd_bufs) :=
  match h0, dh0 with
  | Some _, None => Raise KernelError
  | _, _ => Ok bwd_kernel_program
  end.

End BwdKernel.

(** ** The backward launcher *)

Section Bwd.
Context {R : Type} {A : Arith R}.
Variable rt : runtime R.

(** [x.sum((0, 1))] *)
Definition sum01 (x : tensor R) : tensor R :=
  match shape x with
  | n0 :: n1 :: s =>
      {| shape := s;
         data := fun a =>
           tl_sum n0 (fun i => tl_sum n1 (fun j => data x ((i * n1 + j) * numel s + a)));
         requires_grad := requires_grad x |}
  | _ => x
  end.

Definition with_data (t : tensor R) (d : mem R) : tensor R :=
  {| shape := shape t; data := d; requires_grad := requires_grad t |}.

(** The launcher once the block sizes [BK] and [BV] are chosen. *)
Definition bwd_with_blocks (BK BV : Z)
    (q k v beta : tensor R) (dht : option (tensor R)) (do : tensor R) (scale : R)
    (initial_state : option (tensor R)) (cu_seqlens : option (list Z))
    (B T H K V N : Z)
    : result (tensor R * tensor R * tensor R * tensor R * option (tensor R)) :=
  NK <- cdiv K BK ;;
  NV <- cdiv V BV ;;
  py_assert (NK =? 1) "NK > 1 is not supported yet" ;;;
  let beta_vector := Nat.eqb (ndim beta) (ndim v) in
  let dq := new_empty rt 0 (NV :: shape q) in
  let dk := new_empty rt 1 (NV :: shape k) in
  let dv := new_empty rt 2 (NK :: shape v) in
  let db :=
    if beta_vector then new_empty rt 3 [NV; NK; B; T; H; V]
    else new_empty rt 3 [NV; B; T; H] in
  let grid := (NV, NK, N * H) in
  let dh0 :=
    match initial_state with
    | Some h0 =>
        if requires_grad h0 then Some (new_empty rt 4 (shape h0)) else None
    | None => None
    end in
  kernel <-
    fused_recurrent_delta_rule_bwd_kernel
      (data q) (data k) (data v) (data beta) (option_map data initial_state)
      (option_map data dht) (data do) cu_seqlens scale
      B T H K V BK BV NK beta_vector (option_map data dh0) ;;
  let bufs :=
    launch rt grid kernel
      {| bb_dq := data dq; bb_dk := data dk; bb_dv := data dv; bb_db := data db;
         bb_dh0 := option_map data dh0 |} in
  let dq := sum0 (with_data dq (bb_dq bufs)) in
  let dk := sum0 (with_data dk (bb_dk bufs)) in
  let dv := sum0 (with_data dv (bb_dv bufs)) in
  let db :=
    if beta_vector then sum01 (with_data db (bb_db bufs))
    else sum0 (with_data db (bb_db bufs)) in
  let dh0 :=
    match dh0, bb_dh0 bufs with
    | Some t, Some d => Some (with_data t d)
    | _, _ => None
    end in
  Ok (dq, dk, dv, db, dh0).

Definition fused_recurrent_delta_rule_bwd
    (q k v beta : tensor R) (dht : option (tensor R)) (do : tensor R) (scale : R)
    (initial_state : option (tensor R)) (cu_seqlens : option (list Z))
    : result (tensor R * tensor R * tensor R * tensor R * option (tensor R)) :=
  V <- shape_last (shape v) ;;
  BTHK <- unpack4 (shape k) ;;
  let '(B, T, H, K) := BTHK in
  let N := match cu_seqlens with None => B | Some cu => len cu - 1 end in
  let BK := next_power_of_2 K in
  let BV := Z.min (next_power_of_2 V) 32 in
  bwd_with_blocks BK BV q k v beta dht do scale initial_state cu_seqlens
    B T H K V N.

End Bwd.

(** ** The autograd function and the public entry point *)

Section Public.
Context {R : Type} {A : Arith R}.
Variable rt : runtime R.

(** [fla.modules.l2norm] is not part of these sources: its two functions are
    parameters of the embedding. *)
Variable l2norm_fwd : tensor R -> tensor R * tensor R.
Variable l2norm_bwd : tensor R -> tensor R -> tensor R -> tensor R.

(** What [forward] leaves in [ctx]. *)
Record context : Type := {
  saved_q : tensor R;
  saved_q_rstd : option (tensor R);
  saved_k : tensor R;
  saved_k_rstd : option (tensor R);
  saved_u : tensor R;
  saved_beta : tensor R;
  saved_initial_state : option (tensor R);
  ctx_scale : R;
  ctx_cu_seqlens : option (list Z);
  ctx_use_qk_l2norm_in_kernel : bool
}.

Definition FusedRecurrentFunction_forward
    (q k v beta : tensor R) (scale : R) (initial_state : option (tensor R))
    (output_final_state use_qk_l2norm_in_kernel : bool)
    (cu_seqlens : option (list Z))
    : result (context * (tensor R * option (tensor R))) :=
  let '(q, q_rstd, k, k_rstd) :=
    if use_qk_l2norm_in_kernel then
      let '(q, q_rstd) := l2norm_fwd q in
      let '(k, k_rstd) := l2norm_fwd k in
      (q, Some q_rstd, k, Some k_rstd)
    else (q, None, k, None) in
  r <- fused_recurrent_delta_rule_fwd rt q k v beta scale initial_state
         output_final_state cu_seqlens ;;
  let '(o, u, final_state) := r in
  Ok ({| saved_q := q; saved_q_rstd := q_rstd;
         saved_k := k; saved_k_rstd := k_rstd;
         saved_u := u; saved_beta := beta;
         saved_initial_state := initial_state;
         ctx_scale := scale; ctx_cu_seqlens := cu_seqlens;
         ctx_use_qk_l2norm_in_kernel := use_qk_l2norm_in_kernel |},
      (o, final_state)).


Definition fused_recurrent_delta_rule
    (q k v : tensor R) (beta : option (tensor R)) (scale : option R)
    (initial_state : option (tensor R))
    (output_final_state use_qk_l2norm_in_kernel : bool)
    (cu_seqlens : option (list Z))
    : result (tensor R * option (tensor R)) :=
  match cu_seqlens with
  | Some cu =>
      b <- shape_first (shape q) ;;
      if negb (b =? 1) then
        Raise (ValueError "The batch size is expected to be 1 when using `cu_seqlens`.")
      else
        match initial_state with
        | Some h0 =>
            n <- shape_first (shape h0) ;;
            if negb (n =? len cu - 1) then
              Raise (ValueError
                "The number of initial states is expected to be equal to the number of input sequences")
            else Ok tt
        | None => Ok tt
        end
  | None => Ok tt
  end ;;;
  scale <-
    match scale with
    | None =>
        K <- shape_last (shape k) ;;
        if K =? 0 then Raise ZeroDivisionError else Ok (rsqrt K)
    | Some scale => py_assert (gt0 scale) "scale must be positive" ;;; Ok scale
    end ;;
  beta <-
    match beta with
    | None => ones_like_drop_last q
    | Some beta => Ok beta
    end ;;
  r <- FusedRecurrentFunction_forward q k v beta scale initial_state
         output_final_state use_qk_l2norm_in_kernel cu_seqlens ;;
  Ok (snd r).

End Public.

(** * The reference recurrences

    The delta rule on one sequence and one head, written on vectors indexed
    by the features: queries and keys of length [K], values, betas and output
    gradients of length [V], and states of shape [K, V]. *)

Record head (R : Type) : Type := {
  hd_K : Z;
  hd_V : Z;
  hd_T : nat;                  (* the number of timesteps *)
  hd_scale : R;
  hd_q : nat -> vec R;
  hd_k : nat -> vec R;
  hd_v : nat -> vec R;         (* the values; for backward, the saved residuals *)
  hd_beta : nat -> vec R;      (* in scalar mode, the same for all features *)
  hd_do : nat -> vec R;        (* the gradient of the outputs *)
  hd_h0 : mat R;               (* the initial state, or zero *)
  hd_dht : mat R               (* the gradient of the final state, or zero *)
}.
Arguments hd_K {R} h.
Arguments hd_V {R} h.
Arguments hd_T {R} h.
Arguments hd_scale {R} h.
Arguments hd_q {R} h.
Arguments hd_k {R} h.
Arguments hd_v {R} h.
Arguments hd_beta {R} h.
Arguments hd_do {R} h.
Arguments hd_h0 {R} h.
Arguments hd_dht {R} h.

Section Reference.
Context {R : Type} {A : Arith R}.
Variable d : head R.

(** [delta_t = v_t - H . k_t] *)
Definition ref_delta (Hm : mat R) (t : nat) : vec R :=
  fun j => sub (hd_v d t j) (tl_sum (hd_K d) (fun i => mul (Hm i j) (hd_k d t i))).

(** The state before step [t]: [H <- H + k_t (x) (delta_t * beta_t)]. *)
Fixpoint ref_state (t : nat) : mat R :=
  match t with
  | O => hd_h0 d
  | S t' =>
      fun i j =>
        add (ref_state t' i j)
            (mul (hd_k d t' i) (mul (ref_delta (ref_state t') t' j) (hd_beta d t' j)))
  end.

Definition ref_u (t : nat) : vec R := ref_delta (ref_state t) t.

(** [o_t = H . (q_t * scale)], with the state after step [t]. *)
Definition ref_o (t : nat) : vec R :=
  fun j =>
    tl_sum (hd_K d) (fun i => mul (ref_state (S t) i j) (mul (hd_q d t i) (hd_scale d))).

(** Pass A of the backward reference.  [G += q_t * scale (x) do_t] *)
Definition refA_acc (G : mat R) (t : nat) : mat R :=
  fun i j => add (G i j) (mul (mul (hd_q d t i) (hd_scale d)) (hd_do d t j)).

(** [dv_t' = G^T . k_t] *)
Definition refA_dvp (G : mat R) (t : nat) : vec R :=
  fun j => tl_sum (hd_K d) (fun i => mul (G i j) (hd_k d t i)).

(** [dv_t = dv_t' * beta_t] *)
Definition refA_dv (G : mat R) (t : nat) : vec R :=
  fun j => mul (refA_dvp G t j) (hd_beta d t j).

(** [G -= k_t (x) dv_t] *)
Definition refA_undo (G : mat R) (t : nat) : mat R :=
  fun i j => sub (G i j) (mul (hd_k d t i) (refA_dv G t j)).

(** The accumulator after the [n] last timesteps [T-1, ..., T-n]. *)
Fixpoint refA_G (n : nat) : mat R :=
  match n with
  | O => hd_dht d
  | S n' => let t := (hd_T d - 1 - n')%nat in refA_undo (refA_acc (refA_G n') t) t
  end.

(** The accumulator at timestep [t], once its outer product is added. *)
Definition ref_G (t : nat) : mat R := refA_acc (refA_G (hd_T d - 1 - t)) t.

(** [dk_t = G . (delta_t * beta_t)], before the correction of pass B. *)
Definition ref_dkA (t : nat) : vec R :=
  fun i => tl_sum (hd_V d) (fun j => mul (ref_G t i j) (mul (hd_v d t j) (hd_beta d t j))).

Definition ref_dv (t : nat) : vec R := refA_dv (ref_G t) t.

(** [dbeta_t = dv_t' * delta_t], and its sum in scalar mode. *)
Definition ref_dbeta (t : nat) : vec R :=
  fun j => mul (refA_dvp (ref_G t) t j) (hd_v d t j).

Definition ref_dbeta_scalar (t : nat) : R := tl_sum (hd_V d) (ref_dbeta t).

(** [dh0 = G] after the loop. *)
Definition ref_dh0 : mat R := refA_G (hd_T d).

(** Pass B.  The state rebuilt from the saved residuals. *)
Fixpoint refB_state (t : nat) : mat R :=
  match t with
  | O => hd_h0 d
  | S t' =>
      fun i j =>
        add (refB_state t' i j) (mul (hd_k d t' i) (mul (hd_v d t' j) (hd_beta d t' j)))
  end.

(** [dk_t -= H^T . dv_t], with the state before step [t]. *)
Definition ref_dk (t : nat) : vec R :=
  fun i =>
    sub (ref_dkA t i) (tl_sum (hd_V d) (fun j => mul (refB_state t i j) (ref_dv t j))).

(** [dq_t = (H . do_t) * scale], with the state after step [t]. *)
Definition ref_dq (t : nat) : vec R :=
  fun i =>
    mul (tl_sum (hd_V d) (fun j => mul (refB_state (S t) i j) (hd_do d t j))) (hd_scale d).

End Reference.

(** ** Tensors seen per sequence and head *)

Section Views.
Context {R : Type} {A : Arith R}.

(** Row [t] of a tensor of shape [*, T, H, D], for the sequence that starts
    at token [bos] and the head [h]. *)
Definition rows (d : mem R) (bos H D h : Z) : nat -> vec R :=
  fun t i => d (((bos + Z.of_nat t) * H + h) * D + i).

(** The same for a tensor of shape [*, T, H], each entry being used for all
    the features. *)
Definition rows_scalar (d : mem R) (bos H h : Z) : nat -> vec R :=
  fun t _ => d ((bos + Z.of_nat t) * H + h).

(** The betas of a sequence and a head, in either mode. *)
Definition beta_rows (headwise : bool) (d : mem R) (bos H V h : Z) : nat -> vec R :=
  if headwise then rows d bos H V h else rows_scalar d bos H h.

(** Entry [nh] of a tensor of shape [N, H, K, V], zero when the tensor is
    absent. *)
Definition state_of (d : option (mem R)) (K V nh : Z) : mat R :=
  match d with
  | Some d => fun i j => d (nh * K * V + i * V + j)
  | None => fun _ _ => zero
  end.

(** First token and length of sequence [n]. *)
Definition seq_bos (cu_seqlens : option (list Z)) (T n : Z) : Z :=
  match cu_seqlens with
  | Some cu => nth (Z.to_nat n) cu 0
  | None => n * T
  end.

Definition seq_len (cu_seqlens : option (list Z)) (T n : Z) : Z :=
  match cu_seqlens with
  | Some cu => nth (Z.to_nat (n + 1)) cu 0 - nth (Z.to_nat n) cu 0
  | None => T
  end.

(** The offsets of a well-formed [cu_seqlens] do not decrease, and stay among
    the [T] tokens. *)
Definition cu_ok (cu_seqlens : option (list Z)) (T : Z) : Prop :=
  match cu_seqlens with
  | Some cu =>
      (forall n, 0 <= n < len cu - 1 ->
         0 <= nth (Z.to_nat n) cu 0 <= nth (Z.to_nat (n + 1)) cu 0) /\
      (forall n, 0 <= n < len cu -> nth (Z.to_nat n) cu 0 <= T)
  | None => True
  end.

(** Sequence [n] and head [h] of the tensors of a call. *)
Definition head_of (q k v beta do : mem R) (h0 dht : option (mem R))
    (cu_seqlens : option (list Z)) (scale : R) (T H K V : Z) (headwise : bool)
    (n h : Z) : head R :=
  let bos := seq_bos cu_seqlens T n in
  {| hd_K := K; hd_V := V;
     hd_T := Z.to_nat (seq_len cu_seqlens T n);
     hd_scale := scale;
     hd_q := rows q bos H K h;
     hd_k := rows k bos H K h;
     hd_v := rows v bos H V h;
     hd_beta := beta_rows headwise beta bos H V h;
     hd_do := rows do bos H V h;
     hd_h0 := state_of h0 K V (n * H + h);
     hd_dht := state_of dht K V (n * H + h) |}.

End Views.

(** * The loops, iteration by iteration

    The values a program holds in its blocks at each iteration, as functions
    of the iteration number and of the variables at the entry of the loop.
    No law of arithmetic is involved. *)

(** What the loops of a program read besides their own variables. *)
Record blk_args (R : Type) : Type := {
  ba_q : mem R; ba_k : mem R; ba_v : mem R; ba_beta : mem R; ba_do : mem R;
  ba_scale : R;
  ba_H : Z; ba_K : Z; ba_V : Z; ba_BK : Z; ba_BV : Z;
  ba_headwise : bool;
  ba_mask_k : Z -> bool;
  ba_mask_v : Z -> bool
}.
Arguments ba_q {R} b.
Arguments ba_k {R} b.
Arguments ba_v {R} b.
Arguments ba_beta {R} b.
Arguments ba_do {R} b.
Arguments ba_scale {R} b.
Arguments ba_H {R} b.
Arguments ba_K {R} b.
Arguments ba_V {R} b.
Arguments ba_BK {R} b.
Arguments ba_BV {R} b.
Arguments ba_headwise {R} b.
Arguments ba_mask_k {R} b.
Arguments ba_mask_v {R} b.

Section ForwardBlocks.
Context {R : Type} {A : Arith R}.
Variable c : blk_args R.
Variable init : fwd_loop (R := R).

Definition row_k : Z := ba_H c * ba_K c.
Definition row_v : Z := ba_H c * ba_V c.
Definition row_beta : Z := ba_H c * (if ba_headwise c then ba_V c else 1).

Definition blk_k (t : nat) : vec R :=
  tl_load (ba_k c) (f_k init + Z.of_nat t * row_k) (ba_mask_k c).
Definition blk_v (t : nat) : vec R :=
  tl_load (ba_v c) (f_v init + Z.of_nat t * row_v) (ba_mask_v c).
Definition blk_q (t : nat) : vec R :=
  fun i =>
    mul (tl_load (ba_q c) (f_q init + Z.of_nat t * row_k) (ba_mask_k c) i) (ba_scale c).
Definition blk_beta (t : nat) : vec R :=
  if ba_headwise c
  then tl_load (ba_beta c) (f_beta init + Z.of_nat t * row_beta) (ba_mask_v c)
  else fun _ => ba_beta c (f_beta init + Z.of_nat t * row_beta).

Definition blk_delta (h : mat R) (t : nat) : vec R :=
  fun j => sub (blk_v t j) (tl_sum (ba_BK c) (fun i => mul (h j i) (blk_k t i))).

Fixpoint blk_h (t : nat) : mat R :=
  match t with
  | O => f_h init
  | S t' =>
      fun j i =>
        add (blk_h t' j i)
            (mul (blk_k t' i) (mul (blk_delta (blk_h t') t' j) (blk_beta t' j)))
  end.

Definition blk_u (t : nat) : vec R := blk_delta (blk_h t) t.

Definition blk_o (t : nat) : vec R :=
  fun j => tl_sum (ba_BK c) (fun i => mul (blk_h (S t) j i) (blk_q t i)).

End ForwardBlocks.

Section BackwardBlocks.
Context {R : Type} {A : Arith R}.
Variable c : blk_args R.

(** The first loop: iteration [n] reads [n] rows before the entry pointers. *)
Variable init1 : bwd_loop1 (R := R).

Definition blkA_q (n : nat) : vec R :=
  fun i =>
    mul (tl_load (ba_q c) (r_q init1 - Z.of_nat n * row_k c) (ba_mask_k c) i) (ba_scale c).
Definition blkA_k (n : nat) : vec R :=
  tl_load (ba_k c) (r_k init1 - Z.of_nat n * row_k c) (ba_mask_k c).
Definition blkA_v (n : nat) : vec R :=
  tl_load (ba_v c) (r_v init1 - Z.of_nat n * row_v c) (ba_mask_v c).
Definition blkA_do (n : nat) : vec R :=
  tl_load (ba_do c) (r_do init1 - Z.of_nat n * row_v c) (ba_mask_v c).
Definition blkA_beta (n : nat) : vec R :=
  if ba_headwise c
  then tl_load (ba_beta c) (r_beta init1 - Z.of_nat n * row_beta c) (ba_mask_v c)
  else fun _ => ba_beta c (r_beta init1 - Z.of_nat n * row_beta c).

Definition blkA_acc (g : mat R) (n : nat) : mat R :=
  fun i j => add (g i j) (mul (blkA_q n i) (blkA_do n j)).
Definition blkA_dk (g : mat R) (n : nat) : vec R :=
  fun i =>
    tl_sum (ba_BV c) (fun j => mul (blkA_acc g n i j) (mul (blkA_v n j) (blkA_beta n j))).
Definition blkA_dvp (g : mat R) (n : nat) : vec R :=
  fun j => tl_sum (ba_BK c) (fun i => mul (blkA_acc g n i j) (blkA_k n i)).
Definition blkA_db (g : mat R) (n : nat) : vec R :=
  fun j => mul (blkA_dvp g n j) (blkA_v n j).
Definition blkA_dv (g : mat R) (n : nat) : vec R :=
  fun j => mul (blkA_dvp g n j) (blkA_beta n j).

Fixpoint blkA_dh (n : nat) : mat R :=
  match n with
  | O => r_dh init1
  | S n' =>
      fun i j =>
        sub (blkA_acc (blkA_dh n') n' i j)
            (mul (blkA_k n' i) (blkA_dv (blkA_dh n') n' j))
  end.

(** What iteration [n] stores. *)
Definition blkA_dk_at (n : nat) : vec R := blkA_dk (blkA_dh n) n.
Definition blkA_dv_at (n : nat) : vec R := blkA_dv (blkA_dh n) n.
Definition blkA_db_at (n : nat) : vec R := blkA_db (blkA_dh n) n.
Definition blkA_dbsum_at (n : nat) : vec R := fun _ => tl_sum (ba_BV c) (blkA_db_at n).

(** The second loop, which reads back [dk] and [dv]. *)
Variable init2 : bwd_loop2 (R := R).
Variable dv : mem R.

Definition blkB_k (n : nat) : vec R :=
  tl_load (ba_k c) (s_k init2 + Z.of_nat n * row_k c) (ba_mask_k c).
Definition blkB_v (n : nat) : vec R :=
  tl_load (ba_v c) (s_v init2 + Z.of_nat n * row_v c) (ba_mask_v c).
Definition blkB_do (n : nat) : vec R :=
  tl_load (ba_do c) (s_do init2 + Z.of_nat n * row_v c) (ba_mask_v c).
Definition blkB_beta (n : nat) : vec R :=
  if ba_headwise c
  then tl_load (ba_beta c) (s_beta init2 + Z.of_nat n * row_beta c) (ba_mask_v c)
  else fun _ => ba_beta c (s_beta init2 + Z.of_nat n * row_beta c).

Fixpoint blkB_h (n : nat) : mat R :=
  match n with
  | O => s_h init2
  | S n' =>
      fun i j =>
        add (blkB_h n' i j)
            (mul (blkB_k n' i) (mul (blkB_v n' j) (blkB_beta n' j)))
  end.

Definition blkB_dk (n : nat) : vec R :=
  fun i =>
    sub (tl_load (s_dk init2) (s_pdk init2 + Z.of_nat n * row_k c) (ba_mask_k c) i)
        (tl_sum (ba_BV c) (fun j =>
           mul (tl_load dv (s_pdv init2 + Z.of_nat n * row_v c) (ba_mask_v c) j)
               (blkB_h n i j))).

Definition blkB_dq (n : nat) : vec R :=
  fun i =>
    mul (tl_sum (ba_BV c) (fun j => mul (blkB_h (S n) i j) (blkB_do n j))) (ba_scale c).

(** The steps of the three loops, on the arguments gathered in [c]. *)
Definition fwd_step_of : fwd_loop -> fwd_loop :=
  fwd_kernel_step (ba_q c) (ba_k c) (ba_v c) (ba_beta c) (ba_scale c)
    (ba_H c) (ba_K c) (ba_V c) (ba_BK c) (ba_BV c) (ba_headwise c)
    (ba_mask_k c) (ba_mask_v c).

Definition bwd_step1_of : bwd_loop1 -> bwd_loop1 :=
  bwd_kernel_step1 (ba_q c) (ba_k c) (ba_v c) (ba_beta c) (ba_do c) (ba_scale c)
    (ba_H c) (ba_K c) (ba_V c) (ba_BK c) (ba_BV c) (ba_headwise c)
    (ba_mask_k c) (ba_mask_v c).

Definition bwd_step2_of : bwd_loop2 -> bwd_loop2 :=
  bwd_kernel_step2 (ba_k c) (ba_v c) (ba_beta c) (ba_do c) (ba_scale c)
    (ba_H c) (ba_K c) (ba_V c) (ba_BK c) (ba_BV c) (ba_headwise c)
    dv (ba_mask_k c) (ba_mask_v c).

End BackwardBlocks.

(** [stored n p0 stride len mask val m0 m]: [m] is [m0] after [n] masked
    stores of [len] lanes, the [t]-th at [p0 + t * stride] with the values
    [val t]. *)
Definition stored {R} (n : nat) (p0 stride len : Z) (mask : Z -> bool)
    (val : nat -> vec R) (m0 m : mem R) : Prop :=
  (forall t j, (t < n)%nat -> 0 <= j < len -> mask j = true ->
     m (p0 + Z.of_nat t * stride + j) = val t j) /\
  (forall a,
     (forall t j, (t < n)%nat -> 0 <= j < len -> mask j = true ->
        a <> p0 + Z.of_nat t * stride + j) ->
     m a = m0 a).


(** * One program of the grid

    The variables of program [(i_v, 0, i_nh)] at the entry of its loops. *)

Section Program.
Context {R : Type} {A : Arith R}.
Variables (q k v beta do : mem R) (h0 dht : option (mem R)).
Variable cu_seqlens : option (list Z).
Variable scale : R.
Variables (T B H K V BK BV NK : Z) (IS_BETA_HEADWISE : bool).
Variables (i_v i_nh : Z).

Definition prog_args : blk_args R :=
  {| ba_q := q; ba_k := k; ba_v := v; ba_beta := beta; ba_do := do;
     ba_scale := scale;
     ba_H := H; ba_K := K; ba_V := V; ba_BK := BK; ba_BV := BV;
     ba_headwise := IS_BETA_HEADWISE;
     ba_mask_k := fun i => 0 * BK + i <? K;
     ba_mask_v := fun j => i_v * BV + j <? V |}.

Definition prog_bos : Z := seq_bos cu_seqlens T (i_nh / H).
Definition prog_len : Z := seq_len cu_seqlens T (i_nh / H).
Definition prog_all : Z := match cu_seqlens with Some _ => T | None => B * T end.

(** The pointers of the blocks of a state of shape [N, H, K, V], and their
    mask, lane [i] running over the keys and lane [j] over the values. *)
Definition state_ptr (i j : Z) : Z := i_nh * K * V + (0 * BK + i) * V + (i_v * BV + j).
Definition state_mask (i j : Z) : bool := (0 * BK + i <? K) && (i_v * BV + j <? V).

Definition fwd_entry (u o : mem R) : fwd_loop :=
  {| f_h :=
       match h0 with
       | Some h0 =>
           fun j i =>
             add zero
               (tl_load2 h0 (fun j i => state_ptr i j) (fun j i => state_mask i j) j i)
       | None => fun _ _ => zero
       end;
     f_q := (prog_bos * H + i_nh mod H) * K + 0 * BK;
     f_k := (prog_bos * H + i_nh mod H) * K + 0 * BK;
     f_v := (prog_bos * H + i_nh mod H) * V + i_v * BV;
     f_pu := (prog_bos * H + i_nh mod H) * V + i_v * BV;
     f_beta :=
       if IS_BETA_HEADWISE then (prog_bos * H + i_nh mod H) * V + i_v * BV
       else prog_bos * H + i_nh mod H;
     f_po := ((0 * prog_all + prog_bos) * H + i_nh mod H) * V + i_v * BV;
     f_u := u; f_o := o |}.

Definition bwd_entry1 (dk dv db : mem R) : bwd_loop1 :=
  {| r_dh :=
       match dht with
       | Some dht => fun i j => add zero (tl_load2 dht state_ptr state_mask i j)
       | None => fun _ _ => zero
       end;
     r_q := (prog_bos * H + i_nh mod H) * K + 0 * BK + (prog_len - 1) * H * K;
     r_k := (prog_bos * H + i_nh mod H) * K + 0 * BK + (prog_len - 1) * H * K;
     r_v := (prog_bos * H + i_nh mod H) * V + i_v * BV + (prog_len - 1) * H * V;
     r_do := (prog_bos * H + i_nh mod H) * V + i_v * BV + (prog_len - 1) * H * V;
     r_pdk :=
       ((i_v * prog_all + prog_bos) * H + i_nh mod H) * K + 0 * BK
       + (prog_len - 1) * H * K;
     r_pdv :=
       ((0 * prog_all + prog_bos) * H + i_nh mod H) * V + i_v * BV
       + (prog_len - 1) * H * V;
     r_pdbeta :=
       if IS_BETA_HEADWISE
       then ((i_v * NK + 0) * prog_all + prog_bos + prog_len - 1) * H * V + i_nh mod H * V
       else (i_v * prog_all + prog_bos + prog_len - 1) * H + i_nh mod H;
     r_beta :=
       if IS_BETA_HEADWISE
       then (prog_bos + prog_len - 1) * H * V + i_nh mod H * V + i_v * BV
       else (prog_bos + prog_len - 1) * H + i_nh mod H;
     r_dk := dk; r_dv := dv; r_db := db |}.

Definition bwd_entry2 (dq dk : mem R) : bwd_loop2 :=
  {| s_h :=
       match h0 with
       | Some h0 => fun i j => add zero (tl_load2 h0 state_ptr state_mask i j)
       | None => fun _ _ => zero
       end;
     s_k := (prog_bos * H + i_nh mod H) * K + 0 * BK;
     s_v := (prog_bos * H + i_nh mod H) * V + i_v * BV;
     s_do := (prog_bos * H + i_nh mod H) * V + i_v * BV;
     s_pdq := ((i_v * prog_all + prog_bos) * H + i_nh mod H) * K + 0 * BK;
     s_pdk := ((i_v * prog_all + prog_bos) * H + i_nh mod H) * K + 0 * BK;
     s_pdv := ((0 * prog_all + prog_bos) * H + i_nh mod H) * V + i_v * BV;
     s_beta :=
       if IS_BETA_HEADWISE then (prog_bos * H + i_nh mod H) * V + i_v * BV
       else prog_bos * H + i_nh mod H;
     s_dq := dq; s_dk := dk |}.

(** The head the program works on. *)
Definition prog_head : head R :=
  head_of q k v beta do h0 dht cu_seqlens scale T H K V IS_BETA_HEADWISE
    (i_nh / H) (i_nh mod H).

End Program.

(** The part of a sum over the [V] value features that the block [i_v] of
    [BV] lanes contributes. *)
Definition block_sum {R} {A : Arith R} (BV V i_v : Z) (g : vec R) : R :=
  tl_sum BV (fun j => if i_v * BV + j <? V then g (i_v * BV + j) else zero).

(** A block [g] of shape [BK, BV] holds the columns of [G] that the block
    [i_v] handles, and zeros in the lanes beyond [K] and [V]. *)
Definition block_holds {R} {A : Arith R} (K V BV i_v : Z) (g G : mat R) : Prop :=
  forall i j,
    g i j = if (i <? K) && (i_v * BV + j <? V) then G i (i_v * BV + j) else zero.

(** The value features the block [i_v] owns. *)
Definition in_block (BV V i_v j : Z) : Prop :=
  i_v * BV <= j < i_v * BV + BV /\ j < V.

(** The contents of the optional buffers, read as zero when absent. *)
Definition ht_at {R} {A : Arith R} (b : fwd_bufs) (a : Z) : R :=
  match fb_ht b with Some m => m a | None => zero end.

Definition dh0_at {R} {A : Arith R} (b : bwd_bufs) (a : Z) : R :=
  match bb_dh0 b with Some m => m a | None => zero end.

(** The number [N] of sequences of a call. *)
Definition nseq (cu_seqlens : option (list Z)) (B : Z) : Z :=
  match cu_seqlens with
  | None => B
  | Some cu => len cu - 1
  end.

(** The head [(n, h)] of a forward call, and of a backward call on the saved
    residuals [u]. *)
Definition fwd_head {R} {A : Arith R} (q k v beta : tensor R) (scale : R)
    (initial_state : option (tensor R)) (cu_seqlens : option (list Z))
    (T H K V n h : Z) : head R :=
  head_of (data q) (data k) (data v) (data beta) (fun _ => zero)
    (option_map data initial_state) None cu_seqlens scale T H K V
    (Nat.eqb (ndim beta) (ndim v)) n h.

Definition bwd_head {R} {A : Arith R} (q k u beta do : tensor R) (scale : R)
    (initial_state dht : option (tensor R)) (cu_seqlens : option (list Z))
    (T H K V n h : Z) : head R :=
  head_of (data q) (data k) (data u) (data beta) (data do)
    (option_map data initial_state) (option_map data dht) cu_seqlens scale T H K V
    (Nat.eqb (ndim beta) (ndim u)) n h.

(** The block sizes the launchers choose. *)
Definition fwd_BV (V : Z) : Z := Z.min (next_power_of_2 V) 8.
Definition bwd_BV (V : Z) : Z := Z.min (next_power_of_2 V) 32.

Definition is_some {X} (o : option X) : bool :=
  match o with Some _ => true | None => false end.

(** An initial state, when there is one, requires a gradient: the inputs on
    which the backward kernel can be launched. *)
Definition state_grad_ok {R} (initial_state : option (tensor R)) : bool :=
  match initial_state with
  | Some h0 => requires_grad h0
  | None => true
  end.

(** Packed sequences come in a batch of one. *)
Definition batch_ok (cu_seqlens : option (list Z)) (B : Z) : Prop :=
  match cu_seqlens with
  | Some _ => B = 1
  | None => 0 <= B
  end.

(** ** Heads that agree

    [head_shift d d' s n]: the head [d'] is the head [d] from step [s] on, for
    [n] steps, and starts from the state [d] has reached. *)
Definition head_shift {R} {A : Arith R} (d d' : head R) (s n : nat) : Prop :=
  hd_K d' = hd_K d /\ hd_V d' = hd_V d /\ hd_scale d' = hd_scale d /\
  (forall t i, (t < n)%nat -> 0 <= i < hd_K d ->
     hd_q d' t i = hd_q d (s + t)%nat i /\ hd_k d' t i = hd_k d (s + t)%nat i) /\
  (forall t j, (t < n)%nat -> 0 <= j < hd_V d ->
     hd_v d' t j = hd_v d (s + t)%nat j /\ hd_beta d' t j = hd_beta d (s + t)%nat j) /\
  (forall i j, 0 <= i < hd_K d -> 0 <= j < hd_V d ->
     hd_h0 d' i j = ref_state d s i j).

(** [head_agree d d']: the two heads have the same entries. *)
Definition head_agree {R} (d d' : head R) : Prop :=
  hd_K d' = hd_K d /\ hd_V d' = hd_V d /\ hd_T d' = hd_T d /\
  hd_scale d' = hd_scale d /\
  (forall t i, (t < hd_T d)%nat -> 0 <= i < hd_K d ->
     hd_q d' t i = hd_q d t i /\ hd_k d' t i = hd_k d t i) /\
  (forall t j, (t < hd_T d)%nat -> 0 <= j < hd_V d ->
     hd_v d' t j = hd_v d t j /\ hd_beta d' t j = hd_beta d t j /\
     hd_do d' t j = hd_do d t j) /\
  (forall i j, 0 <= i < hd_K d -> 0 <= j < hd_V d ->
     hd_h0 d' i j = hd_h0 d i j /\ hd_dht d' i j = hd_dht d i j).

(** ** Concrete inputs *)

#[export] Instance ArithLawsZ : ArithLaws Z := {| arith_ring := Zth |}.

(** A tensor filled with one value. *)
Definition full {R} (s : list Z) (x : R) : tensor R :=
  {| shape := s; data := fun _ => x; requires_grad := false |}.

(** A tensor with the given entries, and zeros beyond them. *)
Definition of_list (s : list Z) (l : list Z) : tensor Z :=
  {| shape := s; data := fun a => nth (Z.to_nat a) l 0; requires_grad := false |}.

(** A runtime that runs the programs in the order of the grid, and whose
    fresh buffers are filled with [x]. *)
Definition plain_runtime {R} (x : R) : runtime R :=
  {| junk := fun _ _ => x; schedule := fun l => l |}.

(** [x[:, t0 : t0 + len]] of a tensor of shape [B, T, ...], laid out
    contiguously: what a caller passes for a stretch of every sequence. *)
Definition narrow {R} (x : tensor R) (t0 len : Z) : tensor R :=
  match shape x with
  | B :: T :: rest =>
      let row := numel rest in
      {| shape := B :: len :: rest;
         data := fun a =>
           data x (((a / row) / len * T + t0 + (a / row) mod len) * row + a mod row);
         requires_grad := requires_grad x |}
  | _ => x
  end.

(** * [RWKV7Config]

    The constructor of the configuration of the RWKV7 model: it derives the
    head dimension or the number of heads from the hidden size, brings
    [value_dim] to one entry per layer, and checks and completes the options
    of the hybrid attention layers.  The floats it only stores are of a type
    [F] left open, with the one constant [10000.] it needs. *)

(** [//] and [%] on Python integers. *)
Definition py_floordiv (a b : Z) : result Z :=
  if b =? 0 then Raise ZeroDivisionError else Ok (a / b).

Definition py_mod (a b : Z) : result Z :=
  if b =? 0 then Raise ZeroDivisionError else Ok (a mod b).

(** [[x] * n] *)
Definition py_repeat (x n : Z) : list Z := repeat x (Z.to_nat n).

(** [value_dim: Optional[Union[int, List[int]]]] *)
Inductive value_dim_arg : Type :=
| VDNone
| VDInt (v : Z)
| VDList (l : list Z).

Section Config.
Context {F : Type}.
Variable float_10000 : F.

(** The values of the [attn] dictionary. *)
Inductive py_value : Type :=
| PyNone
| PyBool (b : bool)
| PyInt (n : Z)
| PyFloat (x : F)
| PyList (l : list Z).

(** A dictionary with string keys, in insertion order; a key occurs once. *)
Definition dict : Type := list (string * py_value).

(** [d.get(key)] *)
Fixpoint dict_get (d : dict) (key : string) : option py_value :=
  match d with
  | [] => None
  | (k0, v0) :: d' => if String.eqb k0 key then Some v0 else dict_get d' key
  end.

(** [d.get(key, default)] *)
Definition dict_get_default (d : dict) (key : string) (default : py_value) : py_value :=
  match dict_get d key with
  | Some x => x
  | None => default
  end.

(** [d[key] = x] *)
Fixpoint dict_set (d : dict) (key : string) (x : py_value) : dict :=
  match d with
  | [] => [(key, x)]
  | (k0, v0) :: d' =>
      if String.eqb k0 key then (k0, x) :: d' else (k0, v0) :: dict_set d' key x
  end.

(** What a caller may pass for [attn]. *)
Inductive attn_arg : Type :=
| NotADict (x : py_value)
| ADict (d : dict).

(** The arguments of [__init__], keyword arguments for the base class left
    out. *)
Record config_args : Type := {
  attn_mode : string;
  hidden_size : Z;
  hidden_ratio : option Z;
  intermediate_size : option Z;
  num_hidden_layers : Z;
  head_dim : option Z;
  num_heads : option Z;
  decay_low_rank_dim : Z;
  gate_low_rank_dim : Z;
  a_low_rank_dim : Z;
  v_low_rank_dim : Z;
  hidden_act : string;
  max_position_embeddings : Z;
  norm_first : bool;
  norm_bias : bool;
  norm_eps : F;
  attn : option attn_arg;
  use_cache : bool;
  pad_token_id : option Z;
  bos_token_id : Z;
  eos_token_id : Z;
  tie_word_embeddings : bool;
  initializer_range : F;
  fuse_norm : bool;
  fuse_cross_entropy : bool;
  use_l2warp : bool;
  vocab_size : Z;
  value_dim : value_dim_arg
}.

(** The attributes of the configuration once built. *)
Record RWKV7Config : Type := {
  self_attn_mode : string;
  self_hidden_size : Z;
  self_hidden_ratio : option Z;
  self_intermediate_size : option Z;
  self_norm_first : bool;
  self_num_hidden_layers : Z;
  self_head_dim : option Z;
  self_num_heads : option Z;
  self_value_dim : list Z;
  self_decay_low_rank_dim : Z;
  self_gate_low_rank_dim : Z;
  self_a_low_rank_dim : Z;
  self_v_low_rank_dim : Z;
  self_hidden_act : string;
  self_max_position_embeddings : Z;
  self_norm_bias : bool;
  self_norm_eps : F;
  self_attn : option dict;
  self_use_cache : bool;
  self_initializer_range : F;
  self_fuse_norm : bool;
  self_fuse_cross_entropy : bool;
  self_use_l2warp : bool;
  self_vocab_size : Z;
  self_pad_token_id : option Z;
  self_bos_token_id : Z;
  self_eos_token_id : Z;
  self_tie_word_embeddings : bool
}.

(** The two assertions on one value dimension. *)
Definition check_value_dim (hidden_size v : Z) : result unit :=
  py_assert (hidden_size <=? v) "value_dim must be greater than hidden_size" ;;;
  m <- py_mod v hidden_size ;;
  py_assert (m =? 0) "value_dim must be divisible by hidden_size".

(** [for v in value_dim: ...] *)
Fixpoint check_value_dims (hidden_size : Z) (l : list Z) : result unit :=
  match l with
  | [] => Ok tt
  | v :: l' => check_value_dim hidden_size v ;;; check_value_dims hidden_size l'
  end.

(** The defaults the constructor writes into the [attn] dictionary. *)
Definition attn_defaults (d : dict) (num_heads : py_value) : dict :=
  let d := dict_set d "num_kv_heads" (dict_get_default d "num_kv_heads" num_heads) in
  let d := dict_set d "qkv_bias" (dict_get_default d "qkv_bias" (PyBool false)) in
  let d := dict_set d "window_size" (dict_get_default d "window_size" PyNone) in
  dict_set d "rope_theta" (dict_get_default d "rope_theta" (PyFloat float_10000)).

Definition RWKV7Config_init (a : config_args) : result RWKV7Config :=
  heads <-
    match head_dim a, num_heads a with
    | None, Some n => h <- py_floordiv (hidden_size a) n ;; Ok (Some h, Some n)
    | Some h, None => n <- py_floordiv (hidden_size a) h ;; Ok (Some h, Some n)
    | h, n => Ok (h, n)
    end ;;
  value_dim <-
    match value_dim a with
    | VDNone => Ok (py_repeat (hidden_size a) (num_hidden_layers a))
    | VDInt v =>
        check_value_dim (hidden_size a) v ;;;
        Ok (py_repeat v (num_hidden_layers a))
    | VDList l =>
        py_assert (len l =? num_hidden_layers a)
          "value_dim must have the same length as num_hidden_layers" ;;;
        check_value_dims (hidden_size a) l ;;;
        Ok l
    end ;;
  attn <-
    match attn a with
    | None => Ok None
    | Some (NotADict _) => Raise (ValueError "attn must be a dictionary")
    | Some (ADict d) =>
        match dict_get d "layers" with
        | None =>
            Raise (ValueError
              "Layer indices must be provided to initialize hybrid attention layers")
        | Some _ =>
            match dict_get d "num_heads" with
            | None =>
                Raise (ValueError
                  "Number of heads must be provided to initialize hybrid attention layers")
            | Some n => Ok (Some (attn_defaults d n))
            end
        end
    end ;;
  Ok {| self_attn_mode := attn_mode a;
        self_hidden_size := hidden_size a;
        self_hidden_ratio := hidden_ratio a;
        self_intermediate_size := intermediate_size a;
        self_norm_first := norm_first a;
        self_num_hidden_layers := num_hidden_layers a;
        self_head_dim := fst heads;
        self_num_heads := snd heads;
        self_value_dim := value_dim;
        self_decay_low_rank_dim := decay_low_rank_dim a;
        self_gate_low_rank_dim := gate_low_rank_dim a;
        self_a_low_rank_dim := a_low_rank_dim a;
        self_v_low_rank_dim := v_low_rank_dim a;
        self_hidden_act := hidden_act a;
        self_max_position_embeddings := max_position_embeddings a;
        self_norm_bias := norm_bias a;
        self_norm_eps := norm_eps a;
        self_attn := attn;
        self_use_cache := use_cache a;
        self_initializer_range := initializer_range a;
        self_fuse_norm := fuse_norm a;
        self_fuse_cross_entropy := fuse_cross_entropy a;
        self_use_l2warp := use_l2warp a;
        self_vocab_size := vocab_size a;
        self_pad_token_id := pad_token_id a;
        self_bos_token_id := bos_token_id a;
        self_eos_token_id := eos_token_id a;
        self_tie_word_embeddings := tie_word_embeddings a |}.

End Config.

(** The default arguments, with floats written as a numerator over [10^5]:
    [norm_eps = 1e-5] is 1 and [initializer_range = 0.02] is 2000. *)
Definition default_args : config_args (F := Z) :=
  {| attn_mode := "chunk"; hidden_size := 2048; hidden_ratio := Some 4;
     intermediate_size := None; num_hidden_layers := 24;
     head_dim := Some 64; num_heads := None;
     decay_low_rank_dim := 64; gate_low_rank_dim := 128;
     a_low_rank_dim := 64; v_low_rank_dim := 16;
     hidden_act := "sqrelu"; max_position_embeddings := 2048;
     norm_first := true; norm_bias := true; norm_eps := 1;
     attn := None; use_cache := true; pad_token_id := None;
     bos_token_id := 1; eos_token_id := 2; tie_word_embeddings := false;
     initializer_range := 2000; fuse_norm := true; fuse_cross_entropy := true;
     use_l2warp := true; vocab_size := 32000; value_dim := VDNone |}.

(** The default arguments with other heads, value dimensions and attention
    options. *)
Definition args_with (h n : option Z) (v : value_dim_arg)
    (at_ : option (attn_arg (F := Z))) : config_args (F := Z) :=
  {| attn_mode := "chunk"; hidden_size := 2048; hidden_ratio := Some 4;
     intermediate_size := None; num_hidden_layers := 24;
     head_dim := h; num_heads := n;
     decay_low_rank_dim := 64; gate_low_rank_dim := 128;
     a_low_rank_dim := 64; v_low_rank_dim := 16;
     hidden_act := "sqrelu"; max_position_embeddings := 2048;
     norm_first := true; norm_bias := true; norm_eps := 1;
     attn := at_; use_cache := true; pad_token_id := None;
     bos_token_id := 1; eos_token_id := 2; tie_word_embeddings := false;
     initializer_range := 2000; fuse_norm := true; fuse_cross_entropy := true;
     use_l2warp := true; vocab_size := 32000; value_dim := v |}.

(** * The single-step update of the causal convolution

    [causal_conv1d_update] of fla/modules/convolution.py: one new input per
    sequence enters a cache of the last [W] inputs, kept per channel, and the
    output is the convolution of the cache with the weights.  The cache is
    updated in place: the kernel reads it shifted by one column and writes it
    back. *)

Section ConvUpdate.
Context {R : Type} {A : Arith R}.

(** [tl.sigmoid], which the embedding leaves open. *)
Variable sigmoid : R -> R.

(** The lanes of a block pointer that fall inside the tensor of shape
    [(n_rows, n_cols)]: [boundary_check=(0, 1)]. *)
Definition in_tensor (n_rows n_cols r c : Z) : bool :=
  (0 <=? r) && (r <? n_rows) && (0 <=? c) && (c <? n_cols).

(** [tl.load(tl.make_block_ptr(base, (n_rows, n_cols), (n_cols, 1), (r0, c0),
    block_shape, (1, 0)), boundary_check=(0, 1))]: the lanes outside the
    tensor read as zero. *)
Definition block_ptr_load (m : mem R) (base n_rows n_cols r0 c0 : Z) : mat R :=
  tl_load2 m (fun a b => base + (r0 + a) * n_cols + (c0 + b))
    (fun a b => in_tensor n_rows n_cols (r0 + a) (c0 + b)).

(** [tl.store] through such a block pointer of block shape [(BD, BW)]. *)
Definition block_ptr_store (BD BW : Z) (m : mem R) (base n_rows n_cols r0 c0 : Z)
    (x : mat R) : mem R :=
  tl_store2 BD BW m (fun a b => base + (r0 + a) * n_cols + (c0 + b)) x
    (fun a b => in_tensor n_rows n_cols (r0 + a) (c0 + b)).

(** The buffers the kernel writes: the output, and the cache when there is
    one. *)
Record conv_bufs : Type := {
  cb_y : mem R;
  cb_cache : option (mem R)
}.

(** [ACTIVATION == 'swish' or ACTIVATION == 'silu'] *)
Definition is_swish (ACTIVATION : option string) : bool :=
  match ACTIVATION with
  | Some a => String.eqb a "swish" || String.eqb a "silu"
  | None => false
  end.

(** Program [(i_d, i_n)] of the grid.  [USE_INITIAL_STATE], [HAS_WEIGHT],
    [HAS_BIAS] and [HAS_RESIDUAL] are [cache], [weight], [bias] and
    [residual] not being [None].  The bias is loaded with a mask and no
    [other]: the lanes masked off, which are never stored, read as zero
    here. *)
Definition causal_conv1d_update_kernel
    (x : mem R) (residual weight bias : option (mem R))
    (D W BD BW : Z) (ACTIVATION : option string)
    (pid : program) (s : conv_bufs) : conv_bufs :=
  let '(i_d, i_n, _) := pid in
  let o_d := fun a => i_d * BD + a in
  let o_w := fun b => b + W - BW in
  let m_d := fun a => o_d a <? D in
  let m_w := fun b => 0 <=? o_w b in
  let m_c := fun b => o_w b <? W - 1 in
  let b_x := tl_load x (i_n * D + i_d * BD) m_d in
  let b_cache : mat R :=
    match cb_cache s with
    | Some cache =>
        let b_cache :=
          block_ptr_load cache (i_n * D * W) D W (i_d * BD) (W - BW + 1) in
        fun a b => if m_c b then b_cache a b else b_x a
    | None => fun _ _ => zero
    end in
  let b_y : vec R :=
    match weight with
    | Some weight =>
        let b_w :=
          tl_load2 weight (fun a b => o_d a * W + o_w b) (fun a b => m_d a && m_w b) in
        fun a => tl_sum BW (fun b => mul (b_cache a b) (b_w a b))
    | None => fun a => tl_sum BW (fun b => b_cache a b)
    end in
  let b_y : vec R :=
    match bias with
    | Some bias => fun a => add (b_y a) (tl_load bias (i_d * BD) m_d a)
    | None => b_y
    end in
  let b_y : vec R :=
    if is_swish ACTIVATION then fun a => mul (b_y a) (sigmoid (b_y a)) else b_y in
  let b_y : vec R :=
    match residual with
    | Some residual =>
        fun a => add (b_y a) (tl_load residual (i_n * D + i_d * BD) m_d a)
    | None => b_y
    end in
  {| cb_y := tl_store BD (cb_y s) (i_n * D + i_d * BD) b_y m_d;
     cb_cache :=
       match cb_cache s with
       | Some cache =>
           Some (block_ptr_store BD BW cache (i_n * D * W) D W (i_d * BD) (W - BW)
                   b_cache)
       | None => None
       end |}.

Variable rt : runtime R.

(** [rearrange(x, 'b t ... -> b t (...)')] *)
Definition rearrange_flatten (x : tensor R) : result (tensor R) :=
  match shape x with
  | b :: t :: rest =>
      Ok {| shape := [b; t; numel rest]; data := data x;
            requires_grad := requires_grad x |}
  | _ => Raise EinopsError
  end.

(** [*_, D = x.shape] *)
Definition unpack_last (s : list Z) : result Z :=
  match rev s with
  | d :: _ => Ok d
  | [] => Raise (ValueError "not enough values to unpack")
  end.

(** [weight.shape[1]] *)
Definition shape_second (s : list Z) : result Z :=
  match s with
  | _ :: d :: _ => Ok d
  | _ => Raise IndexError
  end.

(** The launcher.  It returns the output with the shape of [x], and the
    cache it was given, updated in place. *)
Definition causal_conv1d_update
    (x : tensor R) (cache residual weight bias : option (tensor R))
    (activation : option string)
    : result (tensor R * option (tensor R)) :=
  let shape0 := shape x in
  x <-
    match weight with
    | Some weight =>
        xl <- shape_last (shape x) ;;
        w0 <- shape_first (shape weight) ;;
        if negb (xl =? w0) then rearrange_flatten x else Ok x
    | None => Ok x
    end ;;
  D <- unpack_last (shape x) ;;
  N <- py_floordiv (numel (shape x)) D ;;
  W <-
    match weight with
    | Some weight => W <- shape_second (shape weight) ;; Ok (Some W)
    | None => Ok None
    end ;;
  let BD := 8 in
  BW <-
    match W with
    | Some W => Ok (W, next_power_of_2 W)
    | None => Raise TypeError
    end ;;
  let '(W, BW) := BW in
  let y := new_empty rt 0 (shape x) in
  ND <- cdiv D BD ;;
  let bufs :=
    launch rt (ND, N, 1)
      (causal_conv1d_update_kernel (data x) (option_map data residual)
         (option_map data weight) (option_map data bias) D W BD BW activation)
      {| cb_y := data y; cb_cache := option_map data cache |} in
  let y := {| shape := shape0; data := cb_y bufs; requires_grad := false |} in
  let cache :=
    match cache, cb_cache bufs with
    | Some c, Some d => Some (with_data c d)
    | _, _ => None
    end in
  Ok (y, cache).

End ConvUpdate.

(** The contents of the cache a program sees, read as zero when there is no
    cache. *)
Definition cache_at {R} {A : Arith R} (b : conv_bufs) (a : Z) : R :=
  match cb_cache b with Some m => m a | None => zero end.

(** What the kernel does to the sum of a channel before storing it: the
    bias, the activation and the residual. *)
Definition conv_epilogue {R} {A : Arith R} (sigmoid : R -> R)
    (residual bias : option (mem R)) (ACTIVATION : option string)
    (D n d : Z) (z : R) : R :=
  let z := match bias with Some bias => add z (bias d) | None => z end in
  let z := if is_swish ACTIVATION then mul z (sigmoid z) else z in
  match residual with Some residual => add z (residual (n * D + d)) | None => z end.
(** * Loads, stores and sums *)

Lemma if_true_prop (b : bool) (P Q : Prop) :
  b = true -> (if b then P else Q) -> P.
Proof. intros ->. exact (fun p => p). Qed.

Lemma if_false_prop (b : bool) (P Q : Prop) :
  b = false -> (if b then P else Q) -> Q.
Proof. intros ->. exact (fun p => p). Qed.

Section BlockLemmas.
Context {R : Type} {A : Arith R}.

Lemma sum_upto_ext (n : nat) (f g : vec R) :
  (forall i, 0 <= i < Z.of_nat n -> f i = g i) ->
  sum_upto n f = sum_upto n g.
Proof.
  induction n as [|n IH]; intros E; simpl; [reflexivity|].
  rewrite IH by (intros; apply E; lia).
  rewrite E by lia. reflexivity.
Qed.

Lemma tl_sum_ext (n : Z) (f g : vec R) :
  (forall i, 0 <= i < n -> f i = g i) ->
  tl_sum n f = tl_sum n g.
Proof.
  intros E. unfold tl_sum. apply sum_upto_ext. intros i Hi. apply E. lia.
Qed.

Lemma upd_same (m : mem R) a x : upd m a x a = x.
Proof. unfold upd. rewrite Z.eqb_refl. reflexivity. Qed.

Lemma upd_other (m : mem R) a x a' : a' <> a -> upd m a x a' = m a'.
Proof. intros N. unfold upd. apply Z.eqb_neq in N. rewrite N. reflexivity. Qed.

Lemma store_upto_out (n : nat) (m : mem R) p x mask a :
  (forall i, 0 <= i < Z.of_nat n -> mask i = true -> a <> p i) ->
  store_upto n m p x mask a = m a.
Proof.
  induction n as [|n IH]; intros Hout; simpl; [reflexivity|].
  destruct (mask (Z.of_nat n)) eqn:Hm.
  - rewrite upd_other by (apply Hout; [lia|exact Hm]).
    apply IH. intros; apply Hout; [lia|assumption].
  - apply IH. intros; apply Hout; [lia|assumption].
Qed.

Lemma store_upto_in (n : nat) (m : mem R) p x mask i :
  (forall a b, 0 <= a < Z.of_nat n -> 0 <= b < Z.of_nat n ->
     mask a = true -> mask b = true -> p a = p b -> a = b) ->
  0 <= i < Z.of_nat n -> mask i = true ->
  store_upto n m p x mask (p i) = x i.
Proof.
  induction n as [|n IH]; intros Hinj Hi Hm; simpl; [lia|].
  destruct (Z.eq_dec i (Z.of_nat n)) as [->|Hne].
  - rewrite Hm. apply upd_same.
  - assert (Hstep : store_upto n m p x mask (p i) = x i).
    { apply IH; [|lia|exact Hm]. intros; apply Hinj; try assumption; lia. }
    destruct (mask (Z.of_nat n)) eqn:Hmn; [|exact Hstep].
    rewrite upd_other; [exact Hstep|].
    intros E. apply Hne. apply Hinj; try assumption; lia.
Qed.

Lemma tl_store_in (n : Z) (m : mem R) p x mask i :
  0 <= i < n -> mask i = true -> tl_store n m p x mask (p + i) = x i.
Proof.
  intros Hi Hm. unfold tl_store.
  apply (store_upto_in (Z.to_nat n) m (fun i => p + i) x mask i); [|lia|exact Hm].
  intros; lia.
Qed.

Lemma tl_store_out (n : Z) (m : mem R) p x mask a :
  (forall i, 0 <= i < n -> mask i = true -> a <> p + i) ->
  tl_store n m p x mask a = m a.
Proof.
  intros Hout. unfold tl_store. apply store_upto_out.
  intros; apply Hout; [lia|assumption].
Qed.

Lemma store2_upto_out (n1 n2 : nat) (m : mem R) p x mask a :
  (forall i j, 0 <= i < Z.of_nat n1 -> 0 <= j < Z.of_nat n2 ->
     mask i j = true -> a <> p i j) ->
  store2_upto n1 n2 m p x mask a = m a.
Proof.
  induction n1 as [|n1 IH]; intros Hout; simpl; [reflexivity|].
  rewrite store_upto_out by (intros; apply Hout; [lia|lia|assumption]).
  apply IH. intros; apply Hout; [lia|lia|assumption].
Qed.

Lemma store2_upto_in (n1 n2 : nat) (m : mem R) p x mask i j :
  (forall a b c d, 0 <= a < Z.of_nat n1 -> 0 <= b < Z.of_nat n2 ->
     0 <= c < Z.of_nat n1 -> 0 <= d < Z.of_nat n2 ->
     mask a b = true -> mask c d = true -> p a b = p c d -> a = c /\ b = d) ->
  0 <= i < Z.of_nat n1 -> 0 <= j < Z.of_nat n2 -> mask i j = true ->
  store2_upto n1 n2 m p x mask (p i j) = x i j.
Proof.
  induction n1 as [|n1 IH]; intros Hinj Hi Hj Hm; simpl; [lia|].
  destruct (Z.eq_dec i (Z.of_nat n1)) as [->|Hne].
  - apply (store_upto_in n2 _ (p (Z.of_nat n1)) (x (Z.of_nat n1))
             (mask (Z.of_nat n1)) j); [|lia|exact Hm].
    intros a b Ha Hb Ma Mb E.
    destruct (Hinj (Z.of_nat n1) a (Z.of_nat n1) b) as [_ ?]; try assumption; lia.
  - rewrite store_upto_out.
    + apply IH; [|lia|lia|exact Hm].
      intros a b c d ? ? ? ? ? ? E. apply Hinj; try assumption; lia.
    + intros b Hb Mb E. apply Hne.
      destruct (Hinj i j (Z.of_nat n1) b) as [? _]; try assumption; lia.
Qed.

Lemma tl_store2_out (n1 n2 : Z) (m : mem R) p x mask a :
  (forall i j, 0 <= i < n1 -> 0 <= j < n2 -> mask i j = true -> a <> p i j) ->
  tl_store2 n1 n2 m p x mask a = m a.
Proof.
  intros Hout. unfold tl_store2. apply store2_upto_out.
  intros; apply Hout; [lia|lia|assumption].
Qed.

Lemma tl_store2_in (n1 n2 : Z) (m : mem R) p x mask i j :
  (forall a b c d, 0 <= a < n1 -> 0 <= b < n2 -> 0 <= c < n1 -> 0 <= d < n2 ->
     mask a b = true -> mask c d = true -> p a b = p c d -> a = c /\ b = d) ->
  0 <= i < n1 -> 0 <= j < n2 -> mask i j = true ->
  tl_store2 n1 n2 m p x mask (p i j) = x i j.
Proof.
  intros Hinj Hi Hj Hm. unfold tl_store2.
  apply store2_upto_in; [|lia|lia|exact Hm].
  intros; apply Hinj; try assumption; lia.
Qed.

(** *** Repeated strided stores *)

Lemma stored_O p0 stride len mask (val : nat -> vec R) m0 :
  stored 0 p0 stride len mask val m0 m0.
Proof. split; [intros; lia|reflexivity]. Qed.

Lemma strided_apart (w stride : Z) (t n : nat) (j j' : Z) :
  (w <= stride \/ w <= - stride) -> (t < n)%nat ->
  0 <= j < w -> 0 <= j' < w ->
  Z.of_nat t * stride + j <> Z.of_nat n * stride + j'.
Proof.
  intros Hw Ht Hj Hj' E.
  assert (D : (Z.of_nat n - Z.of_nat t) * stride = j - j') by lia.
  assert (P : 1 <= Z.of_nat n - Z.of_nat t) by lia.
  destruct Hw; nia.
Qed.

Lemma stored_S (n : nat) p0 stride len mask (val : nat -> vec R) m0 m x w :
  stored n p0 stride len mask val m0 m ->
  (forall j, 0 <= j < len -> mask j = true -> j < w) ->
  (w <= stride \/ w <= - stride) ->
  (forall j, 0 <= j < len -> mask j = true -> x j = val n j) ->
  stored (S n) p0 stride len mask val m0
    (tl_store len m (p0 + Z.of_nat n * stride) x mask).
Proof.
  intros [Hin Hout] Hmask Hw Hx. split.
  - intros t j Ht Hj Hm.
    destruct (Nat.eq_dec t n) as [->|Hne].
    + rewrite tl_store_in by assumption. apply Hx; assumption.
    + rewrite tl_store_out.
      * apply Hin; [lia|assumption|assumption].
      * intros j' Hj' Hm' E.
        apply (strided_apart w stride t n j j'); try assumption; try lia.
        -- split; [lia|]. apply Hmask; assumption.
        -- split; [lia|]. apply Hmask; assumption.
  - intros a Ha.
    rewrite tl_store_out.
    + apply Hout. intros; apply Ha; [lia|assumption|assumption].
    + intros j Hj Hm. apply Ha; [lia|assumption|assumption].
Qed.

(** The scalar store [tl.store(p, x)] is a store of one lane. *)
Lemma stored_S_scalar (n : nat) p0 stride (val : nat -> vec R) m0 m x :
  stored n p0 stride 1 (fun _ => true) val m0 m ->
  (1 <= stride \/ 1 <= - stride) ->
  x = val n 0 ->
  stored (S n) p0 stride 1 (fun _ => true) val m0
    (upd m (p0 + Z.of_nat n * stride) x).
Proof.
  intros [Hin Hout] Hw Hx. split.
  - intros t j Ht Hj _. assert (j = 0) by lia. subst j.
    destruct (Nat.eq_dec t n) as [->|Hne].
    + rewrite Z.add_0_r, upd_same. exact Hx.
    + rewrite upd_other.
      * apply Hin; [lia|lia|reflexivity].
      * pose proof (strided_apart 1 stride t n 0 0 Hw). lia.
  - intros a Ha. rewrite upd_other.
    + apply Hout. intros; apply Ha; [lia|assumption|assumption].
    + specialize (Ha n 0). rewrite Z.add_0_r in Ha. apply Ha; [lia|lia|reflexivity].
Qed.

End BlockLemmas.

(** * The loops compute the per-iteration blocks *)

Section Loops.
Context {R : Type} {A : Arith R}.
Variable c : blk_args R.
Hypothesis H_pos : 1 <= ba_H c.
Hypothesis mask_k_width :
  forall i, 0 <= i < ba_BK c -> ba_mask_k c i = true -> i < row_k c.
Hypothesis mask_v_width :
  forall j, 0 <= j < ba_BV c -> ba_mask_v c j = true -> j < row_v c.

Lemma fwd_loop_inv (init : fwd_loop) (n : nat) :
  let st := Nat.iter n (fwd_step_of c) init in
  f_q st = f_q init + Z.of_nat n * row_k c /\
  f_k st = f_k init + Z.of_nat n * row_k c /\
  f_v st = f_v init + Z.of_nat n * row_v c /\
  f_pu st = f_pu init + Z.of_nat n * row_v c /\
  f_beta st = f_beta init + Z.of_nat n * row_beta c /\
  f_po st = f_po init + Z.of_nat n * row_v c /\
  (forall j i, f_h st j i = blk_h c init n j i) /\
  stored n (f_pu init) (row_v c) (ba_BV c) (ba_mask_v c) (blk_u c init)
    (f_u init) (f_u st) /\
  stored n (f_po init) (row_v c) (ba_BV c) (ba_mask_v c) (blk_o c init)
    (f_o init) (f_o st).
Proof.
  induction n as [|n IH].
  - simpl. repeat split; try lia; intros; try lia; reflexivity.
  - simpl Nat.iter. cbv zeta in IH |- *.
    set (st := Nat.iter n _ init) in *.
    destruct IH as (Eq & Ek & Ev & Eu & Eb & Eo & Eh & Su & So).
    assert (Eh' : forall j i, f_h (fwd_step_of c st) j i = blk_h c init (S n) j i).
    { intros j i. unfold fwd_step_of, fwd_kernel_step. cbn [f_h blk_h].
      unfold blk_delta, blk_k, blk_v, blk_beta.
      rewrite Ek, Ev, Eb, Eh.
      rewrite (tl_sum_ext (ba_BK c) _ _
                 (fun i0 _ => f_equal (fun h => mul h _) (Eh j i0))).
      reflexivity. }
    split; [|split; [|split; [|split; [|split; [|split; [|split; [|split]]]]]]];
      try (unfold fwd_step_of, fwd_kernel_step; cbn [f_q f_k f_v f_pu f_beta f_po];
           unfold row_k, row_v, row_beta in *; lia).
    + exact Eh'.
    + unfold fwd_step_of, fwd_kernel_step. cbn [f_u]. rewrite Eu.
      apply (stored_S n _ _ _ _ _ _ _ _ (row_v c)); try assumption; [lia|].
      intros j Hj Hm. unfold blk_u, blk_delta, blk_k, blk_v.
      rewrite Ek, Ev.
      rewrite (tl_sum_ext (ba_BK c) _ _
                 (fun i0 _ => f_equal (fun h => mul h _) (Eh j i0))).
      reflexivity.
    + unfold fwd_step_of at 1, fwd_kernel_step at 1. cbn [f_o]. rewrite Eo.
      apply (stored_S n _ _ _ _ _ _ _ _ (row_v c)); try assumption; [lia|].
      intros j Hj Hm. unfold blk_o.
      apply tl_sum_ext. intros i Hi.
      unfold blk_q. rewrite <- Eq. f_equal.
      exact (Eh' j i).
Qed.


Lemma bwd_loop1_inv (init : bwd_loop1) (n : nat) :
  let st := Nat.iter n (bwd_step1_of c) init in
  r_q st = r_q init - Z.of_nat n * row_k c /\
  r_k st = r_k init - Z.of_nat n * row_k c /\
  r_v st = r_v init - Z.of_nat n * row_v c /\
  r_do st = r_do init - Z.of_nat n * row_v c /\
  r_pdk st = r_pdk init + Z.of_nat n * - row_k c /\
  r_pdv st = r_pdv init + Z.of_nat n * - row_v c /\
  r_pdbeta st = r_pdbeta init + Z.of_nat n * - row_beta c /\
  r_beta st = r_beta init - Z.of_nat n * row_beta c /\
  (forall i j, r_dh st i j = blkA_dh c init n i j) /\
  stored n (r_pdk init) (- row_k c) (ba_BK c) (ba_mask_k c) (blkA_dk_at c init)
    (r_dk init) (r_dk st) /\
  stored n (r_pdv init) (- row_v c) (ba_BV c) (ba_mask_v c) (blkA_dv_at c init)
    (r_dv init) (r_dv st) /\
  (if ba_headwise c then
     stored n (r_pdbeta init) (- row_beta c) (ba_BV c) (ba_mask_v c)
       (blkA_db_at c init) (r_db init) (r_db st)
   else
     stored n (r_pdbeta init) (- row_beta c) 1 (fun _ => true)
       (blkA_dbsum_at c init) (r_db init) (r_db st)).
Proof.
  induction n as [|n IH].
  - simpl. repeat split; try lia; intros; try lia; try reflexivity.
    destruct (ba_headwise c); apply stored_O.
  - simpl Nat.iter. cbv zeta in IH |- *.
    set (st := Nat.iter n _ init) in *.
    destruct IH as (Eq & Ek & Ev & Edo & Epdk & Epdv & Epdb & Eb & Eh & Sk & Sv & Sb).
    assert (Eacc : forall i j,
      add (r_dh st i j)
          (mul (mul (tl_load (ba_q c) (r_q st) (ba_mask_k c) i) (ba_scale c))
               (tl_load (ba_do c) (r_do st) (ba_mask_v c) j)) =
      blkA_acc c init (blkA_dh c init n) n i j).
    { intros i j. unfold blkA_acc, blkA_q, blkA_do. rewrite Eq, Edo, Eh. reflexivity. }
    assert (Ebeta : forall j,
      (if ba_headwise c then tl_load (ba_beta c) (r_beta st) (ba_mask_v c)
       else fun _ => ba_beta c (r_beta st)) j = blkA_beta c init n j).
    { intros j. unfold blkA_beta. rewrite Eb. reflexivity. }
    assert (Edvp : forall j,
      tl_sum (ba_BK c) (fun i =>
        mul (add (r_dh st i j)
               (mul (mul (tl_load (ba_q c) (r_q st) (ba_mask_k c) i) (ba_scale c))
                    (tl_load (ba_do c) (r_do st) (ba_mask_v c) j)))
            (tl_load (ba_k c) (r_k st) (ba_mask_k c) i)) =
      blkA_dvp c init (blkA_dh c init n) n j).
    { intros j. unfold blkA_dvp. apply tl_sum_ext. intros i _.
      rewrite Eacc. unfold blkA_k. rewrite Ek. reflexivity. }
    assert (Eh' : forall i j, r_dh (bwd_step1_of c st) i j = blkA_dh c init (S n) i j).
    { intros i j. unfold bwd_step1_of, bwd_kernel_step1. cbn [r_dh blkA_dh].
      rewrite Eacc. unfold blkA_dv. rewrite <- Edvp, <- Ebeta.
      unfold blkA_k. rewrite Ek. reflexivity. }
    split; [|split; [|split; [|split; [|split; [|split; [|split; [|split;
      [|split; [|split; [|split]]]]]]]]]];
      try (unfold bwd_step1_of, bwd_kernel_step1;
           cbn [r_q r_k r_v r_do r_pdk r_pdv r_pdbeta r_beta];
           unfold row_k, row_v, row_beta in *; lia).
    + exact Eh'.
    + unfold bwd_step1_of, bwd_kernel_step1. cbn [r_dk]. rewrite Epdk.
      apply (stored_S n _ _ _ _ _ _ _ _ (row_k c)); try assumption; [lia|].
      intros i Hi Hm. unfold blkA_dk_at, blkA_dk.
      apply tl_sum_ext. intros j _. rewrite Eacc, Ebeta.
      unfold blkA_v. rewrite Ev. reflexivity.
    + unfold bwd_step1_of, bwd_kernel_step1. cbn [r_dv]. rewrite Epdv.
      apply (stored_S n _ _ _ _ _ _ _ _ (row_v c)); try assumption; [lia|].
      intros j Hj Hm. unfold blkA_dv_at, blkA_dv.
      rewrite Edvp, Ebeta. reflexivity.
    + unfold bwd_step1_of, bwd_kernel_step1. cbn [r_db]. rewrite Epdb.
      revert Sb. unfold row_beta, row_v in *.
      destruct (ba_headwise c); intros Sb.
      * apply (stored_S n _ _ _ _ _ _ _ _ (ba_H c * ba_V c)); try assumption; [lia|].
        intros j Hj Hm. unfold blkA_db_at, blkA_db.
        rewrite Edvp. unfold blkA_v. rewrite Ev. reflexivity.
      * apply stored_S_scalar; try assumption; [lia|].
        unfold blkA_dbsum_at, blkA_db_at, blkA_db.
        apply tl_sum_ext. intros j _.
        rewrite Edvp. unfold blkA_v. rewrite Ev. reflexivity.
Qed.

Lemma bwd_loop2_inv (dv : mem R) (init : bwd_loop2) (n : nat) :
  let st := Nat.iter n (bwd_step2_of c dv) init in
  s_k st = s_k init + Z.of_nat n * row_k c /\
  s_v st = s_v init + Z.of_nat n * row_v c /\
  s_do st = s_do init + Z.of_nat n * row_v c /\
  s_pdq st = s_pdq init + Z.of_nat n * row_k c /\
  s_pdk st = s_pdk init + Z.of_nat n * row_k c /\
  s_pdv st = s_pdv init + Z.of_nat n * row_v c /\
  s_beta st = s_beta init + Z.of_nat n * row_beta c /\
  (forall i j, s_h st i j = blkB_h c init n i j) /\
  stored n (s_pdq init) (row_k c) (ba_BK c) (ba_mask_k c) (blkB_dq c init)
    (s_dq init) (s_dq st) /\
  stored n (s_pdk init) (row_k c) (ba_BK c) (ba_mask_k c) (blkB_dk c init dv)
    (s_dk init) (s_dk st).
Proof.
  induction n as [|n IH].
  - simpl. repeat split; try lia; intros; try lia; reflexivity.
  - simpl Nat.iter. cbv zeta in IH |- *.
    set (st := Nat.iter n _ init) in *.
    destruct IH as (Ek & Ev & Edo & Epdq & Epdk & Epdv & Eb & Eh & Sq & Sk).
    assert (Eh' : forall i j, s_h (bwd_step2_of c dv st) i j = blkB_h c init (S n) i j).
    { intros i j. unfold bwd_step2_of, bwd_kernel_step2. cbn [s_h blkB_h].
      unfold blkB_k, blkB_v, blkB_beta. rewrite Ek, Ev, Eb, Eh. reflexivity. }
    split; [|split; [|split; [|split; [|split; [|split; [|split; [|split; [|split]]]]]]]];
      try (unfold bwd_step2_of, bwd_kernel_step2;
           cbn [s_k s_v s_do s_pdq s_pdk s_pdv s_beta];
           unfold row_k, row_v, row_beta in *; lia).
    + exact Eh'.
    + unfold bwd_step2_of at 1, bwd_kernel_step2 at 1. cbn [s_dq]. rewrite Epdq.
      apply (stored_S n _ _ _ _ _ _ _ _ (row_k c)); try assumption; [lia|].
      intros i Hi Hm. unfold blkB_dq. f_equal.
      apply tl_sum_ext. intros j _.
      unfold blkB_do. rewrite <- Edo. f_equal. exact (Eh' i j).
    + unfold bwd_step2_of, bwd_kernel_step2. cbn [s_dk]. rewrite Epdk.
      apply (stored_S n _ _ _ _ _ _ _ _ (row_k c)); try assumption; [lia|].
      intros i Hi Hm. unfold blkB_dk. rewrite Epdv. f_equal.
      * unfold tl_load. rewrite Hm.
        destruct Sk as [_ Sout]. apply Sout.
        intros t j Ht Hj Hmj.
        pose proof (strided_apart (row_k c) (row_k c) t n j i).
        assert (j < row_k c) by (apply mask_k_width; assumption).
        assert (i < row_k c) by (apply mask_k_width; assumption).
        lia.
      * apply tl_sum_ext. intros j _. rewrite Eh. reflexivity.
Qed.

End Loops.

(** * Sums in a ring *)

Section Sums.
Context {R : Type} {A : Arith R} {L : ArithLaws R}.
Add Ring arith_ring_sums : (arith_ring (R := R)).

Lemma tl_sum_nonpos (n : Z) (f : vec R) : n <= 0 -> tl_sum n f = zero.
Proof.
  intros Hn. unfold tl_sum. replace (Z.to_nat n) with O by lia. reflexivity.
Qed.

Lemma tl_sum_succ (n : Z) (f : vec R) :
  0 <= n -> tl_sum (n + 1) f = add (tl_sum n f) (f n).
Proof.
  intros Hn. unfold tl_sum.
  replace (Z.to_nat (n + 1)) with (S (Z.to_nat n)) by lia.
  simpl. rewrite Z2Nat.id by lia. reflexivity.
Qed.

Lemma tl_sum_zero (n : Z) (f : vec R) :
  (forall i, 0 <= i < n -> f i = zero) -> tl_sum n f = zero.
Proof.
  intros Hf. unfold tl_sum.
  assert (G : forall m, (m <= Z.to_nat n)%nat -> sum_upto m f = zero).
  { induction m as [|m IH]; intros Hm; simpl; [reflexivity|].
    rewrite IH by lia. rewrite Hf by lia. ring. }
  apply G. lia.
Qed.

Lemma tl_sum_app (a b : Z) (f : vec R) :
  0 <= a -> 0 <= b ->
  tl_sum (a + b) f = add (tl_sum a f) (tl_sum b (fun l => f (a + l))).
Proof.
  intros Ha Hb. pattern b. apply natlike_ind; cbv beta; [| |exact Hb].
  - rewrite Z.add_0_r. rewrite (tl_sum_nonpos 0) by lia. ring.
  - intros x Hx IH. replace (a + Z.succ x) with ((a + x) + 1) by lia.
    rewrite tl_sum_succ by lia. rewrite IH.
    replace (Z.succ x) with (x + 1) by lia.
    rewrite (tl_sum_succ x) by lia. ring.
Qed.

Lemma tl_sum_trunc (n m : Z) (f : vec R) :
  0 <= n <= m -> (forall i, n <= i < m -> f i = zero) ->
  tl_sum m f = tl_sum n f.
Proof.
  intros Hnm Hf. replace m with (n + (m - n)) by lia.
  rewrite tl_sum_app by lia.
  rewrite (tl_sum_zero (m - n)) by (intros; apply Hf; lia).
  ring.
Qed.

Lemma tl_sum_add (n : Z) (f g : vec R) :
  tl_sum n (fun i => add (f i) (g i)) = add (tl_sum n f) (tl_sum n g).
Proof.
  unfold tl_sum. induction (Z.to_nat n) as [|m IH]; simpl; [ring|].
  rewrite IH. ring.
Qed.

Lemma tl_sum_sub (n : Z) (f g : vec R) :
  tl_sum n (fun i => sub (f i) (g i)) = sub (tl_sum n f) (tl_sum n g).
Proof.
  unfold tl_sum. induction (Z.to_nat n) as [|m IH]; simpl; [ring|].
  rewrite IH. ring.
Qed.

Lemma tl_sum_mul_r (n : Z) (f : vec R) (x : R) :
  tl_sum n (fun i => mul (f i) x) = mul (tl_sum n f) x.
Proof.
  unfold tl_sum. induction (Z.to_nat n) as [|m IH]; simpl; [ring|].
  rewrite IH. ring.
Qed.

Lemma tl_sum_mul_l (n : Z) (f : vec R) (x : R) :
  tl_sum n (fun i => mul x (f i)) = mul x (tl_sum n f).
Proof.
  unfold tl_sum. induction (Z.to_nat n) as [|m IH]; simpl; [ring|].
  rewrite IH. ring.
Qed.

(** A sum over [nb] blocks of [bs] lanes, each lane being masked against the
    length [n], is the sum over the [n] first entries. *)
Lemma tl_sum_flat (nb bs : Z) (g : vec R) :
  0 <= nb -> 0 <= bs ->
  tl_sum nb (fun s => tl_sum bs (fun l => g (s * bs + l))) = tl_sum (nb * bs) g.
Proof.
  intros Hnb Hbs. pattern nb. apply natlike_ind; cbv beta; [| |exact Hnb].
  - rewrite !tl_sum_nonpos by lia. reflexivity.
  - intros x Hx IH. replace (Z.succ x) with (x + 1) by lia.
    rewrite tl_sum_succ by lia. rewrite IH.
    replace ((x + 1) * bs) with (x * bs + bs) by lia.
    rewrite (tl_sum_app (x * bs) bs) by nia. reflexivity.
Qed.

Lemma tl_sum_blocks (nb bs n : Z) (g : vec R) :
  0 <= nb -> 0 <= bs -> 0 <= n <= nb * bs ->
  tl_sum nb (fun s => tl_sum bs (fun l => if s * bs + l <? n then g (s * bs + l) else zero))
  = tl_sum n g.
Proof.
  intros Hnb Hbs Hn.
  rewrite (tl_sum_flat nb bs (fun x => if x <? n then g x else zero)) by assumption.
  rewrite (tl_sum_trunc n (nb * bs)); [|lia|].
  - apply tl_sum_ext. intros i Hi.
    destruct (Z.ltb_spec i n); [reflexivity|lia].
  - intros i Hi. destruct (Z.ltb_spec i n); [lia|reflexivity].
Qed.

Lemma tl_sum_block_sum (nb bs n : Z) (g : vec R) :
  0 <= nb -> 0 <= bs -> 0 <= n <= nb * bs ->
  tl_sum nb (fun s => block_sum bs n s g) = tl_sum n g.
Proof. apply tl_sum_blocks. Qed.

End Sums.

(** * The kernels, program by program *)

Section KernelUnfold.
Context {R : Type} {A : Arith R}.
Variables (q k v beta do : mem R) (h0 dht : option (mem R)).
Variable cu_seqlens : option (list Z).
Variable scale : R.
Variables (T B H K V BK BV NK : Z) (IS_BETA_HEADWISE : bool).
Variables (i_v i_nh : Z).

Local Abbreviation args := (prog_args q k v beta do scale H K V BK BV IS_BETA_HEADWISE i_v).
Local Abbreviation len := (prog_len cu_seqlens T H i_nh).

Lemma fwd_kernel_unfold (bufs : fwd_bufs) :
  fused_recurrent_delta_rule_fwd_kernel q k v beta h0 cu_seqlens scale
    T B H K V BK BV IS_BETA_HEADWISE (i_v, 0, i_nh) bufs =
  let st :=
    Nat.iter (Z.to_nat len) (fwd_step_of args)
      (fwd_entry h0 cu_seqlens T B H K V BK BV IS_BETA_HEADWISE i_v i_nh
         (fb_u bufs) (fb_o bufs)) in
  {| fb_u := f_u st;
     fb_o := f_o st;
     fb_ht :=
       match fb_ht bufs with
       | Some ht =>
           Some (tl_store2 BV BK ht
                   (fun j i => state_ptr K V BK BV i_v i_nh i j)
                   (f_h st)
                   (fun j i => state_mask K V BK BV i_v i j))
       | None => None
       end |}.
Proof.
  unfold fused_recurrent_delta_rule_fwd_kernel, seq_bounds, fwd_entry,
    prog_len, prog_bos, prog_all, seq_bos, seq_len.
  destruct cu_seqlens; destruct h0; reflexivity.
Qed.

Lemma bwd_kernel_unfold (bufs : bwd_bufs) :
  bwd_kernel_program q k v beta h0 dht do cu_seqlens scale
    B T H K V BK BV NK IS_BETA_HEADWISE (i_v, 0, i_nh) bufs =
  let st1 :=
    Nat.iter (Z.to_nat len) (bwd_step1_of args)
      (bwd_entry1 dht cu_seqlens T B H K V BK BV NK IS_BETA_HEADWISE i_v i_nh
         (bb_dk bufs) (bb_dv bufs) (bb_db bufs)) in
  let st2 :=
    Nat.iter (Z.to_nat len) (bwd_step2_of args (r_dv st1))
      (bwd_entry2 h0 cu_seqlens T B H K V BK BV IS_BETA_HEADWISE i_v i_nh
         (bb_dq bufs) (r_dk st1)) in
  {| bb_dq := s_dq st2;
     bb_dk := s_dk st2;
     bb_dv := r_dv st1;
     bb_db := r_db st1;
     bb_dh0 :=
       match h0, bb_dh0 bufs with
       | Some _, Some dh0 =>
           Some (tl_store2 BK BV dh0 (state_ptr K V BK BV i_v i_nh) (r_dh st1)
                   (state_mask K V BK BV i_v))
       | _, dh0 => dh0
       end |}.
Proof.
  unfold bwd_kernel_program, seq_bounds, bwd_entry1, bwd_entry2,
    prog_len, prog_bos, prog_all, seq_bos, seq_len.
  destruct cu_seqlens; destruct h0; destruct dht; reflexivity.
Qed.

End KernelUnfold.

(** * The blocks of a program against the reference *)

Section ProgramReference.
Context {R : Type} {A : Arith R} {L : ArithLaws R}.
Add Ring arith_ring_prog : (arith_ring (R := R)).

Variables (q k v beta do : mem R) (h0 dht : option (mem R)).
Variable cu_seqlens : option (list Z).
Variable scale : R.
Variables (T B H K V BK BV NK : Z) (IS_BETA_HEADWISE : bool).
Variables (i_v i_nh : Z).
Hypothesis H_pos : 1 <= H.
Hypothesis K_BK : 0 <= K <= BK.
Hypothesis i_nh_nonneg : 0 <= i_nh.

Local Abbreviation c := (prog_args q k v beta do scale H K V BK BV IS_BETA_HEADWISE i_v).
Local Abbreviation d :=
  (prog_head q k v beta do h0 dht cu_seqlens scale T H K V IS_BETA_HEADWISE i_nh).
Local Abbreviation bos := (prog_bos cu_seqlens T H i_nh).
Local Abbreviation vmask := (fun j => i_v * BV + j <? V).

Section Forward.
Variables u o : mem R.
Local Abbreviation init :=
  (fwd_entry h0 cu_seqlens T B H K V BK BV IS_BETA_HEADWISE i_v i_nh u o).

Lemma state_entry_ref (s : option (mem R)) i j :
  match s with
  | Some s0 =>
      add zero (tl_load2 s0 (state_ptr K V BK BV i_v i_nh) (state_mask K V BK BV i_v) i j)
  | None => zero
  end =
  if (i <? K) && vmask j then state_of s K V (i_nh / H * H + i_nh mod H) i (i_v * BV + j)
  else zero.
Proof.
  assert (E : i_nh / H * H + i_nh mod H = i_nh)
    by (pose proof (Z.div_mod i_nh H); lia).
  rewrite E. unfold state_of, tl_load2, state_mask, state_ptr.
  rewrite Z.mul_0_l, !Z.add_0_l.
  destruct s as [s0|]; destruct ((i <? K) && (i_v * BV + j <? V));
    try reflexivity; ring.
Qed.

Lemma blk_k_ref t i :
  blk_k c init t i = if i <? K then hd_k d t i else zero.
Proof.
  unfold blk_k, tl_load. cbn.
  destruct (i <? K); [|reflexivity].
  unfold rows, row_k. cbn. f_equal. unfold prog_bos. lia.
Qed.

Lemma blk_q_ref t i :
  blk_q c init t i = mul (if i <? K then hd_q d t i else zero) scale.
Proof.
  unfold blk_q, tl_load. cbn.
  destruct (i <? K); [|reflexivity].
  unfold rows, row_k. cbn. do 2 f_equal. unfold prog_bos. lia.
Qed.

Lemma blk_v_ref t j :
  blk_v c init t j = if vmask j then hd_v d t (i_v * BV + j) else zero.
Proof.
  unfold blk_v, tl_load. cbn.
  destruct (i_v * BV + j <? V); [|reflexivity].
  unfold rows, row_v. cbn. f_equal. unfold prog_bos. lia.
Qed.

Lemma blk_beta_ref t j :
  vmask j = true -> blk_beta c init t j = hd_beta d t (i_v * BV + j).
Proof.
  intros Hm. unfold blk_beta, tl_load, row_beta, beta_rows. cbn.
  unfold beta_rows, rows, rows_scalar, prog_bos.
  destruct IS_BETA_HEADWISE.
  - rewrite Hm. f_equal. lia.
  - f_equal. lia.
Qed.

(** The state block holds the columns of the state this program handles,
    and zeros in the lanes beyond [K] and [V]. *)
Lemma blk_h_ref t j i :
  blk_h c init t j i =
  if (i <? K) && vmask j then ref_state d t i (i_v * BV + j) else zero.
Proof.
  revert j i. induction t as [|t IH]; intros j i.
  - cbn [blk_h ref_state]. unfold fwd_entry. cbn [f_h].
    replace (hd_h0 d) with (state_of h0 K V (i_nh / H * H + i_nh mod H)) by reflexivity.
    rewrite <- (state_entry_ref h0 i j).
    destruct h0; reflexivity.
  - cbn [blk_h ref_state]. rewrite IH.
    assert (Ed : vmask j = true ->
      blk_delta c init (blk_h c init t) t j = ref_delta d (ref_state d t) t (i_v * BV + j)).
    { intros Hm. unfold blk_delta, ref_delta. rewrite blk_v_ref, Hm. f_equal.
      change (ba_BK c) with BK. change (hd_K d) with K.
      rewrite (tl_sum_trunc K BK) by
        first [lia | intros i0 Hi0; rewrite blk_k_ref;
         destruct (Z.ltb_spec i0 K); [lia|ring]].
      apply tl_sum_ext. intros i0 Hi0. rewrite IH, blk_k_ref, Hm.
      destruct (Z.ltb_spec i0 K); [reflexivity|lia]. }
    rewrite blk_k_ref.
    destruct (i <? K); cbn [andb]; [|ring].
    destruct (i_v * BV + j <? V) eqn:Hm.
    + rewrite Ed by reflexivity. rewrite blk_beta_ref by exact Hm. reflexivity.
    + unfold blk_delta. rewrite blk_v_ref, Hm.
      rewrite tl_sum_zero; [ring|].
      intros i0 _. rewrite IH, Hm, andb_false_r. ring.
Qed.

Lemma blk_u_ref t j :
  vmask j = true -> blk_u c init t j = ref_u d t (i_v * BV + j).
Proof.
  intros Hm. unfold blk_u, ref_u, blk_delta, ref_delta.
  rewrite blk_v_ref, Hm. f_equal.
  change (ba_BK c) with BK. change (hd_K d) with K.
  rewrite (tl_sum_trunc K BK) by
    first [lia | intros i0 Hi0; rewrite blk_k_ref;
     destruct (Z.ltb_spec i0 K); [lia|ring]].
  apply tl_sum_ext. intros i0 Hi0. rewrite blk_h_ref, blk_k_ref, Hm.
  destruct (Z.ltb_spec i0 K); [reflexivity|lia].
Qed.

Lemma blk_o_ref t j :
  vmask j = true -> blk_o c init t j = ref_o d t (i_v * BV + j).
Proof.
  intros Hm. unfold blk_o, ref_o.
  change (ba_BK c) with BK. change (hd_K d) with K.
  rewrite (tl_sum_trunc K BK) by
    first [lia | intros i0 Hi0; rewrite blk_q_ref;
     destruct (Z.ltb_spec i0 K); [lia|ring]].
  apply tl_sum_ext. intros i0 Hi0. rewrite blk_h_ref, blk_q_ref, Hm.
  destruct (Z.ltb_spec i0 K); [reflexivity|lia].
Qed.

End Forward.

Section Backward.
Variables dq dk dv db : mem R.
Local Abbreviation init1 :=
  (bwd_entry1 dht cu_seqlens T B H K V BK BV NK IS_BETA_HEADWISE i_v i_nh dk dv db).
Local Abbreviation Tn := (hd_T d).
Local Abbreviation len := (prog_len cu_seqlens T H i_nh).

Lemma Tn_len : Z.of_nat Tn = Z.max 0 len.
Proof. cbn. unfold prog_len. lia. Qed.

Lemma rev_step (n : nat) :
  (n < Tn)%nat -> Z.of_nat (Tn - 1 - n) = len - 1 - Z.of_nat n.
Proof. pose proof Tn_len. lia. Qed.

Ltac rev_row Hn :=
  let E := fresh "E" in
  pose proof (rev_step _ Hn) as E; cbn - [Nat.sub] in E;
  unfold rows, rows_scalar, row_k, row_v, row_beta; cbn - [Nat.sub];
  rewrite ?E; unfold prog_bos, prog_len.

Lemma blkA_k_ref n i :
  (n < Tn)%nat ->
  blkA_k c init1 n i = if i <? K then hd_k d (Tn - 1 - n) i else zero.
Proof.
  intros Hn. unfold blkA_k, tl_load. cbn - [Nat.sub].
  destruct (i <? K); [|reflexivity].
  rev_row Hn. f_equal. lia.
Qed.

Lemma blkA_q_ref n i :
  (n < Tn)%nat ->
  blkA_q c init1 n i = mul (if i <? K then hd_q d (Tn - 1 - n) i else zero) scale.
Proof.
  intros Hn. unfold blkA_q, tl_load. cbn - [Nat.sub].
  destruct (i <? K); [|reflexivity].
  rev_row Hn. do 2 f_equal. lia.
Qed.

Lemma blkA_v_ref n j :
  (n < Tn)%nat ->
  blkA_v c init1 n j = if vmask j then hd_v d (Tn - 1 - n) (i_v * BV + j) else zero.
Proof.
  intros Hn. unfold blkA_v, tl_load. cbn - [Nat.sub].
  destruct (i_v * BV + j <? V); [|reflexivity].
  rev_row Hn. f_equal. lia.
Qed.

Lemma blkA_do_ref n j :
  (n < Tn)%nat ->
  blkA_do c init1 n j = if vmask j then hd_do d (Tn - 1 - n) (i_v * BV + j) else zero.
Proof.
  intros Hn. unfold blkA_do, tl_load. cbn - [Nat.sub].
  destruct (i_v * BV + j <? V); [|reflexivity].
  rev_row Hn. f_equal. lia.
Qed.

Lemma blkA_beta_ref n j :
  (n < Tn)%nat -> vmask j = true ->
  blkA_beta c init1 n j = hd_beta d (Tn - 1 - n) (i_v * BV + j).
Proof.
  intros Hn Hm. unfold blkA_beta, tl_load, beta_rows. cbn - [Nat.sub].
  unfold beta_rows.
  destruct IS_BETA_HEADWISE.
  - rewrite Hm. rev_row Hn. f_equal. lia.
  - rev_row Hn. f_equal. lia.
Qed.

Local Abbreviation holds := (block_holds K V BV i_v).

Lemma blkA_acc_ref g G n :
  (n < Tn)%nat -> holds g G ->
  holds (blkA_acc c init1 g n) (refA_acc d G (Tn - 1 - n)).
Proof.
  intros Hn Hg i j. unfold blkA_acc, refA_acc.
  rewrite Hg, blkA_q_ref, blkA_do_ref by exact Hn.
  destruct (i <? K); destruct (i_v * BV + j <? V); cbn [andb];
    try reflexivity; ring.
Qed.

Lemma blkA_dvp_ref g G n j :
  (n < Tn)%nat -> holds g G ->
  blkA_dvp c init1 g n j =
  if vmask j then refA_dvp d (refA_acc d G (Tn - 1 - n)) (Tn - 1 - n) (i_v * BV + j)
  else zero.
Proof.
  intros Hn Hg. unfold blkA_dvp, refA_dvp.
  change (ba_BK c) with BK. change (hd_K d) with K.
  pose proof (blkA_acc_ref g G n Hn Hg) as Ha.
  destruct (i_v * BV + j <? V) eqn:Hm.
  - rewrite (tl_sum_trunc K BK) by
      first [lia | intros i0 Hi0; rewrite blkA_k_ref by exact Hn;
                   destruct (Z.ltb_spec i0 K); [lia|ring]].
    apply tl_sum_ext. intros i0 Hi0. rewrite Ha, blkA_k_ref, Hm by exact Hn.
    destruct (Z.ltb_spec i0 K); [reflexivity|lia].
  - apply tl_sum_zero. intros i0 _. rewrite Ha, Hm, andb_false_r. ring.
Qed.

Lemma blkA_dv_ref g G n j :
  (n < Tn)%nat -> holds g G ->
  blkA_dv c init1 g n j =
  if vmask j then refA_dv d (refA_acc d G (Tn - 1 - n)) (Tn - 1 - n) (i_v * BV + j)
  else zero.
Proof.
  intros Hn Hg. unfold blkA_dv, refA_dv.
  rewrite (blkA_dvp_ref g G n j Hn Hg).
  destruct (i_v * BV + j <? V) eqn:Hm; [|ring].
  rewrite blkA_beta_ref by assumption. reflexivity.
Qed.

Lemma blkA_dh_ref n :
  (n <= Tn)%nat -> holds (blkA_dh c init1 n) (refA_G d n).
Proof.
  induction n as [|n IH]; intros Hn i j.
  - cbn [blkA_dh refA_G]. unfold bwd_entry1. cbn [r_dh].
    replace (hd_dht d) with (state_of dht K V (i_nh / H * H + i_nh mod H)) by reflexivity.
    rewrite <- (state_entry_ref dht i j).
    destruct dht; reflexivity.
  - cbn [blkA_dh refA_G]. cbv zeta. unfold refA_undo.
    assert (Hn' : (n < Tn)%nat) by lia.
    assert (IH' : holds (blkA_dh c init1 n) (refA_G d n)) by (apply IH; lia).
    rewrite (blkA_acc_ref _ _ n Hn' IH' i j).
    rewrite (blkA_dv_ref _ _ n j Hn' IH'), blkA_k_ref by exact Hn'.
    destruct (i <? K); destruct (i_v * BV + j <? V); cbn [andb];
      try reflexivity; ring.
Qed.

(** What the first loop stores for timestep [t]. *)
Lemma rev_rev (t : nat) : (t < Tn)%nat -> (Tn - 1 - (Tn - 1 - t) = t)%nat.
Proof. lia. Qed.

Lemma blkA_dk_at_ref t i :
  (t < Tn)%nat -> (i <? K) = true ->
  blkA_dk_at c init1 (Tn - 1 - t) i =
  block_sum BV V i_v (fun j => mul (ref_G d t i j) (mul (hd_v d t j) (hd_beta d t j))).
Proof.
  intros Ht Hi. unfold blkA_dk_at, blkA_dk, block_sum.
  assert (Hn : (Tn - 1 - t < Tn)%nat) by lia.
  pose proof (blkA_acc_ref _ _ _ Hn (blkA_dh_ref (Tn - 1 - t) ltac:(lia))) as Ha.
  rewrite (rev_rev t Ht) in Ha.
  apply tl_sum_ext. intros j _.
  rewrite Ha, Hi, blkA_v_ref by exact Hn. rewrite (rev_rev t Ht). cbn [andb].
  destruct (i_v * BV + j <? V) eqn:Hm; [|ring].
  rewrite blkA_beta_ref by assumption. rewrite (rev_rev t Ht). reflexivity.
Qed.

Lemma blkA_dv_at_ref t j :
  (t < Tn)%nat ->
  blkA_dv_at c init1 (Tn - 1 - t) j =
  if vmask j then ref_dv d t (i_v * BV + j) else zero.
Proof.
  intros Ht. unfold blkA_dv_at, ref_dv, ref_G.
  assert (Hn : (Tn - 1 - t < Tn)%nat) by lia.
  rewrite (blkA_dv_ref _ _ _ j Hn (blkA_dh_ref (Tn - 1 - t) ltac:(lia))).
  rewrite (rev_rev t Ht). reflexivity.
Qed.

Lemma blkA_db_at_ref t j :
  (t < Tn)%nat ->
  blkA_db_at c init1 (Tn - 1 - t) j =
  if vmask j then ref_dbeta d t (i_v * BV + j) else zero.
Proof.
  intros Ht. unfold blkA_db_at, blkA_db, ref_dbeta, ref_G.
  assert (Hn : (Tn - 1 - t < Tn)%nat) by lia.
  rewrite (blkA_dvp_ref _ _ _ j Hn (blkA_dh_ref (Tn - 1 - t) ltac:(lia))).
  rewrite blkA_v_ref by exact Hn.
  rewrite (rev_rev t Ht).
  destruct (i_v * BV + j <? V); [reflexivity|ring].
Qed.

Lemma blkA_dbsum_at_ref t j :
  (t < Tn)%nat ->
  blkA_dbsum_at c init1 (Tn - 1 - t) j = block_sum BV V i_v (ref_dbeta d t).
Proof.
  intros Ht. unfold blkA_dbsum_at, block_sum.
  apply tl_sum_ext. intros j0 _. apply blkA_db_at_ref. exact Ht.
Qed.

(** The second loop. *)

Variables dkA dvA : mem R.
Local Abbreviation init2 :=
  (bwd_entry2 h0 cu_seqlens T B H K V BK BV IS_BETA_HEADWISE i_v i_nh dq dkA).

Lemma blkB_k_ref n i :
  blkB_k c init2 n i = if i <? K then hd_k d n i else zero.
Proof.
  unfold blkB_k, tl_load. cbn.
  destruct (i <? K); [|reflexivity].
  unfold rows, row_k. cbn. f_equal. unfold prog_bos. lia.
Qed.

Lemma blkB_v_ref n j :
  blkB_v c init2 n j = if vmask j then hd_v d n (i_v * BV + j) else zero.
Proof.
  unfold blkB_v, tl_load. cbn.
  destruct (i_v * BV + j <? V); [|reflexivity].
  unfold rows, row_v. cbn. f_equal. unfold prog_bos. lia.
Qed.

Lemma blkB_do_ref n j :
  blkB_do c init2 n j = if vmask j then hd_do d n (i_v * BV + j) else zero.
Proof.
  unfold blkB_do, tl_load. cbn.
  destruct (i_v * BV + j <? V); [|reflexivity].
  unfold rows, row_v. cbn. f_equal. unfold prog_bos. lia.
Qed.

Lemma blkB_beta_ref n j :
  vmask j = true -> blkB_beta c init2 n j = hd_beta d n (i_v * BV + j).
Proof.
  intros Hm. unfold blkB_beta, tl_load, row_beta, beta_rows. cbn.
  unfold beta_rows, rows, rows_scalar, prog_bos.
  destruct IS_BETA_HEADWISE.
  - rewrite Hm. f_equal. lia.
  - f_equal. lia.
Qed.

Lemma blkB_h_ref n : holds (blkB_h c init2 n) (refB_state d n).
Proof.
  induction n as [|n IH]; intros i j.
  - cbn [blkB_h refB_state]. unfold bwd_entry2. cbn [s_h].
    replace (hd_h0 d) with (state_of h0 K V (i_nh / H * H + i_nh mod H)) by reflexivity.
    rewrite <- (state_entry_ref h0 i j).
    destruct h0; reflexivity.
  - cbn [blkB_h refB_state]. rewrite (IH i j), blkB_k_ref, blkB_v_ref.
    destruct (i <? K); cbn [andb]; [|ring].
    destruct (i_v * BV + j <? V) eqn:Hm; [|ring].
    rewrite blkB_beta_ref by exact Hm. reflexivity.
Qed.

Lemma blkB_dq_ref n i :
  (i <? K) = true ->
  blkB_dq c init2 n i =
  mul (block_sum BV V i_v (fun j => mul (refB_state d (S n) i j) (hd_do d n j))) scale.
Proof.
  intros Hi. unfold blkB_dq, block_sum. cbn [ba_scale prog_args]. f_equal.
  apply tl_sum_ext. intros j _.
  rewrite (blkB_h_ref (S n) i j), Hi, blkB_do_ref. cbn [andb].
  destruct (i_v * BV + j <? V); [reflexivity|ring].
Qed.

Lemma blkB_dk_ref n i :
  (i <? K) = true ->
  dkA (s_pdk init2 + Z.of_nat n * row_k c + i) =
    block_sum BV V i_v
      (fun j => mul (ref_G d n i j) (mul (hd_v d n j) (hd_beta d n j))) ->
  (forall j, 0 <= j < BV -> vmask j = true ->
     dvA (s_pdv init2 + Z.of_nat n * row_v c + j) = ref_dv d n (i_v * BV + j)) ->
  blkB_dk c init2 dvA n i =
  sub (block_sum BV V i_v
         (fun j => mul (ref_G d n i j) (mul (hd_v d n j) (hd_beta d n j))))
      (block_sum BV V i_v (fun j => mul (refB_state d n i j) (ref_dv d n j))).
Proof.
  intros Hi Hdk Hdv. unfold blkB_dk.
  replace (tl_load (s_dk init2) (s_pdk init2 + Z.of_nat n * row_k c) (ba_mask_k c) i)
    with (dkA (s_pdk init2 + Z.of_nat n * row_k c + i)).
  2:{ unfold tl_load. cbn. cbn in Hi. rewrite Hi. reflexivity. }
  rewrite Hdk. f_equal. unfold block_sum.
  apply tl_sum_ext. intros j Hj.
  rewrite (blkB_h_ref n i j), Hi. cbn [andb].
  unfold tl_load. cbn [ba_mask_v prog_args].
  destruct (i_v * BV + j <? V) eqn:Hm; [|ring].
  rewrite Hdv by assumption. ring.
Qed.

End Backward.

(** ** What a program leaves in the buffers *)

Section ProgramEffect.
Hypothesis i_v_nonneg : 0 <= i_v.
Hypothesis BV_nonneg : 0 <= BV.
Hypothesis V_nonneg : 0 <= V.

Local Abbreviation Tn := (hd_T d).
Local Abbreviation hh := (i_nh mod H).

Lemma mask_k_width :
  forall i, 0 <= i < ba_BK c -> ba_mask_k c i = true -> i < row_k c.
Proof.
  cbn. unfold row_k. cbn. intros i Hi Hm. apply Z.ltb_lt in Hm. nia.
Qed.

Lemma mask_v_width :
  forall j, 0 <= j < ba_BV c -> ba_mask_v c j = true -> j < row_v c.
Proof.
  cbn. unfold row_v. cbn. intros j Hj Hm. apply Z.ltb_lt in Hm. nia.
Qed.

Local Abbreviation in_block := (in_block BV V i_v).

Lemma fwd_program_writes (bufs : fwd_bufs) (t : nat) (j : Z) :
  (t < Tn)%nat -> in_block j ->
  let r := fused_recurrent_delta_rule_fwd_kernel q k v beta h0 cu_seqlens scale
             T B H K V BK BV IS_BETA_HEADWISE (i_v, 0, i_nh) bufs in
  fb_u r (((bos + Z.of_nat t) * H + hh) * V + j) = ref_u d t j /\
  fb_o r (((bos + Z.of_nat t) * H + hh) * V + j) = ref_o d t j.
Proof.
  intros Ht [Hj HjV]. rewrite fwd_kernel_unfold with (do := do). cbv zeta. cbn [fb_u fb_o].
  destruct (fwd_loop_inv c mask_v_width
              (fwd_entry h0 cu_seqlens T B H K V BK BV IS_BETA_HEADWISE i_v i_nh
                 (fb_u bufs) (fb_o bufs)) (Z.to_nat (prog_len cu_seqlens T H i_nh)))
    as (_ & _ & _ & _ & _ & _ & _ & [Uin _] & [Oin _]).
  assert (Hm : vmask (j - i_v * BV) = true) by (apply Z.ltb_lt; lia).
  specialize (Uin t (j - i_v * BV) Ht ltac:(cbn; lia) Hm).
  specialize (Oin t (j - i_v * BV) Ht ltac:(cbn; lia) Hm).
  rewrite blk_u_ref in Uin by exact Hm.
  rewrite blk_o_ref in Oin by exact Hm.
  replace (i_v * BV + (j - i_v * BV)) with j in * by lia.
  split.
  - rewrite <- Uin. f_equal. unfold row_v. cbn. lia.
  - rewrite <- Oin. f_equal. unfold row_v. cbn. lia.
Qed.

Lemma fwd_program_frame (bufs : fwd_bufs) (a : Z) :
  (forall t j, (t < Tn)%nat -> in_block j ->
     a <> ((bos + Z.of_nat t) * H + hh) * V + j) ->
  let r := fused_recurrent_delta_rule_fwd_kernel q k v beta h0 cu_seqlens scale
             T B H K V BK BV IS_BETA_HEADWISE (i_v, 0, i_nh) bufs in
  fb_u r a = fb_u bufs a /\ fb_o r a = fb_o bufs a.
Proof.
  intros Ha. rewrite fwd_kernel_unfold with (do := do). cbv zeta. cbn [fb_u fb_o].
  destruct (fwd_loop_inv c mask_v_width
              (fwd_entry h0 cu_seqlens T B H K V BK BV IS_BETA_HEADWISE i_v i_nh
                 (fb_u bufs) (fb_o bufs)) (Z.to_nat (prog_len cu_seqlens T H i_nh)))
    as (_ & _ & _ & _ & _ & _ & _ & [_ Uout] & [_ Oout]).
  split.
  - rewrite Uout; [reflexivity|].
    intros t j Ht Hj Hm. cbn in Hj, Hm. apply Z.ltb_lt in Hm.
    specialize (Ha t (i_v * BV + j) Ht ltac:(split; lia)).
    intros E. apply Ha. rewrite E. unfold row_v. cbn. lia.
  - rewrite Oout; [reflexivity|].
    intros t j Ht Hj Hm. cbn in Hj, Hm. apply Z.ltb_lt in Hm.
    specialize (Ha t (i_v * BV + j) Ht ltac:(split; lia)).
    intros E. apply Ha. rewrite E. unfold row_v. cbn. lia.
Qed.

Lemma state_ptr_inj (a b a' b' : Z) :
  0 <= a -> 0 <= a' -> vmask b = true -> vmask b' = true -> 0 <= b -> 0 <= b' ->
  state_ptr K V BK BV i_v i_nh a b = state_ptr K V BK BV i_v i_nh a' b' ->
  a = a' /\ b = b'.
Proof.
  unfold state_ptr. intros Ha Ha' Hm Hm' Hb Hb' E.
  apply Z.ltb_lt in Hm, Hm'.
  assert (a = a') by nia. subst a'. split; [reflexivity|lia].
Qed.

Lemma fwd_program_ht_writes (bufs : fwd_bufs) (i j : Z) :
  fb_ht bufs <> None -> 0 <= i < K -> in_block j ->
  let r := fused_recurrent_delta_rule_fwd_kernel q k v beta h0 cu_seqlens scale
             T B H K V BK BV IS_BETA_HEADWISE (i_v, 0, i_nh) bufs in
  ht_at r (i_nh * K * V + i * V + j) = ref_state d Tn i j.
Proof.
  intros Hs Hi [Hj HjV]. rewrite fwd_kernel_unfold with (do := do). cbv zeta.
  unfold ht_at. cbn [fb_ht].
  destruct (fb_ht bufs) as [ht|]; [clear Hs|congruence].
  destruct (fwd_loop_inv c mask_v_width
              (fwd_entry h0 cu_seqlens T B H K V BK BV IS_BETA_HEADWISE i_v i_nh
                 (fb_u bufs) (fb_o bufs)) (Z.to_nat (prog_len cu_seqlens T H i_nh)))
    as (_ & _ & _ & _ & _ & _ & Eh & _ & _).
  assert (Hm : vmask (j - i_v * BV) = true) by (apply Z.ltb_lt; lia).
  assert (Hk : (i <? K) = true) by (apply Z.ltb_lt; lia).
  replace (i_nh * K * V + i * V + j)
    with (state_ptr K V BK BV i_v i_nh i (j - i_v * BV))
    by (unfold state_ptr; lia).
  etransitivity.
  - apply (tl_store2_in BV BK ht (fun j i => state_ptr K V BK BV i_v i_nh i j) _
             (fun j i => state_mask K V BK BV i_v i j) (j - i_v * BV) i).
    + intros a b a' b' Ha Hb Ha' Hb' Ma Ma' E.
      unfold state_mask in Ma, Ma'. apply andb_prop in Ma, Ma'.
      destruct (state_ptr_inj b a b' a') as [? ?]; try tauto; try lia.
    + lia.
    + lia.
    + unfold state_mask. rewrite Z.mul_0_l, Z.add_0_l, Hk, Hm. reflexivity.
  - rewrite Eh, blk_h_ref, Hm, Hk. cbn [andb].
    replace (i_v * BV + (j - i_v * BV)) with j by lia. reflexivity.
Qed.

Lemma fwd_program_ht_frame (bufs : fwd_bufs) (a : Z) :
  (forall i j, 0 <= i < K -> in_block j -> a <> i_nh * K * V + i * V + j) ->
  let r := fused_recurrent_delta_rule_fwd_kernel q k v beta h0 cu_seqlens scale
             T B H K V BK BV IS_BETA_HEADWISE (i_v, 0, i_nh) bufs in
  ht_at r a = ht_at bufs a.
Proof.
  intros Ha. rewrite fwd_kernel_unfold with (do := do). cbv zeta.
  unfold ht_at. cbn [fb_ht].
  destruct (fb_ht bufs) as [ht|]; [|reflexivity].
  apply tl_store2_out. intros j i Hj Hi Hm.
  unfold state_mask in Hm. rewrite Z.mul_0_l, Z.add_0_l in Hm.
  apply andb_prop in Hm. destruct Hm as [Hk Hv]. apply Z.ltb_lt in Hk, Hv.
  specialize (Ha i (i_v * BV + j) ltac:(lia) ltac:(split; lia)).
  unfold state_ptr. lia.
Qed.

(** The backward kernel. *)

Local Abbreviation all := (prog_all cu_seqlens T B).
Local Abbreviation bwd_kernel :=
  (bwd_kernel_program q k v beta h0 dht do cu_seqlens scale
     B T H K V BK BV NK IS_BETA_HEADWISE (i_v, 0, i_nh)).
Local Abbreviation entry1 := (fun bufs : bwd_bufs =>
  bwd_entry1 dht cu_seqlens T B H K V BK BV NK IS_BETA_HEADWISE i_v i_nh
    (bb_dk bufs) (bb_dv bufs) (bb_db bufs)).

Lemma rev_index (t : nat) :
  (t < Tn)%nat ->
  Z.of_nat (Tn - 1 - t) = prog_len cu_seqlens T H i_nh - 1 - Z.of_nat t.
Proof. cbn. unfold prog_len. lia. Qed.

Lemma bwd_program_dv (bufs : bwd_bufs) (t : nat) (j : Z) :
  (t < Tn)%nat -> in_block j ->
  bb_dv (bwd_kernel bufs) (((bos + Z.of_nat t) * H + hh) * V + j) = ref_dv d t j.
Proof.
  intros Ht [Hj HjV]. rewrite bwd_kernel_unfold. cbv zeta. cbn [bb_dv].
  destruct (bwd_loop1_inv c H_pos mask_k_width mask_v_width (entry1 bufs)
              (Z.to_nat (prog_len cu_seqlens T H i_nh)))
    as (_ & _ & _ & _ & _ & _ & _ & _ & _ & _ & [Vin _] & _).
  assert (Hm : vmask (j - i_v * BV) = true) by (apply Z.ltb_lt; lia).
  change (Z.to_nat (prog_len cu_seqlens T H i_nh)) with Tn in Vin.
  specialize (Vin (Tn - 1 - t)%nat (j - i_v * BV) ltac:(lia) ltac:(cbn; lia) Hm).
  rewrite blkA_dv_at_ref in Vin by exact Ht. rewrite Hm in Vin.
  replace (i_v * BV + (j - i_v * BV)) with j in Vin by lia.
  rewrite <- Vin. f_equal. rewrite (rev_index t Ht). unfold row_v. cbn. lia.
Qed.

Lemma bwd_program_dv_frame (bufs : bwd_bufs) (a : Z) :
  (forall t j, (t < Tn)%nat -> in_block j ->
     a <> ((bos + Z.of_nat t) * H + hh) * V + j) ->
  bb_dv (bwd_kernel bufs) a = bb_dv bufs a.
Proof.
  intros Ha. rewrite bwd_kernel_unfold. cbv zeta. cbn [bb_dv].
  destruct (bwd_loop1_inv c H_pos mask_k_width mask_v_width (entry1 bufs)
              (Z.to_nat (prog_len cu_seqlens T H i_nh)))
    as (_ & _ & _ & _ & _ & _ & _ & _ & _ & _ & [_ Vout] & _).
  change (Z.to_nat (prog_len cu_seqlens T H i_nh)) with Tn in Vout.
  rewrite Vout; [reflexivity|].
  intros n j Hn Hj Hm. cbn in Hj, Hm. apply Z.ltb_lt in Hm.
  assert (Ht : (Tn - 1 - n < Tn)%nat) by lia.
  specialize (Ha (Tn - 1 - n)%nat (i_v * BV + j) Ht ltac:(split; lia)).
  intros E. apply Ha. rewrite E. rewrite (rev_index n Hn).
  unfold row_v. cbn. lia.
Qed.

Lemma bwd_program_db_vector (bufs : bwd_bufs) (t : nat) (j : Z) :
  IS_BETA_HEADWISE = true -> (t < Tn)%nat -> in_block j ->
  bb_db (bwd_kernel bufs)
    ((((i_v * NK + 0) * all + bos + Z.of_nat t) * H + hh) * V + (j - i_v * BV))
  = ref_dbeta d t j.
Proof.
  intros Hw Ht [Hj HjV]. rewrite bwd_kernel_unfold. cbv zeta. cbn [bb_db].
  destruct (bwd_loop1_inv c H_pos mask_k_width mask_v_width (entry1 bufs)
              (Z.to_nat (prog_len cu_seqlens T H i_nh)))
    as (_ & _ & _ & _ & _ & _ & _ & _ & _ & _ & _ & Sb).
  change (Z.to_nat (prog_len cu_seqlens T H i_nh)) with Tn in Sb.
  change (ba_headwise c) with IS_BETA_HEADWISE in Sb.
  apply (if_true_prop _ _ _ Hw) in Sb. destruct Sb as [Bin _].
  assert (Hm : vmask (j - i_v * BV) = true) by (apply Z.ltb_lt; lia).
  specialize (Bin (Tn - 1 - t)%nat (j - i_v * BV) ltac:(lia) ltac:(cbn; lia) Hm).
  rewrite blkA_db_at_ref in Bin by exact Ht. rewrite Hm in Bin.
  replace (i_v * BV + (j - i_v * BV)) with j in Bin by lia.
  rewrite <- Bin. f_equal. rewrite (rev_index t Ht).
  unfold row_beta. cbn. rewrite Hw. unfold prog_all, prog_bos. lia.
Qed.

Lemma bwd_program_db_vector_frame (bufs : bwd_bufs) (a : Z) :
  IS_BETA_HEADWISE = true ->
  (forall t j, (t < Tn)%nat -> in_block j ->
     a <> (((i_v * NK + 0) * all + bos + Z.of_nat t) * H + hh) * V + (j - i_v * BV)) ->
  bb_db (bwd_kernel bufs) a = bb_db bufs a.
Proof.
  intros Hw Ha. rewrite bwd_kernel_unfold. cbv zeta. cbn [bb_db].
  destruct (bwd_loop1_inv c H_pos mask_k_width mask_v_width (entry1 bufs)
              (Z.to_nat (prog_len cu_seqlens T H i_nh)))
    as (_ & _ & _ & _ & _ & _ & _ & _ & _ & _ & _ & Sb).
  change (Z.to_nat (prog_len cu_seqlens T H i_nh)) with Tn in Sb.
  change (ba_headwise c) with IS_BETA_HEADWISE in Sb.
  apply (if_true_prop _ _ _ Hw) in Sb. destruct Sb as [_ Bout].
  rewrite Bout; [reflexivity|].
  intros n j Hn Hj Hm. cbn in Hj, Hm. apply Z.ltb_lt in Hm.
  assert (Ht : (Tn - 1 - n < Tn)%nat) by lia.
  specialize (Ha (Tn - 1 - n)%nat (i_v * BV + j) Ht ltac:(split; lia)).
  intros E. apply Ha. rewrite E. rewrite (rev_index n Hn).
  unfold row_beta. cbn. rewrite Hw. unfold prog_all, prog_bos. lia.
Qed.

Lemma bwd_program_db_scalar (bufs : bwd_bufs) (t : nat) :
  IS_BETA_HEADWISE = false -> (t < Tn)%nat ->
  bb_db (bwd_kernel bufs) ((i_v * all + bos + Z.of_nat t) * H + hh)
  = block_sum BV V i_v (ref_dbeta d t).
Proof.
  intros Hw Ht. rewrite bwd_kernel_unfold. cbv zeta. cbn [bb_db].
  destruct (bwd_loop1_inv c H_pos mask_k_width mask_v_width (entry1 bufs)
              (Z.to_nat (prog_len cu_seqlens T H i_nh)))
    as (_ & _ & _ & _ & _ & _ & _ & _ & _ & _ & _ & Sb).
  change (Z.to_nat (prog_len cu_seqlens T H i_nh)) with Tn in Sb.
  change (ba_headwise c) with IS_BETA_HEADWISE in Sb.
  apply (if_false_prop _ _ _ Hw) in Sb. destruct Sb as [Bin _].
  specialize (Bin (Tn - 1 - t)%nat 0 ltac:(lia) ltac:(lia) eq_refl).
  rewrite blkA_dbsum_at_ref in Bin by exact Ht.
  rewrite <- Bin. f_equal. rewrite (rev_index t Ht).
  unfold row_beta. cbn. rewrite Hw. unfold prog_all, prog_bos. lia.
Qed.

Lemma bwd_program_db_scalar_frame (bufs : bwd_bufs) (a : Z) :
  IS_BETA_HEADWISE = false ->
  (forall t, (t < Tn)%nat -> a <> (i_v * all + bos + Z.of_nat t) * H + hh) ->
  bb_db (bwd_kernel bufs) a = bb_db bufs a.
Proof.
  intros Hw Ha. rewrite bwd_kernel_unfold. cbv zeta. cbn [bb_db].
  destruct (bwd_loop1_inv c H_pos mask_k_width mask_v_width (entry1 bufs)
              (Z.to_nat (prog_len cu_seqlens T H i_nh)))
    as (_ & _ & _ & _ & _ & _ & _ & _ & _ & _ & _ & Sb).
  change (Z.to_nat (prog_len cu_seqlens T H i_nh)) with Tn in Sb.
  change (ba_headwise c) with IS_BETA_HEADWISE in Sb.
  apply (if_false_prop _ _ _ Hw) in Sb. destruct Sb as [_ Bout].
  rewrite Bout; [reflexivity|].
  intros n j Hn Hj _.
  assert (Ht : (Tn - 1 - n < Tn)%nat) by lia.
  specialize (Ha (Tn - 1 - n)%nat Ht).
  intros E. apply Ha. rewrite E. rewrite (rev_index n Hn).
  unfold row_beta. cbn. rewrite Hw. unfold prog_all, prog_bos. lia.
Qed.

Local Abbreviation pass1 := (fun bufs : bwd_bufs =>
  Nat.iter Tn (bwd_step1_of c) (entry1 bufs)).
Local Abbreviation entry2 := (fun bufs : bwd_bufs =>
  bwd_entry2 h0 cu_seqlens T B H K V BK BV IS_BETA_HEADWISE i_v i_nh
    (bb_dq bufs) (r_dk (pass1 bufs))).

Lemma pass1_dk (bufs : bwd_bufs) (t : nat) (i : Z) :
  (t < Tn)%nat -> 0 <= i < K ->
  r_dk (pass1 bufs) (((i_v * all + bos + Z.of_nat t) * H + hh) * K + i) =
  block_sum BV V i_v (fun j => mul (ref_G d t i j) (mul (hd_v d t j) (hd_beta d t j))).
Proof.
  intros Ht Hi.
  destruct (bwd_loop1_inv c H_pos mask_k_width mask_v_width (entry1 bufs) Tn)
    as (_ & _ & _ & _ & _ & _ & _ & _ & _ & [Kin _] & _ & _).
  assert (Hk : (i <? K) = true) by (apply Z.ltb_lt; lia).
  specialize (Kin (Tn - 1 - t)%nat i ltac:(lia) ltac:(cbn; lia) Hk).
  rewrite blkA_dk_at_ref in Kin by assumption.
  rewrite <- Kin. f_equal. rewrite (rev_index t Ht).
  unfold row_k. cbn. unfold prog_all, prog_bos. lia.
Qed.

Lemma pass1_dk_frame (bufs : bwd_bufs) (a : Z) :
  (forall t i, (t < Tn)%nat -> 0 <= i < K ->
     a <> ((i_v * all + bos + Z.of_nat t) * H + hh) * K + i) ->
  r_dk (pass1 bufs) a = bb_dk bufs a.
Proof.
  intros Ha.
  destruct (bwd_loop1_inv c H_pos mask_k_width mask_v_width (entry1 bufs) Tn)
    as (_ & _ & _ & _ & _ & _ & _ & _ & _ & [_ Kout] & _ & _).
  rewrite Kout; [reflexivity|].
  intros n i Hn Hi Hm. cbn in Hi, Hm. apply Z.ltb_lt in Hm.
  assert (Ht : (Tn - 1 - n < Tn)%nat) by lia.
  specialize (Ha (Tn - 1 - n)%nat i Ht ltac:(lia)).
  intros E. apply Ha. rewrite E. rewrite (rev_index n Hn).
  unfold row_k. cbn. unfold prog_all, prog_bos. lia.
Qed.

Lemma bwd_program_dq (bufs : bwd_bufs) (t : nat) (i : Z) :
  (t < Tn)%nat -> 0 <= i < K ->
  bb_dq (bwd_kernel bufs) (((i_v * all + bos + Z.of_nat t) * H + hh) * K + i) =
  mul (block_sum BV V i_v (fun j => mul (refB_state d (S t) i j) (hd_do d t j))) scale.
Proof.
  intros Ht Hi. rewrite bwd_kernel_unfold. cbv zeta. cbn [bb_dq].
  change (Z.to_nat (prog_len cu_seqlens T H i_nh)) with Tn.
  destruct (bwd_loop2_inv c mask_k_width (r_dv (pass1 bufs)) (entry2 bufs) Tn)
    as (_ & _ & _ & _ & _ & _ & _ & _ & [Qin _] & _).
  assert (Hk : (i <? K) = true) by (apply Z.ltb_lt; lia).
  specialize (Qin t i Ht ltac:(cbn; lia) Hk).
  rewrite blkB_dq_ref in Qin by exact Hk.
  rewrite <- Qin. f_equal. unfold row_k. cbn. unfold prog_all, prog_bos. lia.
Qed.

Lemma bwd_program_dq_frame (bufs : bwd_bufs) (a : Z) :
  (forall t i, (t < Tn)%nat -> 0 <= i < K ->
     a <> ((i_v * all + bos + Z.of_nat t) * H + hh) * K + i) ->
  bb_dq (bwd_kernel bufs) a = bb_dq bufs a.
Proof.
  intros Ha. rewrite bwd_kernel_unfold. cbv zeta. cbn [bb_dq].
  change (Z.to_nat (prog_len cu_seqlens T H i_nh)) with Tn.
  destruct (bwd_loop2_inv c mask_k_width (r_dv (pass1 bufs)) (entry2 bufs) Tn)
    as (_ & _ & _ & _ & _ & _ & _ & _ & [_ Qout] & _).
  rewrite Qout; [reflexivity|].
  intros t i Ht Hi Hm. cbn in Hi, Hm. apply Z.ltb_lt in Hm.
  specialize (Ha t i Ht ltac:(lia)).
  intros E. apply Ha. rewrite E.
  unfold row_k. cbn. unfold prog_all, prog_bos. lia.
Qed.

Lemma bwd_program_dk (bufs : bwd_bufs) (t : nat) (i : Z) :
  (t < Tn)%nat -> 0 <= i < K ->
  bb_dk (bwd_kernel bufs) (((i_v * all + bos + Z.of_nat t) * H + hh) * K + i) =
  sub (block_sum BV V i_v
         (fun j => mul (ref_G d t i j) (mul (hd_v d t j) (hd_beta d t j))))
      (block_sum BV V i_v (fun j => mul (refB_state d t i j) (ref_dv d t j))).
Proof.
  intros Ht Hi. rewrite bwd_kernel_unfold. cbv zeta. cbn [bb_dk].
  change (Z.to_nat (prog_len cu_seqlens T H i_nh)) with Tn.
  destruct (bwd_loop2_inv c mask_k_width (r_dv (pass1 bufs)) (entry2 bufs) Tn)
    as (_ & _ & _ & _ & _ & _ & _ & _ & _ & [Kin _]).
  assert (Hk : (i <? K) = true) by (apply Z.ltb_lt; lia).
  specialize (Kin t i Ht ltac:(cbn; lia) Hk).
  rewrite blkB_dk_ref in Kin; try exact Hk.
  - rewrite <- Kin. f_equal. unfold row_k. cbn. unfold prog_all, prog_bos. lia.
  - rewrite <- (pass1_dk bufs t i Ht Hi). f_equal.
    unfold row_k. cbn. unfold prog_all, prog_bos. lia.
  - intros j Hj Hm.
    destruct (bwd_loop1_inv c H_pos mask_k_width mask_v_width (entry1 bufs) Tn)
      as (_ & _ & _ & _ & _ & _ & _ & _ & _ & _ & [Vin _] & _).
    specialize (Vin (Tn - 1 - t)%nat j ltac:(lia) ltac:(cbn; lia) Hm).
    rewrite blkA_dv_at_ref in Vin by exact Ht. rewrite Hm in Vin.
    rewrite <- Vin. f_equal. rewrite (rev_index t Ht).
    unfold row_v. cbn. unfold prog_all, prog_bos. lia.
Qed.

Lemma bwd_program_dk_frame (bufs : bwd_bufs) (a : Z) :
  (forall t i, (t < Tn)%nat -> 0 <= i < K ->
     a <> ((i_v * all + bos + Z.of_nat t) * H + hh) * K + i) ->
  bb_dk (bwd_kernel bufs) a = bb_dk bufs a.
Proof.
  intros Ha. rewrite bwd_kernel_unfold. cbv zeta. cbn [bb_dk].
  change (Z.to_nat (prog_len cu_seqlens T H i_nh)) with Tn.
  destruct (bwd_loop2_inv c mask_k_width (r_dv (pass1 bufs)) (entry2 bufs) Tn)
    as (_ & _ & _ & _ & _ & _ & _ & _ & _ & [_ Kout]).
  rewrite Kout.
  - apply pass1_dk_frame. exact Ha.
  - intros t i Ht Hi Hm. cbn in Hi, Hm. apply Z.ltb_lt in Hm.
    specialize (Ha t i Ht ltac:(lia)).
    intros E. apply Ha. rewrite E.
    unfold row_k. cbn. unfold prog_all, prog_bos. lia.
Qed.

Lemma bwd_program_dh0 (bufs : bwd_bufs) (i j : Z) :
  h0 <> None -> bb_dh0 bufs <> None -> 0 <= i < K -> in_block j ->
  dh0_at (bwd_kernel bufs) (i_nh * K * V + i * V + j) = ref_dh0 d i j.
Proof.
  intros Hh Hs Hi [Hj HjV]. rewrite bwd_kernel_unfold. cbv zeta.
  unfold dh0_at. cbn [bb_dh0].
  change (Z.to_nat (prog_len cu_seqlens T H i_nh)) with Tn.
  destruct h0 as [h0'|]; [clear Hh|congruence].
  destruct (bb_dh0 bufs) as [dh0|]; [clear Hs|congruence].
  destruct (bwd_loop1_inv c H_pos mask_k_width mask_v_width (entry1 bufs) Tn)
    as (_ & _ & _ & _ & _ & _ & _ & _ & Eh & _).
  assert (Hm : vmask (j - i_v * BV) = true) by (apply Z.ltb_lt; lia).
  assert (Hk : (i <? K) = true) by (apply Z.ltb_lt; lia).
  replace (i_nh * K * V + i * V + j)
    with (state_ptr K V BK BV i_v i_nh i (j - i_v * BV))
    by (unfold state_ptr; lia).
  etransitivity.
  - apply (tl_store2_in BK BV dh0 (state_ptr K V BK BV i_v i_nh) _
             (state_mask K V BK BV i_v) i (j - i_v * BV)).
    + intros a b a' b' Ha Hb Ha' Hb' Ma Ma' E.
      unfold state_mask in Ma, Ma'. apply andb_prop in Ma, Ma'.
      apply (state_ptr_inj a b a' b'); try tauto; lia.
    + lia.
    + lia.
    + unfold state_mask. rewrite Z.mul_0_l, Z.add_0_l, Hk, Hm. reflexivity.
  - rewrite Eh. rewrite (blkA_dh_ref _ _ _ Tn ltac:(lia) i (j - i_v * BV)).
    rewrite Hm, Hk. cbn [andb].
    replace (i_v * BV + (j - i_v * BV)) with j by lia. reflexivity.
Qed.

Lemma bwd_program_dh0_frame (bufs : bwd_bufs) (a : Z) :
  (forall i j, 0 <= i < K -> in_block j -> a <> i_nh * K * V + i * V + j) ->
  dh0_at (bwd_kernel bufs) a = dh0_at bufs a.
Proof.
  intros Ha. rewrite bwd_kernel_unfold. cbv zeta.
  unfold dh0_at. cbn [bb_dh0].
  destruct h0 as [h0'|]; [|reflexivity].
  destruct (bb_dh0 bufs) as [dh0|]; [|reflexivity].
  apply tl_store2_out. intros i j Hi Hj Hm.
  unfold state_mask in Hm. rewrite Z.mul_0_l, Z.add_0_l in Hm.
  apply andb_prop in Hm. destruct Hm as [Hk Hv]. apply Z.ltb_lt in Hk, Hv.
  specialize (Ha i (i_v * BV + j) ltac:(lia) ltac:(split; lia)).
  unfold state_ptr. lia.
Qed.

End ProgramEffect.
End ProgramReference.

(** * The grid *)

Section Grid.
Context {R : Type}.

Lemma In_arange (n x : Z) : In x (arange n) <-> 0 <= x < n.
Proof.
  unfold arange. rewrite in_map_iff. split.
  - intros (m & <- & Hm). apply in_seq in Hm. lia.
  - intros Hx. exists (Z.to_nat x). split; [lia|]. apply in_seq. lia.
Qed.

Lemma In_grid_programs (n0 n1 n2 : Z) (p : program) :
  In p (grid_programs (n0, n1, n2)) <->
  0 <= fst (fst p) < n0 /\ 0 <= snd (fst p) < n1 /\ 0 <= snd p < n2.
Proof.
  destruct p as [[a b] c]. cbn [fst snd]. unfold grid_programs.
  rewrite in_flat_map. split.
  - intros (c' & Hc & Hin). apply in_flat_map in Hin.
    destruct Hin as (b' & Hb & Hin). apply in_map_iff in Hin.
    destruct Hin as (a' & E & Ha). inversion E; subst.
    apply In_arange in Ha, Hb, Hc. lia.
  - intros (Ha & Hb & Hc). exists c. split; [apply In_arange; lia|].
    apply in_flat_map. exists b. split; [apply In_arange; lia|].
    apply in_map_iff. exists a. split; [reflexivity|apply In_arange; lia].
Qed.

Lemma program_eq_dec (p p' : program) : {p = p'} + {p <> p'}.
Proof. repeat decide equality. Qed.

Section Fold.
Variables S X : Type.
Variable run : program -> S -> S.
Variable get : S -> X.
Variable Inv : S -> Prop.

Lemma fold_left_keeps (l : list program) (s : S) (x : X) :
  Inv s -> get s = x ->
  (forall p s', In p l -> Inv s' -> Inv (run p s')) ->
  (forall p s', In p l -> Inv s' -> get s' = x -> get (run p s') = x) ->
  get (fold_left (fun s pid => run pid s) l s) = x.
Proof.
  revert s. induction l as [|p l IH]; intros s Hi Hs Hinv Hstep; cbn [fold_left].
  - exact Hs.
  - apply IH.
    + apply Hinv; [left; reflexivity|exact Hi].
    + apply Hstep; [left; reflexivity|exact Hi|exact Hs].
    + intros p' s' Hin. apply Hinv. right. exact Hin.
    + intros p' s' Hin. apply Hstep. right. exact Hin.
Qed.

(** The program that owns a location decides its final contents, when the
    other programs leave it alone. *)
Lemma fold_left_owner (l : list program) (s : S) (p : program) (x : X) :
  Inv s ->
  (forall p s', In p l -> Inv s' -> Inv (run p s')) ->
  In p l ->
  (forall s', Inv s' -> get (run p s') = x) ->
  (forall p' s', In p' l -> p' <> p -> get (run p' s') = get s') ->
  get (fold_left (fun s pid => run pid s) l s) = x.
Proof.
  intros Hi Hinv Hin Hown Hframe.
  assert (Hstep : forall p' s', In p' l -> Inv s' -> get s' = x -> get (run p' s') = x).
  { intros p' s' Hp' Hi' Hs'. destruct (program_eq_dec p' p) as [->|Hne].
    - apply Hown. exact Hi'.
    - rewrite Hframe by assumption. exact Hs'. }
  revert s Hi. induction l as [|p1 l IH]; intros s Hi; [destruct Hin|].
  cbn [fold_left].
  destruct (program_eq_dec p1 p) as [->|Hne].
  - apply fold_left_keeps.
    + apply Hinv; [left; reflexivity|exact Hi].
    + apply Hown. exact Hi.
    + intros p' s' Hp'. apply Hinv. right. exact Hp'.
    + intros p' s' Hp'. apply Hstep. right. exact Hp'.
  - destruct Hin as [E|Hin]; [congruence|].
    apply IH; try assumption.
    + intros p' s' Hp'. apply Hinv. right. exact Hp'.
    + intros p' s' Hp'. apply Hframe. right. exact Hp'.
    + intros p' s' Hp'. apply Hstep. right. exact Hp'.
    + apply Hinv; [left; reflexivity|exact Hi].
Qed.

End Fold.

Lemma fold_left_frame {S X} (run : program -> S -> S) (get : S -> X)
    (l : list program) (s : S) :
  (forall p' s', In p' l -> get (run p' s') = get s') ->
  get (fold_left (fun s pid => run pid s) l s) = get s.
Proof.
  intros Hframe.
  apply (fold_left_keeps S X run get (fun _ => True)); auto.
  intros p s' Hp _ Hs'. rewrite Hframe by assumption. exact Hs'.
Qed.

Lemma launch_owner {S X} (rt : runtime R) (grid : Z * Z * Z)
    (run : program -> S -> S) (get : S -> X) (Inv : S -> Prop)
    (s : S) (p : program) (x : X) :
  fair rt ->
  Inv s -> (forall p s', Inv s' -> Inv (run p s')) ->
  In p (grid_programs grid) ->
  (forall s', Inv s' -> get (run p s') = x) ->
  (forall p' s', In p' (grid_programs grid) -> p' <> p -> get (run p' s') = get s') ->
  get (launch rt grid run s) = x.
Proof.
  intros Hfair Hi Hinv Hin Hown Hframe. unfold launch.
  apply (fold_left_owner S X run get Inv _ s p x).
  - exact Hi.
  - intros p' s' _. apply Hinv.
  - apply (Permutation_in _ (Hfair _)). exact Hin.
  - exact Hown.
  - intros p' s' Hp'. apply Hframe.
    apply (Permutation_in _ (Permutation_sym (Hfair _))). exact Hp'.
Qed.

Lemma launch_frame {S X} (rt : runtime R) (grid : Z * Z * Z)
    (run : program -> S -> S) (get : S -> X) (s : S) :
  fair rt ->
  (forall p' s', In p' (grid_programs grid) -> get (run p' s') = get s') ->
  get (launch rt grid run s) = get s.
Proof.
  intros Hfair Hframe. unfold launch. apply fold_left_frame.
  intros p' s' Hp'. apply Hframe.
  apply (Permutation_in _ (Permutation_sym (Hfair _))). exact Hp'.
Qed.

End Grid.

(** ** Offsets *)

Lemma row_addr_inj (H D tok h i tok' h' i' : Z) :
  0 <= h < H -> 0 <= h' < H -> 0 <= i < D -> 0 <= i' < D ->
  (tok * H + h) * D + i = (tok' * H + h') * D + i' ->
  tok = tok' /\ h = h' /\ i = i'.
Proof.
  intros Hh Hh' Hi Hi' E.
  assert (E1 : tok * H + h = tok' * H + h') by nia.
  assert (E2 : tok = tok') by nia.
  subst tok'. repeat split; lia.
Qed.

Lemma head_index (H n h : Z) :
  0 <= h < H -> (n * H + h) / H = n /\ (n * H + h) mod H = h.
Proof.
  intros Hh.
  pose proof (Z.div_mod (n * H + h) H ltac:(lia)) as E.
  pose proof (Z.mod_pos_bound (n * H + h) H ltac:(lia)) as Bd.
  assert ((n * H + h) / H = n) by nia.
  split; [assumption|nia].
Qed.

Lemma head_split (H i_nh N : Z) :
  1 <= H -> 0 <= i_nh < N * H ->
  0 <= i_nh / H < N /\ 0 <= i_nh mod H < H /\ i_nh = i_nh / H * H + i_nh mod H.
Proof.
  intros HH Hi.
  pose proof (Z.div_mod i_nh H ltac:(lia)) as E.
  pose proof (Z.mod_pos_bound i_nh H ltac:(lia)) as Bd.
  repeat split; try lia; nia.
Qed.

Lemma block_owner (BV V i_v j : Z) :
  in_block BV V i_v j -> i_v = j / BV.
Proof.
  intros [Hj _]. assert (0 < BV) by lia.
  pose proof (Z.div_mod j BV ltac:(lia)) as E.
  pose proof (Z.mod_pos_bound j BV ltac:(lia)) as Bd.
  nia.
Qed.

Lemma block_of (BV V NV j : Z) :
  1 <= BV -> V <= NV * BV -> 0 <= j < V ->
  0 <= j / BV < NV /\ in_block BV V (j / BV) j.
Proof.
  intros HB HV Hj.
  pose proof (Z.div_mod j BV ltac:(lia)) as E.
  pose proof (Z.mod_pos_bound j BV ltac:(lia)) as Bd.
  unfold in_block. repeat split; try lia; nia.
Qed.

(** ** Sequences *)

Lemma cu_monotone (cu : list Z) (T : Z) (a : Z) (m : nat) :
  cu_ok (Some cu) T -> 0 <= a -> a + Z.of_nat m < len cu ->
  nth (Z.to_nat a) cu 0 <= nth (Z.to_nat (a + Z.of_nat m)) cu 0.
Proof.
  intros [Hmono _] Ha. induction m as [|m IH]; intros Hb.
  - rewrite Z.add_0_r. lia.
  - specialize (IH ltac:(lia)).
    specialize (Hmono (a + Z.of_nat m) ltac:(lia)).
    replace (a + Z.of_nat (S m)) with (a + Z.of_nat m + 1) by lia. lia.
Qed.

Lemma seq_len_nonneg_bos (cu_seqlens : option (list Z)) (T B n : Z) :
  cu_ok cu_seqlens T -> 0 <= T -> 0 <= n < nseq cu_seqlens B ->
  0 <= seq_bos cu_seqlens T n /\
  seq_bos cu_seqlens T n + seq_len cu_seqlens T n <=
    match cu_seqlens with Some _ => T | None => B * T end.
Proof.
  intros Hok HT Hn. destruct cu_seqlens as [cu|]; cbn in *.
  - destruct Hok as [Hmono Hbd].
    specialize (Hmono n ltac:(lia)). specialize (Hbd (n + 1) ltac:(lia)). lia.
  - nia.
Qed.

Lemma seq_tok_inj (cu_seqlens : option (list Z)) (T B n n' t t' : Z) :
  cu_ok cu_seqlens T ->
  0 <= n < nseq cu_seqlens B -> 0 <= n' < nseq cu_seqlens B ->
  0 <= t < seq_len cu_seqlens T n -> 0 <= t' < seq_len cu_seqlens T n' ->
  seq_bos cu_seqlens T n + t = seq_bos cu_seqlens T n' + t' ->
  n = n' /\ t = t'.
Proof.
  intros Hok Hn Hn' Ht Ht' E. destruct cu_seqlens as [cu|]; cbn in *.
  - assert (n = n'); [|subst; lia].
    destruct (Z.lt_trichotomy n n') as [Hlt|[Heq|Hgt]]; [exfalso|exact Heq|exfalso].
    + pose proof (cu_monotone cu T (n + 1) (Z.to_nat (n' - (n + 1))) Hok ltac:(lia)
                    ltac:(lia)) as Hm.
      replace (n + 1 + Z.of_nat (Z.to_nat (n' - (n + 1)))) with n' in Hm by lia.
      lia.
    + pose proof (cu_monotone cu T (n' + 1) (Z.to_nat (n - (n' + 1))) Hok ltac:(lia)
                    ltac:(lia)) as Hm.
      replace (n' + 1 + Z.of_nat (Z.to_nat (n - (n' + 1)))) with n in Hm by lia.
      lia.
  - assert (n = n') by nia. subst. lia.
Qed.

(** ** Who writes what *)

Section GridOwners.
Context {R : Type}.
Variable rt : runtime R.
Variable cu_seqlens : option (list Z).
Variables (T B H K V BV NV : Z).
Variable S : Type.
Variable kernel : program -> S -> S.
Variable Inv : S -> Prop.
Hypothesis Inv_kept : forall p s, Inv s -> Inv (kernel p s).
Hypothesis rt_fair : fair rt.
Hypothesis H_pos : 1 <= H.
Hypothesis T_pos : 0 <= T.
Hypothesis cu_wf : cu_ok cu_seqlens T.

Local Abbreviation N := (nseq cu_seqlens B).
Local Abbreviation run := (launch rt (NV, 1, N * H) kernel).
Local Abbreviation all := (match cu_seqlens with Some _ => T | None => B * T end).

(** An entry of a buffer of shape [*, T, H, V] that is written block by block
    of value features belongs to the program of its sequence, head and
    block. *)
Lemma grid_rows_v (get : S -> mem R) (bufs : S) (n h t j : Z) (x : R) :
  1 <= BV -> V <= NV * BV ->
  (forall i_v i_nh s a, 0 <= i_v < NV -> 0 <= i_nh < N * H ->
     (forall t' j', (t' < Z.to_nat (seq_len cu_seqlens T (i_nh / H)))%nat ->
        in_block BV V i_v j' ->
        a <> ((seq_bos cu_seqlens T (i_nh / H) + Z.of_nat t') * H + i_nh mod H) * V + j') ->
     get (kernel (i_v, 0, i_nh) s) a = get s a) ->
  Inv bufs ->
  0 <= n < N -> 0 <= h < H -> 0 <= t < seq_len cu_seqlens T n -> 0 <= j < V ->
  (forall s, Inv s ->
     get (kernel (j / BV, 0, n * H + h) s)
       (((seq_bos cu_seqlens T n + t) * H + h) * V + j) = x) ->
  get (run bufs) (((seq_bos cu_seqlens T n + t) * H + h) * V + j) = x.
Proof.
  intros BV_pos NV_covers Hframe Hinv Hn Hh Ht Hj Hown.
  destruct (block_of BV V NV j BV_pos NV_covers Hj) as [HjN Hblk].
  apply (launch_owner rt (NV, 1, N * H) kernel
           (fun s => get s (((seq_bos cu_seqlens T n + t) * H + h) * V + j))
           Inv bufs (j / BV, 0, n * H + h) x rt_fair Hinv Inv_kept).
  - apply In_grid_programs. cbn [fst snd]. nia.
  - exact Hown.
  - intros [[i_v i_k] i_nh] s Hin Hne.
    apply In_grid_programs in Hin. cbn [fst snd] in Hin.
    destruct Hin as (Hiv & Hik & Hinh).
    assert (i_k = 0) by lia. subst i_k.
    apply Hframe; try lia.
    intros t' j' Ht' Hblk' E.
    destruct (head_split H i_nh N H_pos Hinh) as (Hn' & Hh' & Ei).
    destruct Hblk' as [Hb1 Hb2].
    apply row_addr_inj in E; try lia.
    destruct E as (Etok & Eh & Ej). subst j'.
    destruct (seq_tok_inj cu_seqlens T B n (i_nh / H) t (Z.of_nat t') cu_wf Hn Hn' Ht
                ltac:(lia) Etok) as [En _].
    apply Hne. f_equal; [f_equal|].
    + apply (block_owner BV V). split; assumption.
    + lia.
Qed.

(** An entry of a buffer of shape [NV, *, T, H, K], one slice per block of
    value features, belongs to the program of its slice, sequence and head. *)
Lemma grid_rows_k (get : S -> mem R) (bufs : S) (i_v n h t i : Z) (x : R) :
  (forall i_v i_nh s a, 0 <= i_v < NV -> 0 <= i_nh < N * H ->
     (forall t' i', (t' < Z.to_nat (seq_len cu_seqlens T (i_nh / H)))%nat ->
        0 <= i' < K ->
        a <> ((i_v * all + seq_bos cu_seqlens T (i_nh / H) + Z.of_nat t') * H
              + i_nh mod H) * K + i') ->
     get (kernel (i_v, 0, i_nh) s) a = get s a) ->
  Inv bufs ->
  0 <= i_v < NV ->
  0 <= n < N -> 0 <= h < H -> 0 <= t < seq_len cu_seqlens T n -> 0 <= i < K ->
  (forall s, Inv s ->
     get (kernel (i_v, 0, n * H + h) s)
       (((i_v * all + seq_bos cu_seqlens T n + t) * H + h) * K + i) = x) ->
  get (run bufs) (((i_v * all + seq_bos cu_seqlens T n + t) * H + h) * K + i) = x.
Proof.
  intros Hframe Hinv Hiv Hn Hh Ht Hi Hown.
  apply (launch_owner rt (NV, 1, N * H) kernel
           (fun s => get s (((i_v * all + seq_bos cu_seqlens T n + t) * H + h) * K + i))
           Inv bufs (i_v, 0, n * H + h) x rt_fair Hinv Inv_kept).
  - apply In_grid_programs. cbn [fst snd]. nia.
  - exact Hown.
  - intros [[i_v' i_k] i_nh] s Hin Hne.
    apply In_grid_programs in Hin. cbn [fst snd] in Hin.
    destruct Hin as (Hiv' & Hik & Hinh).
    assert (i_k = 0) by lia. subst i_k.
    apply Hframe; try lia.
    intros t' i' Ht' Hi' E.
    destruct (head_split H i_nh N H_pos Hinh) as (Hn' & Hh' & Ei).
    apply row_addr_inj in E; try lia.
    destruct E as (Etok & Eh & Ej).
    pose proof (seq_len_nonneg_bos cu_seqlens T B n cu_wf T_pos Hn) as [Hb1 Hb2].
    pose proof (seq_len_nonneg_bos cu_seqlens T B (i_nh / H) cu_wf T_pos Hn') as [Hb1' Hb2'].
    assert (Eiv : i_v = i_v') by nia. subst i_v'.
    destruct (seq_tok_inj cu_seqlens T B n (i_nh / H) t (Z.of_nat t') cu_wf Hn Hn' Ht
                ltac:(lia) ltac:(lia)) as [En _].
    apply Hne. f_equal. lia.
Qed.

(** An entry of a state of shape [N, H, K, V] belongs to the program of its
    sequence, head and block of value features. *)
Lemma grid_state (get : S -> mem R) (bufs : S) (nh i j : Z) (x : R) :
  1 <= BV -> V <= NV * BV ->
  (forall i_v i_nh s a, 0 <= i_v < NV -> 0 <= i_nh < N * H ->
     (forall i' j', 0 <= i' < K -> in_block BV V i_v j' ->
        a <> i_nh * K * V + i' * V + j') ->
     get (kernel (i_v, 0, i_nh) s) a = get s a) ->
  Inv bufs ->
  0 <= nh < N * H -> 0 <= i < K -> 0 <= j < V ->
  (forall s, Inv s -> get (kernel (j / BV, 0, nh) s) (nh * K * V + i * V + j) = x) ->
  get (run bufs) (nh * K * V + i * V + j) = x.
Proof.
  intros BV_pos NV_covers Hframe Hinv Hnh Hi Hj Hown.
  destruct (block_of BV V NV j BV_pos NV_covers Hj) as [HjN Hblk].
  apply (launch_owner rt (NV, 1, N * H) kernel
           (fun s => get s (nh * K * V + i * V + j))
           Inv bufs (j / BV, 0, nh) x rt_fair Hinv Inv_kept).
  - apply In_grid_programs. cbn [fst snd]. lia.
  - exact Hown.
  - intros [[i_v i_k] i_nh] s Hin Hne.
    apply In_grid_programs in Hin. cbn [fst snd] in Hin.
    destruct Hin as (Hiv & Hik & Hinh).
    assert (i_k = 0) by lia. subst i_k.
    apply Hframe; try lia.
    intros i' j' Hi' [Hb1 Hb2] E.
    assert (E' : (nh * K + i) * V + j = (i_nh * K + i') * V + j') by lia.
    apply row_addr_inj in E'; try lia.
    destruct E' as (En & _ & Ej). subst j'.
    apply Hne. f_equal; [f_equal|].
    + apply (block_owner BV V). split; assumption.
    + lia.
Qed.

End GridOwners.

(** * The launchers *)

Lemma lor_ge (x y : Z) : 0 <= x -> 0 <= y -> x <= Z.lor x y /\ 0 <= Z.lor x y.
Proof.
  intros Hx Hy.
  assert (Hl : Z.land x y <= y).
  { rewrite <- (Z2N.id x), <- (Z2N.id y) by lia.
    rewrite <- N2Z.inj_land. apply N2Z.inj_le. apply N.land_le_r. }
  pose proof (Z.add_lor_land x y).
  pose proof (proj2 (Z.lor_nonneg x y) (conj Hx Hy)). lia.
Qed.

Lemma lor_shiftr_ge (x s : Z) :
  0 <= x -> x <= Z.lor x (Z.shiftr x s) /\ 0 <= Z.lor x (Z.shiftr x s).
Proof.
  intros Hx. apply lor_ge; [exact Hx|]. apply Z.shiftr_nonneg. exact Hx.
Qed.

Lemma next_power_of_2_ge (n : Z) : 1 <= n -> n <= next_power_of_2 n.
Proof.
  intros Hn. unfold next_power_of_2. cbv zeta.
  set (a0 := n - 1). assert (H0 : 0 <= a0) by (unfold a0; lia).
  destruct (lor_shiftr_ge a0 1 H0) as [L1 P1]. set (a1 := Z.lor a0 _) in *.
  destruct (lor_shiftr_ge a1 2 P1) as [L2 P2]. set (a2 := Z.lor a1 _) in *.
  destruct (lor_shiftr_ge a2 4 P2) as [L3 P3]. set (a3 := Z.lor a2 _) in *.
  destruct (lor_shiftr_ge a3 8 P3) as [L4 P4]. set (a4 := Z.lor a3 _) in *.
  destruct (lor_shiftr_ge a4 16 P4) as [L5 P5]. set (a5 := Z.lor a4 _) in *.
  destruct (lor_shiftr_ge a5 32 P5) as [L6 P6]. set (a6 := Z.lor a5 _) in *.
  unfold a0 in *. lia.
Qed.

Lemma cdiv_one (x y : Z) : 1 <= x <= y -> cdiv x y = Ok 1.
Proof.
  intros Hxy. unfold cdiv.
  destruct (Z.eqb_spec y 0) as [E|_]; [lia|].
  f_equal. symmetry. apply (Z.div_unique _ _ 1 (x - 1)); lia.
Qed.

Lemma cdiv_covers (x y : Z) :
  0 <= x -> 1 <= y -> exists n, cdiv x y = Ok n /\ 0 <= n /\ x <= n * y.
Proof.
  intros Hx Hy. unfold cdiv.
  destruct (Z.eqb_spec y 0) as [E|_]; [lia|].
  exists ((x + y - 1) / y). split; [reflexivity|].
  pose proof (Z.div_mod (x + y - 1) y ltac:(lia)).
  pose proof (Z.mod_pos_bound (x + y - 1) y ltac:(lia)).
  split; [apply Z.div_pos; lia|nia].
Qed.

Lemma cdiv_one_inv (x y : Z) : cdiv x y = Ok 1 -> 0 < y -> 1 <= x <= y.
Proof.
  unfold cdiv. destruct (Z.eqb_spec y 0) as [E|_]; [discriminate|].
  intros E Hy. inversion E as [E1].
  pose proof (Z.div_mod (x + y - 1) y ltac:(lia)).
  pose proof (Z.mod_pos_bound (x + y - 1) y ltac:(lia)).
  nia.
Qed.

Lemma fwd_BV_pos (V : Z) : 1 <= V -> 1 <= fwd_BV V.
Proof. intros HV. unfold fwd_BV. pose proof (next_power_of_2_ge V HV). lia. Qed.

Lemma bwd_BV_pos (V : Z) : 1 <= V -> 1 <= bwd_BV V.
Proof. intros HV. unfold bwd_BV. pose proof (next_power_of_2_ge V HV). lia. Qed.

Section Launchers.
Context {R : Type} {A : Arith R}.

(** What the forward launcher returns on well-shaped inputs. *)
Lemma fwd_unfold (rt : runtime R) (q k v beta : tensor R) (scale : R)
    (initial_state : option (tensor R)) (output_final_state : bool)
    (cu_seqlens : option (list Z)) (B T H K V : Z) :
  shape k = [B; T; H; K] -> shape v = [B; T; H; V] -> 1 <= K -> 1 <= V ->
  exists NV,
    cdiv V (fwd_BV V) = Ok NV /\ 0 <= NV /\ V <= NV * fwd_BV V /\
    let N := nseq cu_seqlens B in
    let bufs :=
      launch rt (NV, 1, N * H)
        (fused_recurrent_delta_rule_fwd_kernel
           (data q) (data k) (data v) (data beta) (option_map data initial_state)
           cu_seqlens scale T B H K V (next_power_of_2 K) (fwd_BV V)
           (Nat.eqb (ndim beta) (ndim v)))
        {| fb_u := junk rt 2; fb_o := junk rt 0;
           fb_ht := if output_final_state then Some (junk rt 1) else None |} in
    fused_recurrent_delta_rule_fwd rt q k v beta scale initial_state
      output_final_state cu_seqlens =
    Ok ({| shape := shape v; data := fb_o bufs; requires_grad := false |},
        {| shape := shape v; data := fb_u bufs; requires_grad := false |},
        match (if output_final_state then Some [N; H; K; V] else None), fb_ht bufs with
        | Some s, Some d0 => Some {| shape := s; data := d0; requires_grad := false |}
        | _, _ => None
        end).
Proof.
  intros Hk Hv HK HV.
  destruct (cdiv_covers V (fwd_BV V) ltac:(lia) (fwd_BV_pos V HV)) as (NV & ENV & HNV & Hcov).
  exists NV. split; [exact ENV|]. split; [exact HNV|]. split; [exact Hcov|].
  cbv zeta. unfold fused_recurrent_delta_rule_fwd, fwd_with_blocks.
  rewrite Hk, Hv. cbn [shape_last rev app unpack4 bind].
  rewrite (cdiv_one K (next_power_of_2 K)) by (pose proof (next_power_of_2_ge K HK); lia).
  cbn [bind]. fold (fwd_BV V). rewrite ENV. cbn [bind Z.eqb Pos.eqb py_assert].
  unfold squeeze0, new_empty, nseq. cbn [shape data].
  destruct output_final_state; reflexivity.
Qed.

End Launchers.

Lemma fwd_kernel_ht_some {R : Type} {A : Arith R}
    (q k v beta : mem R) h0 cu_seqlens scale T B H K V BK BV hw pid (s : fwd_bufs) :
  is_some (fb_ht (fused_recurrent_delta_rule_fwd_kernel q k v beta h0 cu_seqlens
                    scale T B H K V BK BV hw pid s)) = is_some (fb_ht s).
Proof.
  unfold fused_recurrent_delta_rule_fwd_kernel.
  destruct pid as [[i_v i_k] i_nh]. destruct (seq_bounds _ _ _ _) as [[bos all] T'].
  cbn [fb_ht]. destruct (fb_ht s); reflexivity.
Qed.

Section ForwardSpec.
Context {R : Type} {A : Arith R} {L : ArithLaws R}.
Variable rt : runtime R.
Variables (q k v beta : tensor R) (scale : R).
Variable initial_state : option (tensor R).
Variable output_final_state : bool.
Variable cu_seqlens : option (list Z).
Variables (B T H K V : Z).
Hypothesis rt_fair : fair rt.
Hypothesis shape_k : shape k = [B; T; H; K].
Hypothesis shape_v : shape v = [B; T; H; V].
Hypothesis T_pos : 0 <= T.
Hypothesis H_pos : 1 <= H.
Hypothesis K_pos : 1 <= K.
Hypothesis V_pos : 1 <= V.
Hypothesis cu_wf : cu_ok cu_seqlens T.

Local Abbreviation N := (nseq cu_seqlens B).
Local Abbreviation d := (fwd_head q k v beta scale initial_state cu_seqlens T H K V).

(** The forward launcher returns the outputs, the residuals and the final
    state of the reference recurrence. *)
Lemma fwd_spec :
  exists o u fs,
    fused_recurrent_delta_rule_fwd rt q k v beta scale initial_state
      output_final_state cu_seqlens = Ok (o, u, fs) /\
    shape o = shape v /\ shape u = shape v /\
    (forall n h t j,
       0 <= n < N -> 0 <= h < H -> 0 <= t < seq_len cu_seqlens T n -> 0 <= j < V ->
       data u (((seq_bos cu_seqlens T n + t) * H + h) * V + j)
         = ref_u (d n h) (Z.to_nat t) j /\
       data o (((seq_bos cu_seqlens T n + t) * H + h) * V + j)
         = ref_o (d n h) (Z.to_nat t) j) /\
    match fs with
    | Some f =>
        output_final_state = true /\ shape f = [N; H; K; V] /\
        forall n h i j,
          0 <= n < N -> 0 <= h < H -> 0 <= i < K -> 0 <= j < V ->
          data f ((n * H + h) * K * V + i * V + j)
            = ref_state (d n h) (Z.to_nat (seq_len cu_seqlens T n)) i j
    | None => output_final_state = false
    end.
Proof.
  destruct (fwd_unfold rt q k v beta scale initial_state output_final_state
              cu_seqlens B T H K V shape_k shape_v K_pos V_pos)
    as (NV & ENV & HNV & Hcov & E).
  cbv zeta in E. rewrite E. clear E.
  pose proof (fwd_BV_pos V V_pos) as HBV.
  pose proof (next_power_of_2_ge K K_pos) as HBK.
  set (kernel := fused_recurrent_delta_rule_fwd_kernel _ _ _ _ _ _ _ _ _ _ _ _ _ _ _).
  set (bufs0 := {| fb_u := junk rt 2; fb_o := junk rt 0; fb_ht := _ |}).
  do 3 eexists. split; [reflexivity|]. cbn [shape data].
  split; [reflexivity|]. split; [reflexivity|]. split.
  - intros n h t j Hn Hh Ht Hj.
    destruct (head_index H n h Hh) as [E1 E2].
    destruct (block_of (fwd_BV V) V NV j HBV Hcov Hj) as [HjN Hblk].
    assert (Hw : forall s,
      fb_u (kernel (j / fwd_BV V, 0, n * H + h) s)
        (((seq_bos cu_seqlens T n + t) * H + h) * V + j) = ref_u (d n h) (Z.to_nat t) j /\
      fb_o (kernel (j / fwd_BV V, 0, n * H + h) s)
        (((seq_bos cu_seqlens T n + t) * H + h) * V + j) = ref_o (d n h) (Z.to_nat t) j).
    { intros s.
      pose proof (fwd_program_writes (data q) (data k) (data v) (data beta)
                    (fun _ => zero) (option_map data initial_state) None
                    cu_seqlens scale T B H K V (next_power_of_2 K) (fwd_BV V)
                    (Nat.eqb (ndim beta) (ndim v)) (j / fwd_BV V) (n * H + h)
                    H_pos ltac:(lia) ltac:(lia) ltac:(lia) ltac:(lia) s
                    (Z.to_nat t) j) as W.
      unfold prog_head, prog_bos in W. rewrite E1, E2 in W.
      rewrite Z2Nat.id in W by lia.
      apply W; [cbn; lia|exact Hblk]. }
    split.
    + apply grid_rows_v with (B := B) (BV := fwd_BV V) (NV := NV)
        (Inv := fun _ => True) (get := fb_u); auto.
      * intros i_v i_nh s a Hiv Hinh Ha.
        exact (proj1 (fwd_program_frame (data q) (data k) (data v) (data beta)
                 (fun _ => zero) (option_map data initial_state) None
                 cu_seqlens scale T B H K V (next_power_of_2 K) (fwd_BV V)
                 (Nat.eqb (ndim beta) (ndim v)) i_v i_nh
                 H_pos ltac:(lia) ltac:(lia) ltac:(lia) s a Ha)).
      * intros s _. apply Hw.
    + apply grid_rows_v with (B := B) (BV := fwd_BV V) (NV := NV)
        (Inv := fun _ => True) (get := fb_o); auto.
      * intros i_v i_nh s a Hiv Hinh Ha.
        exact (proj2 (fwd_program_frame (data q) (data k) (data v) (data beta)
                 (fun _ => zero) (option_map data initial_state) None
                 cu_seqlens scale T B H K V (next_power_of_2 K) (fwd_BV V)
                 (Nat.eqb (ndim beta) (ndim v)) i_v i_nh
                 H_pos ltac:(lia) ltac:(lia) ltac:(lia) s a Ha)).
      * intros s _. apply Hw.
  - assert (Hs : is_some (fb_ht (launch rt (NV, 1, N * H) kernel bufs0))
                 = is_some (fb_ht bufs0)).
    { apply (launch_frame rt (NV, 1, N * H) kernel (fun s => is_some (fb_ht s))
               bufs0 rt_fair).
      intros p' s' _. apply fwd_kernel_ht_some. }
    destruct output_final_state; cbn [fb_ht bufs0 is_some] in Hs.
    + destruct (fb_ht (launch rt (NV, 1, N * H) kernel bufs0)) as [d0|] eqn:Ed;
        [|discriminate].
      split; [reflexivity|]. split; [reflexivity|]. cbn [data].
      intros n h i j Hn Hh Hi Hj.
      destruct (head_index H n h Hh) as [E1 E2].
      destruct (block_of (fwd_BV V) V NV j HBV Hcov Hj) as [HjN Hblk].
      assert (G : ht_at (launch rt (NV, 1, N * H) kernel bufs0)
                    ((n * H + h) * K * V + i * V + j)
                  = ref_state (d n h) (Z.to_nat (seq_len cu_seqlens T n)) i j).
      { apply grid_state with (B := B) (BV := fwd_BV V) (NV := NV)
          (Inv := fun s => is_some (fb_ht s) = true) (get := ht_at);
          try assumption; try reflexivity; try nia.
        - intros p s Hs'. unfold kernel. rewrite fwd_kernel_ht_some. exact Hs'.
        - intros i_v i_nh s a Hiv Hinh Ha.
          exact (fwd_program_ht_frame (data q) (data k) (data v) (data beta)
                   (fun _ => zero) (option_map data initial_state)
                   cu_seqlens scale T B H K V (next_power_of_2 K) (fwd_BV V)
                   (Nat.eqb (ndim beta) (ndim v)) i_v i_nh s a Ha).
        - intros s Hs'.
          pose proof (fwd_program_ht_writes (data q) (data k) (data v) (data beta)
                        (fun _ => zero) (option_map data initial_state) None
                        cu_seqlens scale T B H K V (next_power_of_2 K) (fwd_BV V)
                        (Nat.eqb (ndim beta) (ndim v)) (j / fwd_BV V) (n * H + h)
                        H_pos ltac:(lia) ltac:(lia) ltac:(lia) ltac:(lia) s i j) as W.
          unfold prog_head in W. rewrite E1, E2 in W.
          apply W; try assumption.
          destruct (fb_ht s); [discriminate|discriminate]. }
      unfold ht_at in G. rewrite Ed in G. exact G.
    + destruct (fb_ht (launch rt (NV, 1, N * H) kernel bufs0)); [discriminate|].
      reflexivity.
Qed.

End ForwardSpec.

Lemma bwd_kernel_dh0_some {R : Type} {A : Arith R}
    (q k v beta : mem R) h0 dht do cu_seqlens scale B T H K V BK BV NK hw pid
    (s : bwd_bufs) :
  is_some (bb_dh0 (bwd_kernel_program q k v beta h0 dht do
                     cu_seqlens scale B T H K V BK BV NK hw pid s))
  = is_some (bb_dh0 s).
Proof.
  unfold bwd_kernel_program.
  destruct pid as [[i_v i_k] i_nh]. destruct (seq_bounds _ _ _ _) as [[bos all] T'].
  cbn [bb_dh0]. destruct h0; destruct (bb_dh0 s); reflexivity.
Qed.

Section BackwardUnfold.
Context {R : Type} {A : Arith R}.

(** The kernel is launched when the initial state, if there is one, requires
    a gradient, and is refused otherwise. *)
Lemma bwd_kernel_launches (rt : runtime R) (q k v beta : mem R)
    (initial_state : option (tensor R)) (dht : option (mem R)) (do : mem R)
    (cu_seqlens : option (list Z)) (scale : R) (B T H K V BK BV NK : Z)
    (hw : bool) :
  state_grad_ok initial_state = true ->
  fused_recurrent_delta_rule_bwd_kernel q k v beta
    (option_map data initial_state) dht do cu_seqlens scale B T H K V BK BV NK hw
    (option_map data
       match initial_state with
       | Some h0 => if requires_grad h0 then Some (new_empty rt 4 (shape h0)) else None
       | None => None
       end)
  = Ok (bwd_kernel_program q k v beta (option_map data initial_state) dht do
          cu_seqlens scale B T H K V BK BV NK hw).
Proof.
  intros Hg. unfold fused_recurrent_delta_rule_bwd_kernel.
  destruct initial_state as [h0|]; [|reflexivity].
  cbn [state_grad_ok] in Hg. rewrite Hg. reflexivity.
Qed.

Lemma bwd_kernel_refused (rt : runtime R) (q k v beta : mem R)
    (initial_state : option (tensor R)) (dht : option (mem R)) (do : mem R)
    (cu_seqlens : option (list Z)) (scale : R) (B T H K V BK BV NK : Z)
    (hw : bool) :
  state_grad_ok initial_state = false ->
  fused_recurrent_delta_rule_bwd_kernel q k v beta
    (option_map data initial_state) dht do cu_seqlens scale B T H K V BK BV NK hw
    (option_map data
       match initial_state with
       | Some h0 => if requires_grad h0 then Some (new_empty rt 4 (shape h0)) else None
       | None => None
       end)
  = Raise KernelError.
Proof.
  intros Hg. unfold fused_recurrent_delta_rule_bwd_kernel.
  destruct initial_state as [h0|]; [|discriminate].
  cbn [state_grad_ok] in Hg. rewrite Hg. reflexivity.
Qed.

(** On well-shaped inputs the backward launcher raises that error, and no
    other, when the initial state does not require a gradient. *)
Lemma bwd_refused (rt : runtime R) (q k v beta : tensor R) (dht : option (tensor R))
    (do : tensor R) (scale : R) (initial_state : option (tensor R))
    (cu_seqlens : option (list Z)) (B T H K V : Z) :
  shape k = [B; T; H; K] -> shape v = [B; T; H; V] -> 1 <= K -> 1 <= V ->
  state_grad_ok initial_state = false ->
  fused_recurrent_delta_rule_bwd rt q k v beta dht do scale initial_state cu_seqlens
  = Raise KernelError.
Proof.
  intros Hk Hv HK HV Hg.
  destruct (cdiv_covers V (bwd_BV V) ltac:(lia) (bwd_BV_pos V HV)) as (NV & ENV & HNV & Hcov).
  unfold fused_recurrent_delta_rule_bwd, bwd_with_blocks.
  rewrite Hk, Hv. cbn [shape_last rev app unpack4 bind].
  rewrite (cdiv_one K (next_power_of_2 K)) by (pose proof (next_power_of_2_ge K HK); lia).
  cbn [bind]. fold (bwd_BV V). rewrite ENV. cbn [bind Z.eqb Pos.eqb py_assert].
  rewrite (bwd_kernel_refused _ _ _ _ _ _ _ _ _ _ _ _ _ _ _ _ _ _ _ Hg).
  reflexivity.
Qed.

(** What the backward launcher returns on well-shaped inputs. *)
Lemma bwd_unfold (rt : runtime R) (q k v beta : tensor R) (dht : option (tensor R))
    (do : tensor R) (scale : R) (initial_state : option (tensor R))
    (cu_seqlens : option (list Z)) (B T H K V : Z) :
  shape k = [B; T; H; K] -> shape v = [B; T; H; V] -> 1 <= K -> 1 <= V ->
  state_grad_ok initial_state = true ->
  exists NV,
    cdiv V (bwd_BV V) = Ok NV /\ 0 <= NV /\ V <= NV * bwd_BV V /\
    let N := nseq cu_seqlens B in
    let beta_vector := Nat.eqb (ndim beta) (ndim v) in
    let dh0 :=
      match initial_state with
      | Some h0 => if requires_grad h0 then Some (new_empty rt 4 (shape h0)) else None
      | None => None
      end in
    let bufs :=
      launch rt (NV, 1, N * H)
        (bwd_kernel_program
           (data q) (data k) (data v) (data beta) (option_map data initial_state)
           (option_map data dht) (data do) cu_seqlens scale
           B T H K V (next_power_of_2 K) (bwd_BV V) 1 beta_vector)
        {| bb_dq := junk rt 0; bb_dk := junk rt 1; bb_dv := junk rt 2;
           bb_db := junk rt 3; bb_dh0 := option_map data dh0 |} in
    fused_recurrent_delta_rule_bwd rt q k v beta dht do scale initial_state
      cu_seqlens =
    Ok (sum0 (with_data (new_empty rt 0 (NV :: shape q)) (bb_dq bufs)),
        sum0 (with_data (new_empty rt 1 (NV :: shape k)) (bb_dk bufs)),
        sum0 (with_data (new_empty rt 2 (1 :: shape v)) (bb_dv bufs)),
        (if beta_vector
         then sum01 (with_data (new_empty rt 3 [NV; 1; B; T; H; V]) (bb_db bufs))
         else sum0 (with_data (new_empty rt 3 [NV; B; T; H]) (bb_db bufs))),
        match dh0, bb_dh0 bufs with
        | Some t, Some d0 => Some (with_data t d0)
        | _, _ => None
        end).
Proof.
  intros Hk Hv HK HV Hg.
  destruct (cdiv_covers V (bwd_BV V) ltac:(lia) (bwd_BV_pos V HV)) as (NV & ENV & HNV & Hcov).
  exists NV. split; [exact ENV|]. split; [exact HNV|]. split; [exact Hcov|].
  cbv zeta. unfold fused_recurrent_delta_rule_bwd, bwd_with_blocks.
  rewrite Hk, Hv. cbn [shape_last rev app unpack4 bind].
  rewrite (cdiv_one K (next_power_of_2 K)) by (pose proof (next_power_of_2_ge K HK); lia).
  cbn [bind]. fold (bwd_BV V). rewrite ENV. cbn [bind Z.eqb Pos.eqb py_assert].
  rewrite (bwd_kernel_launches _ _ _ _ _ _ _ _ _ _ _ _ _ _ _ _ _ _ _ Hg).
  cbn [bind]. unfold nseq.
  destruct (Nat.eqb (ndim beta) (ndim v)); reflexivity.
Qed.

(** The shapes of what the backward launcher returns. *)
Lemma bwd_returns_shapes (rt : runtime R) (q k v beta : tensor R)
    (dht : option (tensor R)) (do : tensor R) (scale : R)
    (initial_state : option (tensor R)) (cu_seqlens : option (list Z))
    (B T H K V : Z) :
  shape k = [B; T; H; K] -> shape v = [B; T; H; V] -> 1 <= K -> 1 <= V ->
  state_grad_ok initial_state = true ->
  exists dq dk dv db dh0,
    fused_recurrent_delta_rule_bwd rt q k v beta dht do scale initial_state
      cu_seqlens = Ok (dq, dk, dv, db, dh0) /\
    shape dq = shape q /\ shape dk = shape k /\ shape dv = shape v /\
    shape db = (if Nat.eqb (ndim beta) (ndim v) then [B; T; H; V] else [B; T; H]).
Proof.
  intros Sk Sv HK HV Hg.
  destruct (bwd_unfold rt q k v beta dht do scale initial_state cu_seqlens
              B T H K V Sk Sv HK HV Hg)
    as (NV & _ & _ & _ & E).
  cbv zeta in E. rewrite E. clear E.
  do 5 eexists. split; [reflexivity|].
  destruct (Nat.eqb (ndim beta) (ndim v));
    cbn [sum0 sum01 with_data new_empty shape]; repeat split; reflexivity.
Qed.

End BackwardUnfold.

Section BackwardGrid.
Context {R : Type} {A : Arith R} {L : ArithLaws R}.
Add Ring arith_ring_bwd : (arith_ring (R := R)).
Variable rt : runtime R.
Variables (q k v beta : tensor R) (dht : option (tensor R)) (do : tensor R).
Variable scale : R.
Variable initial_state : option (tensor R).
Variable cu_seqlens : option (list Z).
Variables (B T H K V NV : Z).
Variable dh0 : option (mem R).
Hypothesis rt_fair : fair rt.
Hypothesis T_pos : 0 <= T.
Hypothesis H_pos : 1 <= H.
Hypothesis K_pos : 1 <= K.
Hypothesis V_pos : 1 <= V.
Hypothesis NV_covers : V <= NV * bwd_BV V.
Hypothesis cu_wf : cu_ok cu_seqlens T.

Local Abbreviation N := (nseq cu_seqlens B).
Local Abbreviation BK := (next_power_of_2 K).
Local Abbreviation BV := (bwd_BV V).
Local Abbreviation hw := (Nat.eqb (ndim beta) (ndim v)).
Local Abbreviation all := (match cu_seqlens with Some _ => T | None => B * T end).
Local Abbreviation d :=
  (bwd_head q k v beta do scale initial_state dht cu_seqlens T H K V).
Local Abbreviation kernel :=
  (bwd_kernel_program
     (data q) (data k) (data v) (data beta) (option_map data initial_state)
     (option_map data dht) (data do) cu_seqlens scale
     B T H K V BK BV 1 hw).
Local Abbreviation bufs :=
  (launch rt (NV, 1, N * H) kernel
     {| bb_dq := junk rt 0; bb_dk := junk rt 1; bb_dv := junk rt 2;
        bb_db := junk rt 3; bb_dh0 := dh0 |}).
Local Abbreviation bos := (seq_bos cu_seqlens T).

Lemma BK_ge : 0 <= K <= BK.
Proof. pose proof (next_power_of_2_ge K K_pos). lia. Qed.

Lemma BV_ge : 1 <= BV.
Proof. apply bwd_BV_pos. exact V_pos. Qed.

Lemma prog_head_at (n h : Z) :
  0 <= h < H ->
  prog_head (data q) (data k) (data v) (data beta) (data do)
    (option_map data initial_state) (option_map data dht) cu_seqlens scale
    T H K V hw (n * H + h) = d n h /\
  prog_bos cu_seqlens T H (n * H + h) = bos n /\
  (n * H + h) mod H = h.
Proof.
  intros Hh. destruct (head_index H n h Hh) as [E1 E2].
  unfold prog_head, prog_bos, bwd_head. rewrite E1, E2. auto.
Qed.

Lemma bwd_grid_dq (s n h t i : Z) :
  0 <= s < NV -> 0 <= n < N -> 0 <= h < H ->
  0 <= t < seq_len cu_seqlens T n -> 0 <= i < K ->
  bb_dq bufs (((s * all + bos n + t) * H + h) * K + i) =
  mul (block_sum BV V s
         (fun j => mul (refB_state (d n h) (S (Z.to_nat t)) i j)
                       (hd_do (d n h) (Z.to_nat t) j))) scale.
Proof.
  intros Hs Hn Hh Ht Hi.
  apply grid_rows_k with (B := B) (NV := NV) (Inv := fun _ => True) (get := bb_dq);
    auto.
  - intros i_v i_nh s0 a Hiv Hinh Ha.
    apply (bwd_program_dq_frame (data q) (data k) (data v) (data beta) (data do)
             (option_map data initial_state) (option_map data dht)
             cu_seqlens scale T B H K V BK BV 1 hw i_v i_nh
             H_pos BK_ge s0 a).
    exact Ha.
  - intros s0 _.
    destruct (prog_head_at n h Hh) as (Ed & Eb & Eh).
    pose proof (bwd_program_dq (data q) (data k) (data v) (data beta) (data do)
                  (option_map data initial_state) (option_map data dht)
                  cu_seqlens scale T B H K V BK BV 1 hw s (n * H + h)
                  H_pos BK_ge s0 (Z.to_nat t) i) as W.
    rewrite Ed, Eb, Eh, Z2Nat.id in W by lia.
    apply W; [cbn; lia|lia].
Qed.

Lemma bwd_grid_dk (s n h t i : Z) :
  0 <= s < NV -> 0 <= n < N -> 0 <= h < H ->
  0 <= t < seq_len cu_seqlens T n -> 0 <= i < K ->
  bb_dk bufs (((s * all + bos n + t) * H + h) * K + i) =
  sub (block_sum BV V s
         (fun j => mul (ref_G (d n h) (Z.to_nat t) i j)
                       (mul (hd_v (d n h) (Z.to_nat t) j)
                            (hd_beta (d n h) (Z.to_nat t) j))))
      (block_sum BV V s
         (fun j => mul (refB_state (d n h) (Z.to_nat t) i j)
                       (ref_dv (d n h) (Z.to_nat t) j))).
Proof.
  intros Hs Hn Hh Ht Hi. pose proof BV_ge.
  apply grid_rows_k with (B := B) (NV := NV) (Inv := fun _ => True) (get := bb_dk);
    auto.
  - intros i_v i_nh s0 a Hiv Hinh Ha.
    apply (bwd_program_dk_frame (data q) (data k) (data v) (data beta) (data do)
             (option_map data initial_state) (option_map data dht)
             cu_seqlens scale T B H K V BK BV 1 hw i_v i_nh
             H_pos BK_ge ltac:(lia) ltac:(lia) ltac:(lia) s0 a).
    exact Ha.
  - intros s0 _.
    destruct (prog_head_at n h Hh) as (Ed & Eb & Eh).
    pose proof (bwd_program_dk (data q) (data k) (data v) (data beta) (data do)
                  (option_map data initial_state) (option_map data dht)
                  cu_seqlens scale T B H K V BK BV 1 hw s (n * H + h)
                  H_pos BK_ge ltac:(lia) ltac:(lia) ltac:(lia) s0 (Z.to_nat t) i) as W.
    rewrite Ed, Eb, Eh, Z2Nat.id in W by lia.
    apply W; [cbn; lia|lia].
Qed.

Lemma bwd_grid_dv (n h t j : Z) :
  0 <= n < N -> 0 <= h < H -> 0 <= t < seq_len cu_seqlens T n -> 0 <= j < V ->
  bb_dv bufs (((bos n + t) * H + h) * V + j) = ref_dv (d n h) (Z.to_nat t) j.
Proof.
  intros Hn Hh Ht Hj. pose proof BV_ge.
  destruct (block_of BV V NV j ltac:(lia) NV_covers Hj) as [HjN Hblk].
  apply grid_rows_v with (B := B) (BV := BV) (NV := NV) (Inv := fun _ => True)
    (get := bb_dv); auto.
  - intros i_v i_nh s0 a Hiv Hinh Ha.
    apply (bwd_program_dv_frame (data q) (data k) (data v) (data beta) (data do)
             (option_map data initial_state) (option_map data dht)
             cu_seqlens scale T B H K V BK BV 1 hw i_v i_nh
             H_pos BK_ge ltac:(lia) ltac:(lia) ltac:(lia) s0 a).
    exact Ha.
  - intros s0 _.
    destruct (prog_head_at n h Hh) as (Ed & Eb & Eh).
    pose proof (bwd_program_dv (data q) (data k) (data v) (data beta) (data do)
                  (option_map data initial_state) (option_map data dht)
                  cu_seqlens scale T B H K V BK BV 1 hw (j / BV) (n * H + h)
                  H_pos BK_ge ltac:(lia) ltac:(lia) ltac:(lia) s0 (Z.to_nat t) j) as W.
    rewrite Ed, Eb, Eh, Z2Nat.id in W by lia.
    apply W; [cbn; lia|exact Hblk].
Qed.

Lemma bwd_grid_db_scalar (s n h t : Z) :
  hw = false ->
  0 <= s < NV -> 0 <= n < N -> 0 <= h < H -> 0 <= t < seq_len cu_seqlens T n ->
  bb_db bufs ((s * all + bos n + t) * H + h) =
  block_sum BV V s (ref_dbeta (d n h) (Z.to_nat t)).
Proof.
  intros Hw Hs Hn Hh Ht. pose proof BV_ge.
  replace ((s * all + bos n + t) * H + h)
    with (((s * all + bos n + t) * H + h) * 1 + 0) by lia.
  apply grid_rows_k with (B := B) (NV := NV) (Inv := fun _ => True) (get := bb_db);
    auto; try lia.
  - intros i_v i_nh s0 a Hiv Hinh Ha.
    apply (bwd_program_db_scalar_frame (data q) (data k) (data v) (data beta) (data do)
             (option_map data initial_state) (option_map data dht)
             cu_seqlens scale T B H K V BK BV 1 hw i_v i_nh
             H_pos BK_ge ltac:(lia) ltac:(lia) ltac:(lia) s0 a Hw).
    intros t' Ht' E. apply (Ha t' 0 Ht' ltac:(lia)). rewrite E.
    unfold prog_all, prog_bos. lia.
  - intros s0 _.
    destruct (prog_head_at n h Hh) as (Ed & Eb & Eh).
    pose proof (bwd_program_db_scalar (data q) (data k) (data v) (data beta) (data do)
                  (option_map data initial_state) (option_map data dht)
                  cu_seqlens scale T B H K V BK BV 1 hw s (n * H + h)
                  H_pos BK_ge ltac:(lia) ltac:(lia) ltac:(lia) s0 (Z.to_nat t) Hw) as W.
    rewrite Ed, Eb, Eh, Z2Nat.id in W by lia.
    rewrite <- W by (cbn; lia). f_equal. unfold prog_all. lia.
Qed.

(** With a single block of value features, the gradient of a vector beta is
    where it belongs. *)
Lemma bwd_grid_db_vector (n h t j : Z) :
  hw = true -> NV = 1 ->
  0 <= n < N -> 0 <= h < H -> 0 <= t < seq_len cu_seqlens T n -> 0 <= j < V ->
  bb_db bufs (((bos n + t) * H + h) * V + j) = ref_dbeta (d n h) (Z.to_nat t) j.
Proof.
  intros Hw HNV Hn Hh Ht Hj. pose proof BV_ge.
  destruct (block_of BV V NV j ltac:(lia) NV_covers Hj) as [HjN Hblk].
  assert (Ej : j / BV = 0) by lia.
  apply grid_rows_v with (B := B) (BV := BV) (NV := NV) (Inv := fun _ => True)
    (get := bb_db); auto.
  - intros i_v i_nh s0 a Hiv Hinh Ha.
    assert (i_v = 0) by lia. subst i_v.
    apply (bwd_program_db_vector_frame (data q) (data k) (data v) (data beta) (data do)
             (option_map data initial_state) (option_map data dht)
             cu_seqlens scale T B H K V BK BV 1 hw 0 i_nh
             H_pos BK_ge ltac:(lia) ltac:(lia) ltac:(lia) s0 a Hw).
    intros t' j' Ht' Hb' E. apply (Ha t' j' Ht' Hb'). rewrite E.
    unfold prog_all, prog_bos. lia.
  - intros s0 _. rewrite Ej.
    destruct (prog_head_at n h Hh) as (Ed & Eb & Eh).
    pose proof (bwd_program_db_vector (data q) (data k) (data v) (data beta) (data do)
                  (option_map data initial_state) (option_map data dht)
                  cu_seqlens scale T B H K V BK BV 1 hw 0 (n * H + h)
                  H_pos BK_ge ltac:(lia) ltac:(lia) ltac:(lia) s0 (Z.to_nat t) j Hw) as W.
    rewrite Ed, Eb, Eh, Z2Nat.id in W by lia.
    rewrite Ej in Hblk.
    rewrite <- W; [|cbn; lia|exact Hblk]. f_equal. unfold prog_all. lia.
Qed.

Lemma bwd_grid_dh0_some : is_some (bb_dh0 bufs) = is_some dh0.
Proof.
  apply (launch_frame rt (NV, 1, N * H) kernel (fun s => is_some (bb_dh0 s))
           {| bb_dq := junk rt 0; bb_dk := junk rt 1; bb_dv := junk rt 2;
              bb_db := junk rt 3; bb_dh0 := dh0 |} rt_fair).
  intros p' s' _. apply bwd_kernel_dh0_some.
Qed.

Lemma bwd_grid_dh0 (n h i j : Z) :
  initial_state <> None -> dh0 <> None ->
  0 <= n < N -> 0 <= h < H -> 0 <= i < K -> 0 <= j < V ->
  dh0_at bufs ((n * H + h) * K * V + i * V + j) = ref_dh0 (d n h) i j.
Proof.
  intros Hinit Hdh0 Hn Hh Hi Hj. pose proof BV_ge.
  destruct (block_of BV V NV j ltac:(lia) NV_covers Hj) as [HjN Hblk].
  apply grid_state with (B := B) (BV := BV) (NV := NV)
    (Inv := fun s => is_some (bb_dh0 s) = true) (get := dh0_at);
    try assumption; try nia.
  - intros p s Hs'. rewrite bwd_kernel_dh0_some. exact Hs'.
  - intros i_v i_nh s0 a Hiv Hinh Ha.
    apply (bwd_program_dh0_frame (data q) (data k) (data v) (data beta) (data do)
             (option_map data initial_state) (option_map data dht)
             cu_seqlens scale T B H K V BK BV 1 hw i_v i_nh s0 a).
    exact Ha.
  - cbn [bb_dh0]. destruct dh0; [reflexivity|congruence].
  - intros s0 Hs0.
    destruct (prog_head_at n h Hh) as (Ed & Eb & Eh).
    pose proof (bwd_program_dh0 (data q) (data k) (data v) (data beta) (data do)
                  (option_map data initial_state) (option_map data dht)
                  cu_seqlens scale T B H K V BK BV 1 hw (j / BV) (n * H + h)
                  H_pos BK_ge ltac:(lia) ltac:(lia) ltac:(lia) s0 i j) as W.
    rewrite Ed in W. apply W; try assumption.
    + destruct initial_state; [discriminate|congruence].
    + destruct (bb_dh0 s0); [discriminate|discriminate].
Qed.

(** The sums over the slices. *)

Hypothesis NV_nonneg : 0 <= NV.
Hypothesis B_ok : batch_ok cu_seqlens B.

Lemma all_numel (D : Z) : numel [B; T; H; D] = all * H * D.
Proof.
  unfold numel, batch_ok in *. cbn. destruct cu_seqlens; [subst B|]; lia.
Qed.

Lemma bwd_sum_dq (n h t i : Z) :
  0 <= n < N -> 0 <= h < H -> 0 <= t < seq_len cu_seqlens T n -> 0 <= i < K ->
  tl_sum NV (fun s =>
    bb_dq bufs (s * numel [B; T; H; K] + (((bos n + t) * H + h) * K + i)))
  = ref_dq (d n h) (Z.to_nat t) i.
Proof.
  intros Hn Hh Ht Hi. pose proof BV_ge.
  rewrite (tl_sum_ext NV _
             (fun s => mul (block_sum BV V s
                (fun j => mul (refB_state (d n h) (S (Z.to_nat t)) i j)
                              (hd_do (d n h) (Z.to_nat t) j))) scale)).
  - rewrite tl_sum_mul_r, tl_sum_block_sum by lia. reflexivity.
  - intros s Hs. rewrite <- bwd_grid_dq by assumption.
    f_equal. rewrite all_numel. lia.
Qed.

Lemma bwd_sum_dk (n h t i : Z) :
  0 <= n < N -> 0 <= h < H -> 0 <= t < seq_len cu_seqlens T n -> 0 <= i < K ->
  tl_sum NV (fun s =>
    bb_dk bufs (s * numel [B; T; H; K] + (((bos n + t) * H + h) * K + i)))
  = ref_dk (d n h) (Z.to_nat t) i.
Proof.
  intros Hn Hh Ht Hi. pose proof BV_ge.
  rewrite (tl_sum_ext NV _
             (fun s =>
                sub (block_sum BV V s
                       (fun j => mul (ref_G (d n h) (Z.to_nat t) i j)
                                     (mul (hd_v (d n h) (Z.to_nat t) j)
                                          (hd_beta (d n h) (Z.to_nat t) j))))
                    (block_sum BV V s
                       (fun j => mul (refB_state (d n h) (Z.to_nat t) i j)
                                     (ref_dv (d n h) (Z.to_nat t) j))))).
  - rewrite tl_sum_sub, !tl_sum_block_sum by lia. reflexivity.
  - intros s Hs. rewrite <- bwd_grid_dk by assumption.
    f_equal. rewrite all_numel. lia.
Qed.

Lemma bwd_sum_dv (n h t j : Z) :
  0 <= n < N -> 0 <= h < H -> 0 <= t < seq_len cu_seqlens T n -> 0 <= j < V ->
  tl_sum 1 (fun s =>
    bb_dv bufs (s * numel [B; T; H; V] + (((bos n + t) * H + h) * V + j)))
  = ref_dv (d n h) (Z.to_nat t) j.
Proof.
  intros Hn Hh Ht Hj. unfold tl_sum. change (Z.to_nat 1) with 1%nat. cbn [sum_upto].
  replace (Z.of_nat 0 * numel [B; T; H; V] + (((bos n + t) * H + h) * V + j))
    with (((bos n + t) * H + h) * V + j) by lia.
  rewrite bwd_grid_dv by assumption. ring.
Qed.

Lemma bwd_sum_db_scalar (n h t : Z) :
  hw = false ->
  0 <= n < N -> 0 <= h < H -> 0 <= t < seq_len cu_seqlens T n ->
  tl_sum NV (fun s => bb_db bufs (s * numel [B; T; H] + ((bos n + t) * H + h)))
  = ref_dbeta_scalar (d n h) (Z.to_nat t).
Proof.
  intros Hw Hn Hh Ht. pose proof BV_ge.
  rewrite (tl_sum_ext NV _
             (fun s => block_sum BV V s (ref_dbeta (d n h) (Z.to_nat t)))).
  - rewrite tl_sum_block_sum by lia. reflexivity.
  - intros s Hs. rewrite <- bwd_grid_db_scalar by assumption.
    f_equal. unfold numel, batch_ok in *. cbn.
    destruct cu_seqlens; [subst B|]; lia.
Qed.

Lemma bwd_sum_db_vector (n h t j : Z) :
  hw = true -> NV = 1 ->
  0 <= n < N -> 0 <= h < H -> 0 <= t < seq_len cu_seqlens T n -> 0 <= j < V ->
  tl_sum NV (fun a => tl_sum 1 (fun b =>
    bb_db bufs ((a * 1 + b) * numel [B; T; H; V] + (((bos n + t) * H + h) * V + j))))
  = ref_dbeta (d n h) (Z.to_nat t) j.
Proof.
  intros Hw HNV Hn Hh Ht Hj. rewrite HNV at 1.
  unfold tl_sum. change (Z.to_nat 1) with 1%nat. cbn [sum_upto].
  replace ((Z.of_nat 0 * 1 + Z.of_nat 0) * numel [B; T; H; V]
           + (((bos n + t) * H + h) * V + j))
    with (((bos n + t) * H + h) * V + j) by lia.
  rewrite bwd_grid_db_vector by assumption. ring.
Qed.

End BackwardGrid.

Section BackwardSpec.
Context {R : Type} {A : Arith R} {L : ArithLaws R}.
Variable rt : runtime R.
Variables (q k v beta : tensor R) (dht : option (tensor R)) (do : tensor R).
Variable scale : R.
Variable initial_state : option (tensor R).
Variable cu_seqlens : option (list Z).
Variables (B T H K V : Z).
Hypothesis rt_fair : fair rt.
Hypothesis shape_q : shape q = [B; T; H; K].
Hypothesis shape_k : shape k = [B; T; H; K].
Hypothesis shape_v : shape v = [B; T; H; V].
Hypothesis T_pos : 0 <= T.
Hypothesis H_pos : 1 <= H.
Hypothesis K_pos : 1 <= K.
Hypothesis V_pos : 1 <= V.
Hypothesis cu_wf : cu_ok cu_seqlens T.
Hypothesis B_ok : batch_ok cu_seqlens B.
Hypothesis state_grad : state_grad_ok initial_state = true.

Local Abbreviation N := (nseq cu_seqlens B).
Local Abbreviation hw := (Nat.eqb (ndim beta) (ndim v)).
Local Abbreviation d :=
  (bwd_head q k v beta do scale initial_state dht cu_seqlens T H K V).
Local Abbreviation bos := (seq_bos cu_seqlens T).

(** The backward launcher returns the gradients of the two-pass reference;
    the gradient of a vector beta is covered for a single block of value
    features, that is for [V <= 32]. *)
Lemma bwd_spec :
  exists dq dk dv db dh0,
    fused_recurrent_delta_rule_bwd rt q k v beta dht do scale initial_state
      cu_seqlens = Ok (dq, dk, dv, db, dh0) /\
    (forall n h t i,
       0 <= n < N -> 0 <= h < H -> 0 <= t < seq_len cu_seqlens T n -> 0 <= i < K ->
       data dq (((bos n + t) * H + h) * K + i) = ref_dq (d n h) (Z.to_nat t) i /\
       data dk (((bos n + t) * H + h) * K + i) = ref_dk (d n h) (Z.to_nat t) i) /\
    (forall n h t j,
       0 <= n < N -> 0 <= h < H -> 0 <= t < seq_len cu_seqlens T n -> 0 <= j < V ->
       data dv (((bos n + t) * H + h) * V + j) = ref_dv (d n h) (Z.to_nat t) j) /\
    (hw = false ->
     forall n h t,
       0 <= n < N -> 0 <= h < H -> 0 <= t < seq_len cu_seqlens T n ->
       data db ((bos n + t) * H + h) = ref_dbeta_scalar (d n h) (Z.to_nat t)) /\
    (hw = true -> V <= 32 ->
     forall n h t j,
       0 <= n < N -> 0 <= h < H -> 0 <= t < seq_len cu_seqlens T n -> 0 <= j < V ->
       data db (((bos n + t) * H + h) * V + j) = ref_dbeta (d n h) (Z.to_nat t) j) /\
    match dh0 with
    | Some g =>
        (exists h0, initial_state = Some h0 /\ requires_grad h0 = true /\
                    shape g = shape h0) /\
        forall n h i j,
          0 <= n < N -> 0 <= h < H -> 0 <= i < K -> 0 <= j < V ->
          data g ((n * H + h) * K * V + i * V + j) = ref_dh0 (d n h) i j
    | None => initial_state = None
    end.
Proof.
  destruct (bwd_unfold rt q k v beta dht do scale initial_state cu_seqlens
              B T H K V shape_k shape_v K_pos V_pos state_grad)
    as (NV & ENV & HNV & Hcov & E).
  cbv zeta in E. rewrite E. clear E.
  set (dh0 := match initial_state with
              | Some h0 => if requires_grad h0 then Some (new_empty rt 4 (shape h0))
                           else None
              | None => None
              end).
  do 5 eexists. split; [reflexivity|].
  rewrite shape_q, shape_k, shape_v.
  split; [|split; [|split; [|split; [|]]]].
  - intros n h t i Hn Hh Ht Hi. cbn [sum0 with_data new_empty shape data]. split.
    + apply (bwd_sum_dq rt q k v beta dht do scale initial_state cu_seqlens
               B T H K V NV (option_map data dh0)); assumption.
    + apply (bwd_sum_dk rt q k v beta dht do scale initial_state cu_seqlens
               B T H K V NV (option_map data dh0)); assumption.
  - intros n h t j Hn Hh Ht Hj. cbn [sum0 with_data new_empty shape data].
    apply (bwd_sum_dv rt q k v beta dht do scale initial_state cu_seqlens
             B T H K V NV (option_map data dh0)); assumption.
  - intros Hw n h t Hn Hh Ht.
    match goal with |- data (if ?b then ?X else ?Y) _ = _ =>
      replace (if b then X else Y) with Y by (rewrite Hw; reflexivity) end.
    cbn [sum0 with_data new_empty shape data].
    apply (bwd_sum_db_scalar rt q k v beta dht do scale initial_state cu_seqlens
             B T H K V NV (option_map data dh0)); assumption.
  - intros Hw HV32 n h t j Hn Hh Ht Hj.
    match goal with |- data (if ?b then ?X else ?Y) _ = _ =>
      replace (if b then X else Y) with X by (rewrite Hw; reflexivity) end.
    cbn [sum01 with_data new_empty shape data].
    assert (HNV1 : NV = 1).
    { rewrite (cdiv_one V (bwd_BV V)) in ENV; [congruence|].
      unfold bwd_BV. pose proof (next_power_of_2_ge V V_pos). lia. }
    apply (bwd_sum_db_vector rt q k v beta dht do scale initial_state cu_seqlens
             B T H K V NV (option_map data dh0)); assumption.
  - pose proof (bwd_grid_dh0_some rt q k v beta dht do scale initial_state
                  cu_seqlens B T H K V NV (option_map data dh0) rt_fair) as Hs.
    unfold dh0 in *. destruct initial_state as [h0|] eqn:Einit.
    + destruct (requires_grad h0) eqn:Erg.
      * cbn [option_map is_some new_empty data] in Hs |- *.
        match type of Hs with is_some (bb_dh0 ?b) = true =>
          destruct (bb_dh0 b) as [g|] eqn:Eg; [|discriminate] end.
        cbv beta iota.
        split; [exists h0; auto|].
        intros n h i j Hn Hh Hi Hj. cbn [with_data data].
        pose proof (bwd_grid_dh0 rt q k v beta dht do scale (Some h0) cu_seqlens
                      B T H K V NV (Some (junk rt 4)) rt_fair H_pos K_pos V_pos Hcov
                      n h i j ltac:(discriminate) ltac:(discriminate) Hn Hh Hi Hj) as G.
        unfold dh0_at in G. cbn [option_map] in G.
        rewrite Eg in G. exact G.
      * pose proof state_grad as Hg. rewrite ?Einit in Hg.
        cbn [state_grad_ok] in Hg. congruence.
    + reflexivity.
Qed.

End BackwardSpec.

(** * Properties of the reference recurrences *)

Section ReferenceShift.
Context {R : Type} {A : Arith R}.
Variables d d' : head R.
Variables s n : nat.
Hypothesis shift : head_shift d d' s n.

Lemma ref_delta_shift (Hm Hm' : mat R) (t : nat) (j : Z) :
  (t < n)%nat -> 0 <= j < hd_V d ->
  (forall i, 0 <= i < hd_K d -> Hm' i j = Hm i j) ->
  ref_delta d' Hm' t j = ref_delta d Hm (s + t) j.
Proof.
  destruct shift as (EK & EV & Es & Hqk & Hvb & Hh0).
  intros Ht Hj HH. unfold ref_delta.
  rewrite (proj1 (Hvb t j Ht Hj)), EK. f_equal.
  apply tl_sum_ext. intros i Hi.
  rewrite HH by exact Hi. rewrite (proj2 (Hqk t i Ht Hi)). reflexivity.
Qed.

Lemma ref_state_shift (t : nat) (i j : Z) :
  (t <= n)%nat -> 0 <= i < hd_K d -> 0 <= j < hd_V d ->
  ref_state d' t i j = ref_state d (s + t) i j.
Proof.
  destruct shift as (EK & EV & Es & Hqk & Hvb & Hh0).
  revert i j. induction t as [|t IH]; intros i j Ht Hi Hj.
  - rewrite Nat.add_0_r. cbn [ref_state]. apply Hh0; assumption.
  - replace (s + S t)%nat with (S (s + t)) by lia. cbn [ref_state].
    rewrite IH by (try assumption; lia).
    rewrite (proj2 (Hqk t i ltac:(lia) Hi)).
    rewrite (proj2 (Hvb t j ltac:(lia) Hj)).
    rewrite (ref_delta_shift (ref_state d (s + t)) (ref_state d' t) t j);
      try assumption; try lia; [reflexivity|].
    intros i0 Hi0. apply IH; try assumption; lia.
Qed.

Lemma ref_u_shift (t : nat) (j : Z) :
  (t < n)%nat -> 0 <= j < hd_V d -> ref_u d' t j = ref_u d (s + t) j.
Proof.
  intros Ht Hj. unfold ref_u. apply ref_delta_shift; try assumption.
  intros i Hi. apply ref_state_shift; try assumption; lia.
Qed.

Lemma ref_o_shift (t : nat) (j : Z) :
  (t < n)%nat -> 0 <= j < hd_V d -> ref_o d' t j = ref_o d (s + t) j.
Proof.
  intros Ht Hj. unfold ref_o.
  destruct shift as (EK & EV & Es & Hqk & Hvb & Hh0).
  rewrite EK, Es. apply tl_sum_ext. intros i Hi.
  rewrite (ref_state_shift (S t) i j) by (try assumption; lia).
  rewrite (proj1 (Hqk t i Ht Hi)).
  replace (s + S t)%nat with (S (s + t)) by lia. reflexivity.
Qed.

End ReferenceShift.

Section ReferenceAgree.
Context {R : Type} {A : Arith R}.
Variables d d' : head R.
Hypothesis agree : head_agree d d'.

Lemma agree_shift : head_shift d d' 0 (hd_T d).
Proof.
  destruct agree as (EK & EV & ET & Es & Hqk & Hvb & Hh).
  repeat split; try assumption.
  - apply Hqk; assumption.
  - apply Hqk; assumption.
  - apply Hvb; assumption.
  - apply Hvb; assumption.
  - cbn [ref_state]. apply Hh; assumption.
Qed.

Lemma ref_state_agree (t : nat) (i j : Z) :
  (t <= hd_T d)%nat -> 0 <= i < hd_K d -> 0 <= j < hd_V d ->
  ref_state d' t i j = ref_state d t i j.
Proof. intros. apply (ref_state_shift d d' 0 (hd_T d) agree_shift); assumption. Qed.

Lemma ref_u_agree (t : nat) (j : Z) :
  (t < hd_T d)%nat -> 0 <= j < hd_V d -> ref_u d' t j = ref_u d t j.
Proof. intros. apply (ref_u_shift d d' 0 (hd_T d) agree_shift); assumption. Qed.

Lemma ref_o_agree (t : nat) (j : Z) :
  (t < hd_T d)%nat -> 0 <= j < hd_V d -> ref_o d' t j = ref_o d t j.
Proof. intros. apply (ref_o_shift d d' 0 (hd_T d) agree_shift); assumption. Qed.

(** The backward reference. *)

Lemma refA_acc_agree (G G' : mat R) (t : nat) (i j : Z) :
  (t < hd_T d)%nat -> 0 <= i < hd_K d -> 0 <= j < hd_V d ->
  G' i j = G i j -> refA_acc d' G' t i j = refA_acc d G t i j.
Proof.
  destruct agree as (EK & EV & ET & Es & Hqk & Hvb & Hh).
  intros Ht Hi Hj E. unfold refA_acc.
  rewrite E, Es, (proj1 (Hqk t i Ht Hi)).
  destruct (Hvb t j Ht Hj) as (_ & _ & ->). reflexivity.
Qed.

Lemma refA_dvp_agree (G G' : mat R) (t : nat) (j : Z) :
  (t < hd_T d)%nat -> 0 <= j < hd_V d ->
  (forall i, 0 <= i < hd_K d -> G' i j = G i j) ->
  refA_dvp d' G' t j = refA_dvp d G t j.
Proof.
  destruct agree as (EK & EV & ET & Es & Hqk & Hvb & Hh).
  intros Ht Hj E. unfold refA_dvp. rewrite EK.
  apply tl_sum_ext. intros i Hi.
  rewrite E by exact Hi. rewrite (proj2 (Hqk t i Ht Hi)). reflexivity.
Qed.

Lemma refA_dv_agree (G G' : mat R) (t : nat) (j : Z) :
  (t < hd_T d)%nat -> 0 <= j < hd_V d ->
  (forall i, 0 <= i < hd_K d -> G' i j = G i j) ->
  refA_dv d' G' t j = refA_dv d G t j.
Proof.
  intros Ht Hj E. unfold refA_dv.
  rewrite (refA_dvp_agree G G' t j Ht Hj E).
  destruct agree as (EK & EV & ET & Es & Hqk & Hvb & Hh).
  destruct (Hvb t j Ht Hj) as (_ & -> & _). reflexivity.
Qed.

Lemma refA_G_agree (m : nat) (i j : Z) :
  (m <= hd_T d)%nat -> 0 <= i < hd_K d -> 0 <= j < hd_V d ->
  refA_G d' m i j = refA_G d m i j.
Proof.
  pose proof agree as (EK & EV & ET & Es & Hqk & Hvb & Hh).
  revert i j. induction m as [|m IH]; intros i j Hm Hi Hj.
  - cbn [refA_G]. apply Hh; assumption.
  - cbn [refA_G]. cbv zeta. rewrite ET. unfold refA_undo.
    assert (Ht : (hd_T d - 1 - m < hd_T d)%nat) by lia.
    rewrite (refA_acc_agree (refA_G d m) (refA_G d' m)) by
      (try assumption; apply IH; try assumption; lia).
    rewrite (proj2 (Hqk _ i Ht Hi)).
    rewrite (refA_dv_agree (refA_acc d (refA_G d m) (hd_T d - 1 - m))
               (refA_acc d' (refA_G d' m) (hd_T d - 1 - m))); try assumption.
    + reflexivity.
    + intros i0 Hi0. apply refA_acc_agree; try assumption.
      apply IH; try assumption; lia.
Qed.

Lemma ref_G_agree (t : nat) (i j : Z) :
  (t < hd_T d)%nat -> 0 <= i < hd_K d -> 0 <= j < hd_V d ->
  ref_G d' t i j = ref_G d t i j.
Proof.
  pose proof agree as (EK & EV & ET & Es & Hqk & Hvb & Hh).
  intros Ht Hi Hj. unfold ref_G. rewrite ET.
  apply refA_acc_agree; try assumption.
  apply refA_G_agree; try assumption; lia.
Qed.

Lemma ref_dv_agree (t : nat) (j : Z) :
  (t < hd_T d)%nat -> 0 <= j < hd_V d -> ref_dv d' t j = ref_dv d t j.
Proof.
  intros Ht Hj. unfold ref_dv. apply refA_dv_agree; try assumption.
  intros i Hi. apply ref_G_agree; assumption.
Qed.

Lemma ref_dbeta_agree (t : nat) (j : Z) :
  (t < hd_T d)%nat -> 0 <= j < hd_V d -> ref_dbeta d' t j = ref_dbeta d t j.
Proof.
  intros Ht Hj. unfold ref_dbeta.
  rewrite (refA_dvp_agree (ref_G d t) (ref_G d' t) t j Ht Hj)
    by (intros i Hi; apply ref_G_agree; assumption).
  destruct agree as (EK & EV & ET & Es & Hqk & Hvb & Hh).
  destruct (Hvb t j Ht Hj) as (-> & _ & _). reflexivity.
Qed.

Lemma ref_dbeta_scalar_agree (t : nat) :
  (t < hd_T d)%nat -> ref_dbeta_scalar d' t = ref_dbeta_scalar d t.
Proof.
  intros Ht. unfold ref_dbeta_scalar.
  pose proof agree as (EK & EV & ET & Es & Hqk & Hvb & Hh). rewrite EV.
  apply tl_sum_ext. intros j Hj. apply ref_dbeta_agree; assumption.
Qed.

Lemma ref_dh0_agree (i j : Z) :
  0 <= i < hd_K d -> 0 <= j < hd_V d -> ref_dh0 d' i j = ref_dh0 d i j.
Proof.
  intros Hi Hj. unfold ref_dh0.
  pose proof agree as (EK & EV & ET & Es & Hqk & Hvb & Hh). rewrite ET.
  apply refA_G_agree; try assumption; lia.
Qed.

Lemma refB_state_agree (t : nat) (i j : Z) :
  (t <= hd_T d)%nat -> 0 <= i < hd_K d -> 0 <= j < hd_V d ->
  refB_state d' t i j = refB_state d t i j.
Proof.
  pose proof agree as (EK & EV & ET & Es & Hqk & Hvb & Hh).
  revert i j. induction t as [|t IH]; intros i j Ht Hi Hj.
  - cbn [refB_state]. apply Hh; assumption.
  - cbn [refB_state]. rewrite IH by (try assumption; lia).
    rewrite (proj2 (Hqk t i ltac:(lia) Hi)).
    destruct (Hvb t j ltac:(lia) Hj) as (-> & -> & _). reflexivity.
Qed.

Lemma ref_dk_agree (t : nat) (i : Z) :
  (t < hd_T d)%nat -> 0 <= i < hd_K d -> ref_dk d' t i = ref_dk d t i.
Proof.
  pose proof agree as (EK & EV & ET & Es & Hqk & Hvb & Hh).
  intros Ht Hi. unfold ref_dk, ref_dkA. rewrite EV. f_equal.
  - apply tl_sum_ext. intros j Hj.
    rewrite ref_G_agree by assumption.
    destruct (Hvb t j Ht Hj) as (-> & -> & _). reflexivity.
  - apply tl_sum_ext. intros j Hj.
    rewrite refB_state_agree by (try assumption; lia).
    rewrite ref_dv_agree by assumption. reflexivity.
Qed.

Lemma ref_dq_agree (t : nat) (i : Z) :
  (t < hd_T d)%nat -> 0 <= i < hd_K d -> ref_dq d' t i = ref_dq d t i.
Proof.
  pose proof agree as (EK & EV & ET & Es & Hqk & Hvb & Hh).
  intros Ht Hi. unfold ref_dq. rewrite EV, Es. f_equal.
  apply tl_sum_ext. intros j Hj.
  rewrite refB_state_agree by (try assumption; lia).
  destruct (Hvb t j Ht Hj) as (_ & _ & ->). reflexivity.
Qed.

End ReferenceAgree.

Section ReferenceZeroBeta.
Context {R : Type} {A : Arith R} {L : ArithLaws R}.
Add Ring arith_ring_zero : (arith_ring (R := R)).
Variable d : head R.
Variable n : nat.
Hypothesis zero_beta :
  forall t j, (t < n)%nat -> 0 <= j < hd_V d -> hd_beta d t j = zero.

(** With all betas zero the state never moves. *)
Lemma ref_state_zero_beta (t : nat) (i j : Z) :
  (t <= n)%nat -> 0 <= j < hd_V d -> ref_state d t i j = hd_h0 d i j.
Proof.
  induction t as [|t IH]; intros Ht Hj; cbn [ref_state]; [reflexivity|].
  rewrite IH by (try assumption; lia).
  rewrite zero_beta by (try assumption; lia). ring.
Qed.

Lemma ref_u_zero_beta (t : nat) (j : Z) :
  (t < n)%nat -> 0 <= j < hd_V d ->
  ref_u d t j =
  sub (hd_v d t j) (tl_sum (hd_K d) (fun i => mul (hd_h0 d i j) (hd_k d t i))).
Proof.
  intros Ht Hj. unfold ref_u, ref_delta. f_equal.
  apply tl_sum_ext. intros i _.
  rewrite ref_state_zero_beta by (try assumption; lia). reflexivity.
Qed.

End ReferenceZeroBeta.

Lemma plain_runtime_fair {R} (x : R) : fair (plain_runtime x).
Proof. intros l. apply Permutation_refl. Qed.

(** * The forward pass as a function of its inputs

    What a forward program stores is fixed by the tensors it reads, whatever
    the buffers held before and whatever the arithmetic is: no law of the
    operations is used here. *)

Section ForwardValues.
Context {R : Type} {A : Arith R}.
Variables (q k v beta : mem R) (h0 : option (mem R)).
Variable cu_seqlens : option (list Z).
Variable scale : R.
Variables (T B H K V BK BV : Z) (IS_BETA_HEADWISE : bool).
Variables (i_v i_nh : Z).
Hypothesis H_pos : 1 <= H.
Hypothesis i_v_nonneg : 0 <= i_v.
Hypothesis BV_nonneg : 0 <= BV.
Hypothesis V_nonneg : 0 <= V.
Hypothesis K_BK : 0 <= K <= BK.

Local Abbreviation blank := (fun _ : Z => zero).
Local Abbreviation c :=
  (prog_args q k v beta blank scale H K V BK BV IS_BETA_HEADWISE i_v).
Local Abbreviation entry :=
  (fwd_entry h0 cu_seqlens T B H K V BK BV IS_BETA_HEADWISE i_v i_nh).
Local Abbreviation kernel :=
  (fused_recurrent_delta_rule_fwd_kernel q k v beta h0 cu_seqlens scale
     T B H K V BK BV IS_BETA_HEADWISE (i_v, 0, i_nh)).
Local Abbreviation Tn := (Z.to_nat (prog_len cu_seqlens T H i_nh)).

Lemma blk_h_entry (u o : mem R) (t : nat) (j i : Z) :
  blk_h c (entry u o) t j i = blk_h c (entry blank blank) t j i.
Proof.
  revert j i. induction t as [|t IH]; intros j i; [reflexivity|].
  cbn [blk_h]. rewrite IH. unfold blk_delta.
  rewrite (tl_sum_ext (ba_BK c) _ _
             (fun i0 _ => f_equal (fun h => mul h _) (IH j i0))).
  reflexivity.
Qed.

Lemma blk_u_entry (u o : mem R) (t : nat) (j : Z) :
  blk_u c (entry u o) t j = blk_u c (entry blank blank) t j.
Proof.
  unfold blk_u, blk_delta.
  rewrite (tl_sum_ext (ba_BK c) _ _
             (fun i _ => f_equal (fun h => mul h _) (blk_h_entry u o t j i))).
  reflexivity.
Qed.

Lemma blk_o_entry (u o : mem R) (t : nat) (j : Z) :
  blk_o c (entry u o) t j = blk_o c (entry blank blank) t j.
Proof.
  unfold blk_o. apply tl_sum_ext. intros i _.
  rewrite blk_h_entry. reflexivity.
Qed.

(** The residuals and outputs a program stores. *)
Lemma fwd_program_values (bufs : fwd_bufs) (t : nat) (j : Z) :
  (t < Tn)%nat -> in_block BV V i_v j ->
  fb_u (kernel bufs)
    (((prog_bos cu_seqlens T H i_nh + Z.of_nat t) * H + i_nh mod H) * V + j)
    = blk_u c (entry blank blank) t (j - i_v * BV) /\
  fb_o (kernel bufs)
    (((prog_bos cu_seqlens T H i_nh + Z.of_nat t) * H + i_nh mod H) * V + j)
    = blk_o c (entry blank blank) t (j - i_v * BV).
Proof.
  intros Ht [Hj HjV]. rewrite fwd_kernel_unfold with (do := blank).
  cbv zeta. cbn [fb_u fb_o].
  destruct (fwd_loop_inv c
              (mask_v_width q k v beta blank scale H K V BK BV IS_BETA_HEADWISE i_v
                 H_pos i_v_nonneg BV_nonneg V_nonneg)
              (entry (fb_u bufs) (fb_o bufs)) Tn)
    as (_ & _ & _ & _ & _ & _ & _ & [Uin _] & [Oin _]).
  assert (Hm : (i_v * BV + (j - i_v * BV) <? V) = true) by (apply Z.ltb_lt; lia).
  specialize (Uin t (j - i_v * BV) Ht ltac:(cbn; lia) Hm).
  specialize (Oin t (j - i_v * BV) Ht ltac:(cbn; lia) Hm).
  rewrite blk_u_entry in Uin. rewrite blk_o_entry in Oin.
  split.
  - rewrite <- Uin. f_equal. unfold row_v. cbn. lia.
  - rewrite <- Oin. f_equal. unfold row_v. cbn. lia.
Qed.

(** The final state a program stores. *)
Lemma fwd_program_ht_value (bufs : fwd_bufs) (i j : Z) :
  fb_ht bufs <> None -> 0 <= i < K -> in_block BV V i_v j ->
  ht_at (kernel bufs) (i_nh * K * V + i * V + j)
    = blk_h c (entry blank blank) Tn (j - i_v * BV) i.
Proof.
  intros Hs Hi [Hj HjV]. rewrite fwd_kernel_unfold with (do := blank). cbv zeta.
  unfold ht_at. cbn [fb_ht].
  destruct (fb_ht bufs) as [ht|]; [clear Hs|congruence].
  destruct (fwd_loop_inv c
              (mask_v_width q k v beta blank scale H K V BK BV IS_BETA_HEADWISE i_v
                 H_pos i_v_nonneg BV_nonneg V_nonneg)
              (entry (fb_u bufs) (fb_o bufs)) Tn)
    as (_ & _ & _ & _ & _ & _ & Eh & _ & _).
  assert (Hm : (i_v * BV + (j - i_v * BV) <? V) = true) by (apply Z.ltb_lt; lia).
  assert (Hk : (i <? K) = true) by (apply Z.ltb_lt; lia).
  replace (i_nh * K * V + i * V + j)
    with (state_ptr K V BK BV i_v i_nh i (j - i_v * BV))
    by (unfold state_ptr; lia).
  etransitivity.
  - apply (tl_store2_in BV BK ht (fun j i => state_ptr K V BK BV i_v i_nh i j) _
             (fun j i => state_mask K V BK BV i_v i j) (j - i_v * BV) i).
    + intros a b a' b' Ha Hb Ha' Hb' Ma Ma' E.
      unfold state_mask in Ma, Ma'. apply andb_prop in Ma, Ma'.
      destruct (state_ptr_inj K V BK BV i_v i_nh i_v_nonneg BV_nonneg V_nonneg
                  b a b' a') as [? ?]; try tauto; try lia.
    + lia.
    + lia.
    + unfold state_mask. rewrite Z.mul_0_l, Z.add_0_l, Hk, Hm. reflexivity.
  - rewrite Eh. apply blk_h_entry.
Qed.

End ForwardValues.

(** Every entry of a tensor of shape [B, T, H, V] belongs to one sequence,
    timestep, head and feature. *)
Lemma entry_coords (B T H V a : Z) :
  0 <= B -> 1 <= H -> 1 <= V -> 0 <= a < B * T * H * V ->
  exists n t h j,
    0 <= n < B /\ 0 <= t < T /\ 0 <= h < H /\ 0 <= j < V /\
    a = ((n * T + t) * H + h) * V + j.
Proof.
  intros HB HH HV Ha.
  assert (HT : 1 <= T).
  { destruct (Z_le_gt_dec T 0) as [HT|HT]; [|lia].
    assert (B * T <= 0) by nia. assert (0 <= H * V) by nia.
    assert (B * T * H * V = (B * T) * (H * V)) by ring. nia. }
  exists (a / V / H / T), ((a / V / H) mod T), ((a / V) mod H), (a mod V).
  pose proof (Z.div_mod a V ltac:(lia)) as E1.
  pose proof (Z.mod_pos_bound a V ltac:(lia)) as B1.
  pose proof (Z.div_mod (a / V) H ltac:(lia)) as E2.
  pose proof (Z.mod_pos_bound (a / V) H ltac:(lia)) as B2.
  pose proof (Z.div_mod (a / V / H) T ltac:(lia)) as E3.
  pose proof (Z.mod_pos_bound (a / V / H) T ltac:(lia)) as B3.
  assert (0 <= a / V) by (apply Z.div_pos; lia).
  assert (0 <= a / V / H) by (apply Z.div_pos; lia).
  assert (0 <= a / V / H / T) by (apply Z.div_pos; lia).
  assert (L1 : a / V < B * T * H)
    by (apply Z.div_lt_upper_bound; [lia|]; nia).
  assert (L2 : a / V / H < B * T)
    by (apply Z.div_lt_upper_bound; [lia|]; nia).
  assert (L3 : a / V / H / T < B)
    by (apply Z.div_lt_upper_bound; [lia|]; nia).
  set (x1 := a / V) in *. set (x2 := x1 / H) in *. set (x3 := x2 / T) in *.
  repeat split; lia.
Qed.

Section ForwardDeterminism.
Context {R : Type} {A : Arith R}.
Variables (q k v beta : tensor R) (scale : R).
Variable initial_state : option (tensor R).
Variable output_final_state : bool.
Variable cu_seqlens : option (list Z).
Variables (B T H K V : Z).
Hypothesis shape_k : shape k = [B; T; H; K].
Hypothesis shape_v : shape v = [B; T; H; V].
Hypothesis H_pos : 1 <= H.
Hypothesis K_pos : 1 <= K.
Hypothesis V_pos : 1 <= V.
Hypothesis cu_wf : cu_ok cu_seqlens T.

Local Abbreviation N := (nseq cu_seqlens B).
Local Abbreviation blank := (fun _ : Z => zero).
Local Abbreviation hw := (Nat.eqb (ndim beta) (ndim v)).
Local Abbreviation c := (fun j =>
  prog_args (data q) (data k) (data v) (data beta) blank scale H K V
    (next_power_of_2 K) (fwd_BV V) hw (j / fwd_BV V)).
Local Abbreviation entry := (fun n h j =>
  fwd_entry (option_map data initial_state) cu_seqlens T B H K V
    (next_power_of_2 K) (fwd_BV V) hw (j / fwd_BV V) (n * H + h) blank blank).

(** Whatever the fresh buffers hold and in whatever order the programs run,
    the launcher returns the values of the loops of the programs. *)
Lemma fwd_values (rt : runtime R) :
  fair rt ->
  exists o u fs,
    fused_recurrent_delta_rule_fwd rt q k v beta scale initial_state
      output_final_state cu_seqlens = Ok (o, u, fs) /\
    shape o = shape v /\ shape u = shape v /\
    (forall n h t j,
       0 <= n < N -> 0 <= h < H -> 0 <= t < seq_len cu_seqlens T n -> 0 <= j < V ->
       data u (((seq_bos cu_seqlens T n + t) * H + h) * V + j)
         = blk_u (c j) (entry n h j) (Z.to_nat t) (j - j / fwd_BV V * fwd_BV V) /\
       data o (((seq_bos cu_seqlens T n + t) * H + h) * V + j)
         = blk_o (c j) (entry n h j) (Z.to_nat t) (j - j / fwd_BV V * fwd_BV V)) /\
    match fs with
    | Some f =>
        output_final_state = true /\ shape f = [N; H; K; V] /\
        forall n h i j,
          0 <= n < N -> 0 <= h < H -> 0 <= i < K -> 0 <= j < V ->
          data f ((n * H + h) * K * V + i * V + j)
            = blk_h (c j) (entry n h j) (Z.to_nat (seq_len cu_seqlens T n))
                (j - j / fwd_BV V * fwd_BV V) i
    | None => output_final_state = false
    end.
Proof.
  intros rt_fair.
  destruct (fwd_unfold rt q k v beta scale initial_state output_final_state
              cu_seqlens B T H K V shape_k shape_v K_pos V_pos)
    as (NV & ENV & HNV & Hcov & E).
  cbv zeta in E. rewrite E. clear E.
  pose proof (fwd_BV_pos V V_pos) as HBV.
  pose proof (next_power_of_2_ge K K_pos) as HBK.
  set (kernel := fused_recurrent_delta_rule_fwd_kernel _ _ _ _ _ _ _ _ _ _ _ _ _ _ _).
  set (bufs0 := {| fb_u := junk rt 2; fb_o := junk rt 0; fb_ht := _ |}).
  do 3 eexists. split; [reflexivity|]. cbn [shape data].
  split; [reflexivity|]. split; [reflexivity|]. split.
  - intros n h t j Hn Hh Ht Hj.
    destruct (head_index H n h Hh) as [E1 E2].
    destruct (block_of (fwd_BV V) V NV j HBV Hcov Hj) as [HjN Hblk].
    assert (Hw : forall s,
      fb_u (kernel (j / fwd_BV V, 0, n * H + h) s)
        (((seq_bos cu_seqlens T n + t) * H + h) * V + j)
        = blk_u (c j) (entry n h j) (Z.to_nat t) (j - j / fwd_BV V * fwd_BV V) /\
      fb_o (kernel (j / fwd_BV V, 0, n * H + h) s)
        (((seq_bos cu_seqlens T n + t) * H + h) * V + j)
        = blk_o (c j) (entry n h j) (Z.to_nat t) (j - j / fwd_BV V * fwd_BV V)).
    { intros s.
      pose proof (fwd_program_values (data q) (data k) (data v) (data beta)
                    (option_map data initial_state) cu_seqlens scale T B H K V
                    (next_power_of_2 K) (fwd_BV V) hw (j / fwd_BV V) (n * H + h)
                    H_pos ltac:(lia) ltac:(lia) ltac:(lia) s (Z.to_nat t) j) as W.
      unfold prog_len, prog_bos in W. rewrite E1, E2 in W.
      rewrite Z2Nat.id in W by lia.
      apply W; [lia|exact Hblk]. }
    split.
    + apply grid_rows_v with (B := B) (BV := fwd_BV V) (NV := NV)
        (Inv := fun _ => True) (get := fb_u); auto.
      * intros i_v i_nh s a Hiv Hinh Ha.
        exact (proj1 (fwd_program_frame (data q) (data k) (data v) (data beta)
                 blank (option_map data initial_state) None
                 cu_seqlens scale T B H K V (next_power_of_2 K) (fwd_BV V)
                 hw i_v i_nh H_pos ltac:(lia) ltac:(lia) ltac:(lia) s a Ha)).
      * intros s _. apply Hw.
    + apply grid_rows_v with (B := B) (BV := fwd_BV V) (NV := NV)
        (Inv := fun _ => True) (get := fb_o); auto.
      * intros i_v i_nh s a Hiv Hinh Ha.
        exact (proj2 (fwd_program_frame (data q) (data k) (data v) (data beta)
                 blank (option_map data initial_state) None
                 cu_seqlens scale T B H K V (next_power_of_2 K) (fwd_BV V)
                 hw i_v i_nh H_pos ltac:(lia) ltac:(lia) ltac:(lia) s a Ha)).
      * intros s _. apply Hw.
  - assert (Hs : is_some (fb_ht (launch rt (NV, 1, N * H) kernel bufs0))
                 = is_some (fb_ht bufs0)).
    { apply (launch_frame rt (NV, 1, N * H) kernel (fun s => is_some (fb_ht s))
               bufs0 rt_fair).
      intros p' s' _. apply fwd_kernel_ht_some. }
    destruct output_final_state; cbn [fb_ht bufs0 is_some] in Hs.
    + destruct (fb_ht (launch rt (NV, 1, N * H) kernel bufs0)) as [d0|] eqn:Ed;
        [|discriminate].
      split; [reflexivity|]. split; [reflexivity|]. cbn [data].
      intros n h i j Hn Hh Hi Hj.
      destruct (head_index H n h Hh) as [E1 E2].
      destruct (block_of (fwd_BV V) V NV j HBV Hcov Hj) as [HjN Hblk].
      assert (G : ht_at (launch rt (NV, 1, N * H) kernel bufs0)
                    ((n * H + h) * K * V + i * V + j)
                  = blk_h (c j) (entry n h j) (Z.to_nat (seq_len cu_seqlens T n))
                      (j - j / fwd_BV V * fwd_BV V) i).
      { apply grid_state with (B := B) (BV := fwd_BV V) (NV := NV)
          (Inv := fun s => is_some (fb_ht s) = true) (get := ht_at);
          try assumption; try reflexivity; try nia.
        - intros p s Hs'. unfold kernel. rewrite fwd_kernel_ht_some. exact Hs'.
        - intros i_v i_nh s a Hiv Hinh Ha.
          exact (fwd_program_ht_frame (data q) (data k) (data v) (data beta)
                   blank (option_map data initial_state)
                   cu_seqlens scale T B H K V (next_power_of_2 K) (fwd_BV V)
                   hw i_v i_nh s a Ha).
        - intros s Hs'.
          pose proof (fwd_program_ht_value (data q) (data k) (data v) (data beta)
                        (option_map data initial_state) cu_seqlens scale T B H K V
                        (next_power_of_2 K) (fwd_BV V) hw (j / fwd_BV V) (n * H + h)
                        H_pos ltac:(lia) ltac:(lia) ltac:(lia) ltac:(lia) s i j) as W.
          unfold prog_len in W. rewrite E1 in W.
          apply W; try assumption.
          destruct (fb_ht s); [discriminate|discriminate]. }
      unfold ht_at in G. rewrite Ed in G. exact G.
    + destruct (fb_ht (launch rt (NV, 1, N * H) kernel bufs0)); [discriminate|].
      reflexivity.
Qed.

End ForwardDeterminism.

(** The state and the residuals of the forward loop do not read the queries
    or the scale. *)
Section ForwardQueries.
Context {R : Type} {A : Arith R}.
Variables c c' : blk_args R.
Variable init : fwd_loop (R := R).
Hypothesis same_k : ba_k c' = ba_k c.
Hypothesis same_v : ba_v c' = ba_v c.
Hypothesis same_beta : ba_beta c' = ba_beta c.
Hypothesis same_H : ba_H c' = ba_H c.
Hypothesis same_K : ba_K c' = ba_K c.
Hypothesis same_V : ba_V c' = ba_V c.
Hypothesis same_BK : ba_BK c' = ba_BK c.
Hypothesis same_headwise : ba_headwise c' = ba_headwise c.
Hypothesis same_mask_k : ba_mask_k c' = ba_mask_k c.
Hypothesis same_mask_v : ba_mask_v c' = ba_mask_v c.

Lemma blk_delta_queries (h h' : mat R) (t : nat) (j : Z) :
  (forall i, h' j i = h j i) ->
  blk_delta c' init h' t j = blk_delta c init h t j.
Proof.
  intros Hh. unfold blk_delta, blk_v, blk_k, row_v, row_k.
  rewrite same_k, same_v, same_H, same_K, same_V, same_BK, same_mask_k, same_mask_v.
  f_equal. apply tl_sum_ext. intros i _. rewrite Hh. reflexivity.
Qed.

Lemma blk_h_queries (t : nat) (j i : Z) :
  blk_h c' init t j i = blk_h c init t j i.
Proof.
  revert j i. induction t as [|t IH]; intros j i; [reflexivity|].
  cbn [blk_h]. rewrite IH.
  rewrite (blk_delta_queries (blk_h c init t) (blk_h c' init t) t j (IH j)).
  unfold blk_k, blk_beta, row_k, row_beta.
  rewrite same_k, same_beta, same_H, same_K, same_V, same_headwise,
    same_mask_k, same_mask_v.
  reflexivity.
Qed.

Lemma blk_u_queries (t : nat) (j : Z) :
  blk_u c' init t j = blk_u c init t j.
Proof.
  unfold blk_u. apply blk_delta_queries. intros i. apply blk_h_queries.
Qed.

End ForwardQueries.

(** Every token before the offset [m] of a packed batch that starts at 0
    belongs to one of the sequences before [m]. *)
Lemma token_in_sequence (cu : list Z) (m : nat) (tok : Z) :
  nth 0 cu 0 = 0 -> 0 <= tok < nth m cu 0 ->
  exists n, 0 <= n < Z.of_nat m /\
            nth (Z.to_nat n) cu 0 <= tok < nth (Z.to_nat (n + 1)) cu 0.
Proof.
  intros H0. induction m as [|m IH]; intros Ht; [lia|].
  destruct (Z_lt_ge_dec tok (nth m cu 0)) as [Hlt|Hge].
  - destruct (IH ltac:(lia)) as (n & Hn & Hb). exists n. split; [lia|exact Hb].
  - exists (Z.of_nat m). split; [lia|].
    replace (Z.to_nat (Z.of_nat m + 1)) with (S m) by lia.
    rewrite Nat2Z.id. lia.
Qed.

(** * The backward reference on a zero gradient *)

Section ReferenceZeroGradient.
Context {R : Type} {A : Arith R} {L : ArithLaws R}.
Add Ring arith_ring_zero : (arith_ring (R := R)).

Variable d : head R.
Hypothesis zero_do : forall t j, hd_do d t j = zero.
Hypothesis zero_dht : forall i j, hd_dht d i j = zero.

Lemma refA_acc_zero (G : mat R) (t : nat) (i j : Z) :
  G i j = zero -> refA_acc d G t i j = zero.
Proof. intros E. unfold refA_acc. rewrite E, zero_do. ring. Qed.

Lemma refA_dvp_zero (G : mat R) (t : nat) (j : Z) :
  (forall i, G i j = zero) -> refA_dvp d G t j = zero.
Proof.
  intros E. unfold refA_dvp. apply tl_sum_zero. intros i _. rewrite E. ring.
Qed.

Lemma refA_G_zero (n : nat) (i j : Z) : refA_G d n i j = zero.
Proof.
  revert i j. induction n as [|n IH]; intros i j; cbn [refA_G]; [apply zero_dht|].
  cbv zeta. unfold refA_undo, refA_dv.
  rewrite refA_acc_zero by apply IH.
  rewrite refA_dvp_zero by (intros i0; apply refA_acc_zero; apply IH).
  ring.
Qed.

Lemma ref_G_zero (t : nat) (i j : Z) : ref_G d t i j = zero.
Proof. unfold ref_G. apply refA_acc_zero, refA_G_zero. Qed.

Lemma ref_dv_zero (t : nat) (j : Z) : ref_dv d t j = zero.
Proof.
  unfold ref_dv, refA_dv.
  rewrite refA_dvp_zero by (intros i; apply ref_G_zero). ring.
Qed.

Lemma ref_dbeta_zero (t : nat) (j : Z) : ref_dbeta d t j = zero.
Proof.
  unfold ref_dbeta.
  rewrite refA_dvp_zero by (intros i; apply ref_G_zero). ring.
Qed.

Lemma ref_dbeta_scalar_zero (t : nat) : ref_dbeta_scalar d t = zero.
Proof. apply tl_sum_zero. intros j _. apply ref_dbeta_zero. Qed.

Lemma ref_dh0_zero (i j : Z) : ref_dh0 d i j = zero.
Proof. apply refA_G_zero. Qed.

Lemma ref_dk_zero (t : nat) (i : Z) : ref_dk d t i = zero.
Proof.
  assert (E1 : ref_dkA d t i = zero)
    by (apply tl_sum_zero; intros j _; rewrite ref_G_zero; ring).
  unfold ref_dk. rewrite E1.
  rewrite tl_sum_zero; [ring|]. intros j _. rewrite ref_dv_zero. ring.
Qed.

Lemma ref_dq_zero (t : nat) (i : Z) : ref_dq d t i = zero.
Proof.
  unfold ref_dq. rewrite tl_sum_zero; [ring|].
  intros j _. rewrite zero_do. ring.
Qed.

End ReferenceZeroGradient.

(** * The forward reference and the scale *)

Section ReferenceScale.
Context {R : Type} {A : Arith R} {L : ArithLaws R}.
Add Ring arith_ring_scale : (arith_ring (R := R)).

Variables d d' : head R.
Hypothesis same_K : hd_K d' = hd_K d.
Hypothesis same_q : forall t i, hd_q d' t i = hd_q d t i.
Hypothesis same_k : forall t i, hd_k d' t i = hd_k d t i.
Hypothesis same_v : forall t j, hd_v d' t j = hd_v d t j.
Hypothesis same_beta : forall t j, hd_beta d' t j = hd_beta d t j.
Hypothesis same_h0 : forall i j, hd_h0 d' i j = hd_h0 d i j.
Hypothesis unit_scale : hd_scale d = one.

Lemma ref_state_scale (t : nat) (i j : Z) : ref_state d' t i j = ref_state d t i j.
Proof.
  revert i j. induction t as [|t IH]; intros i j; cbn [ref_state]; [apply same_h0|].
  rewrite IH, same_k, same_beta. unfold ref_delta. rewrite same_v, same_K.
  rewrite (tl_sum_ext (hd_K d) _ (fun i0 => mul (ref_state d t i0 j) (hd_k d t i0)));
    [reflexivity|].
  intros i0 _. rewrite IH, same_k. reflexivity.
Qed.

Lemma ref_u_scale (t : nat) (j : Z) : ref_u d' t j = ref_u d t j.
Proof.
  unfold ref_u, ref_delta. rewrite same_v, same_K. f_equal.
  apply tl_sum_ext. intros i _. rewrite ref_state_scale, same_k. reflexivity.
Qed.

Lemma ref_o_scale (t : nat) (j : Z) :
  ref_o d' t j = mul (ref_o d t j) (hd_scale d').
Proof.
  unfold ref_o. rewrite same_K, unit_scale, <- tl_sum_mul_r.
  apply tl_sum_ext. intros i _. rewrite ref_state_scale, same_q. ring.
Qed.

End ReferenceScale.

(** * The configuration of the RWKV7 model *)

Section ConfigLemmas.
Context {F : Type}.
Variable float_10000 : F.

Lemma dict_get_set (d : dict (F := F)) (k key : string) (x : py_value) :
  dict_get (dict_set d k x) key = if String.eqb k key then Some x else dict_get d key.
Proof.
  induction d as [|[k0 v0] d IH]; cbn [dict_set dict_get].
  - destruct (String.eqb k key); reflexivity.
  - destruct (String.eqb_spec k0 k) as [->|Hk]; cbn [dict_get].
    + destruct (String.eqb k key); reflexivity.
    + rewrite IH. destruct (String.eqb_spec k0 key) as [->|Hk0]; [|reflexivity].
      destruct (String.eqb_spec k key) as [->|_]; [contradiction|reflexivity].
Qed.

Lemma dict_set_present (d : dict (F := F)) (k : string) (x : py_value) :
  dict_get d k = Some x -> dict_set d k x = d.
Proof.
  induction d as [|[k0 v0] d IH]; cbn [dict_set dict_get]; [discriminate|].
  destruct (String.eqb k0 k).
  - intros E. inversion E. reflexivity.
  - intros E. rewrite (IH E). reflexivity.
Qed.

Lemma dict_complete_present (d : dict (F := F)) (k : string) (x y : py_value) :
  dict_get d k = Some y -> dict_set d k (dict_get_default d k x) = d.
Proof.
  intros E. unfold dict_get_default. rewrite E. apply dict_set_present. exact E.
Qed.

Lemma dict_get_complete (d : dict (F := F)) (k key : string) (x : py_value) :
  dict_get (dict_set d k (dict_get_default d k x)) key
  = if String.eqb k key then Some (dict_get_default d k x) else dict_get d key.
Proof. apply dict_get_set. Qed.

Lemma dict_get_complete_kept (d : dict (F := F)) (k key : string) (x : py_value) :
  dict_get d key <> None ->
  dict_get (dict_set d k (dict_get_default d k x)) key = dict_get d key.
Proof.
  intros Hk. rewrite dict_get_set.
  destruct (String.eqb_spec k key) as [->|_]; [|reflexivity].
  unfold dict_get_default. destruct (dict_get d key); [reflexivity|contradiction].
Qed.

Lemma check_value_dim_ok (hs v : Z) :
  check_value_dim hs v = Ok tt -> hs <= v /\ exists m, v = m * hs.
Proof.
  unfold check_value_dim, py_mod, py_assert.
  destruct (Z.leb_spec hs v) as [Hle|_]; cbn [bind]; [|discriminate].
  destruct (Z.eqb_spec hs 0) as [_|Hne]; cbn [bind]; [discriminate|].
  destruct (Z.eqb_spec (v mod hs) 0) as [Hm|_]; [|discriminate].
  intros _. split; [exact Hle|]. exists (v / hs).
  pose proof (Z.div_mod v hs Hne). lia.
Qed.

Lemma check_value_dims_ok (hs : Z) (l : list Z) :
  check_value_dims hs l = Ok tt ->
  Forall (fun v => hs <= v /\ exists m, v = m * hs) l.
Proof.
  induction l as [|v l IH]; cbn [check_value_dims]; [constructor|].
  destruct (check_value_dim hs v) as [[]|e] eqn:E; cbn [bind]; [|discriminate].
  intros El. constructor; [apply check_value_dim_ok; exact E|apply IH; exact El].
Qed.

Lemma len_py_repeat (x n : Z) : len (py_repeat x n) = Z.max 0 n.
Proof. unfold len, py_repeat. rewrite repeat_length. lia. Qed.

Lemma Forall_py_repeat (P : Z -> Prop) (x n : Z) : P x -> Forall P (py_repeat x n).
Proof.
  intros Hx. apply Forall_forall. intros y Hy.
  apply repeat_spec in Hy. subst. exact Hx.
Qed.

End ConfigLemmas.
(** * The update of the causal convolution *)

(** ** Programs that read what they overwrite *)

Lemma NoDup_arange (n : Z) : NoDup (arange n).
Proof.
  unfold arange. apply Finite.Injective_map_NoDup; [|apply seq_NoDup].
  intros a b E. lia.
Qed.

Lemma NoDup_grid_programs (grid : Z * Z * Z) : NoDup (grid_programs grid).
Proof.
  destruct grid as [[n0 n1] n2]. unfold grid_programs.
  assert (Hflat : forall (X : Type) (f : Z -> list X) (l : list Z),
    NoDup l -> (forall a, NoDup (f a)) ->
    (forall a b x, In x (f a) -> In x (f b) -> a = b) ->
    NoDup (flat_map f l)).
  { intros X f l Hl Hf Hdis. induction Hl as [|a l Ha Hl IH]; cbn [flat_map].
    - constructor.
    - apply NoDup_app; [apply Hf|exact IH|].
      intros x Hx Hx'. apply in_flat_map in Hx'. destruct Hx' as (b & Hb & Hxb).
      rewrite (Hdis a b x Hx Hxb) in Ha. contradiction. }
  apply Hflat; [apply NoDup_arange| |].
  - intros i2. apply Hflat; [apply NoDup_arange| |].
    + intros i1. apply Finite.Injective_map_NoDup; [|apply NoDup_arange].
      intros a b E. inversion E. reflexivity.
    + intros a b x Ha Hb. apply in_map_iff in Ha, Hb.
      destruct Ha as (? & <- & _). destruct Hb as (? & E & _).
      inversion E. reflexivity.
  - intros a b x Ha Hb. apply in_flat_map in Ha, Hb.
    destruct Ha as (? & _ & Ha). destruct Hb as (? & _ & Hb).
    apply in_map_iff in Ha, Hb.
    destruct Ha as (? & <- & _). destruct Hb as (? & E & _).
    inversion E. reflexivity.
Qed.

Section FoldOnce.
Variables S X : Type.
Variable run : program -> S -> S.
Variable get : S -> X.
Variable Inv : S -> Prop.

(** A program that runs once decides the final contents of the locations it
    owns from the state it finds, which the programs before it have kept as
    [Inv] says. *)
Lemma fold_left_owner_once (l : list program) (s : S) (p : program) (x : X) :
  NoDup l -> In p l -> Inv s ->
  (forall p' s', In p' l -> p' <> p -> Inv s' -> Inv (run p' s')) ->
  (forall s', Inv s' -> get (run p s') = x) ->
  (forall p' s', In p' l -> p' <> p -> get (run p' s') = get s') ->
  get (fold_left (fun s pid => run pid s) l s) = x.
Proof.
  intros Hnd. revert s. induction Hnd as [|p1 l Hp1 Hnd IH];
    intros s Hin Hi Hinv Hown Hframe; [destruct Hin|].
  cbn [fold_left]. destruct Hin as [->|Hin].
  - rewrite (fold_left_frame run get l (run p s)); [apply Hown; exact Hi|].
    intros p' s' Hp'. apply Hframe; [right; exact Hp'|].
    intros ->. contradiction.
  - assert (Hne : p1 <> p) by (intros ->; contradiction).
    apply IH; try assumption.
    + apply Hinv; [left; reflexivity|exact Hne|exact Hi].
    + intros p' s' Hp'. apply Hinv. right. exact Hp'.
    + intros p' s' Hp'. apply Hframe. right. exact Hp'.
Qed.

End FoldOnce.

Lemma launch_owner_once {R S X : Type} (rt : runtime R) (grid : Z * Z * Z)
    (run : program -> S -> S) (get : S -> X) (Inv : S -> Prop)
    (s : S) (p : program) (x : X) :
  fair rt -> In p (grid_programs grid) -> Inv s ->
  (forall p' s', In p' (grid_programs grid) -> p' <> p -> Inv s' -> Inv (run p' s')) ->
  (forall s', Inv s' -> get (run p s') = x) ->
  (forall p' s', In p' (grid_programs grid) -> p' <> p -> get (run p' s') = get s') ->
  get (launch rt grid run s) = x.
Proof.
  intros Hfair Hin Hi Hinv Hown Hframe. unfold launch.
  apply (fold_left_owner_once S X run get Inv _ s p x).
  - apply (Permutation_NoDup (Hfair _)). apply NoDup_grid_programs.
  - apply (Permutation_in _ (Hfair _)). exact Hin.
  - exact Hi.
  - intros p' s' Hp'. apply Hinv.
    apply (Permutation_in _ (Permutation_sym (Hfair _))). exact Hp'.
  - exact Hown.
  - intros p' s' Hp'. apply Hframe.
    apply (Permutation_in _ (Permutation_sym (Hfair _))). exact Hp'.
Qed.

(** ** One program *)

Section ConvProgram.
Context {R : Type} {A : Arith R} {L : ArithLaws R}.
Add Ring arith_ring_conv : (arith_ring (R := R)).

Variable sigmoid : R -> R.
Variables (x : mem R) (residual bias : option (mem R)) (w : mem R).
Variables (D W BD BW : Z) (ACTIVATION : option string).
Variables (i_d i_n i_2 d : Z).
Hypothesis W_pos : 1 <= W.
Hypothesis W_BW : W <= BW.
Hypothesis BD_pos : 1 <= BD.
Hypothesis i_d_nonneg : 0 <= i_d.
Hypothesis d_block : i_d * BD <= d < i_d * BD + BD.
Hypothesis d_range : d < D.

Local Abbreviation kernel :=
  (causal_conv1d_update_kernel sigmoid x residual (Some w) bias D W BD BW ACTIVATION
     (i_d, i_n, i_2)).
Local Abbreviation row := (i_n * D * W + d * W).

(** The cache of a channel after the update, from the cache before it. *)
Local Abbreviation shifted := (fun (cs : mem R) c =>
  if c <? W - 1 then cs (row + c + 1) else x (i_n * D + d)).

Lemma conv_program_cache_some (s : conv_bufs) :
  is_some (cb_cache (kernel s)) = is_some (cb_cache s).
Proof.
  unfold causal_conv1d_update_kernel. cbn [cb_cache].
  destruct (cb_cache s); reflexivity.
Qed.

Lemma conv_lane_cache (cs : mem R) (b : Z) :
  0 <= b + W - BW ->
  b + W - BW < W ->
  (if b + W - BW <? W - 1
   then block_ptr_load cs (i_n * D * W) D W (i_d * BD) (W - BW + 1) (d - i_d * BD) b
   else tl_load x (i_n * D + i_d * BD) (fun a => i_d * BD + a <? D) (d - i_d * BD))
  = shifted cs (b + W - BW).
Proof.
  intros Hb0 Hb1. cbv beta.
  destruct (Z.ltb_spec (b + W - BW) (W - 1)) as [Hc|Hc].
  - unfold block_ptr_load, tl_load2, in_tensor.
    replace (i_d * BD + (d - i_d * BD)) with d by lia.
    replace (W - BW + 1 + b) with (b + W - BW + 1) by lia.
    destruct (Z.leb_spec 0 d); [|lia]. destruct (Z.ltb_spec d D); [|lia].
    destruct (Z.leb_spec 0 (b + W - BW + 1)); [|lia].
    destruct (Z.ltb_spec (b + W - BW + 1) W); [|lia].
    cbn [andb]. f_equal. lia.
  - unfold tl_load. replace (i_d * BD + (d - i_d * BD)) with d by lia.
    destruct (Z.ltb_spec d D); [|lia]. f_equal. lia.
Qed.

(** The program of a channel shifts its cache by one column and puts the new
    input in the last one. *)
Lemma conv_program_cache (s : conv_bufs) (cs : mem R) (c : Z) :
  cb_cache s = Some cs -> 0 <= c < W ->
  cache_at (kernel s) (row + c)
  = if c <? W - 1 then cs (row + c + 1) else x (i_n * D + d).
Proof.
  intros Hs Hc. change (cache_at (kernel s) (row + c) = shifted cs c). unfold cache_at, causal_conv1d_update_kernel. cbn [cb_cache].
  rewrite Hs. unfold block_ptr_store.
  assert (E : row + c
              = i_n * D * W + (i_d * BD + (d - i_d * BD)) * W
                + (W - BW + (c - W + BW))) by lia.
  rewrite E at 1. clear E.
  etransitivity.
  - apply (tl_store2_in BD BW cs
             (fun a b => i_n * D * W + (i_d * BD + a) * W + (W - BW + b)) _
             (fun a b => in_tensor D W (i_d * BD + a) (W - BW + b))
             (d - i_d * BD) (c - W + BW)).
    + intros a1 b1 a2 b2 Ha1 Hb1 Ha2 Hb2 M1 M2 E.
      unfold in_tensor in M1, M2.
      apply andb_prop in M1, M2. destruct M1 as [M1 M1d], M2 as [M2 M2d].
      apply andb_prop in M1, M2. destruct M1 as [M1 M1c], M2 as [M2 M2c].
      apply Z.ltb_lt in M1d, M2d. apply Z.leb_le in M1c, M2c.
      assert (a1 = a2) by nia. subst a2. split; [reflexivity|lia].
    + lia.
    + lia.
    + unfold in_tensor.
      replace (i_d * BD + (d - i_d * BD)) with d by lia.
      replace (W - BW + (c - W + BW)) with c by lia.
      destruct (Z.leb_spec 0 d); [|lia]. destruct (Z.ltb_spec d D); [|lia].
      destruct (Z.leb_spec 0 c); [|lia]. destruct (Z.ltb_spec c W); [|lia].
      reflexivity.
  - cbv beta.
    rewrite (conv_lane_cache cs (c - W + BW)) by lia.
    replace (c - W + BW + W - BW) with c by lia. reflexivity.
Qed.

(** The sum over the lanes of a block is the sum over the [W] columns. *)
Lemma conv_lane_sum (g : vec R) :
  tl_sum BW (fun b =>
    mul (g b)
        (tl_load2 w (fun a b0 => (i_d * BD + a) * W + (b0 + W - BW))
           (fun a b0 => (i_d * BD + a <? D) && (0 <=? b0 + W - BW))
           (d - i_d * BD) b))
  = tl_sum W (fun c => mul (g (BW - W + c)) (w (d * W + c))).
Proof.
  replace BW with ((BW - W) + W) at 1 by lia.
  rewrite tl_sum_app by lia.
  rewrite tl_sum_zero.
  - rewrite (tl_sum_ext W _ (fun c => mul (g (BW - W + c)) (w (d * W + c)))); [ring|].
    intros c Hc. unfold tl_load2.
    replace (i_d * BD + (d - i_d * BD)) with d by lia.
    destruct (Z.ltb_spec d D); [|lia].
    destruct (Z.leb_spec 0 (BW - W + c + W - BW)); [|lia].
    cbn [andb]. do 2 f_equal. lia.
  - intros b Hb. unfold tl_load2.
    destruct (Z.leb_spec 0 (b + W - BW)); [lia|].
    rewrite andb_false_r. ring.
Qed.

(** The output of a channel is the convolution of its updated cache with its
    weights, followed by the bias, the activation and the residual. *)
Lemma conv_program_y (s : conv_bufs) (cs : mem R) :
  cb_cache s = Some cs ->
  cb_y (kernel s) (i_n * D + d)
  = conv_epilogue sigmoid residual bias ACTIVATION D i_n d
      (tl_sum W (fun c =>
         mul (if c <? W - 1 then cs (row + c + 1) else x (i_n * D + d))
             (w (d * W + c)))).
Proof.
  intros Hs.
  change (cb_y (kernel s) (i_n * D + d)
          = conv_epilogue sigmoid residual bias ACTIVATION D i_n d
              (tl_sum W (fun c => mul (shifted cs c) (w (d * W + c))))). unfold causal_conv1d_update_kernel. cbn [cb_y]. rewrite Hs.
  replace (i_n * D + d) with (i_n * D + i_d * BD + (d - i_d * BD)) at 1 by lia.
  rewrite tl_store_in;
    [|lia|apply Z.ltb_lt; lia].
  assert (Esum :
    tl_sum BW (fun b =>
      mul (if b + W - BW <? W - 1
           then block_ptr_load cs (i_n * D * W) D W (i_d * BD) (W - BW + 1)
                  (d - i_d * BD) b
           else tl_load x (i_n * D + i_d * BD) (fun a => i_d * BD + a <? D)
                  (d - i_d * BD))
          (tl_load2 w (fun a b0 => (i_d * BD + a) * W + (b0 + W - BW))
             (fun a b0 => (i_d * BD + a <? D) && (0 <=? b0 + W - BW))
             (d - i_d * BD) b))
    = tl_sum W (fun c => mul (shifted cs c) (w (d * W + c)))).
  { rewrite (conv_lane_sum (fun b =>
      if b + W - BW <? W - 1
      then block_ptr_load cs (i_n * D * W) D W (i_d * BD) (W - BW + 1)
             (d - i_d * BD) b
      else tl_load x (i_n * D + i_d * BD) (fun a => i_d * BD + a <? D)
             (d - i_d * BD))).
    apply tl_sum_ext. intros c Hc. cbv beta.
    rewrite (conv_lane_cache cs (BW - W + c)) by lia.
    replace (BW - W + c + W - BW) with c by lia. reflexivity. }
  unfold conv_epilogue.
  assert (Eb : forall bs : mem R,
    tl_load bs (i_d * BD) (fun a => i_d * BD + a <? D) (d - i_d * BD) = bs d).
  { intros bs. unfold tl_load. replace (i_d * BD + (d - i_d * BD)) with d by lia.
    destruct (Z.ltb_spec d D); [reflexivity|lia]. }
  assert (Er : forall r : mem R,
    tl_load r (i_n * D + i_d * BD) (fun a => i_d * BD + a <? D) (d - i_d * BD)
    = r (i_n * D + d)).
  { intros r. unfold tl_load. replace (i_d * BD + (d - i_d * BD)) with d by lia.
    destruct (Z.ltb_spec d D); [f_equal; lia|lia]. }
  destruct residual as [r|], bias as [bs|], (is_swish ACTIVATION);
    cbv beta zeta; rewrite Esum, ?Er, ?Eb; reflexivity.
Qed.

(** Without a cache the sum is zero, whatever the input is. *)
Lemma conv_program_y_no_cache (s : conv_bufs) :
  cb_cache s = None ->
  cb_y (kernel s) (i_n * D + d)
  = conv_epilogue sigmoid residual bias ACTIVATION D i_n d zero.
Proof.
  intros Hs. unfold causal_conv1d_update_kernel. cbn [cb_y]. rewrite Hs.
  replace (i_n * D + d) with (i_n * D + i_d * BD + (d - i_d * BD)) at 1 by lia.
  rewrite tl_store_in;
    [|lia|apply Z.ltb_lt; lia].
  assert (Esum : forall g : vec R, tl_sum BW (fun b => mul zero (g b)) = zero).
  { intros g. apply tl_sum_zero. intros b _. ring. }
  unfold conv_epilogue.
  assert (Eb : forall bs : mem R,
    tl_load bs (i_d * BD) (fun a => i_d * BD + a <? D) (d - i_d * BD) = bs d).
  { intros bs. unfold tl_load. replace (i_d * BD + (d - i_d * BD)) with d by lia.
    destruct (Z.ltb_spec d D); [reflexivity|lia]. }
  assert (Er : forall r : mem R,
    tl_load r (i_n * D + i_d * BD) (fun a => i_d * BD + a <? D) (d - i_d * BD)
    = r (i_n * D + d)).
  { intros r. unfold tl_load. replace (i_d * BD + (d - i_d * BD)) with d by lia.
    destruct (Z.ltb_spec d D); [f_equal; lia|lia]. }
  destruct residual as [r|], bias as [bs|], (is_swish ACTIVATION);
    cbv beta zeta; rewrite Esum, ?Er, ?Eb; reflexivity.
Qed.

End ConvProgram.

Section ConvFrame.
Context {R : Type} {A : Arith R}.
Variable sigmoid : R -> R.
Variables (x : mem R) (residual weight bias : option (mem R)).
Variables (D W BD BW : Z) (ACTIVATION : option string).
Variables (i_d i_n i_2 : Z).
Hypothesis i_d_nonneg : 0 <= i_d.
Hypothesis BD_nonneg : 0 <= BD.

Local Abbreviation kernel :=
  (causal_conv1d_update_kernel sigmoid x residual weight bias D W BD BW ACTIVATION
     (i_d, i_n, i_2)).

(** A program leaves the outputs and the caches of the other channels
    alone. *)
Lemma conv_program_y_frame (s : conv_bufs) (a : Z) :
  (forall e, i_d * BD <= e < i_d * BD + BD -> e < D -> a <> i_n * D + e) ->
  cb_y (kernel s) a = cb_y s a.
Proof.
  intros Ha. unfold causal_conv1d_update_kernel. cbn [cb_y].
  apply tl_store_out. intros i Hi Hm. apply Z.ltb_lt in Hm.
  specialize (Ha (i_d * BD + i) ltac:(lia) Hm). lia.
Qed.

Lemma conv_program_cache_frame (s : conv_bufs) (a : Z) :
  (forall e c, i_d * BD <= e < i_d * BD + BD -> e < D -> 0 <= c < W ->
     a <> i_n * D * W + e * W + c) ->
  cache_at (kernel s) a = cache_at s a.
Proof.
  intros Ha. unfold cache_at, causal_conv1d_update_kernel. cbn [cb_cache].
  destruct (cb_cache s) as [cs|]; [|reflexivity].
  unfold block_ptr_store. apply tl_store2_out. intros i j Hi Hj Hm.
  unfold in_tensor in Hm.
  apply andb_prop in Hm. destruct Hm as [Hm M4].
  apply andb_prop in Hm. destruct Hm as [Hm M3].
  apply andb_prop in Hm. destruct Hm as [M1 M2].
  apply Z.ltb_lt in M2, M4. apply Z.leb_le in M1, M3.
  specialize (Ha (i_d * BD + i) (W - BW + j) ltac:(lia) M2 ltac:(lia)). lia.
Qed.

End ConvFrame.

(** ** The launcher *)

Section ConvLaunch.
Context {R : Type} {A : Arith R} {L : ArithLaws R}.
Variable sigmoid : R -> R.
Variable rt : runtime R.
Variables (x w : tensor R) (cache residual bias : option (tensor R)).
Variable activation : option string.
Variables (B T D W : Z).
Hypothesis rt_fair : fair rt.
Hypothesis shape_x : shape x = [B; T; D].
Hypothesis shape_w : shape w = [D; W].
Hypothesis D_pos : 1 <= D.
Hypothesis W_pos : 1 <= W.

Local Abbreviation BW := (next_power_of_2 W).
Local Abbreviation kernel :=
  (causal_conv1d_update_kernel sigmoid (data x) (option_map data residual)
     (Some (data w)) (option_map data bias) D W 8 BW activation).
Local Abbreviation bufs0 :=
  {| cb_y := junk rt 0; cb_cache := option_map data cache |}.

(** What the launcher returns on well-shaped inputs. *)
Lemma conv_update_unfold :
  exists ND,
    0 <= ND /\ D <= ND * 8 /\
    causal_conv1d_update sigmoid rt x cache residual (Some w) bias activation
    = let bufs := launch rt (ND, B * T, 1) kernel bufs0 in
      Ok ({| shape := [B; T; D]; data := cb_y bufs; requires_grad := false |},
          match cache, cb_cache bufs with
          | Some c, Some d => Some (with_data c d)
          | _, _ => None
          end).
Proof.
  destruct (cdiv_covers D 8 ltac:(lia) ltac:(lia)) as (ND & ENV & HND & Hcov).
  exists ND. split; [exact HND|]. split; [exact Hcov|].
  unfold causal_conv1d_update. rewrite shape_x, shape_w.
  cbn [shape_last shape_first rev app bind]. rewrite Z.eqb_refl.
  cbn [negb bind]. rewrite shape_x. cbn [unpack_last rev app bind].
  unfold py_floordiv. destruct (Z.eqb_spec D 0) as [?|_]; [lia|].
  cbn [bind shape_second option_map]. rewrite ENV. cbn [bind new_empty data].
  replace (numel [B; T; D] / D) with (B * T); [reflexivity|].
  cbn [numel fold_right]. rewrite Z.mul_1_r.
  replace (B * (T * D)) with (B * T * D) by ring.
  symmetry. apply Z.div_mul. lia.
Qed.

Section Channel.
Variables (ND n d : Z).
Hypothesis ND_covers : D <= ND * 8.
Hypothesis n_range : 0 <= n < B * T.
Hypothesis d_range : 0 <= d < D.

Local Abbreviation owner := ((d / 8, n, 0) : program).
Local Abbreviation row := (n * D * W + d * W).

Lemma conv_owner_in_grid : In owner (grid_programs (ND, B * T, 1)).
Proof.
  apply In_grid_programs. cbn [fst snd].
  destruct (block_of 8 D ND d ltac:(lia) ND_covers d_range) as [Hb _]. lia.
Qed.

Lemma conv_owner_block : d / 8 * 8 <= d < d / 8 * 8 + 8.
Proof.
  destruct (block_of 8 D ND d ltac:(lia) ND_covers d_range) as [_ [Hb _]].
  exact Hb.
Qed.

(** The other programs of the grid work on other channels. *)
Lemma conv_other_channel (p' : program) (e : Z) :
  In p' (grid_programs (ND, B * T, 1)) -> p' <> owner ->
  fst (fst p') * 8 <= e < fst (fst p') * 8 + 8 -> e < D ->
  snd (fst p') * D + e <> n * D + d.
Proof.
  intros Hp Hne He HeD E. apply Hne.
  destruct p' as [[i_d' i_n'] i_2']. apply In_grid_programs in Hp.
  cbn [fst snd] in *.
  assert (i_n' = n) by nia. subst i_n'.
  assert (e = d) by lia. subst e.
  assert (i_d' = d / 8).
  { apply (Z.div_unique d 8 i_d' (d - i_d' * 8)); lia. }
  subst i_d'. assert (i_2' = 0) by lia. subst i_2'. reflexivity.
Qed.

Lemma conv_grid_y_frame (p' : program) (s' : conv_bufs) :
  In p' (grid_programs (ND, B * T, 1)) -> p' <> owner ->
  cb_y (kernel p' s') (n * D + d) = cb_y s' (n * D + d).
Proof.
  intros Hp Hne. pose proof (conv_other_channel p') as Hoth.
  destruct p' as [[i_d' i_n'] i_2']. pose proof Hp as Hp'.
  apply In_grid_programs in Hp'. cbn [fst snd] in *.
  apply conv_program_y_frame; try lia.
  intros e He HeD E. apply (Hoth e Hp Hne He HeD). lia.
Qed.

Lemma conv_grid_cache_frame (p' : program) (s' : conv_bufs) (c : Z) :
  In p' (grid_programs (ND, B * T, 1)) -> p' <> owner -> 0 <= c < W ->
  cache_at (kernel p' s') (row + c) = cache_at s' (row + c).
Proof.
  intros Hp Hne Hc. pose proof (conv_other_channel p') as Hoth.
  destruct p' as [[i_d' i_n'] i_2']. pose proof Hp as Hp'.
  apply In_grid_programs in Hp'. cbn [fst snd] in *.
  apply conv_program_cache_frame; try lia.
  intros e c' He HeD Hc' E. apply (Hoth e Hp Hne He HeD). nia.
Qed.

(** The cache of the channel as the programs before its own leave it. *)
Local Abbreviation untouched := (fun (c0 : mem R) (s : conv_bufs) =>
  cb_cache s <> None /\
  forall c, 0 <= c < W -> cache_at s (row + c) = c0 (row + c)).

Lemma conv_grid_untouched_kept (c0 : mem R) (p' : program) (s' : conv_bufs) :
  In p' (grid_programs (ND, B * T, 1)) -> p' <> owner ->
  untouched c0 s' -> untouched c0 (kernel p' s').
Proof.
  intros Hp Hne [Hs Hrow]. split.
  - destruct p' as [[i_d' i_n'] i_2'].
    pose proof (conv_program_cache_some sigmoid (data x) (option_map data residual)
                  (option_map data bias) (data w) D W 8 BW activation
                  i_d' i_n' i_2' s') as E.
    destruct (cb_cache s'); [|congruence].
    destruct (cb_cache (kernel (i_d', i_n', i_2') s')); [discriminate|discriminate].
  - intros c Hc. rewrite conv_grid_cache_frame by assumption. apply Hrow. exact Hc.
Qed.

Lemma conv_grid_cache (c0 : tensor R) (c : Z) :
  cache = Some c0 -> 0 <= c < W ->
  cache_at (launch rt (ND, B * T, 1) kernel bufs0) (row + c)
  = if c <? W - 1 then data c0 (row + c + 1) else data x (n * D + d).
Proof.
  intros Hc0 Hc.
  apply (launch_owner_once rt (ND, B * T, 1) kernel
           (fun s => cache_at s (row + c)) (untouched (data c0)) bufs0 owner).
  - exact rt_fair.
  - apply conv_owner_in_grid.
  - rewrite Hc0. split; [discriminate|]. intros; reflexivity.
  - intros p' s' Hp Hne Hi. apply conv_grid_untouched_kept; assumption.
  - intros s' [Hs Hrow]. destruct (cb_cache s') as [cs|] eqn:Es; [|congruence].
    pose proof (next_power_of_2_ge W W_pos) as HBW.
    rewrite (conv_program_cache sigmoid (data x) (option_map data residual)
               (option_map data bias) (data w) D W 8 BW activation (d / 8) n 0 d
               W_pos HBW ltac:(lia) ltac:(apply Z.div_pos; lia)
               conv_owner_block ltac:(lia) s' cs c Es Hc).
    destruct (Z.ltb_spec c (W - 1)) as [Hlt|_]; [|reflexivity].
    specialize (Hrow (c + 1) ltac:(lia)). unfold cache_at in Hrow.
    rewrite Es in Hrow.
    replace (row + c + 1) with (row + (c + 1)) by lia. exact Hrow.
  - intros p' s' Hp Hne. apply conv_grid_cache_frame; assumption.
Qed.

Lemma conv_grid_y (c0 : tensor R) :
  cache = Some c0 ->
  cb_y (launch rt (ND, B * T, 1) kernel bufs0) (n * D + d)
  = conv_epilogue sigmoid (option_map data residual) (option_map data bias)
      activation D n d
      (tl_sum W (fun c =>
         mul (if c <? W - 1 then data c0 (row + c + 1) else data x (n * D + d))
             (data w (d * W + c)))).
Proof.
  intros Hc0.
  apply (launch_owner_once rt (ND, B * T, 1) kernel
           (fun s => cb_y s (n * D + d)) (untouched (data c0)) bufs0 owner).
  - exact rt_fair.
  - apply conv_owner_in_grid.
  - rewrite Hc0. split; [discriminate|]. intros; reflexivity.
  - intros p' s' Hp Hne Hi. apply conv_grid_untouched_kept; assumption.
  - intros s' [Hs Hrow]. destruct (cb_cache s') as [cs|] eqn:Es; [|congruence].
    pose proof (next_power_of_2_ge W W_pos) as HBW.
    rewrite (conv_program_y sigmoid (data x) (option_map data residual)
               (option_map data bias) (data w) D W 8 BW activation (d / 8) n 0 d
               W_pos HBW ltac:(lia) ltac:(apply Z.div_pos; lia)
               conv_owner_block ltac:(lia) s' cs Es).
    f_equal. apply tl_sum_ext. intros c Hc. f_equal.
    destruct (Z.ltb_spec c (W - 1)) as [Hlt|_]; [|reflexivity].
    specialize (Hrow (c + 1) ltac:(lia)). unfold cache_at in Hrow.
    rewrite Es in Hrow.
    replace (row + c + 1) with (row + (c + 1)) by lia. exact Hrow.
  - intros p' s' Hp Hne. apply conv_grid_y_frame; assumption.
Qed.

Lemma conv_grid_y_no_cache :
  cache = None ->
  cb_y (launch rt (ND, B * T, 1) kernel bufs0) (n * D + d)
  = conv_epilogue sigmoid (option_map data residual) (option_map data bias)
      activation D n d zero.
Proof.
  intros Hc0.
  apply (launch_owner rt (ND, B * T, 1) kernel
           (fun s => cb_y s (n * D + d)) (fun s => cb_cache s = None) bufs0 owner).
  - exact rt_fair.
  - rewrite Hc0. reflexivity.
  - intros [[i_d' i_n'] i_2'] s' Hs.
    pose proof (conv_program_cache_some sigmoid (data x) (option_map data residual)
                  (option_map data bias) (data w) D W 8 BW activation
                  i_d' i_n' i_2' s') as E.
    rewrite Hs in E. destruct (cb_cache (kernel (i_d', i_n', i_2') s'));
      [discriminate|reflexivity].
  - apply conv_owner_in_grid.
  - intros s' Hs.
    pose proof (next_power_of_2_ge W W_pos) as HBW.
    apply (conv_program_y_no_cache sigmoid (data x) (option_map data residual)
             (option_map data bias) (data w) D W 8 BW activation (d / 8) n 0 d
             conv_owner_block ltac:(lia) s' Hs).
  - intros p' s' Hp Hne. apply conv_grid_y_frame; assumption.
Qed.

End Channel.

Lemma conv_grid_cache_some (ND : Z) :
  is_some (cb_cache (launch rt (ND, B * T, 1) kernel bufs0)) = is_some cache.
Proof.
  unfold launch.
  rewrite (fold_left_frame kernel (fun s => is_some (cb_cache s))).
  - cbn [cb_cache]. destruct cache; reflexivity.
  - intros [[i_d' i_n'] i_2'] s' _. apply conv_program_cache_some.
Qed.

(** The launcher with a cache: every channel of every sequence has its cache
    shifted by one column, the new input in the last column, and its output
    computed from the shifted cache. *)
Lemma conv_update_spec (c0 : tensor R) :
  cache = Some c0 ->
  exists y c',
    causal_conv1d_update sigmoid rt x cache residual (Some w) bias activation
      = Ok (y, Some c') /\
    shape y = shape x /\ shape c' = shape c0 /\
    forall n d, 0 <= n < B * T -> 0 <= d < D ->
      (forall c, 0 <= c < W ->
         data c' (n * D * W + d * W + c)
         = if c <? W - 1 then data c0 (n * D * W + d * W + c + 1)
           else data x (n * D + d)) /\
      data y (n * D + d)
      = conv_epilogue sigmoid (option_map data residual) (option_map data bias)
          activation D n d
          (tl_sum W (fun c =>
             mul (if c <? W - 1 then data c0 (n * D * W + d * W + c + 1)
                  else data x (n * D + d))
                 (data w (d * W + c)))).
Proof.
  intros Hc0. destruct conv_update_unfold as (ND & HND & Hcov & E).
  rewrite E. cbv zeta.
  pose proof (conv_grid_cache_some ND) as Hsome.
  pose proof (fun n d Hn Hd c => conv_grid_cache ND n d Hcov Hn Hd c0 c Hc0) as HC.
  pose proof (fun n d Hn Hd => conv_grid_y ND n d Hcov Hn Hd c0 Hc0) as HY.
  unfold cache_at in HC.
  destruct (cb_cache (launch rt (ND, B * T, 1) kernel bufs0)) as [m|] eqn:Em.
  - exists {| shape := [B; T; D];
               data := cb_y (launch rt (ND, B * T, 1) kernel bufs0);
               requires_grad := false |}, (with_data c0 m).
    split; [rewrite Hc0; reflexivity|].
    split; [symmetry; exact shape_x|]. split; [reflexivity|].
    intros n d Hn Hd. split.
    + intros c Hc. exact (HC n d Hn Hd c Hc).
    + exact (HY n d Hn Hd).
  - rewrite Hc0 in Hsome. discriminate Hsome.
Qed.

(** The launcher without a cache. *)
Lemma conv_update_spec_no_cache :
  cache = None ->
  exists y,
    causal_conv1d_update sigmoid rt x cache residual (Some w) bias activation
      = Ok (y, None) /\
    shape y = shape x /\
    forall n d, 0 <= n < B * T -> 0 <= d < D ->
      data y (n * D + d)
      = conv_epilogue sigmoid (option_map data residual) (option_map data bias)
          activation D n d zero.
Proof.
  intros Hc0. destruct conv_update_unfold as (ND & HND & Hcov & E).
  rewrite E. cbv zeta.
  pose proof (fun n d Hn Hd => conv_grid_y_no_cache ND n d Hcov Hn Hd Hc0) as HY.
  exists {| shape := [B; T; D];
             data := cb_y (launch rt (ND, B * T, 1) kernel bufs0);
             requires_grad := false |}.
  split; [rewrite Hc0; reflexivity|].
  split; [symmetry; exact shape_x|]. exact HY.
Qed.

End ConvLaunch.

(** The cache the launcher returns, without any law of arithmetic. *)
Lemma conv_update_cache_spec :
  forall (R : Type) (A : Arith R) (sigmoid : R -> R) (rt : runtime R)
         (x w c0 : tensor R) (residual bias : option (tensor R))
         (activation : option string) (B T D W : Z),
    fair rt -> shape x = [B; T; D] -> shape w = [D; W] -> 1 <= D -> 1 <= W ->
    exists y c',
      causal_conv1d_update sigmoid rt x (Some c0) residual (Some w) bias activation
        = Ok (y, Some c') /\
      shape y = shape x /\ shape c' = shape c0 /\
      forall n d c, 0 <= n < B * T -> 0 <= d < D -> 0 <= c < W ->
        data c' (n * D * W + d * W + c)
        = if c <? W - 1 then data c0 (n * D * W + d * W + c + 1)
          else data x (n * D + d).
Proof.
  intros R A sigmoid rt x w c0 residual bias activation B T D W
    Hf Sx Sw HD HW.
  destruct (conv_update_unfold sigmoid rt x w (Some c0) residual bias activation
              B T D W Sx Sw HD) as (ND & HND & Hcov & E).
  rewrite E. cbv zeta.
  pose proof (conv_grid_cache_some sigmoid rt x w (Some c0) residual bias
                activation B T D W ND) as Hsome.
  pose proof (fun n d Hn Hd c =>
                conv_grid_cache sigmoid rt x w (Some c0) residual bias activation
                  B T D W Hf HD HW ND n d Hcov Hn Hd c0 c eq_refl) as HC.
  unfold cache_at in HC.
  destruct (cb_cache _) as [m|] eqn:Em; [|discriminate Hsome].
  eexists. eexists. split; [reflexivity|].
  split; [symmetry; exact Sx|]. split; [reflexivity|].
  intros n d c Hn Hd Hc. exact (HC n d Hn Hd c Hc).
Qed.


(** * The forward pass *)

(** C1.  On well-shaped inputs the forward launcher returns, for every
    sequence [n], head [h] and timestep [t] taken in order, the residual
    [delta_t = v_t - H . k_t] of the state [H] before step [t] in [u], and the
    output [o_t = H' . (q_t * scale)] of the state
    [H' = H + k_t (x) (delta_t * beta_t)] after it; the final state is the
    state after the last step.  On [K = V = 1], [T = 3], with queries, keys,
    values and betas all 1, scale 1 and a zero initial state, the output is
    [1, 1, 1] and the final state is 1. *)
Theorem C1_forward_recurrence :
  (forall (R : Type) (A : Arith R) (L : ArithLaws R) (rt : runtime R)
          (q k v beta : tensor R) (scale : R) (initial_state : option (tensor R))
          (output_final_state : bool) (cu_seqlens : option (list Z))
          (B T H K V : Z),
      fair rt ->
      shape k = [B; T; H; K] -> shape v = [B; T; H; V] ->
      1 <= H -> 1 <= K -> 1 <= V ->
      cu_ok cu_seqlens T ->
      exists o u fs,
        fused_recurrent_delta_rule_fwd rt q k v beta scale initial_state
          output_final_state cu_seqlens = Ok (o, u, fs) /\
        shape o = shape v /\ shape u = shape v /\
        (forall n h t j,
           0 <= n < nseq cu_seqlens B -> 0 <= h < H ->
           0 <= t < seq_len cu_seqlens T n -> 0 <= j < V ->
           let d := fwd_head q k v beta scale initial_state cu_seqlens T H K V n h in
           data u (((seq_bos cu_seqlens T n + t) * H + h) * V + j)
             = ref_u d (Z.to_nat t) j /\
           data o (((seq_bos cu_seqlens T n + t) * H + h) * V + j)
             = ref_o d (Z.to_nat t) j) /\
        match fs with
        | Some f =>
            output_final_state = true /\
            shape f = [nseq cu_seqlens B; H; K; V] /\
            forall n h i j,
              0 <= n < nseq cu_seqlens B -> 0 <= h < H -> 0 <= i < K -> 0 <= j < V ->
              data f ((n * H + h) * K * V + i * V + j)
                = ref_state
                    (fwd_head q k v beta scale initial_state cu_seqlens T H K V n h)
                    (Z.to_nat (seq_len cu_seqlens T n)) i j
        | None => output_final_state = false
        end) /\
  (forall rt : runtime Z,
      fair rt ->
      exists o u f,
        fused_recurrent_delta_rule_fwd rt
          (full [1; 3; 1; 1] 1) (full [1; 3; 1; 1] 1) (full [1; 3; 1; 1] 1)
          (full [1; 3; 1] 1) 1 (Some (full [1; 1; 1; 1] 0)) true None
        = Ok (o, u, Some f) /\
        shape o = [1; 3; 1; 1] /\
        map (data o) [0; 1; 2] = [1; 1; 1] /\
        map (data u) [0; 1; 2] = [1; 0; 0] /\
        data f 0 = 1).
Proof.
  split.
  - intros R A L rt q k v beta scale initial_state output_final_state cu_seqlens
      B T H K V Hfair Hk Hv HH HK HV Hcu.
    apply (fwd_spec rt q k v beta scale initial_state output_final_state
             cu_seqlens B T H K V Hfair Hk Hv HH HK HV Hcu).
  - intros rt Hfair.
    destruct (fwd_spec rt (full [1; 3; 1; 1] 1) (full [1; 3; 1; 1] 1)
                (full [1; 3; 1; 1] 1) (full [1; 3; 1] 1) 1
                (Some (full [1; 1; 1; 1] 0)) true None 1 3 1 1 1
                Hfair eq_refl eq_refl ltac:(lia) ltac:(lia) ltac:(lia) I)
      as (o & u & fs & E & So & Su & Hrows & Hfs).
    destruct fs as [f|]; [|discriminate].
    destruct Hfs as (_ & _ & Hf).
    exists o, u, f. split; [exact E|]. split; [exact So|].
    pose proof (Hrows 0 0 0 0 ltac:(cbn; lia) ltac:(lia) ltac:(cbn; lia) ltac:(lia)) as [U0 O0].
    pose proof (Hrows 0 0 1 0 ltac:(cbn; lia) ltac:(lia) ltac:(cbn; lia) ltac:(lia)) as [U1 O1].
    pose proof (Hrows 0 0 2 0 ltac:(cbn; lia) ltac:(lia) ltac:(cbn; lia) ltac:(lia)) as [U2 O2].
    pose proof (Hf 0 0 0 0 ltac:(cbn; lia) ltac:(lia) ltac:(lia) ltac:(lia)) as F0.
    cbn [map]. cbn in U0, U1, U2, O0, O1, O2, F0.
    rewrite U0, U1, U2, O0, O1, O2, F0. vm_compute. auto.
Qed.

Lemma cu_ok_example : cu_ok (Some [0; 2; 3]) 3.
Proof.
  split; intros n Hn; unfold len in Hn; cbn in Hn.
  - assert (Hc : n = 0 \/ n = 1) by lia.
    destruct Hc; subst; split; cbv; discriminate.
  - assert (Hc : n = 0 \/ n = 1 \/ n = 2) by lia.
    destruct Hc as [|[|]]; subst; cbv; discriminate.
Qed.

Lemma C1_witness :
  exists o u fs,
    fused_recurrent_delta_rule_fwd (plain_runtime 0)
      (full [1; 3; 1; 1] 1) (full [1; 3; 1; 1] 1) (full [1; 3; 1; 1] 1)
      (full [1; 3; 1] 1) 1 None true (Some [0; 2; 3]) = Ok (o, u, fs) /\
    shape o = [1; 3; 1; 1].
Proof.
  destruct (proj1 C1_forward_recurrence Z ArithZ ArithLawsZ (plain_runtime 0)
              (full [1; 3; 1; 1] 1) (full [1; 3; 1; 1] 1) (full [1; 3; 1; 1] 1)
              (full [1; 3; 1] 1) 1 None true (Some [0; 2; 3]) 1 3 1 1 1
              (plain_runtime_fair 0) eq_refl eq_refl ltac:(lia) ltac:(lia) ltac:(lia)
              cu_ok_example)
    as (o & u & fs & E & So & _).
  exists o, u, fs. split; [exact E|exact So].
Defined.

(** C6.  When beta is zero everywhere, the final state is the initial state
    that was supplied, and every stored residual is [v_t] minus the product
    of that initial state with [k_t]. *)
Theorem C6_zero_beta_freezes_state :
  forall (R : Type) (A : Arith R) (L : ArithLaws R) (rt : runtime R)
         (q k v beta : tensor R) (scale : R) (h0 : tensor R)
         (cu_seqlens : option (list Z)) (B T H K V : Z),
    fair rt ->
    shape k = [B; T; H; K] -> shape v = [B; T; H; V] ->
    1 <= H -> 1 <= K -> 1 <= V ->
    cu_ok cu_seqlens T ->
    (forall a, data beta a = zero) ->
    exists o u f,
      fused_recurrent_delta_rule_fwd rt q k v beta scale (Some h0) true cu_seqlens
        = Ok (o, u, Some f) /\
      (forall n h i j,
         0 <= n < nseq cu_seqlens B -> 0 <= h < H -> 0 <= i < K -> 0 <= j < V ->
         data f ((n * H + h) * K * V + i * V + j)
           = data h0 ((n * H + h) * K * V + i * V + j)) /\
      (forall n h t j,
         0 <= n < nseq cu_seqlens B -> 0 <= h < H ->
         0 <= t < seq_len cu_seqlens T n -> 0 <= j < V ->
         data u (((seq_bos cu_seqlens T n + t) * H + h) * V + j)
           = sub (data v (((seq_bos cu_seqlens T n + t) * H + h) * V + j))
               (tl_sum K (fun i =>
                  mul (data h0 ((n * H + h) * K * V + i * V + j))
                      (data k (((seq_bos cu_seqlens T n + t) * H + h) * K + i))))).
Proof.
  intros R A L rt q k v beta scale h0 cu_seqlens B T H K V
    Hfair Hk Hv HH HK HV Hcu Hz.
  destruct (fwd_spec rt q k v beta scale (Some h0) true cu_seqlens B T H K V
              Hfair Hk Hv HH HK HV Hcu)
    as (o & u & fs & E & _ & _ & Hrows & Hfs).
  destruct fs as [f|]; [|discriminate].
  destruct Hfs as (_ & _ & Hf).
  assert (Hb : forall n h (t : nat) j,
    hd_beta (fwd_head q k v beta scale (Some h0) cu_seqlens T H K V n h) t j = zero).
  { intros n h t j. unfold fwd_head, head_of. cbn [hd_beta].
    unfold beta_rows, rows, rows_scalar.
    destruct (Nat.eqb (ndim beta) (ndim v)); apply Hz. }
  exists o, u, f. split; [exact E|]. split.
  - intros n h i j Hn Hh Hi Hj.
    rewrite (Hf n h i j Hn Hh Hi Hj).
    rewrite (ref_state_zero_beta _ (Z.to_nat (seq_len cu_seqlens T n)));
      [reflexivity| |lia|exact Hj].
    intros t0 j0 _ _. apply Hb.
  - intros n h t j Hn Hh Ht Hj.
    rewrite (proj1 (Hrows n h t j Hn Hh Ht Hj)).
    rewrite (ref_u_zero_beta _ (Z.to_nat (seq_len cu_seqlens T n)));
      [| |lia|exact Hj].
    + unfold fwd_head, head_of. cbn [hd_v hd_K hd_h0 hd_k option_map state_of].
      unfold rows. rewrite Z2Nat.id by lia. reflexivity.
    + intros t0 j0 _ _. apply Hb.
Qed.

Lemma C6_witness :
  exists o u f,
    fused_recurrent_delta_rule_fwd (plain_runtime 0)
      (full [1; 3; 1; 2] 1) (full [1; 3; 1; 2] 1) (full [1; 3; 1; 1] 5)
      (full [1; 3; 1] 0) 1 (Some (full [1; 1; 2; 1] 2)) true None
      = Ok (o, u, Some f) /\
    data f 0 = 2 /\ data f 1 = 2 /\ data u 0 = 1.
Proof.
  destruct (C6_zero_beta_freezes_state Z ArithZ ArithLawsZ (plain_runtime 0)
              (full [1; 3; 1; 2] 1) (full [1; 3; 1; 2] 1) (full [1; 3; 1; 1] 5)
              (full [1; 3; 1] 0) 1 (full [1; 1; 2; 1] 2) None 1 3 1 2 1
              (plain_runtime_fair 0) eq_refl eq_refl ltac:(lia) ltac:(lia) ltac:(lia)
              I (fun _ => eq_refl))
    as (o & u & f & E & Hf & Hu).
  exists o, u, f. split; [exact E|].
  pose proof (Hf 0 0 0 0 ltac:(cbn; lia) ltac:(lia) ltac:(lia) ltac:(lia)) as F0.
  pose proof (Hf 0 0 1 0 ltac:(cbn; lia) ltac:(lia) ltac:(lia) ltac:(lia)) as F1.
  pose proof (Hu 0 0 0 0 ltac:(cbn; lia) ltac:(lia) ltac:(cbn; lia) ltac:(lia)) as U0.
  cbn in F0, F1, U0. auto.
Defined.

(** ** Stretches of a batch *)

Section Narrow.
Context {R : Type}.

Lemma divmod_of (q r b : Z) : 0 <= r < b -> (q * b + r) / b = q /\ (q * b + r) mod b = r.
Proof.
  intros Hr.
  pose proof (Z.div_mod (q * b + r) b ltac:(lia)) as E.
  pose proof (Z.mod_pos_bound (q * b + r) b ltac:(lia)) as Bd.
  assert ((q * b + r) / b = q) by nia. split; [assumption|nia].
Qed.

Lemma narrow_rows (x : tensor R) (B T H D t0 len b t h i : Z) :
  shape x = [B; T; H; D] ->
  0 <= t < len -> 0 <= h < H -> 0 <= i < D ->
  data (narrow x t0 len) (((b * len + t) * H + h) * D + i)
  = data x (((b * T + t0 + t) * H + h) * D + i).
Proof.
  intros Hs Ht Hh Hi. unfold narrow. rewrite Hs. cbn [data numel fold_right].
  rewrite Z.mul_1_r.
  replace (((b * len + t) * H + h) * D + i)
    with ((b * len + t) * (H * D) + (h * D + i)) by lia.
  destruct (divmod_of (b * len + t) (h * D + i) (H * D) ltac:(nia)) as [-> ->].
  destruct (divmod_of b t len Ht) as [-> ->].
  f_equal. lia.
Qed.

Lemma narrow_rows_scalar (x : tensor R) (B T H t0 len b t h : Z) :
  shape x = [B; T; H] ->
  0 <= t < len -> 0 <= h < H ->
  data (narrow x t0 len) ((b * len + t) * H + h)
  = data x ((b * T + t0 + t) * H + h).
Proof.
  intros Hs Ht Hh. unfold narrow. rewrite Hs. cbn [data numel fold_right].
  rewrite Z.mul_1_r.
  destruct (divmod_of (b * len + t) h H Hh) as [-> ->].
  destruct (divmod_of b t len Ht) as [-> ->].
  f_equal.
Qed.

Lemma narrow_shape (x : tensor R) (B T t0 len : Z) (rest : list Z) :
  shape x = B :: T :: rest -> shape (narrow x t0 len) = B :: len :: rest.
Proof. intros Hs. unfold narrow. rewrite Hs. reflexivity. Qed.

End Narrow.

Section NarrowHead.
Context {R : Type} {A : Arith R}.
Variables (q k v beta : tensor R) (scale : R).
Variables (init init' : option (tensor R)).
Variables (B T H K V t0 len n h : Z).
Hypothesis shape_q : shape q = [B; T; H; K].
Hypothesis shape_k : shape k = [B; T; H; K].
Hypothesis shape_v : shape v = [B; T; H; V].
Hypothesis shape_beta : shape beta = [B; T; H] \/ shape beta = [B; T; H; V].
Hypothesis t0_pos : 0 <= t0.
Hypothesis h_range : 0 <= h < H.

Local Abbreviation dW := (fwd_head q k v beta scale init None T H K V n h).
Local Abbreviation dN :=
  (fwd_head (narrow q t0 len) (narrow k t0 len) (narrow v t0 len)
     (narrow beta t0 len) scale init' None len H K V n h).

Hypothesis state_carried :
  forall i j, 0 <= i < K -> 0 <= j < V ->
    hd_h0 dN i j = ref_state dW (Z.to_nat t0) i j.

(** The head of a stretch is the head of the whole batch, shifted. *)
Lemma narrow_head_shift : head_shift dW dN (Z.to_nat t0) (Z.to_nat len).
Proof.
  unfold head_shift. cbn [hd_K hd_V hd_scale fwd_head head_of].
  split; [reflexivity|]. split; [reflexivity|]. split; [reflexivity|].
  split; [|split].
  - intros t i Ht Hi. unfold fwd_head, head_of. cbn [hd_q hd_k seq_bos].
    unfold rows. split.
    + rewrite (narrow_rows q B T H K t0 len n (Z.of_nat t) h i shape_q) by lia.
      f_equal. unfold seq_bos. rewrite ?Nat2Z.inj_add, ?Z2Nat.id by lia. lia.
    + rewrite (narrow_rows k B T H K t0 len n (Z.of_nat t) h i shape_k) by lia.
      f_equal. unfold seq_bos. rewrite ?Nat2Z.inj_add, ?Z2Nat.id by lia. lia.
  - intros t j Ht Hj. unfold fwd_head, head_of. cbn [hd_v hd_beta seq_bos].
    split.
    + unfold rows.
      rewrite (narrow_rows v B T H V t0 len n (Z.of_nat t) h j shape_v) by lia.
      f_equal. unfold seq_bos. rewrite ?Nat2Z.inj_add, ?Z2Nat.id by lia. lia.
    + unfold ndim.
      rewrite (narrow_shape v B T t0 len [H; V] shape_v), shape_v.
      destruct shape_beta as [Sb|Sb].
      * rewrite (narrow_shape beta B T t0 len [H] Sb), Sb.
        cbn [List.length Nat.eqb beta_rows]. unfold rows_scalar.
        rewrite (narrow_rows_scalar beta B T H t0 len n (Z.of_nat t) h Sb) by lia.
        f_equal. unfold seq_bos. rewrite ?Nat2Z.inj_add, ?Z2Nat.id by lia. lia.
      * rewrite (narrow_shape beta B T t0 len [H; V] Sb), Sb.
        cbn [List.length Nat.eqb beta_rows]. unfold rows.
        rewrite (narrow_rows beta B T H V t0 len n (Z.of_nat t) h j Sb) by lia.
        f_equal. unfold seq_bos. rewrite ?Nat2Z.inj_add, ?Z2Nat.id by lia. lia.
  - exact state_carried.
Qed.

End NarrowHead.

(** C3.  A batch of sequences of length [T1 + T2] is split at [T1].  Running
    the forward launcher on the first [T1] steps with the final state
    requested, then on the remaining [T2] steps with that final state as the
    initial one, gives on those [T2] steps the outputs of the run on the whole
    batch, and the same final state. *)
Theorem C3_state_carry_over :
  forall (R : Type) (A : Arith R) (L : ArithLaws R) (rt1 rt2 rt3 : runtime R)
         (q k v beta : tensor R) (scale : R) (initial_state : option (tensor R))
         (B T1 T2 H K V : Z),
    fair rt1 -> fair rt2 -> fair rt3 ->
    shape q = [B; T1 + T2; H; K] -> shape k = [B; T1 + T2; H; K] ->
    shape v = [B; T1 + T2; H; V] ->
    shape beta = [B; T1 + T2; H] \/ shape beta = [B; T1 + T2; H; V] ->
    0 <= T1 -> 0 <= T2 -> 1 <= H -> 1 <= K -> 1 <= V ->
    exists oP uP fP oC uC fC oW uW fW,
      fused_recurrent_delta_rule_fwd rt1 (narrow q 0 T1) (narrow k 0 T1)
        (narrow v 0 T1) (narrow beta 0 T1) scale initial_state true None
        = Ok (oP, uP, Some fP) /\
      fused_recurrent_delta_rule_fwd rt2 (narrow q T1 T2) (narrow k T1 T2)
        (narrow v T1 T2) (narrow beta T1 T2) scale (Some fP) true None
        = Ok (oC, uC, Some fC) /\
      fused_recurrent_delta_rule_fwd rt3 q k v beta scale initial_state true None
        = Ok (oW, uW, Some fW) /\
      (forall n h t j,
         0 <= n < B -> 0 <= h < H -> 0 <= t < T2 -> 0 <= j < V ->
         data oC (((n * T2 + t) * H + h) * V + j)
           = data oW (((n * (T1 + T2) + (T1 + t)) * H + h) * V + j)) /\
      (forall n h i j,
         0 <= n < B -> 0 <= h < H -> 0 <= i < K -> 0 <= j < V ->
         data fC ((n * H + h) * K * V + i * V + j)
           = data fW ((n * H + h) * K * V + i * V + j)).
Proof.
  intros R A L rt1 rt2 rt3 q k v beta scale init B T1 T2 H K V
    F1 F2 F3 Sq Sk Sv Sb HT1 HT2 HH HK HV.
  destruct (fwd_spec rt1 (narrow q 0 T1) (narrow k 0 T1) (narrow v 0 T1)
              (narrow beta 0 T1) scale init true None B T1 H K V F1
              (narrow_shape k B _ 0 T1 _ Sk) (narrow_shape v B _ 0 T1 _ Sv)
              HH HK HV I)
    as (oP & uP & fsP & EP & _ & _ & _ & HfP).
  destruct fsP as [fP|]; [|discriminate].
  destruct HfP as (_ & _ & HfP).
  destruct (fwd_spec rt2 (narrow q T1 T2) (narrow k T1 T2) (narrow v T1 T2)
              (narrow beta T1 T2) scale (Some fP) true None B T2 H K V F2
              (narrow_shape k B _ T1 T2 _ Sk) (narrow_shape v B _ T1 T2 _ Sv)
              HH HK HV I)
    as (oC & uC & fsC & EC & _ & _ & HoC & HfC).
  destruct fsC as [fC|]; [|discriminate].
  destruct HfC as (_ & _ & HfC).
  destruct (fwd_spec rt3 q k v beta scale init true None B (T1 + T2) H K V F3
              Sk Sv HH HK HV I)
    as (oW & uW & fsW & EW & _ & _ & HoW & HfW).
  destruct fsW as [fW|]; [|discriminate].
  destruct HfW as (_ & _ & HfW).
  exists oP, uP, fP, oC, uC, fC, oW, uW, fW.
  split; [exact EP|]. split; [exact EC|]. split; [exact EW|].
  assert (ShP : forall n h, 0 <= h < H ->
    head_shift (fwd_head q k v beta scale init None (T1 + T2) H K V n h)
      (fwd_head (narrow q 0 T1) (narrow k 0 T1) (narrow v 0 T1)
         (narrow beta 0 T1) scale init None T1 H K V n h)
      (Z.to_nat 0) (Z.to_nat T1)).
  { intros n h Hh.
    apply (narrow_head_shift q k v beta scale init init B (T1 + T2) H K V 0 T1 n h
             Sq Sk Sv Sb ltac:(lia) Hh).
    intros i j _ _. reflexivity. }
  assert (ShC : forall n h, 0 <= n < B -> 0 <= h < H ->
    head_shift (fwd_head q k v beta scale init None (T1 + T2) H K V n h)
      (fwd_head (narrow q T1 T2) (narrow k T1 T2) (narrow v T1 T2)
         (narrow beta T1 T2) scale (Some fP) None T2 H K V n h)
      (Z.to_nat T1) (Z.to_nat T2)).
  { intros n h Hn Hh.
    apply (narrow_head_shift q k v beta scale init (Some fP) B (T1 + T2) H K V
             T1 T2 n h Sq Sk Sv Sb HT1 Hh).
    intros i j Hi Hj.
    unfold fwd_head at 1. unfold head_of. cbn [hd_h0 option_map state_of].
    rewrite (HfP n h i j Hn Hh Hi Hj). cbn [seq_len].
    rewrite (ref_state_shift _ _ _ _ (ShP n h Hh) (Z.to_nat T1) i j
               ltac:(lia) Hi Hj).
    reflexivity. }
  split.
  - intros n h t j Hn Hh Ht Hj.
    pose proof (proj2 (HoC n h t j Hn Hh Ht Hj)) as EoC.
    pose proof (proj2 (HoW n h (T1 + t) j Hn Hh ltac:(cbn [seq_len]; lia) Hj)) as EoW.
    cbn [seq_bos] in EoC, EoW. rewrite EoC, EoW.
    rewrite (ref_o_shift _ _ _ _ (ShC n h Hn Hh) (Z.to_nat t) j ltac:(lia) Hj).
    f_equal. lia.
  - intros n h i j Hn Hh Hi Hj.
    rewrite (HfC n h i j Hn Hh Hi Hj), (HfW n h i j Hn Hh Hi Hj).
    cbn [seq_len].
    rewrite (ref_state_shift _ _ _ _ (ShC n h Hn Hh) (Z.to_nat T2) i j
               ltac:(lia) Hi Hj).
    f_equal. lia.
Qed.

Lemma C3_witness :
  exists oP uP fP oC uC fC oW uW fW,
    fused_recurrent_delta_rule_fwd (plain_runtime 0)
      (narrow (of_list [1; 3; 1; 1] [1; 2; 3]) 0 2)
      (narrow (of_list [1; 3; 1; 1] [1; 1; 2]) 0 2)
      (narrow (of_list [1; 3; 1; 1] [3; 1; 4]) 0 2)
      (narrow (of_list [1; 3; 1] [1; 2; 1]) 0 2) 1 None true None
      = Ok (oP, uP, Some fP) /\
    fused_recurrent_delta_rule_fwd (plain_runtime 0)
      (narrow (of_list [1; 3; 1; 1] [1; 2; 3]) 2 1)
      (narrow (of_list [1; 3; 1; 1] [1; 1; 2]) 2 1)
      (narrow (of_list [1; 3; 1; 1] [3; 1; 4]) 2 1)
      (narrow (of_list [1; 3; 1] [1; 2; 1]) 2 1) 1 (Some fP) true None
      = Ok (oC, uC, Some fC) /\
    fused_recurrent_delta_rule_fwd (plain_runtime 0)
      (of_list [1; 3; 1; 1] [1; 2; 3]) (of_list [1; 3; 1; 1] [1; 1; 2])
      (of_list [1; 3; 1; 1] [3; 1; 4]) (of_list [1; 3; 1] [1; 2; 1]) 1 None true None
      = Ok (oW, uW, Some fW) /\
    data oC 0 = data oW 2 /\ data fC 0 = data fW 0.
Proof.
  destruct (C3_state_carry_over Z ArithZ ArithLawsZ
              (plain_runtime 0) (plain_runtime 0) (plain_runtime 0)
              (of_list [1; 3; 1; 1] [1; 2; 3]) (of_list [1; 3; 1; 1] [1; 1; 2])
              (of_list [1; 3; 1; 1] [3; 1; 4]) (of_list [1; 3; 1] [1; 2; 1]) 1 None
              1 2 1 1 1 1
              (plain_runtime_fair 0) (plain_runtime_fair 0) (plain_runtime_fair 0)
              eq_refl eq_refl eq_refl (or_introl eq_refl)
              ltac:(lia) ltac:(lia) ltac:(lia) ltac:(lia) ltac:(lia))
    as (oP & uP & fP & oC & uC & fC & oW & uW & fW & EP & EC & EW & Ho & Hf).
  exists oP, uP, fP, oC, uC, fC, oW, uW, fW.
  split; [exact EP|]. split; [exact EC|]. split; [exact EW|].
  split.
  - exact (Ho 0 0 0 0 ltac:(lia) ltac:(lia) ltac:(lia) ltac:(lia)).
  - exact (Hf 0 0 0 0 ltac:(lia) ltac:(lia) ltac:(lia) ltac:(lia)).
Defined.

(** * The backward pass *)

Section VectorBetaTwoBlocks.
Context {R : Type} {A : Arith R} {L : ArithLaws R}.
Add Ring arith_ring_blocks : (arith_ring (R := R)).

(** One timestep, one key feature and 33 value features, all inputs being 1
    and beta a vector: what the backward launcher returns for the gradient of
    beta when the fresh buffers hold [x], and what the reference gives. *)
Lemma bwd_vector_beta_two_blocks (x : R) :
  exists dq dk dv db dh0,
    fused_recurrent_delta_rule_bwd (plain_runtime x)
      (full [1; 1; 1; 1] one) (full [1; 1; 1; 1] one) (full [1; 1; 1; 33] one)
      (full [1; 1; 1; 33] one) None (full [1; 1; 1; 33] one) one None None
    = Ok (dq, dk, dv, db, dh0) /\
    shape db = [1; 1; 1; 33] /\
    data db 0 = add one one /\ data db 1 = add one x /\ data db 32 = add x x /\
    forall j, 0 <= j < 33 ->
      ref_dbeta
        (bwd_head (full [1; 1; 1; 1] one) (full [1; 1; 1; 1] one)
           (full [1; 1; 1; 33] one) (full [1; 1; 1; 33] one)
           (full [1; 1; 1; 33] one) one None None None 1 1 1 33 0 0) 0 j = one.
Proof.
  do 5 eexists. split; [lazy -[add mul sub opp zero one]; reflexivity|].
  split; [reflexivity|].
  split; [|split; [|split]].
  - lazy -[add mul sub opp zero one]. ring.
  - lazy -[add mul sub opp zero one]. ring.
  - lazy -[add mul sub opp zero one]. ring.
  - intros j Hj. lazy -[add mul sub opp zero one Z.ltb Z.add Z.mul]. ring.
Qed.

End VectorBetaTwoBlocks.

(** C2.  On well-shaped inputs the backward launcher returns the gradients of
    the two-pass reference: pass A walks [t = T-1 .. 0] with the accumulator
    [G] started from [dht] or zero, adds [q_t * scale (x) do_t] to it, takes
    [dk_t], [dv_t] and [dbeta_t] from it, and subtracts [k_t (x) dv_t]; [dh0]
    is [G] after the loop; pass B walks [t = 0 .. T-1] rebuilding the state,
    subtracts [H^T . dv_t] from [dk_t] with the state before step [t] and
    takes [dq_t = (H . do_t) * scale] with the state after it.  This holds
    when the initial state, if there is one, requires a gradient (the kernel
    is not launched otherwise), for [dq], [dk], [dv], [dh0] and the gradient
    of a scalar beta; for a vector beta it holds when the value features fit
    in one block of 32.  With 33 value features the gradient of a vector beta
    is not the reference's 1: its entry 0 is 2, and its other entries are sums
    with what the fresh buffers held. *)
Theorem C2_backward_two_pass_reference :
  (forall (R : Type) (A : Arith R) (L : ArithLaws R) (rt : runtime R)
          (q k u beta : tensor R) (dht : option (tensor R)) (do : tensor R)
          (scale : R) (initial_state : option (tensor R))
          (cu_seqlens : option (list Z)) (B T H K V : Z),
      fair rt ->
      shape q = [B; T; H; K] -> shape k = [B; T; H; K] -> shape u = [B; T; H; V] ->
      0 <= T -> 1 <= H -> 1 <= K -> 1 <= V ->
      cu_ok cu_seqlens T -> batch_ok cu_seqlens B ->
      state_grad_ok initial_state = true ->
      let d := bwd_head q k u beta do scale initial_state dht cu_seqlens T H K V in
      let bos := seq_bos cu_seqlens T in
      exists dq dk dv db dh0,
        fused_recurrent_delta_rule_bwd rt q k u beta dht do scale initial_state
          cu_seqlens = Ok (dq, dk, dv, db, dh0) /\
        (forall n h t i,
           0 <= n < nseq cu_seqlens B -> 0 <= h < H ->
           0 <= t < seq_len cu_seqlens T n -> 0 <= i < K ->
           data dq (((bos n + t) * H + h) * K + i) = ref_dq (d n h) (Z.to_nat t) i /\
           data dk (((bos n + t) * H + h) * K + i) = ref_dk (d n h) (Z.to_nat t) i) /\
        (forall n h t j,
           0 <= n < nseq cu_seqlens B -> 0 <= h < H ->
           0 <= t < seq_len cu_seqlens T n -> 0 <= j < V ->
           data dv (((bos n + t) * H + h) * V + j) = ref_dv (d n h) (Z.to_nat t) j) /\
        (Nat.eqb (ndim beta) (ndim u) = false ->
         forall n h t,
           0 <= n < nseq cu_seqlens B -> 0 <= h < H ->
           0 <= t < seq_len cu_seqlens T n ->
           data db ((bos n + t) * H + h) = ref_dbeta_scalar (d n h) (Z.to_nat t)) /\
        (Nat.eqb (ndim beta) (ndim u) = true -> V <= 32 ->
         forall n h t j,
           0 <= n < nseq cu_seqlens B -> 0 <= h < H ->
           0 <= t < seq_len cu_seqlens T n -> 0 <= j < V ->
           data db (((bos n + t) * H + h) * V + j)
             = ref_dbeta (d n h) (Z.to_nat t) j) /\
        match dh0 with
        | Some g =>
            (exists h0, initial_state = Some h0 /\ requires_grad h0 = true /\
                        shape g = shape h0) /\
            forall n h i j,
              0 <= n < nseq cu_seqlens B -> 0 <= h < H -> 0 <= i < K -> 0 <= j < V ->
              data g ((n * H + h) * K * V + i * V + j) = ref_dh0 (d n h) i j
        | None => initial_state = None
        end) /\
  (forall x : Z,
      exists dq dk dv db dh0,
        fused_recurrent_delta_rule_bwd (plain_runtime x)
          (full [1; 1; 1; 1] 1) (full [1; 1; 1; 1] 1) (full [1; 1; 1; 33] 1)
          (full [1; 1; 1; 33] 1) None (full [1; 1; 1; 33] 1) 1 None None
        = Ok (dq, dk, dv, db, dh0) /\
        shape db = [1; 1; 1; 33] /\
        data db 0 = 2 /\ data db 1 = 1 + x /\ data db 32 = x + x /\
        forall j, 0 <= j < 33 ->
          ref_dbeta
            (bwd_head (full [1; 1; 1; 1] 1) (full [1; 1; 1; 1] 1)
               (full [1; 1; 1; 33] 1) (full [1; 1; 1; 33] 1)
               (full [1; 1; 1; 33] 1) 1 None None None 1 1 1 33 0 0) 0 j = 1).
Proof.
  split.
  - intros R A L rt q k u beta dht do scale init cu B T H K V
      Hf Sq Sk Su HT HH HK HV Hcu HB Hg. cbv zeta.
    exact (bwd_spec rt q k u beta dht do scale init cu B T H K V
             Hf Sq Sk Su HT HH HK HV Hcu HB Hg).
  - intros x. exact (bwd_vector_beta_two_blocks (R := Z) x).
Qed.

Lemma C2_witness :
  exists dq dk dv db dh0,
    fused_recurrent_delta_rule_bwd (plain_runtime 0)
      (of_list [1; 2; 1; 2] [1; 2; 3; 4]) (of_list [1; 2; 1; 2] [1; 0; 2; 1])
      (of_list [1; 2; 1; 2] [1; 1; 2; 3]) (of_list [1; 2; 1] [1; 2]) None
      (of_list [1; 2; 1; 2] [1; 1; 1; 2]) 1 None None
    = Ok (dq, dk, dv, db, dh0) /\
    data dq 0 = 2 /\ data dq 2 = 35 /\ data dq 3 = 16 /\ data db 1 = 80.
Proof.
  destruct (proj1 C2_backward_two_pass_reference Z ArithZ ArithLawsZ
              (plain_runtime 0)
              (of_list [1; 2; 1; 2] [1; 2; 3; 4]) (of_list [1; 2; 1; 2] [1; 0; 2; 1])
              (of_list [1; 2; 1; 2] [1; 1; 2; 3]) (of_list [1; 2; 1] [1; 2]) None
              (of_list [1; 2; 1; 2] [1; 1; 1; 2]) 1 None None 1 2 1 2 2
              (plain_runtime_fair 0) eq_refl eq_refl eq_refl
              ltac:(lia) ltac:(lia) ltac:(lia) ltac:(lia) I ltac:(cbn; lia)
              eq_refl)
    as (dq & dk & dv & db & dh0 & E & Hqk & _ & Hdb & _).
  exists dq, dk, dv, db, dh0. split; [exact E|].
  pose proof (Hqk 0 0 0 0 ltac:(cbn; lia) ltac:(lia) ltac:(cbn; lia) ltac:(lia)) as [Q0 _].
  pose proof (Hqk 0 0 1 0 ltac:(cbn; lia) ltac:(lia) ltac:(cbn; lia) ltac:(lia)) as [Q2 _].
  pose proof (Hqk 0 0 1 1 ltac:(cbn; lia) ltac:(lia) ltac:(cbn; lia) ltac:(lia)) as [Q3 _].
  pose proof (Hdb eq_refl 0 0 1 ltac:(cbn; lia) ltac:(lia) ltac:(cbn; lia)) as D1.
  split; [exact Q0|]. split; [exact Q2|]. split; [exact Q3|exact D1].
Defined.

(** * Determinism of the forward pass *)

(** C9.  Two invocations of the forward launcher on the same inputs return
    the same outputs and the same residuals at every entry that belongs to a
    sequence, and the same final state, whatever the fresh buffers held and
    in whatever order the programs of the grid ran; with sequences of fixed
    length, and with packed sequences whose offsets start at 0 and end at the
    number of tokens, these are all the entries.  No law of the arithmetic is
    used: the values are those of the loops, which run over [t = 0 .. T-1] in
    order. *)
Theorem C9_forward_deterministic :
  forall (R : Type) (A : Arith R) (rt rt' : runtime R)
         (q k v beta : tensor R) (scale : R) (initial_state : option (tensor R))
         (output_final_state : bool) (cu_seqlens : option (list Z))
         (B T H K V : Z),
    fair rt -> fair rt' ->
    shape k = [B; T; H; K] -> shape v = [B; T; H; V] ->
    0 <= B -> 1 <= H -> 1 <= K -> 1 <= V ->
    cu_ok cu_seqlens T ->
    exists o u fs o' u' fs',
      fused_recurrent_delta_rule_fwd rt q k v beta scale initial_state
        output_final_state cu_seqlens = Ok (o, u, fs) /\
      fused_recurrent_delta_rule_fwd rt' q k v beta scale initial_state
        output_final_state cu_seqlens = Ok (o', u', fs') /\
      shape o = shape o' /\ shape u = shape u' /\
      (forall n h t j,
         0 <= n < nseq cu_seqlens B -> 0 <= h < H ->
         0 <= t < seq_len cu_seqlens T n -> 0 <= j < V ->
         data o (((seq_bos cu_seqlens T n + t) * H + h) * V + j)
           = data o' (((seq_bos cu_seqlens T n + t) * H + h) * V + j) /\
         data u (((seq_bos cu_seqlens T n + t) * H + h) * V + j)
           = data u' (((seq_bos cu_seqlens T n + t) * H + h) * V + j)) /\
      (cu_seqlens = None ->
       forall a, 0 <= a < numel (shape v) ->
         data o a = data o' a /\ data u a = data u' a) /\
      (forall cu,
         cu_seqlens = Some cu -> B = 1 -> 1 <= len cu ->
         nth 0 cu 0 = 0 -> nth (Z.to_nat (len cu - 1)) cu 0 = T ->
         forall a, 0 <= a < numel (shape v) ->
           data o a = data o' a /\ data u a = data u' a) /\
      match fs, fs' with
      | Some f, Some f' =>
          shape f = shape f' /\
          forall n h i j,
            0 <= n < nseq cu_seqlens B -> 0 <= h < H -> 0 <= i < K -> 0 <= j < V ->
            data f ((n * H + h) * K * V + i * V + j)
              = data f' ((n * H + h) * K * V + i * V + j)
      | None, None => output_final_state = false
      | _, _ => False
      end.
Proof.
  intros R A rt rt' q k v beta scale init ofs cu B T H K V
    Hf Hf' Sk Sv HB HH HK HV Hcu.
  destruct (fwd_values q k v beta scale init ofs cu B T H K V Sk Sv HH HK HV Hcu rt Hf)
    as (o & u & fs & E & So & Su & Hrows & Hfs).
  destruct (fwd_values q k v beta scale init ofs cu B T H K V Sk Sv HH HK HV Hcu rt' Hf')
    as (o' & u' & fs' & E' & So' & Su' & Hrows' & Hfs').
  exists o, u, fs, o', u', fs'.
  split; [exact E|]. split; [exact E'|].
  split; [congruence|]. split; [congruence|].
  assert (Hin : forall n h t j,
    0 <= n < nseq cu B -> 0 <= h < H -> 0 <= t < seq_len cu T n -> 0 <= j < V ->
    data o (((seq_bos cu T n + t) * H + h) * V + j)
      = data o' (((seq_bos cu T n + t) * H + h) * V + j) /\
    data u (((seq_bos cu T n + t) * H + h) * V + j)
      = data u' (((seq_bos cu T n + t) * H + h) * V + j)).
  { intros n h t j Hn Hh Ht Hj.
    destruct (Hrows n h t j Hn Hh Ht Hj) as [U O].
    destruct (Hrows' n h t j Hn Hh Ht Hj) as [U' O'].
    split; congruence. }
  split; [exact Hin|]. split; [|split].
  - intros -> a Ha. rewrite Sv in Ha. cbn [numel fold_right] in Ha.
    destruct (entry_coords B T H V a HB HH HV ltac:(lia))
      as (n & t & h & j & Hn & Ht & Hh & Hj & ->).
    exact (Hin n h t j Hn Hh Ht Hj).
  - intros cu0 -> -> Hlen H0 HT a Ha. rewrite Sv in Ha.
    cbn [numel fold_right] in Ha.
    destruct (entry_coords 1 T H V a ltac:(lia) HH HV ltac:(lia))
      as (b & tok & h & j & Hb & Htok & Hh & Hj & ->).
    assert (b = 0) by lia. subst b.
    destruct (token_in_sequence cu0 (Z.to_nat (len cu0 - 1)) tok H0 ltac:(lia))
      as (n & Hn & Hbd).
    pose proof (Hin n h (tok - nth (Z.to_nat n) cu0 0) j) as Hx.
    cbn [nseq seq_len seq_bos] in Hx.
    replace (nth (Z.to_nat n) cu0 0 + (tok - nth (Z.to_nat n) cu0 0))
      with (0 * T + tok) in Hx by lia.
    apply Hx; lia.
  - destruct fs as [f|], fs' as [f'|].
    + destruct Hfs as (_ & Sf & Hf0). destruct Hfs' as (_ & Sf' & Hf0').
      split; [congruence|].
      intros n h i j Hn Hh Hi Hj.
      rewrite (Hf0 n h i j Hn Hh Hi Hj), (Hf0' n h i j Hn Hh Hi Hj). reflexivity.
    + destruct Hfs as (Et & _). congruence.
    + destruct Hfs' as (Et & _). congruence.
    + exact Hfs.
Qed.

Lemma C9_witness :
  exists o u fs o' u' fs',
    fused_recurrent_delta_rule_fwd (plain_runtime 0)
      (of_list [1; 2; 1; 1] [1; 2]) (of_list [1; 2; 1; 1] [1; 3])
      (of_list [1; 2; 1; 2] [1; 2; 3; 4]) (of_list [1; 2; 1] [1; 2]) 1 None true None
      = Ok (o, u, fs) /\
    fused_recurrent_delta_rule_fwd (plain_runtime 7)
      (of_list [1; 2; 1; 1] [1; 2]) (of_list [1; 2; 1; 1] [1; 3])
      (of_list [1; 2; 1; 2] [1; 2; 3; 4]) (of_list [1; 2; 1] [1; 2]) 1 None true None
      = Ok (o', u', fs') /\
    data o 3 = data o' 3 /\ data u 3 = data u' 3.
Proof.
  destruct (C9_forward_deterministic Z ArithZ (plain_runtime 0) (plain_runtime 7)
              (of_list [1; 2; 1; 1] [1; 2]) (of_list [1; 2; 1; 1] [1; 3])
              (of_list [1; 2; 1; 2] [1; 2; 3; 4]) (of_list [1; 2; 1] [1; 2]) 1 None
              true None 1 2 1 1 2
              (plain_runtime_fair 0) (plain_runtime_fair 7) eq_refl eq_refl
              ltac:(lia) ltac:(lia) ltac:(lia) ltac:(lia) I)
    as (o & u & fs & o' & u' & fs' & E & E' & _ & _ & _ & Hall & _).
  exists o, u, fs, o', u', fs'.
  split; [exact E|]. split; [exact E'|].
  exact (Hall eq_refl 3 ltac:(cbn; lia)).
Defined.

(** * The gradient of the initial state *)

Lemma launch_dh0_some {R : Type} {A : Arith R} (rt : runtime R) (grid : Z * Z * Z)
    (q k v beta : mem R) h0 dht do cu_seqlens scale B T H K V BK BV NK hw
    (s : bwd_bufs) :
  is_some (bb_dh0 (launch rt grid
             (bwd_kernel_program q k v beta h0 dht do
                cu_seqlens scale B T H K V BK BV NK hw) s))
  = is_some (bb_dh0 s).
Proof.
  unfold launch.
  apply (fold_left_frame
           (bwd_kernel_program q k v beta h0 dht do
              cu_seqlens scale B T H K V BK BV NK hw)
           (fun s => is_some (bb_dh0 s))).
  intros p' s' _. apply bwd_kernel_dh0_some.
Qed.

(** C10.  Whenever the backward launcher returns, the gradient of the initial
    state it returns is a tensor exactly when an initial state was given and
    requires a gradient, and it then has the shape of that state; it is
    [None] only when no initial state was given.  On well-shaped inputs the
    launcher returns when the initial state, if there is one, requires a
    gradient; when an initial state is given that does not require one, no
    buffer is allocated and the launch of the kernel raises, so that nothing
    is returned.  What a buffer allocated for the gradient would hold has no
    effect when no gradient of the initial state is due. *)
Theorem C10_dh0_iff_initial_state_requires_grad :
  forall (R : Type) (A : Arith R) (rt : runtime R)
         (q k v beta : tensor R) (dht : option (tensor R)) (do : tensor R)
         (scale : R) (initial_state : option (tensor R))
         (cu_seqlens : option (list Z)),
    (forall dq dk dv db dh0,
       fused_recurrent_delta_rule_bwd rt q k v beta dht do scale initial_state
         cu_seqlens = Ok (dq, dk, dv, db, dh0) ->
       match dh0 with
       | Some g =>
           exists h0, initial_state = Some h0 /\ requires_grad h0 = true /\
                      shape g = shape h0
       | None => initial_state = None
       end) /\
    (forall B T H K V,
       shape k = [B; T; H; K] -> shape v = [B; T; H; V] -> 1 <= K -> 1 <= V ->
       if state_grad_ok initial_state
       then exists r,
              fused_recurrent_delta_rule_bwd rt q k v beta dht do scale
                initial_state cu_seqlens = Ok r
       else fused_recurrent_delta_rule_bwd rt q k v beta dht do scale
              initial_state cu_seqlens = Raise KernelError) /\
    (forall rt' : runtime R,
       (forall h0, initial_state = Some h0 -> requires_grad h0 = false) ->
       schedule rt' = schedule rt ->
       (forall site, site <> 4%nat -> junk rt' site = junk rt site) ->
       fused_recurrent_delta_rule_bwd rt' q k v beta dht do scale initial_state
         cu_seqlens
       = fused_recurrent_delta_rule_bwd rt q k v beta dht do scale initial_state
           cu_seqlens).
Proof.
  intros R A rt q k v beta dht do scale init cu. split; [|split].
  - intros dq dk dv db dh0.
    unfold fused_recurrent_delta_rule_bwd.
    destruct (shape_last (shape v)) as [V|e]; cbn [bind]; [|discriminate].
    destruct (unpack4 (shape k)) as [[[[B T] H] K]|e]; cbn [bind]; [|discriminate].
    unfold bwd_with_blocks.
    destruct (cdiv K (next_power_of_2 K)) as [NK|e]; cbn [bind]; [|discriminate].
    destruct (cdiv V (Z.min (next_power_of_2 V) 32)) as [NV|e]; cbn [bind];
      [|discriminate].
    destruct (NK =? 1); cbn [py_assert bind]; [|discriminate].
    unfold fused_recurrent_delta_rule_bwd_kernel.
    destruct init as [h0|]; [destruct (requires_grad h0) eqn:Erg|];
      cbn [option_map bind]; try discriminate.
    + intros E. injection E as _ _ _ _ Edh0. subst dh0.
      match goal with
      | |- context [launch ?rt0 ?g ?ker ?s0] =>
          pose proof (launch_dh0_some rt0 g (data q) (data k) (data v) (data beta)
                        (Some (data h0)) (option_map data dht) (data do)
                        cu scale B T H K V (next_power_of_2 K)
                        (Z.min (next_power_of_2 V) 32) NK
                        (Nat.eqb (ndim beta) (ndim v)) s0) as Hs;
          destruct (bb_dh0 (launch rt0 g ker s0)) as [g0|]
      end; cbn [bb_dh0 is_some] in Hs; [|discriminate].
      exists h0. split; [reflexivity|]. split; [exact Erg|reflexivity].
    + intros E. injection E as _ _ _ _ Edh0. subst dh0. reflexivity.
  - intros B T H K V Sk Sv HK HV.
    destruct (state_grad_ok init) eqn:Hg.
    + destruct (bwd_unfold rt q k v beta dht do scale init cu B T H K V
                  Sk Sv HK HV Hg)
        as (NV & _ & _ & _ & E).
      cbv zeta in E. rewrite E. eexists. reflexivity.
    + exact (bwd_refused rt q k v beta dht do scale init cu B T H K V
               Sk Sv HK HV Hg).
  - intros rt' Hng Hsch Hj.
    unfold fused_recurrent_delta_rule_bwd.
    destruct (shape_last (shape v)) as [V|e]; cbn [bind]; [|reflexivity].
    destruct (unpack4 (shape k)) as [[[[B T] H] K]|e]; cbn [bind]; [|reflexivity].
    unfold bwd_with_blocks.
    destruct (cdiv K (next_power_of_2 K)) as [NK|e]; cbn [bind]; [|reflexivity].
    destruct (cdiv V (Z.min (next_power_of_2 V) 32)) as [NV|e]; cbn [bind];
      [|reflexivity].
    destruct (NK =? 1); cbn [py_assert bind]; [|reflexivity].
    unfold fused_recurrent_delta_rule_bwd_kernel.
    destruct init as [h0|]; [rewrite (Hng h0 eq_refl)|];
      cbn [option_map bind]; [reflexivity|].
    unfold launch, new_empty. cbn [data shape].
    rewrite Hsch, (Hj 0%nat), (Hj 1%nat), (Hj 2%nat), (Hj 3%nat) by discriminate.
    reflexivity.
Qed.

Lemma C10_witness :
  (exists dq dk dv db g,
     fused_recurrent_delta_rule_bwd (plain_runtime 0)
       (full [1; 1; 1; 1] 1) (full [1; 1; 1; 1] 1) (full [1; 1; 1; 1] 1)
       (full [1; 1; 1] 1) None (full [1; 1; 1; 1] 1) 1
       (Some {| shape := [1; 1; 1; 1]; data := fun _ => 0; requires_grad := true |})
       None
       = Ok (dq, dk, dv, db, Some g) /\
     shape g = [1; 1; 1; 1]) /\
  fused_recurrent_delta_rule_bwd (plain_runtime 0)
    (full [1; 1; 1; 1] 1) (full [1; 1; 1; 1] 1) (full [1; 1; 1; 1] 1)
    (full [1; 1; 1] 1) None (full [1; 1; 1; 1] 1) 1
    (Some {| shape := [1; 1; 1; 1]; data := fun _ => 0; requires_grad := false |})
    None
  = Raise KernelError.
Proof.
  split.
  - pose (h0 := {| shape := [1; 1; 1; 1]; data := fun _ : Z => 0;
                   requires_grad := true |}).
    destruct (C10_dh0_iff_initial_state_requires_grad Z ArithZ (plain_runtime 0)
                (full [1; 1; 1; 1] 1) (full [1; 1; 1; 1] 1) (full [1; 1; 1; 1] 1)
                (full [1; 1; 1] 1) None (full [1; 1; 1; 1] 1) 1 (Some h0) None)
      as (Hall & Hret & _).
    destruct (Hret 1 1 1 1 1 eq_refl eq_refl ltac:(lia) ltac:(lia))
      as ([[[[dq dk] dv] db] dh0] & E).
    pose proof (Hall dq dk dv db dh0 E) as Hd.
    destruct dh0 as [g|].
    + destruct Hd as (h1 & Eh & _ & Sg).
      exists dq, dk, dv, db, g. split; [exact E|].
      inversion Eh; subst h1. exact Sg.
    + discriminate Hd.
  - exact (proj1 (proj2
             (C10_dh0_iff_initial_state_requires_grad Z ArithZ (plain_runtime 0)
                (full [1; 1; 1; 1] 1) (full [1; 1; 1; 1] 1) (full [1; 1; 1; 1] 1)
                (full [1; 1; 1] 1) None (full [1; 1; 1; 1] 1) 1
                (Some {| shape := [1; 1; 1; 1]; data := fun _ => 0;
                         requires_grad := false |}) None))
             1 1 1 1 1 eq_refl eq_refl ltac:(lia) ltac:(lia)).
Defined.

(** * Scalar and vector beta *)

Section BetaModes.
Context {R : Type} {A : Arith R}.
Variables (q k v bs bv : tensor R) (scale : R).
Variables (initial_state : option (tensor R)) (cu_seqlens : option (list Z)).
Variables (B T H K V : Z).
Hypothesis shape_v : shape v = [B; T; H; V].
Hypothesis shape_bs : shape bs = [B; T; H].
Hypothesis shape_bv : shape bv = [B; T; H; V].
Hypothesis same_beta : forall a j, 0 <= j < V -> data bv (a * V + j) = data bs a.

(** The heads of a call with a scalar beta and of the call with the vector
    beta that repeats it. *)
Lemma fwd_heads_agree (n h : Z) :
  head_agree (fwd_head q k v bs scale initial_state cu_seqlens T H K V n h)
             (fwd_head q k v bv scale initial_state cu_seqlens T H K V n h).
Proof.
  unfold head_agree, fwd_head, head_of, ndim.
  rewrite shape_v, shape_bs, shape_bv.
  cbn [hd_K hd_V hd_T hd_scale hd_q hd_k hd_v hd_beta hd_do hd_h0 hd_dht
       List.length Nat.eqb beta_rows].
  repeat split; try reflexivity.
  intros. unfold rows, rows_scalar. apply same_beta. assumption.
Qed.

Lemma bwd_heads_agree (u u' do : tensor R) (dht : option (tensor R)) (n h : Z) :
  shape u = [B; T; H; V] -> shape u' = [B; T; H; V] ->
  (forall t j, 0 <= t < seq_len cu_seqlens T n -> 0 <= j < V ->
     data u' (((seq_bos cu_seqlens T n + t) * H + h) * V + j)
       = data u (((seq_bos cu_seqlens T n + t) * H + h) * V + j)) ->
  head_agree (bwd_head q k u bs do scale initial_state dht cu_seqlens T H K V n h)
             (bwd_head q k u' bv do scale initial_state dht cu_seqlens T H K V n h).
Proof.
  intros Su Su' Hu. unfold head_agree, bwd_head, head_of, ndim.
  rewrite Su, Su', shape_bs, shape_bv.
  cbn [hd_K hd_V hd_T hd_scale hd_q hd_k hd_v hd_beta hd_do hd_h0 hd_dht
       List.length Nat.eqb beta_rows].
  repeat split; try reflexivity.
  - unfold rows. apply Hu; [lia|assumption].
  - unfold rows, rows_scalar. apply same_beta. assumption.
Qed.

End BetaModes.

(** C7, as the code has it.  A call with a scalar beta and the call with the
    vector beta that repeats it over the value features return the same
    outputs, residuals and final state; when the initial state, if there is
    one, requires a gradient, the two backward calls return the same
    gradients of the queries, keys, values and initial state; the gradient of
    the scalar beta has the shape [[B; T; H]] and that of the vector beta the
    shape [[B; T; H; V]], and the first is the sum over the value features of
    the second, for up to 32 value features. *)
Theorem C7_scalar_beta_as_vector :
  forall (R : Type) (A : Arith R) (L : ArithLaws R) (rt1 rt2 rt3 rt4 : runtime R)
         (q k v bs bv : tensor R) (dht : option (tensor R)) (do : tensor R)
         (scale : R) (initial_state : option (tensor R))
         (output_final_state : bool) (cu_seqlens : option (list Z))
         (B T H K V : Z),
    fair rt1 -> fair rt2 -> fair rt3 -> fair rt4 ->
    shape q = [B; T; H; K] -> shape k = [B; T; H; K] -> shape v = [B; T; H; V] ->
    shape bs = [B; T; H] -> shape bv = [B; T; H; V] ->
    (forall a j, 0 <= j < V -> data bv (a * V + j) = data bs a) ->
    0 <= T -> 1 <= H -> 1 <= K -> 1 <= V ->
    cu_ok cu_seqlens T -> batch_ok cu_seqlens B ->
    let N := nseq cu_seqlens B in
    let bos := seq_bos cu_seqlens T in
    let len := seq_len cu_seqlens T in
    exists o u fs o' u' fs',
      fused_recurrent_delta_rule_fwd rt1 q k v bs scale initial_state
        output_final_state cu_seqlens = Ok (o, u, fs) /\
      fused_recurrent_delta_rule_fwd rt2 q k v bv scale initial_state
        output_final_state cu_seqlens = Ok (o', u', fs') /\
      (forall n h t j,
         0 <= n < N -> 0 <= h < H -> 0 <= t < len n -> 0 <= j < V ->
         data o' (((bos n + t) * H + h) * V + j)
           = data o (((bos n + t) * H + h) * V + j) /\
         data u' (((bos n + t) * H + h) * V + j)
           = data u (((bos n + t) * H + h) * V + j)) /\
      match fs, fs' with
      | Some f, Some f' =>
          forall n h i j,
            0 <= n < N -> 0 <= h < H -> 0 <= i < K -> 0 <= j < V ->
            data f' ((n * H + h) * K * V + i * V + j)
              = data f ((n * H + h) * K * V + i * V + j)
      | None, None => output_final_state = false
      | _, _ => False
      end /\
      (state_grad_ok initial_state = true ->
       exists dq dk dv db dh0 dq' dk' dv' db' dh0',
        fused_recurrent_delta_rule_bwd rt3 q k u bs dht do scale initial_state
          cu_seqlens = Ok (dq, dk, dv, db, dh0) /\
        fused_recurrent_delta_rule_bwd rt4 q k u' bv dht do scale initial_state
          cu_seqlens = Ok (dq', dk', dv', db', dh0') /\
        shape db = [B; T; H] /\ shape db' = [B; T; H; V] /\
        (forall n h t i,
           0 <= n < N -> 0 <= h < H -> 0 <= t < len n -> 0 <= i < K ->
           data dq' (((bos n + t) * H + h) * K + i)
             = data dq (((bos n + t) * H + h) * K + i) /\
           data dk' (((bos n + t) * H + h) * K + i)
             = data dk (((bos n + t) * H + h) * K + i)) /\
        (forall n h t j,
           0 <= n < N -> 0 <= h < H -> 0 <= t < len n -> 0 <= j < V ->
           data dv' (((bos n + t) * H + h) * V + j)
             = data dv (((bos n + t) * H + h) * V + j)) /\
        (V <= 32 ->
         forall n h t,
           0 <= n < N -> 0 <= h < H -> 0 <= t < len n ->
           data db ((bos n + t) * H + h)
             = tl_sum V (fun j => data db' (((bos n + t) * H + h) * V + j))) /\
        match dh0, dh0' with
        | Some g, Some g' =>
            forall n h i j,
              0 <= n < N -> 0 <= h < H -> 0 <= i < K -> 0 <= j < V ->
              data g' ((n * H + h) * K * V + i * V + j)
                = data g ((n * H + h) * K * V + i * V + j)
        | None, None => True
        | _, _ => False
        end).
Proof.
  intros R A L rt1 rt2 rt3 rt4 q k v bs bv dht do scale init ofs cu B T H K V
    F1 F2 F3 F4 Sq Sk Sv Sbs Sbv Hsame HT HH HK HV Hcu HB. cbv zeta.
  destruct (fwd_spec rt1 q k v bs scale init ofs cu B T H K V F1 Sk Sv HH HK HV Hcu)
    as (o & u & fs & E & _ & Su & Hrows & Hfs).
  destruct (fwd_spec rt2 q k v bv scale init ofs cu B T H K V F2 Sk Sv HH HK HV Hcu)
    as (o' & u' & fs' & E' & _ & Su' & Hrows' & Hfs').
  rewrite Sv in Su, Su'.
  pose proof (fwd_heads_agree q k v bs bv scale init cu B T H K V Sv Sbs Sbv Hsame)
    as HF.
  assert (Hin : forall n h t j,
    0 <= n < nseq cu B -> 0 <= h < H -> 0 <= t < seq_len cu T n -> 0 <= j < V ->
    data o' (((seq_bos cu T n + t) * H + h) * V + j)
      = data o (((seq_bos cu T n + t) * H + h) * V + j) /\
    data u' (((seq_bos cu T n + t) * H + h) * V + j)
      = data u (((seq_bos cu T n + t) * H + h) * V + j)).
  { intros n h t j Hn Hh Ht Hj.
    destruct (Hrows n h t j Hn Hh Ht Hj) as [U O].
    destruct (Hrows' n h t j Hn Hh Ht Hj) as [U' O'].
    rewrite U, O, U', O'. split.
    - apply (ref_o_agree _ _ (HF n h)); [cbn; lia|exact Hj].
    - apply (ref_u_agree _ _ (HF n h)); [cbn; lia|exact Hj]. }
  exists o, u, fs, o', u', fs'.
  split; [exact E|]. split; [exact E'|]. split; [exact Hin|]. split.
  { destruct fs as [f|], fs' as [f'|].
    - destruct Hfs as (_ & _ & Hf). destruct Hfs' as (_ & _ & Hf').
      intros n h i j Hn Hh Hi Hj.
      rewrite (Hf n h i j Hn Hh Hi Hj), (Hf' n h i j Hn Hh Hi Hj).
      apply (ref_state_agree _ _ (HF n h)); [cbn; lia|exact Hi|exact Hj].
    - destruct Hfs as (Et & _). congruence.
    - destruct Hfs' as (Et & _). congruence.
    - exact Hfs. }
  intros Hg.
  destruct (bwd_spec rt3 q k u bs dht do scale init cu B T H K V
              F3 Sq Sk Su HT HH HK HV Hcu HB Hg)
    as (dq & dk & dv & db & dh0 & EB & Hqk & Hdv & Hdbs & _ & Hdh0).
  destruct (bwd_spec rt4 q k u' bv dht do scale init cu B T H K V
              F4 Sq Sk Su' HT HH HK HV Hcu HB Hg)
    as (dq' & dk' & dv' & db' & dh0' & EB' & Hqk' & Hdv' & _ & Hdbv' & Hdh0').
  assert (Ws : Nat.eqb (ndim bs) (ndim u) = false)
    by (unfold ndim; rewrite Sbs, Su; reflexivity).
  assert (Wv : Nat.eqb (ndim bv) (ndim u') = true)
    by (unfold ndim; rewrite Sbv, Su'; reflexivity).
  assert (Sdb : shape db = [B; T; H]).
  { destruct (bwd_returns_shapes rt3 q k u bs dht do scale init cu B T H K V
                Sk Su HK HV Hg) as (? & ? & ? & db0 & ? & E0 & _ & _ & _ & S0).
    rewrite EB in E0. injection E0 as _ _ _ Edb _. subst db0.
    rewrite Ws in S0. exact S0. }
  assert (Sdb' : shape db' = [B; T; H; V]).
  { destruct (bwd_returns_shapes rt4 q k u' bv dht do scale init cu B T H K V
                Sk Su' HK HV Hg) as (? & ? & ? & db0 & ? & E0 & _ & _ & _ & S0).
    rewrite EB' in E0. injection E0 as _ _ _ Edb _. subst db0.
    rewrite Wv in S0. exact S0. }
  assert (HBk : forall n h, 0 <= n < nseq cu B -> 0 <= h < H ->
    head_agree (bwd_head q k u bs do scale init dht cu T H K V n h)
               (bwd_head q k u' bv do scale init dht cu T H K V n h)).
  { intros n h Hn Hh.
    apply (bwd_heads_agree q k bs bv scale init cu B T H K V Sbs Sbv Hsame
             u u' do dht n h Su Su').
    intros t j Ht Hj. exact (proj2 (Hin n h t j Hn Hh Ht Hj)). }
  exists dq, dk, dv, db, dh0, dq', dk', dv', db', dh0'.
  split; [exact EB|]. split; [exact EB'|].
  split; [exact Sdb|]. split; [exact Sdb'|].
  split; [|split; [|split]].
  - intros n h t i Hn Hh Ht Hi.
    destruct (Hqk n h t i Hn Hh Ht Hi) as [Q D].
    destruct (Hqk' n h t i Hn Hh Ht Hi) as [Q' D'].
    rewrite Q, D, Q', D'. split.
    + apply (ref_dq_agree _ _ (HBk n h Hn Hh)); [cbn; lia|exact Hi].
    + apply (ref_dk_agree _ _ (HBk n h Hn Hh)); [cbn; lia|exact Hi].
  - intros n h t j Hn Hh Ht Hj.
    rewrite (Hdv n h t j Hn Hh Ht Hj), (Hdv' n h t j Hn Hh Ht Hj).
    apply (ref_dv_agree _ _ (HBk n h Hn Hh)); [cbn; lia|exact Hj].
  - intros HV32 n h t Hn Hh Ht.
    rewrite (Hdbs Ws n h t Hn Hh Ht). unfold ref_dbeta_scalar.
    cbn [bwd_head head_of hd_V].
    apply tl_sum_ext. intros j Hj.
    rewrite (Hdbv' Wv HV32 n h t j Hn Hh Ht Hj).
    symmetry. apply (ref_dbeta_agree _ _ (HBk n h Hn Hh)); [cbn; lia|exact Hj].
  - destruct dh0 as [g|], dh0' as [g'|].
    + destruct Hdh0 as (_ & Hd). destruct Hdh0' as (_ & Hd').
      intros n h i j Hn Hh Hi Hj.
      rewrite (Hd n h i j Hn Hh Hi Hj), (Hd' n h i j Hn Hh Hi Hj).
      apply (ref_dh0_agree _ _ (HBk n h Hn Hh)); assumption.
    + destruct Hdh0 as ((h0 & Eh & Eg & _) & _). congruence.
    + destruct Hdh0' as ((h0 & Eh & Eg & _) & _). congruence.
    + exact I.
Qed.

Lemma C7_witness :
  exists o u fs o' u' fs',
    fused_recurrent_delta_rule_fwd (plain_runtime 0)
      (of_list [1; 2; 1; 1] [1; 2]) (of_list [1; 2; 1; 1] [1; 3])
      (of_list [1; 2; 1; 2] [1; 2; 3; 4]) (of_list [1; 2; 1] [2; 5]) 1 None true None
      = Ok (o, u, fs) /\
    fused_recurrent_delta_rule_fwd (plain_runtime 0)
      (of_list [1; 2; 1; 1] [1; 2]) (of_list [1; 2; 1; 1] [1; 3])
      (of_list [1; 2; 1; 2] [1; 2; 3; 4])
      {| shape := [1; 2; 1; 2]; data := fun a => nth (Z.to_nat (a / 2)) [2; 5] 0;
         requires_grad := false |} 1 None true None
      = Ok (o', u', fs') /\
    data o' 3 = data o 3 /\ data u' 3 = data u 3 /\
    exists dq dk dv db dh0 dq' dk' dv' db' dh0',
      fused_recurrent_delta_rule_bwd (plain_runtime 0)
        (of_list [1; 2; 1; 1] [1; 2]) (of_list [1; 2; 1; 1] [1; 3]) u
        (of_list [1; 2; 1] [2; 5]) None (of_list [1; 2; 1; 2] [1; 1; 1; 1]) 1
        None None
        = Ok (dq, dk, dv, db, dh0) /\
      fused_recurrent_delta_rule_bwd (plain_runtime 0)
        (of_list [1; 2; 1; 1] [1; 2]) (of_list [1; 2; 1; 1] [1; 3]) u'
        {| shape := [1; 2; 1; 2]; data := fun a => nth (Z.to_nat (a / 2)) [2; 5] 0;
           requires_grad := false |} None (of_list [1; 2; 1; 2] [1; 1; 1; 1]) 1
        None None
        = Ok (dq', dk', dv', db', dh0') /\
      shape db = [1; 2; 1] /\ shape db' = [1; 2; 1; 2] /\
      data db 1 = tl_sum 2 (fun j => data db' (1 * 2 + j)).
Proof.
  pose (bv := {| shape := [1; 2; 1; 2];
                 data := fun a => nth (Z.to_nat (a / 2)) [2; 5] 0;
                 requires_grad := false |}).
  assert (Hsame : forall a j, 0 <= j < 2 ->
            data bv (a * 2 + j) = data (of_list [1; 2; 1] [2; 5]) a).
  { intros a j Hj. cbn [data bv of_list].
    replace ((a * 2 + j) / 2) with a; [reflexivity|].
    apply Z.div_unique with (r := j); lia. }
  destruct (C7_scalar_beta_as_vector Z ArithZ ArithLawsZ
              (plain_runtime 0) (plain_runtime 0) (plain_runtime 0) (plain_runtime 0)
              (of_list [1; 2; 1; 1] [1; 2]) (of_list [1; 2; 1; 1] [1; 3])
              (of_list [1; 2; 1; 2] [1; 2; 3; 4]) (of_list [1; 2; 1] [2; 5]) bv
              None (of_list [1; 2; 1; 2] [1; 1; 1; 1]) 1 None true None 1 2 1 1 2
              (plain_runtime_fair 0) (plain_runtime_fair 0)
              (plain_runtime_fair 0) (plain_runtime_fair 0)
              eq_refl eq_refl eq_refl eq_refl eq_refl Hsame
              ltac:(lia) ltac:(lia) ltac:(lia) ltac:(lia) I ltac:(cbn; lia))
    as (o & u & fs & o' & u' & fs' & E & E' & Hin & _ & Hb).
  exists o, u, fs, o', u', fs'.
  split; [exact E|]. split; [exact E'|].
  destruct (Hin 0 0 1 1 ltac:(cbn; lia) ltac:(lia) ltac:(cbn; lia) ltac:(lia))
    as [Ho Hu].
  split; [exact Ho|]. split; [exact Hu|].
  destruct (Hb eq_refl)
    as (dq & dk & dv & db & dh0 & dq' & dk' & dv' & db' & dh0'
        & EB & EB' & Sdb & Sdb' & _ & _ & Hsum & _).
  exists dq, dk, dv, db, dh0, dq', dk', dv', db', dh0'.
  split; [exact EB|]. split; [exact EB'|].
  split; [exact Sdb|]. split; [exact Sdb'|].
  exact (Hsum ltac:(lia) 0 0 1 ltac:(cbn; lia) ltac:(lia) ltac:(cbn; lia)).
Defined.

(** C7, as stated, fails for the gradient of beta.  With one timestep, one
    key feature and two value features, all inputs being 1, the gradient of
    the scalar beta is the single entry 2, and the gradient of the vector
    beta has the two entries 1 and 1: the two do not have the same shape.
    With 33 value features, and fresh buffers that hold 5, the gradient of
    the scalar beta is 33, and the gradient of the vector beta has the entries
    2, then 6 thirty-one times, then 10, whose sum is 198: beyond 32 value
    features the first is not the sum of the second either. *)
Lemma C7_counterexample :
  (exists dq dk dv db dh0 dq' dk' dv' db' dh0',
     fused_recurrent_delta_rule_bwd (plain_runtime 0)
       (full [1; 1; 1; 1] 1) (full [1; 1; 1; 1] 1) (full [1; 1; 1; 2] 1)
       (full [1; 1; 1] 1) None (full [1; 1; 1; 2] 1) 1 None None
     = Ok (dq, dk, dv, db, dh0) /\
     fused_recurrent_delta_rule_bwd (plain_runtime 0)
       (full [1; 1; 1; 1] 1) (full [1; 1; 1; 1] 1) (full [1; 1; 1; 2] 1)
       (full [1; 1; 1; 2] 1) None (full [1; 1; 1; 2] 1) 1 None None
     = Ok (dq', dk', dv', db', dh0') /\
     shape db = [1; 1; 1] /\ shape db' = [1; 1; 1; 2] /\
     data db 0 = 2 /\ data db' 0 = 1 /\ data db' 1 = 1) /\
  (exists dq dk dv db dh0 dq' dk' dv' db' dh0',
     fused_recurrent_delta_rule_bwd (plain_runtime 5)
       (full [1; 1; 1; 1] 1) (full [1; 1; 1; 1] 1) (full [1; 1; 1; 33] 1)
       (full [1; 1; 1] 1) None (full [1; 1; 1; 33] 1) 1 None None
     = Ok (dq, dk, dv, db, dh0) /\
     fused_recurrent_delta_rule_bwd (plain_runtime 5)
       (full [1; 1; 1; 1] 1) (full [1; 1; 1; 1] 1) (full [1; 1; 1; 33] 1)
       (full [1; 1; 1; 33] 1) None (full [1; 1; 1; 33] 1) 1 None None
     = Ok (dq', dk', dv', db', dh0') /\
     shape db = [1; 1; 1] /\ shape db' = [1; 1; 1; 33] /\
     data db 0 = 33 /\ tl_sum 33 (fun j => data db' j) = 198 /\
     data db' 0 = 2 /\ data db' 1 = 6 /\ data db' 31 = 6 /\ data db' 32 = 10).
Proof.
  split.
  - do 10 eexists.
    split; [reflexivity|]. split; [reflexivity|].
    repeat split; vm_compute; reflexivity.
  - do 10 eexists.
    split; [reflexivity|]. split; [reflexivity|].
    repeat split; vm_compute; reflexivity.
Qed.

(** * A single block of key features *)

(** C8.  A launch that would split the [K] key features over more than one
    block is refused with the assertion error "NK > 1 is not supported yet",
    by the forward and by the backward launcher, before any buffer is
    allocated; and whenever either launcher returns, the number of [K] blocks
    it computed is 1. *)
Theorem C8_single_key_block :
  forall (R : Type) (A : Arith R) (rt : runtime R)
         (q k v beta : tensor R) (dht : option (tensor R)) (do : tensor R)
         (scale : R) (initial_state : option (tensor R))
         (output_final_state : bool) (cu_seqlens : option (list Z)),
    (forall BK BV B T H K V N NK NV,
       cdiv K BK = Ok NK -> cdiv V BV = Ok NV -> NK <> 1 ->
       fwd_with_blocks rt BK BV q k v beta scale initial_state output_final_state
         cu_seqlens B T H K V N
         = Raise (AssertionError "NK > 1 is not supported yet") /\
       bwd_with_blocks rt BK BV q k v beta dht do scale initial_state
         cu_seqlens B T H K V N
         = Raise (AssertionError "NK > 1 is not supported yet")) /\
    (forall r,
       fused_recurrent_delta_rule_fwd rt q k v beta scale initial_state
         output_final_state cu_seqlens = Ok r ->
       exists B T H K,
         shape k = [B; T; H; K] /\ cdiv K (next_power_of_2 K) = Ok 1) /\
    (forall r,
       fused_recurrent_delta_rule_bwd rt q k v beta dht do scale initial_state
         cu_seqlens = Ok r ->
       exists B T H K,
         shape k = [B; T; H; K] /\ cdiv K (next_power_of_2 K) = Ok 1).
Proof.
  intros R A rt q k v beta dht do scale init ofs cu. split; [|split].
  - intros BK BV B T H K V N NK NV EK EV Hne.
    apply Z.eqb_neq in Hne.
    unfold fwd_with_blocks, bwd_with_blocks.
    rewrite EK, EV. cbn [bind]. rewrite Hne. split; reflexivity.
  - intros r. unfold fused_recurrent_delta_rule_fwd.
    destruct (shape_last (shape v)) as [V|e]; cbn [bind]; [|discriminate].
    destruct (shape k) as [|B [|T [|H [|K [|x s]]]]]; cbn [unpack4 bind];
      try discriminate.
    unfold fwd_with_blocks.
    destruct (cdiv K (next_power_of_2 K)) as [NK|e] eqn:EK; cbn [bind]; [|discriminate].
    destruct (cdiv V (Z.min (next_power_of_2 V) 8)) as [NV|e]; cbn [bind];
      [|discriminate].
    destruct (NK =? 1) eqn:E1; cbn [py_assert bind]; [|discriminate].
    intros _. apply Z.eqb_eq in E1. subst NK.
    exists B, T, H, K. split; [reflexivity|exact EK].
  - intros r. unfold fused_recurrent_delta_rule_bwd.
    destruct (shape_last (shape v)) as [V|e]; cbn [bind]; [|discriminate].
    destruct (shape k) as [|B [|T [|H [|K [|x s]]]]]; cbn [unpack4 bind];
      try discriminate.
    unfold bwd_with_blocks.
    destruct (cdiv K (next_power_of_2 K)) as [NK|e] eqn:EK; cbn [bind]; [|discriminate].
    destruct (cdiv V (Z.min (next_power_of_2 V) 32)) as [NV|e]; cbn [bind];
      [|discriminate].
    destruct (NK =? 1) eqn:E1; cbn [py_assert bind]; [|discriminate].
    intros _. apply Z.eqb_eq in E1. subst NK.
    exists B, T, H, K. split; [reflexivity|exact EK].
Qed.

Lemma C8_witness :
  fwd_with_blocks (plain_runtime 0) 1 1
    (full [1; 1; 1; 2] 1) (full [1; 1; 1; 2] 1) (full [1; 1; 1; 1] 1)
    (full [1; 1; 1] 1) 1 None false None 1 1 1 2 1 1
    = Raise (AssertionError "NK > 1 is not supported yet") /\
  bwd_with_blocks (plain_runtime 0) 1 1
    (full [1; 1; 1; 2] 1) (full [1; 1; 1; 2] 1) (full [1; 1; 1; 1] 1)
    (full [1; 1; 1] 1) None (full [1; 1; 1; 1] 1) 1 None None 1 1 1 2 1 1
    = Raise (AssertionError "NK > 1 is not supported yet").
Proof.
  apply (proj1 (C8_single_key_block Z ArithZ (plain_runtime 0)
                  (full [1; 1; 1; 2] 1) (full [1; 1; 1; 2] 1) (full [1; 1; 1; 1] 1)
                  (full [1; 1; 1] 1) None (full [1; 1; 1; 1] 1) 1 None false None)
           1 1 1 1 1 2 1 1 2 1 eq_refl eq_refl).
  discriminate.
Defined.

(** * The checks of the entry point *)

(** C4, as the code has it.  With [cu_seqlens] given, a call whose queries do
    not come in a batch of one, or whose initial states are not as many as the
    sequences, raises a [ValueError] that depends on nothing else: neither on
    the other tensors nor on the runtime, so nothing has been computed. *)
Theorem C4_varlen_batch_checks :
  forall (R : Type) (A : Arith R) (q : tensor R)
         (initial_state : option (tensor R)) (cu : list Z) (b : Z) (rest : list Z),
    shape q = b :: rest ->
    b <> 1 \/
    (exists h0 n rest', initial_state = Some h0 /\ shape h0 = n :: rest' /\
                        n <> len cu - 1) ->
    exists msg,
      forall (rt : runtime R) l2norm_fwd (k v : tensor R)
             (beta : option (tensor R)) (scale : option R)
             (output_final_state use_qk_l2norm_in_kernel : bool),
        fused_recurrent_delta_rule rt l2norm_fwd q k v beta scale
          initial_state output_final_state use_qk_l2norm_in_kernel (Some cu)
        = Raise (ValueError msg).
Proof.
  intros R A q init cu b rest Sq Hbad.
  destruct (Z.eqb_spec b 1) as [Hb|Hb].
  - destruct Hbad as [Hbad|(h0 & n & rest' & -> & Sh & Hn)]; [contradiction|].
    eexists. intros rt l2f k v beta scale ofs l2.
    unfold fused_recurrent_delta_rule. rewrite Sq. cbn [shape_first bind].
    rewrite (proj2 (Z.eqb_eq b 1) Hb). cbn [negb]. rewrite Sh. cbn [shape_first bind].
    rewrite (proj2 (Z.eqb_neq n (len cu - 1)) Hn). reflexivity.
  - eexists. intros rt l2f k v beta scale ofs l2.
    unfold fused_recurrent_delta_rule. rewrite Sq. cbn [shape_first bind].
    rewrite (proj2 (Z.eqb_neq b 1) Hb). reflexivity.
Qed.

Lemma C4_witness :
  exists msg,
    fused_recurrent_delta_rule (plain_runtime 0) (fun t => (t, t))
      (full [2; 3; 1; 1] 1) (full [2; 3; 1; 1] 1) (full [2; 3; 1; 1] 1)
      None None None false false (Some [0; 3])
    = Raise (ValueError msg).
Proof.
  assert (Hb : 2 <> 1) by discriminate.
  destruct (C4_varlen_batch_checks Z ArithZ (full [2; 3; 1; 1] 1) None [0; 3]
              2 [3; 1; 1] eq_refl (or_introl Hb))
    as (msg & Hmsg).
  exists msg. apply Hmsg.
Defined.

(** C4, as stated, fails: with [cu_seqlens] given and queries in a batch of
    one, betas whose leading dimension is 2 are accepted, and so are keys and
    values whose leading dimension is 2. *)
Lemma C4_counterexample :
  (exists r,
     fused_recurrent_delta_rule (plain_runtime 0) (fun t => (t, t))
       (full [1; 3; 1; 1] 1) (full [1; 3; 1; 1] 1) (full [1; 3; 1; 1] 1)
       (Some (full [2; 3; 1] 1)) (Some 1) None false false (Some [0; 3])
     = Ok r) /\
  (exists r,
     fused_recurrent_delta_rule (plain_runtime 0) (fun t => (t, t))
       (full [1; 3; 1; 1] 1) (full [2; 3; 1; 1] 1) (full [2; 3; 1; 1] 1)
       (Some (full [1; 3; 1] 1)) (Some 1) None false false (Some [0; 3])
     = Ok r).
Proof.
  split; eexists; reflexivity.
Qed.

(** C5, as the code has it.  A call that supplies a scale that is not
    positive raises an error that depends on nothing but the queries, the
    initial state, [cu_seqlens] and the scale, so before anything is computed.
    The error is the assertion error "scale must be positive" with sequences
    of fixed length, and with packed sequences whenever the two checks of the
    batch pass: the queries come in a batch of one, and the initial states,
    if there are any, are as many as the sequences. *)
Theorem C5_nonpositive_scale_rejected :
  forall (R : Type) (A : Arith R) (q : tensor R)
         (initial_state : option (tensor R)) (cu_seqlens : option (list Z))
         (scale : R),
    gt0 scale = false ->
    exists e,
      (match cu_seqlens with
       | None => True
       | Some cu =>
           (exists rest, shape q = 1 :: rest) /\
           (forall h0, initial_state = Some h0 ->
              exists rest', shape h0 = (len cu - 1) :: rest')
       end -> e = AssertionError "scale must be positive") /\
      forall (rt : runtime R) l2norm_fwd (k v : tensor R)
             (beta : option (tensor R))
             (output_final_state use_qk_l2norm_in_kernel : bool),
        fused_recurrent_delta_rule rt l2norm_fwd q k v beta (Some scale)
          initial_state output_final_state use_qk_l2norm_in_kernel cu_seqlens
        = Raise e.
Proof.
  intros R A q init cu scale Hs.
  unfold fused_recurrent_delta_rule.
  destruct cu as [cu|].
  - destruct (shape_first (shape q)) as [b|e] eqn:Eq; cbn [bind].
    + destruct (Z.eqb_spec b 1) as [Hb|Hb]; cbn [negb].
      * destruct init as [h0|].
        -- destruct (shape_first (shape h0)) as [n|e] eqn:Eh; cbn [bind].
           ++ destruct (Z.eqb_spec n (len cu - 1)) as [Hn|Hn]; cbn [negb].
              ** rewrite Hs. eexists. split; [reflexivity|]. intros. reflexivity.
              ** eexists. split; [|intros; reflexivity].
                 intros [_ Hst]. destruct (Hst h0 eq_refl) as (rest' & Sh).
                 rewrite Sh in Eh. cbn [shape_first] in Eh. congruence.
           ++ eexists. split; [|intros; reflexivity].
              intros [_ Hst]. destruct (Hst h0 eq_refl) as (rest' & Sh).
              rewrite Sh in Eh. discriminate Eh.
        -- rewrite Hs. eexists. split; [reflexivity|]. intros. reflexivity.
      * eexists. split; [|intros; reflexivity].
        intros [(rest & Sq) _]. rewrite Sq in Eq. cbn [shape_first] in Eq.
        congruence.
    + eexists. split; [|intros; reflexivity].
      intros [(rest & Sq) _]. rewrite Sq in Eq. discriminate Eq.
  - rewrite Hs. eexists. split; [reflexivity|]. intros. reflexivity.
Qed.

Lemma C5_witness :
  fused_recurrent_delta_rule (plain_runtime 0) (fun t => (t, t))
    (full [1; 3; 1; 1] 1) (full [1; 3; 1; 1] 1) (full [1; 3; 1; 1] 1)
    None (Some 0) (Some (full [2; 1; 1; 1] 0)) false false (Some [0; 1; 3])
  = Raise (AssertionError "scale must be positive").
Proof.
  destruct (C5_nonpositive_scale_rejected Z ArithZ (full [1; 3; 1; 1] 1)
              (Some (full [2; 1; 1; 1] 0)) (Some [0; 1; 3]) 0 eq_refl)
    as (e & He & Hall).
  rewrite <- He.
  - apply Hall.
  - split.
    + exists [3; 1; 1]. reflexivity.
    + intros h0 Eh. injection Eh as <-. exists [1; 1; 1]. reflexivity.
Defined.

(** C5, as stated, fails for the boundary array: offsets that do not start at
    0, that decrease, or that stop short of the [T] tokens are all accepted. *)
Lemma C5_counterexample :
  (exists r,
     fused_recurrent_delta_rule (plain_runtime 0) (fun t => (t, t))
       (full [1; 3; 1; 1] 1) (full [1; 3; 1; 1] 1) (full [1; 3; 1; 1] 1)
       None (Some 1) None false false (Some [1; 3])
     = Ok r) /\
  (exists r,
     fused_recurrent_delta_rule (plain_runtime 0) (fun t => (t, t))
       (full [1; 3; 1; 1] 1) (full [1; 3; 1; 1] 1) (full [1; 3; 1; 1] 1)
       None (Some 1) None false false (Some [0; 2; 1; 3])
     = Ok r) /\
  (exists r,
     fused_recurrent_delta_rule (plain_runtime 0) (fun t => (t, t))
       (full [1; 3; 1; 1] 1) (full [1; 3; 1; 1] 1) (full [1; 3; 1; 1] 1)
       None (Some 1) None false false (Some [0; 2])
     = Ok r).
Proof.
  split; [|split]; eexists; reflexivity.
Qed.

(** * Further properties of the launchers *)

(** The forward launcher writes nothing outside the sequences: an entry of
    the outputs or of the residuals that belongs to no timestep of any
    sequence holds what the fresh buffer held. *)
Theorem forward_leaves_other_entries :
  forall (R : Type) (A : Arith R) (rt : runtime R)
         (q k v beta : tensor R) (scale : R) (initial_state : option (tensor R))
         (output_final_state : bool) (cu_seqlens : option (list Z))
         (B T H K V a : Z),
    fair rt ->
    shape k = [B; T; H; K] -> shape v = [B; T; H; V] ->
    1 <= H -> 1 <= K -> 1 <= V ->
    (forall n h t j,
       0 <= n < nseq cu_seqlens B -> 0 <= h < H ->
       0 <= t < seq_len cu_seqlens T n -> 0 <= j < V ->
       a <> ((seq_bos cu_seqlens T n + t) * H + h) * V + j) ->
    exists o u fs,
      fused_recurrent_delta_rule_fwd rt q k v beta scale initial_state
        output_final_state cu_seqlens = Ok (o, u, fs) /\
      data o a = junk rt 0 a /\ data u a = junk rt 2 a.
Proof.
  intros R A rt q k v beta scale init ofs cu B T H K V a
    Hf Sk Sv HH HK HV Ha.
  destruct (fwd_unfold rt q k v beta scale init ofs cu B T H K V Sk Sv HK HV)
    as (NV & ENV & HNV & Hcov & E).
  cbv zeta in E. rewrite E. clear E.
  pose proof (fwd_BV_pos V HV) as HBV.
  do 3 eexists. split; [reflexivity|]. cbn [data].
  assert (Hfr : forall p' s',
    In p' (grid_programs (NV, 1, nseq cu B * H)) ->
    fb_o (fused_recurrent_delta_rule_fwd_kernel (data q) (data k) (data v)
            (data beta) (option_map data init) cu scale T B H K V
            (next_power_of_2 K) (fwd_BV V) (Nat.eqb (ndim beta) (ndim v)) p' s') a
      = fb_o s' a /\
    fb_u (fused_recurrent_delta_rule_fwd_kernel (data q) (data k) (data v)
            (data beta) (option_map data init) cu scale T B H K V
            (next_power_of_2 K) (fwd_BV V) (Nat.eqb (ndim beta) (ndim v)) p' s') a
      = fb_u s' a).
  { intros [[i_v i_k] i_nh] s' Hp. apply In_grid_programs in Hp.
    cbn [fst snd] in Hp. destruct Hp as (Hiv & Hik & Hinh).
    assert (i_k = 0) by lia. subst i_k.
    destruct (fwd_program_frame (data q) (data k) (data v) (data beta)
                (fun _ => zero) (option_map data init) None cu scale T B H K V
                (next_power_of_2 K) (fwd_BV V) (Nat.eqb (ndim beta) (ndim v))
                i_v i_nh HH ltac:(lia) ltac:(lia) ltac:(lia) s' a) as [Fu Fo].
    - intros t j Ht [Hj HjV].
      unfold prog_head, head_of in Ht. cbn [hd_T] in Ht.
      unfold prog_bos.
      pose proof (Z.div_mod i_nh H ltac:(lia)).
      pose proof (Z.mod_pos_bound i_nh H ltac:(lia)).
      assert (Hn : 0 <= i_nh / H < nseq cu B).
      { split; [apply Z.div_pos; lia|].
        apply Z.div_lt_upper_bound; lia. }
      assert (Hj0 : 0 <= j < V) by nia.
      apply (Ha (i_nh / H) (i_nh mod H) (Z.of_nat t) j Hn); try assumption; lia.
    - split; [exact Fo|exact Fu]. }
  match goal with |- context [launch rt ?g ?ker ?s0] => set (bufs0 := s0) end.
  split.
  - change (junk rt 0 a) with (fb_o bufs0 a).
    apply (launch_frame rt _ _ (fun s => fb_o s a) bufs0 Hf).
    intros p' s' Hp. exact (proj1 (Hfr p' s' Hp)).
  - change (junk rt 2 a) with (fb_u bufs0 a).
    apply (launch_frame rt _ _ (fun s => fb_u s a) bufs0 Hf).
    intros p' s' Hp. exact (proj2 (Hfr p' s' Hp)).
Qed.

Lemma forward_leaves_other_entries_witness :
  exists o u fs,
    fused_recurrent_delta_rule_fwd (plain_runtime 7)
      (full [1; 3; 1; 1] 1) (full [1; 3; 1; 1] 1) (full [1; 3; 1; 1] 1)
      (full [1; 3; 1] 1) 1 None false (Some [1; 3]) = Ok (o, u, fs) /\
    data o 0 = 7 /\ data u 0 = 7.
Proof.
  apply (forward_leaves_other_entries Z ArithZ (plain_runtime 7)
           (full [1; 3; 1; 1] 1) (full [1; 3; 1; 1] 1) (full [1; 3; 1; 1] 1)
           (full [1; 3; 1] 1) 1 None false (Some [1; 3]) 1 3 1 1 1 0
           (plain_runtime_fair 7) eq_refl eq_refl
           ltac:(lia) ltac:(lia) ltac:(lia)).
  intros n h t j Hn Hh Ht Hj. cbn in Hn.
  assert (n = 0) by lia. subst n.
  change (seq_len (Some [1; 3]) 3 0) with 2 in Ht.
  change (seq_bos (Some [1; 3]) 3 0) with 1. lia.
Defined.

(** With no key feature or no value feature the block size is 0 and both
    launchers stop on the division by it. *)
Theorem launchers_reject_empty_features :
  forall (R : Type) (A : Arith R) (rt : runtime R)
         (q k v beta : tensor R) (dht : option (tensor R)) (do : tensor R)
         (scale : R) (initial_state : option (tensor R))
         (output_final_state : bool) (cu_seqlens : option (list Z))
         (B T H K V : Z),
    shape k = [B; T; H; K] -> shape_last (shape v) = Ok V ->
    0 <= K -> 0 <= V -> K = 0 \/ V = 0 ->
    fused_recurrent_delta_rule_fwd rt q k v beta scale initial_state
      output_final_state cu_seqlens = Raise ZeroDivisionError /\
    fused_recurrent_delta_rule_bwd rt q k v beta dht do scale initial_state
      cu_seqlens = Raise ZeroDivisionError.
Proof.
  intros R A rt q k v beta dht do scale init ofs cu B T H K V Sk Sv HK HV Hz.
  unfold fused_recurrent_delta_rule_fwd, fused_recurrent_delta_rule_bwd,
    fwd_with_blocks, bwd_with_blocks.
  rewrite Sk, Sv. cbn [unpack4 bind].
  destruct (Z.eq_dec K 0) as [->|HK0].
  - split; reflexivity.
  - destruct Hz as [Hz|Hz]; [contradiction|]. subst V.
    rewrite (cdiv_one K (next_power_of_2 K))
      by (pose proof (next_power_of_2_ge K ltac:(lia)); lia).
    split; reflexivity.
Qed.

Lemma launchers_reject_empty_features_witness :
  fused_recurrent_delta_rule_fwd (plain_runtime 0)
    (full [1; 2; 1; 3] 1) (full [1; 2; 1; 3] 1) (full [1; 2; 1; 0] 1)
    (full [1; 2; 1] 1) 1 None false None = Raise ZeroDivisionError /\
  fused_recurrent_delta_rule_bwd (plain_runtime 0)
    (full [1; 2; 1; 3] 1) (full [1; 2; 1; 3] 1) (full [1; 2; 1; 0] 1)
    (full [1; 2; 1] 1) None (full [1; 2; 1; 0] 1) 1 None None
    = Raise ZeroDivisionError.
Proof.
  apply (launchers_reject_empty_features Z ArithZ (plain_runtime 0)
           (full [1; 2; 1; 3] 1) (full [1; 2; 1; 3] 1) (full [1; 2; 1; 0] 1)
           (full [1; 2; 1] 1) None (full [1; 2; 1; 0] 1) 1 None false None
           1 2 1 3 0 eq_refl eq_refl); [lia|lia|right; reflexivity].
Defined.

(** The launchers take the block of key features at least as large as [K],
    so the assertion on the number of [K] blocks never fails: whatever the
    shapes, as long as no dimension of the keys is negative, neither
    launcher raises an assertion error. *)
Theorem key_block_assertion_never_fires :
  forall (R : Type) (A : Arith R) (rt : runtime R)
         (q k v beta : tensor R) (dht : option (tensor R)) (do : tensor R)
         (scale : R) (initial_state : option (tensor R))
         (output_final_state : bool) (cu_seqlens : option (list Z)) (msg : string),
    Forall (fun d => 0 <= d) (shape k) ->
    fused_recurrent_delta_rule_fwd rt q k v beta scale initial_state
      output_final_state cu_seqlens <> Raise (AssertionError msg) /\
    fused_recurrent_delta_rule_bwd rt q k v beta dht do scale initial_state
      cu_seqlens <> Raise (AssertionError msg).
Proof.
  intros R A rt q k v beta dht do scale init ofs cu msg Hpos.
  unfold fused_recurrent_delta_rule_fwd, fused_recurrent_delta_rule_bwd,
    fwd_with_blocks, bwd_with_blocks.
  destruct (shape_last (shape v)) as [V|e] eqn:EV; cbn [bind].
  2: { unfold shape_last in EV. destruct (rev (shape v)); inversion EV.
       split; discriminate. }
  destruct (shape k) as [|B [|T [|H [|K [|x s]]]]]; cbn [unpack4 bind];
    try (split; discriminate).
  assert (HK : 0 <= K).
  { apply (proj1 (Forall_forall _ _) Hpos). cbn. auto. }
  destruct (Z.eq_dec K 0) as [->|HK0].
  - split; discriminate.
  - rewrite (cdiv_one K (next_power_of_2 K))
      by (pose proof (next_power_of_2_ge K ltac:(lia)); lia).
    cbn [bind]. unfold cdiv.
    destruct (Z.min (next_power_of_2 V) 8 =? 0);
      destruct (Z.min (next_power_of_2 V) 32 =? 0);
      cbn [bind py_assert Z.eqb Pos.eqb]; (split; [discriminate|]);
      try discriminate;
      unfold fused_recurrent_delta_rule_bwd_kernel;
      (destruct init as [h0|]; [destruct (requires_grad h0)|]);
      cbn [option_map bind]; discriminate.
Qed.

Lemma key_block_assertion_never_fires_witness :
  fused_recurrent_delta_rule_fwd (plain_runtime 0)
    (full [1; 1; 1; 1000] 1) (full [1; 1; 1; 1000] 1) (full [1; 1; 1; 1] 1)
    (full [1; 1; 1] 1) 1 None false None
  <> Raise (AssertionError "NK > 1 is not supported yet").
Proof.
  apply (key_block_assertion_never_fires Z ArithZ (plain_runtime 0)
           (full [1; 1; 1; 1000] 1) (full [1; 1; 1; 1000] 1) (full [1; 1; 1; 1] 1)
           (full [1; 1; 1] 1) None (full [1; 1; 1; 1] 1) 1 None false None
           "NK > 1 is not supported yet").
  cbn [shape full]. repeat constructor; lia.
Defined.

(** The blocks of value features: the forward launcher takes at most 8
    features per block and the backward one at most 32, and in both the grid
    has just enough blocks to cover the [V] features. *)
Theorem value_blocks_cover :
  forall V : Z,
    1 <= V ->
    exists NV NV',
      cdiv V (fwd_BV V) = Ok NV /\ cdiv V (bwd_BV V) = Ok NV' /\
      1 <= fwd_BV V <= 8 /\ 1 <= bwd_BV V <= 32 /\
      (NV - 1) * fwd_BV V < V <= NV * fwd_BV V /\
      (NV' - 1) * bwd_BV V < V <= NV' * bwd_BV V.
Proof.
  intros V HV.
  pose proof (fwd_BV_pos V HV) as HF. pose proof (bwd_BV_pos V HV) as HB.
  assert (HF8 : fwd_BV V <= 8) by (unfold fwd_BV; lia).
  assert (HB32 : bwd_BV V <= 32) by (unfold bwd_BV; lia).
  unfold cdiv.
  destruct (Z.eqb_spec (fwd_BV V) 0) as [E|_]; [lia|].
  destruct (Z.eqb_spec (bwd_BV V) 0) as [E|_]; [lia|].
  do 2 eexists. split; [reflexivity|]. split; [reflexivity|].
  split; [lia|]. split; [lia|].
  pose proof (Z.div_mod (V + fwd_BV V - 1) (fwd_BV V) ltac:(lia)).
  pose proof (Z.mod_pos_bound (V + fwd_BV V - 1) (fwd_BV V) ltac:(lia)).
  pose proof (Z.div_mod (V + bwd_BV V - 1) (bwd_BV V) ltac:(lia)).
  pose proof (Z.mod_pos_bound (V + bwd_BV V - 1) (bwd_BV V) ltac:(lia)).
  split; nia.
Qed.

Lemma value_blocks_cover_witness :
  exists NV NV',
    cdiv 33 (fwd_BV 33) = Ok NV /\ cdiv 33 (bwd_BV 33) = Ok NV' /\
    1 <= fwd_BV 33 <= 8 /\ 1 <= bwd_BV 33 <= 32 /\
    (NV - 1) * fwd_BV 33 < 33 <= NV * fwd_BV 33 /\
    (NV' - 1) * bwd_BV 33 < 33 <= NV' * bwd_BV 33.
Proof.
  apply (value_blocks_cover 33). lia.
Defined.

(** When the initial state, if there is one, requires a gradient, the
    gradients the backward launcher returns have the shapes of the tensors
    they are gradients of; the gradient of beta has one entry per timestep
    and head for a scalar beta, and one per value feature besides for a
    vector beta. *)
Theorem backward_shapes :
  forall (R : Type) (A : Arith R) (rt : runtime R)
         (q k v beta : tensor R) (dht : option (tensor R)) (do : tensor R)
         (scale : R) (initial_state : option (tensor R))
         (cu_seqlens : option (list Z)) (B T H K V : Z),
    shape k = [B; T; H; K] -> shape v = [B; T; H; V] -> 1 <= K -> 1 <= V ->
    state_grad_ok initial_state = true ->
    exists dq dk dv db dh0,
      fused_recurrent_delta_rule_bwd rt q k v beta dht do scale initial_state
        cu_seqlens = Ok (dq, dk, dv, db, dh0) /\
      shape dq = shape q /\ shape dk = shape k /\ shape dv = shape v /\
      shape db = (if Nat.eqb (ndim beta) (ndim v) then [B; T; H; V] else [B; T; H]).
Proof.
  intros R A rt q k v beta dht do scale init cu B T H K V Sk Sv HK HV Hg.
  exact (bwd_returns_shapes rt q k v beta dht do scale init cu B T H K V
           Sk Sv HK HV Hg).
Qed.

Lemma backward_shapes_witness :
  exists dq dk dv db dh0,
    fused_recurrent_delta_rule_bwd (plain_runtime 0)
      (full [2; 3; 1; 2] 1) (full [2; 3; 1; 2] 1) (full [2; 3; 1; 40] 1)
      (full [2; 3; 1; 40] 1) None (full [2; 3; 1; 40] 1) 1
      (Some {| shape := [2; 1; 2; 40]; data := fun _ => 0;
               requires_grad := true |}) None
    = Ok (dq, dk, dv, db, dh0) /\
    shape dq = [2; 3; 1; 2] /\ shape dk = [2; 3; 1; 2] /\
    shape dv = [2; 3; 1; 40] /\ shape db = [2; 3; 1; 40].
Proof.
  apply (backward_shapes Z ArithZ (plain_runtime 0)
           (full [2; 3; 1; 2] 1) (full [2; 3; 1; 2] 1) (full [2; 3; 1; 40] 1)
           (full [2; 3; 1; 40] 1) None (full [2; 3; 1; 40] 1) 1
           (Some {| shape := [2; 1; 2; 40]; data := fun _ => 0;
                    requires_grad := true |}) None
           2 3 1 2 40 eq_refl eq_refl ltac:(lia) ltac:(lia) eq_refl).
Defined.

(** * Further properties of the forward pass *)

(** A packed batch that holds a single sequence is a batch of one sequence:
    with [cu_seqlens = [0, T]] the forward launcher returns what it returns
    without [cu_seqlens]. *)
Theorem varlen_single_sequence_as_fixed_length :
  forall (R : Type) (A : Arith R) (L : ArithLaws R) (rt rt' : runtime R)
         (q k v beta : tensor R) (scale : R) (initial_state : option (tensor R))
         (output_final_state : bool) (T H K V : Z),
    fair rt -> fair rt' ->
    shape k = [1; T; H; K] -> shape v = [1; T; H; V] ->
    0 <= T -> 1 <= H -> 1 <= K -> 1 <= V ->
    exists o u fs o' u' fs',
      fused_recurrent_delta_rule_fwd rt q k v beta scale initial_state
        output_final_state None = Ok (o, u, fs) /\
      fused_recurrent_delta_rule_fwd rt' q k v beta scale initial_state
        output_final_state (Some [0; T]) = Ok (o', u', fs') /\
      (forall h t j,
         0 <= h < H -> 0 <= t < T -> 0 <= j < V ->
         data o' ((t * H + h) * V + j) = data o ((t * H + h) * V + j) /\
         data u' ((t * H + h) * V + j) = data u ((t * H + h) * V + j)) /\
      match fs, fs' with
      | Some f, Some f' =>
          shape f' = shape f /\
          forall h i j,
            0 <= h < H -> 0 <= i < K -> 0 <= j < V ->
            data f' (h * K * V + i * V + j) = data f (h * K * V + i * V + j)
      | None, None => output_final_state = false
      | _, _ => False
      end.
Proof.
  intros R A L rt rt' q k v beta scale init ofs T H K V
    Hf Hf' Sk Sv HT HH HK HV.
  assert (Hcu : cu_ok (Some [0; T]) T).
  { split; intros n Hn; unfold len in Hn; cbn in Hn.
    - assert (n = 0) by lia. subst n.
      change (Z.to_nat (0 + 1)) with 1%nat. change (Z.to_nat 0) with 0%nat.
      cbn [nth]. lia.
    - assert (Hc : n = 0 \/ n = 1) by lia.
      destruct Hc; subst n;
        [change (Z.to_nat 0) with 0%nat|change (Z.to_nat 1) with 1%nat];
        cbn [nth]; lia. }
  destruct (fwd_spec rt q k v beta scale init ofs None 1 T H K V
              Hf Sk Sv HH HK HV I)
    as (o & u & fs & E & _ & _ & Hrows & Hfs).
  destruct (fwd_spec rt' q k v beta scale init ofs (Some [0; T]) 1 T H K V
              Hf' Sk Sv HH HK HV Hcu)
    as (o' & u' & fs' & E' & _ & _ & Hrows' & Hfs').
  assert (Hd : forall h,
    fwd_head q k v beta scale init (Some [0; T]) T H K V 0 h
    = fwd_head q k v beta scale init None T H K V 0 h).
  { intros h. unfold fwd_head, head_of, seq_bos, seq_len.
    change (nth (Z.to_nat (0 + 1)) [0; T] 0) with T.
    change (nth (Z.to_nat 0) [0; T] 0) with 0.
    rewrite Z.sub_0_r. reflexivity. }
  assert (HN : nseq (Some [0; T]) 1 = 1) by reflexivity.
  assert (HLen : seq_len (Some [0; T]) T 0 = T)
    by (unfold seq_len; change (nth (Z.to_nat (0 + 1)) [0; T] 0) with T;
        change (nth (Z.to_nat 0) [0; T] 0) with 0; lia).
  exists o, u, fs, o', u', fs'.
  split; [exact E|]. split; [exact E'|]. split.
  - intros h t j Hh Ht Hj.
    destruct (Hrows 0 h t j ltac:(cbn; lia) Hh Ht Hj) as [U O].
    destruct (Hrows' 0 h t j ltac:(rewrite HN; lia) Hh
                ltac:(rewrite HLen; exact Ht) Hj) as [U' O'].
    change (seq_bos None T 0) with (0 * T) in U, O.
    change (seq_bos (Some [0; T]) T 0) with 0 in U', O'.
    rewrite Hd in U', O'.
    replace ((0 * T + t) * H + h) with (t * H + h) in U, O by lia.
    replace ((0 + t) * H + h) with (t * H + h) in U', O' by lia.
    split; congruence.
  - destruct fs as [f|], fs' as [f'|].
    + destruct Hfs as (_ & Sf & Hf0). destruct Hfs' as (_ & Sf' & Hf0').
      split; [rewrite Sf, Sf'; reflexivity|].
      intros h i j Hh Hi Hj.
      pose proof (Hf0 0 h i j ltac:(cbn; lia) Hh Hi Hj) as F.
      pose proof (Hf0' 0 h i j ltac:(rewrite HN; lia) Hh Hi Hj) as F'.
      rewrite Hd, HLen in F'. change (seq_len None T 0) with T in F.
      replace ((0 * H + h) * K * V) with (h * K * V) in F, F' by lia.
      congruence.
    + destruct Hfs as (Et & _). congruence.
    + destruct Hfs' as (Et & _). congruence.
    + exact Hfs.
Qed.

Lemma varlen_single_sequence_as_fixed_length_witness :
  exists o u fs o' u' fs',
    fused_recurrent_delta_rule_fwd (plain_runtime 0)
      (of_list [1; 2; 1; 1] [1; 2]) (of_list [1; 2; 1; 1] [1; 3])
      (of_list [1; 2; 1; 1] [4; 5]) (of_list [1; 2; 1] [1; 2]) 1 None false None
      = Ok (o, u, fs) /\
    fused_recurrent_delta_rule_fwd (plain_runtime 3)
      (of_list [1; 2; 1; 1] [1; 2]) (of_list [1; 2; 1; 1] [1; 3])
      (of_list [1; 2; 1; 1] [4; 5]) (of_list [1; 2; 1] [1; 2]) 1 None false
      (Some [0; 2]) = Ok (o', u', fs') /\
    data o' 1 = data o 1 /\ data u' 1 = data u 1.
Proof.
  destruct (varlen_single_sequence_as_fixed_length Z ArithZ ArithLawsZ
              (plain_runtime 0) (plain_runtime 3)
              (of_list [1; 2; 1; 1] [1; 2]) (of_list [1; 2; 1; 1] [1; 3])
              (of_list [1; 2; 1; 1] [4; 5]) (of_list [1; 2; 1] [1; 2]) 1 None false
              2 1 1 1 (plain_runtime_fair 0) (plain_runtime_fair 3)
              eq_refl eq_refl ltac:(lia) ltac:(lia) ltac:(lia) ltac:(lia))
    as (o & u & fs & o' & u' & fs' & E & E' & Hin & _).
  exists o, u, fs, o', u', fs'. split; [exact E|]. split; [exact E'|].
  exact (Hin 0 1 0 ltac:(lia) ltac:(lia) ltac:(lia)).
Defined.



(** The residuals and the final state do not depend on the queries or on the
    scale, which only enter the outputs.  No law of the arithmetic is used. *)
Theorem residuals_ignore_queries :
  forall (R : Type) (A : Arith R) (rt rt' : runtime R)
         (q q' k v beta : tensor R) (scale scale' : R)
         (initial_state : option (tensor R)) (output_final_state : bool)
         (cu_seqlens : option (list Z)) (B T H K V : Z),
    fair rt -> fair rt' ->
    shape k = [B; T; H; K] -> shape v = [B; T; H; V] ->
    1 <= H -> 1 <= K -> 1 <= V -> cu_ok cu_seqlens T ->
    exists o u fs o' u' fs',
      fused_recurrent_delta_rule_fwd rt q k v beta scale initial_state
        output_final_state cu_seqlens = Ok (o, u, fs) /\
      fused_recurrent_delta_rule_fwd rt' q' k v beta scale' initial_state
        output_final_state cu_seqlens = Ok (o', u', fs') /\
      (forall n h t j,
         0 <= n < nseq cu_seqlens B -> 0 <= h < H ->
         0 <= t < seq_len cu_seqlens T n -> 0 <= j < V ->
         data u' (((seq_bos cu_seqlens T n + t) * H + h) * V + j)
           = data u (((seq_bos cu_seqlens T n + t) * H + h) * V + j)) /\
      match fs, fs' with
      | Some f, Some f' =>
          forall n h i j,
            0 <= n < nseq cu_seqlens B -> 0 <= h < H -> 0 <= i < K -> 0 <= j < V ->
            data f' ((n * H + h) * K * V + i * V + j)
              = data f ((n * H + h) * K * V + i * V + j)
      | None, None => output_final_state = false
      | _, _ => False
      end.
Proof.
  intros R A rt rt' q q' k v beta scale scale' init ofs cu B T H K V
    Hf Hf' Sk Sv HH HK HV Hcu.
  destruct (fwd_values q k v beta scale init ofs cu B T H K V Sk Sv HH HK HV Hcu rt Hf)
    as (o & u & fs & E & _ & _ & Hrows & Hfs).
  destruct (fwd_values q' k v beta scale' init ofs cu B T H K V Sk Sv HH HK HV Hcu
              rt' Hf')
    as (o' & u' & fs' & E' & _ & _ & Hrows' & Hfs').
  exists o, u, fs, o', u', fs'.
  split; [exact E|]. split; [exact E'|]. split.
  - intros n h t j Hn Hh Ht Hj.
    rewrite (proj1 (Hrows n h t j Hn Hh Ht Hj)), (proj1 (Hrows' n h t j Hn Hh Ht Hj)).
    apply blk_u_queries; reflexivity.
  - destruct fs as [f|], fs' as [f'|].
    + destruct Hfs as (_ & _ & Hf0). destruct Hfs' as (_ & _ & Hf0').
      intros n h i j Hn Hh Hi Hj.
      rewrite (Hf0 n h i j Hn Hh Hi Hj), (Hf0' n h i j Hn Hh Hi Hj).
      apply blk_h_queries; reflexivity.
    + destruct Hfs as (Et & _). congruence.
    + destruct Hfs' as (Et & _). congruence.
    + exact Hfs.
Qed.

Lemma residuals_ignore_queries_witness :
  exists o u fs o' u' fs',
    fused_recurrent_delta_rule_fwd (plain_runtime 0)
      (of_list [1; 2; 1; 1] [1; 2]) (of_list [1; 2; 1; 1] [1; 3])
      (of_list [1; 2; 1; 1] [4; 5]) (of_list [1; 2; 1] [1; 2]) 1 None false None
      = Ok (o, u, fs) /\
    fused_recurrent_delta_rule_fwd (plain_runtime 0)
      (of_list [1; 2; 1; 1] [8; 9]) (of_list [1; 2; 1; 1] [1; 3])
      (of_list [1; 2; 1; 1] [4; 5]) (of_list [1; 2; 1] [1; 2]) 5 None false None
      = Ok (o', u', fs') /\
    data u' 1 = data u 1.
Proof.
  destruct (residuals_ignore_queries Z ArithZ (plain_runtime 0) (plain_runtime 0)
              (of_list [1; 2; 1; 1] [1; 2]) (of_list [1; 2; 1; 1] [8; 9])
              (of_list [1; 2; 1; 1] [1; 3]) (of_list [1; 2; 1; 1] [4; 5])
              (of_list [1; 2; 1] [1; 2]) 1 5 None false None 1 2 1 1 1
              (plain_runtime_fair 0) (plain_runtime_fair 0) eq_refl eq_refl
              ltac:(lia) ltac:(lia) ltac:(lia) I)
    as (o & u & fs & o' & u' & fs' & E & E' & Hin & _).
  exists o, u, fs, o', u', fs'. split; [exact E|]. split; [exact E'|].
  exact (Hin 0 0 1 0 ltac:(cbn; lia) ltac:(lia) ltac:(cbn; lia) ltac:(lia)).
Defined.

(** * Further properties of the backward pass *)

(** A zero gradient of the outputs, with no gradient of the final state,
    gives zero gradients: of the queries, keys and values, of a scalar beta
    and of the initial state, which has to require a gradient if there is
    one. *)
Theorem backward_zero_gradient :
  forall (R : Type) (A : Arith R) (L : ArithLaws R) (rt : runtime R)
         (q k u beta do : tensor R) (scale : R) (initial_state : option (tensor R))
         (cu_seqlens : option (list Z)) (B T H K V : Z),
    fair rt ->
    shape q = [B; T; H; K] -> shape k = [B; T; H; K] -> shape u = [B; T; H; V] ->
    0 <= T -> 1 <= H -> 1 <= K -> 1 <= V ->
    cu_ok cu_seqlens T -> batch_ok cu_seqlens B ->
    state_grad_ok initial_state = true ->
    (forall a, data do a = zero) ->
    let bos := seq_bos cu_seqlens T in
    exists dq dk dv db dh0,
      fused_recurrent_delta_rule_bwd rt q k u beta None do scale initial_state
        cu_seqlens = Ok (dq, dk, dv, db, dh0) /\
      (forall n h t i,
         0 <= n < nseq cu_seqlens B -> 0 <= h < H ->
         0 <= t < seq_len cu_seqlens T n -> 0 <= i < K ->
         data dq (((bos n + t) * H + h) * K + i) = zero /\
         data dk (((bos n + t) * H + h) * K + i) = zero) /\
      (forall n h t j,
         0 <= n < nseq cu_seqlens B -> 0 <= h < H ->
         0 <= t < seq_len cu_seqlens T n -> 0 <= j < V ->
         data dv (((bos n + t) * H + h) * V + j) = zero) /\
      (Nat.eqb (ndim beta) (ndim u) = false ->
       forall n h t,
         0 <= n < nseq cu_seqlens B -> 0 <= h < H ->
         0 <= t < seq_len cu_seqlens T n ->
         data db ((bos n + t) * H + h) = zero) /\
      match dh0 with
      | Some g =>
          forall n h i j,
            0 <= n < nseq cu_seqlens B -> 0 <= h < H -> 0 <= i < K -> 0 <= j < V ->
            data g ((n * H + h) * K * V + i * V + j) = zero
      | None => True
      end.
Proof.
  intros R A L rt q k u beta do scale init cu B T H K V
    Hf Sq Sk Su HT HH HK HV Hcu HB Hgrad Hz bos.
  destruct (bwd_spec rt q k u beta None do scale init cu B T H K V
              Hf Sq Sk Su HT HH HK HV Hcu HB Hgrad)
    as (dq & dk & dv & db & dh0 & E & Hqk & Hdv & Hdb & _ & Hdh0).
  assert (Zdo : forall n h t j,
    hd_do (bwd_head q k u beta do scale init None cu T H K V n h) t j = zero).
  { intros n h t j. unfold bwd_head, head_of. cbn [hd_do]. unfold rows. apply Hz. }
  assert (Zdht : forall n h i j,
    hd_dht (bwd_head q k u beta do scale init None cu T H K V n h) i j = zero).
  { intros n h i j. reflexivity. }
  exists dq, dk, dv, db, dh0. split; [exact E|].
  split; [|split; [|split]].
  - intros n h t i Hn Hh Ht Hi.
    destruct (Hqk n h t i Hn Hh Ht Hi) as [Q D]. unfold bos. rewrite Q, D. split.
    + apply ref_dq_zero. apply Zdo.
    + apply ref_dk_zero; [apply Zdo|apply Zdht].
  - intros n h t j Hn Hh Ht Hj. unfold bos. rewrite (Hdv n h t j Hn Hh Ht Hj).
    apply ref_dv_zero; [apply Zdo|apply Zdht].
  - intros Hw n h t Hn Hh Ht. unfold bos. rewrite (Hdb Hw n h t Hn Hh Ht).
    apply ref_dbeta_scalar_zero; [apply Zdo|apply Zdht].
  - destruct dh0 as [g|]; [|exact I].
    destruct Hdh0 as (_ & Hg).
    intros n h i j Hn Hh Hi Hj. rewrite (Hg n h i j Hn Hh Hi Hj).
    apply ref_dh0_zero; [apply Zdo|apply Zdht].
Qed.

Lemma backward_zero_gradient_witness :
  exists dq dk dv db dh0,
    fused_recurrent_delta_rule_bwd (plain_runtime 5)
      (of_list [1; 2; 1; 1] [1; 2]) (of_list [1; 2; 1; 1] [1; 3])
      (of_list [1; 2; 1; 1] [4; 5]) (of_list [1; 2; 1] [1; 2]) None
      (full [1; 2; 1; 1] 0) 1 None None
    = Ok (dq, dk, dv, db, dh0) /\
    data dq 1 = 0 /\ data dk 1 = 0 /\ data dv 0 = 0 /\ data db 1 = 0.
Proof.
  destruct (backward_zero_gradient Z ArithZ ArithLawsZ (plain_runtime 5)
              (of_list [1; 2; 1; 1] [1; 2]) (of_list [1; 2; 1; 1] [1; 3])
              (of_list [1; 2; 1; 1] [4; 5]) (of_list [1; 2; 1] [1; 2])
              (full [1; 2; 1; 1] 0) 1 None None 1 2 1 1 1
              (plain_runtime_fair 5) eq_refl eq_refl eq_refl
              ltac:(lia) ltac:(lia) ltac:(lia) ltac:(lia) I ltac:(cbn; lia)
              eq_refl (fun _ => eq_refl))
    as (dq & dk & dv & db & dh0 & E & Hqk & Hdv & Hdb & _).
  exists dq, dk, dv, db, dh0. split; [exact E|].
  destruct (Hqk 0 0 1 0 ltac:(cbn; lia) ltac:(lia) ltac:(cbn; lia) ltac:(lia))
    as [Q D].
  split; [exact Q|]. split; [exact D|]. split.
  - exact (Hdv 0 0 0 0 ltac:(cbn; lia) ltac:(lia) ltac:(cbn; lia) ltac:(lia)).
  - exact (Hdb eq_refl 0 0 1 ltac:(cbn; lia) ltac:(lia) ltac:(cbn; lia)).
Defined.



(** * Further properties of the autograd function and of the entry point *)

(** Called without [beta] and without [scale], the entry point runs the delta
    rule with every beta equal to 1 and with the scale [K ** -0.5]. *)
Theorem entry_point_defaults :
  forall (R : Type) (A : Arith R) (L : ArithLaws R) (rt : runtime R)
         (l2norm_fwd : tensor R -> tensor R * tensor R)
         (q k v : tensor R) (initial_state : option (tensor R))
         (output_final_state : bool) (cu_seqlens : option (list Z))
         (B T H K V : Z),
    fair rt ->
    shape q = [B; T; H; K] -> shape k = [B; T; H; K] -> shape v = [B; T; H; V] ->
    1 <= H -> 1 <= K -> 1 <= V -> cu_ok cu_seqlens T ->
    match cu_seqlens with
    | None => True
    | Some cu =>
        B = 1 /\
        match initial_state with
        | None => True
        | Some h0 => exists rest, shape h0 = (len cu - 1) :: rest
        end
    end ->
    exists o fs,
      fused_recurrent_delta_rule rt l2norm_fwd q k v None None initial_state
        output_final_state false cu_seqlens = Ok (o, fs) /\
      forall n h t j,
        0 <= n < nseq cu_seqlens B -> 0 <= h < H ->
        0 <= t < seq_len cu_seqlens T n -> 0 <= j < V ->
        data o (((seq_bos cu_seqlens T n + t) * H + h) * V + j)
          = ref_o (fwd_head q k v (full [B; T; H] one) (rsqrt K) initial_state
                     cu_seqlens T H K V n h) (Z.to_nat t) j.
Proof.
  intros R A L rt l2f q k v init ofs cu B T H K V
    Hf Sq Sk Sv HH HK HV Hcu Hchk.
  destruct (fwd_spec rt q k v (full [B; T; H] one) (rsqrt K) init ofs cu B T H K V
              Hf Sk Sv HH HK HV Hcu)
    as (o & u & fs & E & _ & _ & Hrows & _).
  exists o, fs. split.
  - unfold fused_recurrent_delta_rule.
    assert (Echk :
      match cu with
      | Some cu0 =>
          b <- shape_first (shape q) ;;
          if negb (b =? 1) then
            Raise (ValueError "The batch size is expected to be 1 when using `cu_seqlens`.")
          else
            match init with
            | Some h0 =>
                n <- shape_first (shape h0) ;;
                if negb (n =? len cu0 - 1) then
                  Raise (ValueError
                    "The number of initial states is expected to be equal to the number of input sequences")
                else Ok tt
            | None => Ok tt
            end
      | None => Ok tt
      end = Ok tt).
    { destruct cu as [cu0|]; [|reflexivity].
      destruct Hchk as [-> Hinit]. rewrite Sq. cbn [shape_first bind Z.eqb Pos.eqb negb].
      destruct init as [h0|]; [|reflexivity].
      destruct Hinit as (rest & ->). cbn [shape_first bind].
      rewrite Z.eqb_refl. reflexivity. }
    rewrite Echk. cbn [bind]. rewrite Sk. cbn [shape_last rev app bind].
    destruct (Z.eqb_spec K 0) as [?|_]; [lia|]. cbn [bind].
    unfold ones_like_drop_last. rewrite Sq. cbn [rev app].
    destruct (Z.leb_spec K 0) as [?|_]; [lia|]. cbn [bind removelast].
    unfold FusedRecurrentFunction_forward.
    change {| shape := [B; T; H]; data := fun _ : Z => one; requires_grad := false |}
      with (full [B; T; H] (one (R := R))).
    rewrite E. reflexivity.
  - intros n h t j Hn Hh Ht Hj. exact (proj2 (Hrows n h t j Hn Hh Ht Hj)).
Qed.

Lemma entry_point_defaults_witness :
  exists o fs,
    fused_recurrent_delta_rule (plain_runtime 0) (fun t => (t, t))
      (of_list [1; 3; 1; 1] [1; 2; 3]) (of_list [1; 3; 1; 1] [1; 1; 2])
      (of_list [1; 3; 1; 1] [3; 1; 4]) None None None false false (Some [0; 2; 3])
    = Ok (o, fs) /\
    data o 0 = 3 /\ data o 1 = 2 /\ data o 2 = 24.
Proof.
  destruct (entry_point_defaults Z ArithZ ArithLawsZ (plain_runtime 0)
              (fun t => (t, t))
              (of_list [1; 3; 1; 1] [1; 2; 3]) (of_list [1; 3; 1; 1] [1; 1; 2])
              (of_list [1; 3; 1; 1] [3; 1; 4]) None false (Some [0; 2; 3])
              1 3 1 1 1 (plain_runtime_fair 0) eq_refl eq_refl eq_refl
              ltac:(lia) ltac:(lia) ltac:(lia) cu_ok_example (conj eq_refl I))
    as (o & fs & E & Ho).
  exists o, fs. split; [exact E|].
  split; [|split].
  - exact (Ho 0 0 0 0 ltac:(vm_compute; split; [discriminate|reflexivity]) ltac:(lia) ltac:(vm_compute; split; [discriminate|reflexivity]) ltac:(lia)).
  - exact (Ho 0 0 1 0 ltac:(vm_compute; split; [discriminate|reflexivity]) ltac:(lia) ltac:(vm_compute; split; [discriminate|reflexivity]) ltac:(lia)).
  - exact (Ho 1 0 0 0 ltac:(vm_compute; split; [discriminate|reflexivity]) ltac:(lia) ltac:(vm_compute; split; [discriminate|reflexivity]) ltac:(lia)).
Defined.



(** With [use_qk_l2norm_in_kernel] the entry point runs on the normalised
    queries and keys: as long as the normalisation keeps the shapes, the call
    returns what the call without the flag returns on the normalised
    tensors. *)
Theorem entry_point_l2norm :
  forall (R : Type) (A : Arith R) (rt : runtime R)
         (l2norm_fwd : tensor R -> tensor R * tensor R)
         (q k v : tensor R) (beta : option (tensor R)) (scale : option R)
         (initial_state : option (tensor R)) (output_final_state : bool)
         (cu_seqlens : option (list Z)),
    shape (fst (l2norm_fwd q)) = shape q ->
    shape (fst (l2norm_fwd k)) = shape k ->
    fused_recurrent_delta_rule rt l2norm_fwd q k v beta scale initial_state
      output_final_state true cu_seqlens
    = fused_recurrent_delta_rule rt l2norm_fwd
        (fst (l2norm_fwd q)) (fst (l2norm_fwd k)) v beta scale initial_state
        output_final_state false cu_seqlens.
Proof.
  intros R A rt l2f q k v beta scale init ofs cu Sq Sk.
  unfold fused_recurrent_delta_rule. rewrite Sq, Sk.
  match goal with |- bind ?c _ = bind ?c _ => destruct c as [[]|e] end;
    cbn [bind]; [|reflexivity].
  match goal with |- bind ?c _ = bind ?c _ => destruct c as [s|e] end;
    cbn [bind]; [|reflexivity].
  assert (Eb : forall b : tensor R,
    (r <- FusedRecurrentFunction_forward rt l2f q k v b s init ofs true cu ;;
     Ok (snd r))
    = (r <- FusedRecurrentFunction_forward rt l2f (fst (l2f q)) (fst (l2f k)) v b s
              init ofs false cu ;;
       Ok (snd r))).
  { intros b. unfold FusedRecurrentFunction_forward.
    destruct (l2f q) as [qn qr]. destruct (l2f k) as [kn kr]. cbn [fst].
    destruct (fused_recurrent_delta_rule_fwd rt qn kn v b s init ofs cu)
      as [[[o u] fs]|e]; reflexivity. }
  destruct beta as [b|]; cbn [bind]; [apply Eb|].
  unfold ones_like_drop_last. rewrite Sq.
  destruct (rev (shape q)) as [|d0 rest]; cbn [bind]; [reflexivity|].
  destruct (d0 <=? 0); cbn [bind]; [reflexivity|]. apply Eb.
Qed.

Lemma entry_point_l2norm_witness :
  fused_recurrent_delta_rule (plain_runtime 0)
    (fun t => (full (shape t) 1, t))
    (of_list [1; 2; 1; 1] [3; 4]) (of_list [1; 2; 1; 1] [5; 6])
    (of_list [1; 2; 1; 1] [4; 5]) None None None false true None
  = fused_recurrent_delta_rule (plain_runtime 0)
      (fun t => (full (shape t) 1, t))
      (full [1; 2; 1; 1] 1) (full [1; 2; 1; 1] 1)
      (of_list [1; 2; 1; 1] [4; 5]) None None None false false None.
Proof.
  apply (entry_point_l2norm Z ArithZ (plain_runtime 0)
           (fun t => (full (shape t) 1, t))
           (of_list [1; 2; 1; 1] [3; 4]) (of_list [1; 2; 1; 1] [5; 6])
           (of_list [1; 2; 1; 1] [4; 5]) None None None false None
           eq_refl eq_refl).
Defined.

(** * Scale and absent states *)

(** The outputs are linear in the scale: the outputs of a call with the scale
    [s] are [s] times the outputs of the call with the scale 1. *)
Theorem forward_outputs_linear_in_scale :
  forall (R : Type) (A : Arith R) (L : ArithLaws R) (rt rt' : runtime R)
         (q k v beta : tensor R) (scale : R) (initial_state : option (tensor R))
         (output_final_state : bool) (cu_seqlens : option (list Z))
         (B T H K V : Z),
    fair rt -> fair rt' ->
    shape k = [B; T; H; K] -> shape v = [B; T; H; V] ->
    1 <= H -> 1 <= K -> 1 <= V -> cu_ok cu_seqlens T ->
    exists o u fs o' u' fs',
      fused_recurrent_delta_rule_fwd rt q k v beta one initial_state
        output_final_state cu_seqlens = Ok (o, u, fs) /\
      fused_recurrent_delta_rule_fwd rt' q k v beta scale initial_state
        output_final_state cu_seqlens = Ok (o', u', fs') /\
      forall n h t j,
        0 <= n < nseq cu_seqlens B -> 0 <= h < H ->
        0 <= t < seq_len cu_seqlens T n -> 0 <= j < V ->
        data o' (((seq_bos cu_seqlens T n + t) * H + h) * V + j)
          = mul (data o (((seq_bos cu_seqlens T n + t) * H + h) * V + j)) scale.
Proof.
  intros R A L rt rt' q k v beta scale init ofs cu B T H K V
    Hf Hf' Sk Sv HH HK HV Hcu.
  destruct (fwd_spec rt q k v beta one init ofs cu B T H K V Hf Sk Sv HH HK HV Hcu)
    as (o & u & fs & E & _ & _ & Hrows & _).
  destruct (fwd_spec rt' q k v beta scale init ofs cu B T H K V Hf' Sk Sv HH HK HV Hcu)
    as (o' & u' & fs' & E' & _ & _ & Hrows' & _).
  exists o, u, fs, o', u', fs'. split; [exact E|]. split; [exact E'|].
  intros n h t j Hn Hh Ht Hj.
  rewrite (proj2 (Hrows n h t j Hn Hh Ht Hj)), (proj2 (Hrows' n h t j Hn Hh Ht Hj)).
  apply (ref_o_scale (fwd_head q k v beta one init cu T H K V n h)
           (fwd_head q k v beta scale init cu T H K V n h));
    intros; reflexivity.
Qed.

Lemma forward_outputs_linear_in_scale_witness :
  exists o u fs o' u' fs',
    fused_recurrent_delta_rule_fwd (plain_runtime 0)
      (of_list [1; 2; 1; 1] [1; 2]) (of_list [1; 2; 1; 1] [1; 3])
      (of_list [1; 2; 1; 1] [4; 5]) (of_list [1; 2; 1] [1; 2]) 1 None false None
      = Ok (o, u, fs) /\
    fused_recurrent_delta_rule_fwd (plain_runtime 0)
      (of_list [1; 2; 1; 1] [1; 2]) (of_list [1; 2; 1; 1] [1; 3])
      (of_list [1; 2; 1; 1] [4; 5]) (of_list [1; 2; 1] [1; 2]) 3 None false None
      = Ok (o', u', fs') /\
    data o' 1 = data o 1 * 3.
Proof.
  destruct (forward_outputs_linear_in_scale Z ArithZ ArithLawsZ
              (plain_runtime 0) (plain_runtime 0)
              (of_list [1; 2; 1; 1] [1; 2]) (of_list [1; 2; 1; 1] [1; 3])
              (of_list [1; 2; 1; 1] [4; 5]) (of_list [1; 2; 1] [1; 2]) 3 None false
              None 1 2 1 1 1 (plain_runtime_fair 0) (plain_runtime_fair 0)
              eq_refl eq_refl ltac:(lia) ltac:(lia) ltac:(lia) I)
    as (o & u & fs & o' & u' & fs' & E & E' & Hin).
  exists o, u, fs, o', u', fs'. split; [exact E|]. split; [exact E'|].
  exact (Hin 0 0 1 0 ltac:(cbn; lia) ltac:(lia) ltac:(cbn; lia) ltac:(lia)).
Defined.

(** A call without an initial state is a call with a zero initial state. *)
Theorem absent_initial_state_is_zero :
  forall (R : Type) (A : Arith R) (L : ArithLaws R) (rt rt' : runtime R)
         (q k v beta h0 : tensor R) (scale : R)
         (output_final_state : bool) (cu_seqlens : option (list Z))
         (B T H K V : Z),
    fair rt -> fair rt' ->
    shape k = [B; T; H; K] -> shape v = [B; T; H; V] ->
    1 <= H -> 1 <= K -> 1 <= V -> cu_ok cu_seqlens T ->
    (forall a, data h0 a = zero) ->
    exists o u fs o' u' fs',
      fused_recurrent_delta_rule_fwd rt q k v beta scale None
        output_final_state cu_seqlens = Ok (o, u, fs) /\
      fused_recurrent_delta_rule_fwd rt' q k v beta scale (Some h0)
        output_final_state cu_seqlens = Ok (o', u', fs') /\
      (forall n h t j,
         0 <= n < nseq cu_seqlens B -> 0 <= h < H ->
         0 <= t < seq_len cu_seqlens T n -> 0 <= j < V ->
         data o' (((seq_bos cu_seqlens T n + t) * H + h) * V + j)
           = data o (((seq_bos cu_seqlens T n + t) * H + h) * V + j) /\
         data u' (((seq_bos cu_seqlens T n + t) * H + h) * V + j)
           = data u (((seq_bos cu_seqlens T n + t) * H + h) * V + j)) /\
      match fs, fs' with
      | Some f, Some f' =>
          forall n h i j,
            0 <= n < nseq cu_seqlens B -> 0 <= h < H -> 0 <= i < K -> 0 <= j < V ->
            data f' ((n * H + h) * K * V + i * V + j)
              = data f ((n * H + h) * K * V + i * V + j)
      | None, None => output_final_state = false
      | _, _ => False
      end.
Proof.
  intros R A L rt rt' q k v beta h0 scale ofs cu B T H K V
    Hf Hf' Sk Sv HH HK HV Hcu Hz.
  destruct (fwd_spec rt q k v beta scale None ofs cu B T H K V Hf Sk Sv HH HK HV Hcu)
    as (o & u & fs & E & _ & _ & Hrows & Hfs).
  destruct (fwd_spec rt' q k v beta scale (Some h0) ofs cu B T H K V
              Hf' Sk Sv HH HK HV Hcu)
    as (o' & u' & fs' & E' & _ & _ & Hrows' & Hfs').
  assert (Ag : forall n h,
    head_agree (fwd_head q k v beta scale None cu T H K V n h)
               (fwd_head q k v beta scale (Some h0) cu T H K V n h)).
  { intros n h. unfold head_agree, fwd_head, head_of.
    cbn [hd_K hd_V hd_T hd_scale hd_q hd_k hd_v hd_beta hd_do hd_h0 hd_dht
         option_map state_of].
    repeat split; try reflexivity. apply Hz. }
  exists o, u, fs, o', u', fs'. split; [exact E|]. split; [exact E'|]. split.
  - intros n h t j Hn Hh Ht Hj.
    destruct (Hrows n h t j Hn Hh Ht Hj) as [U O].
    destruct (Hrows' n h t j Hn Hh Ht Hj) as [U' O'].
    rewrite U, O, U', O'. split.
    + apply (ref_o_agree _ _ (Ag n h)); [cbn; lia|exact Hj].
    + apply (ref_u_agree _ _ (Ag n h)); [cbn; lia|exact Hj].
  - destruct fs as [f|], fs' as [f'|].
    + destruct Hfs as (_ & _ & Hf0). destruct Hfs' as (_ & _ & Hf0').
      intros n h i j Hn Hh Hi Hj.
      rewrite (Hf0 n h i j Hn Hh Hi Hj), (Hf0' n h i j Hn Hh Hi Hj).
      apply (ref_state_agree _ _ (Ag n h)); [cbn; lia|exact Hi|exact Hj].
    + destruct Hfs as (Et & _). congruence.
    + destruct Hfs' as (Et & _). congruence.
    + exact Hfs.
Qed.

Lemma absent_initial_state_is_zero_witness :
  exists o u fs o' u' fs',
    fused_recurrent_delta_rule_fwd (plain_runtime 0)
      (of_list [1; 2; 1; 1] [1; 2]) (of_list [1; 2; 1; 1] [1; 3])
      (of_list [1; 2; 1; 1] [4; 5]) (of_list [1; 2; 1] [1; 2]) 1 None true None
      = Ok (o, u, fs) /\
    fused_recurrent_delta_rule_fwd (plain_runtime 0)
      (of_list [1; 2; 1; 1] [1; 2]) (of_list [1; 2; 1; 1] [1; 3])
      (of_list [1; 2; 1; 1] [4; 5]) (of_list [1; 2; 1] [1; 2]) 1
      (Some (full [1; 1; 1; 1] 0)) true None
      = Ok (o', u', fs') /\
    data o' 1 = data o 1 /\ data u' 1 = data u 1.
Proof.
  destruct (absent_initial_state_is_zero Z ArithZ ArithLawsZ
              (plain_runtime 0) (plain_runtime 0)
              (of_list [1; 2; 1; 1] [1; 2]) (of_list [1; 2; 1; 1] [1; 3])
              (of_list [1; 2; 1; 1] [4; 5]) (of_list [1; 2; 1] [1; 2])
              (full [1; 1; 1; 1] 0) 1 true None 1 2 1 1 1
              (plain_runtime_fair 0) (plain_runtime_fair 0)
              eq_refl eq_refl ltac:(lia) ltac:(lia) ltac:(lia) I (fun _ => eq_refl))
    as (o & u & fs & o' & u' & fs' & E & E' & Hin & _).
  exists o, u, fs, o', u', fs'. split; [exact E|]. split; [exact E'|].
  exact (Hin 0 0 1 0 ltac:(cbn; lia) ltac:(lia) ltac:(cbn; lia) ltac:(lia)).
Defined.

(** A backward call without a gradient of the final state is a call with a
    zero gradient of it (the initial state, if there is one, requiring a
    gradient). *)
Theorem absent_final_state_gradient_is_zero :
  forall (R : Type) (A : Arith R) (L : ArithLaws R) (rt rt' : runtime R)
         (q k u beta do g : tensor R) (scale : R)
         (initial_state : option (tensor R)) (cu_seqlens : option (list Z))
         (B T H K V : Z),
    fair rt -> fair rt' ->
    shape q = [B; T; H; K] -> shape k = [B; T; H; K] -> shape u = [B; T; H; V] ->
    0 <= T -> 1 <= H -> 1 <= K -> 1 <= V ->
    cu_ok cu_seqlens T -> batch_ok cu_seqlens B ->
    state_grad_ok initial_state = true ->
    (forall a, data g a = zero) ->
    let bos := seq_bos cu_seqlens T in
    exists dq dk dv db dh0 dq' dk' dv' db' dh0',
      fused_recurrent_delta_rule_bwd rt q k u beta None do scale initial_state
        cu_seqlens = Ok (dq, dk, dv, db, dh0) /\
      fused_recurrent_delta_rule_bwd rt' q k u beta (Some g) do scale initial_state
        cu_seqlens = Ok (dq', dk', dv', db', dh0') /\
      (forall n h t i,
         0 <= n < nseq cu_seqlens B -> 0 <= h < H ->
         0 <= t < seq_len cu_seqlens T n -> 0 <= i < K ->
         data dq' (((bos n + t) * H + h) * K + i)
           = data dq (((bos n + t) * H + h) * K + i) /\
         data dk' (((bos n + t) * H + h) * K + i)
           = data dk (((bos n + t) * H + h) * K + i)) /\
      (forall n h t j,
         0 <= n < nseq cu_seqlens B -> 0 <= h < H ->
         0 <= t < seq_len cu_seqlens T n -> 0 <= j < V ->
         data dv' (((bos n + t) * H + h) * V + j)
           = data dv (((bos n + t) * H + h) * V + j)) /\
      match dh0, dh0' with
      | Some g0, Some g0' =>
          forall n h i j,
            0 <= n < nseq cu_seqlens B -> 0 <= h < H -> 0 <= i < K -> 0 <= j < V ->
            data g0' ((n * H + h) * K * V + i * V + j)
              = data g0 ((n * H + h) * K * V + i * V + j)
      | None, None => True
      | _, _ => False
      end.
Proof.
  intros R A L rt rt' q k u beta do g scale init cu B T H K V
    Hf Hf' Sq Sk Su HT HH HK HV Hcu HB Hgrad Hz bos.
  destruct (bwd_spec rt q k u beta None do scale init cu B T H K V
              Hf Sq Sk Su HT HH HK HV Hcu HB Hgrad)
    as (dq & dk & dv & db & dh0 & E & Hqk & Hdv & _ & _ & Hdh0).
  destruct (bwd_spec rt' q k u beta (Some g) do scale init cu B T H K V
              Hf' Sq Sk Su HT HH HK HV Hcu HB Hgrad)
    as (dq' & dk' & dv' & db' & dh0' & E' & Hqk' & Hdv' & _ & _ & Hdh0').
  assert (Ag : forall n h,
    head_agree (bwd_head q k u beta do scale init None cu T H K V n h)
               (bwd_head q k u beta do scale init (Some g) cu T H K V n h)).
  { intros n h. unfold head_agree, bwd_head, head_of.
    cbn [hd_K hd_V hd_T hd_scale hd_q hd_k hd_v hd_beta hd_do hd_h0 hd_dht
         option_map state_of].
    repeat split; try reflexivity. apply Hz. }
  exists dq, dk, dv, db, dh0, dq', dk', dv', db', dh0'.
  split; [exact E|]. split; [exact E'|]. split; [|split].
  - intros n h t i Hn Hh Ht Hi. unfold bos.
    destruct (Hqk n h t i Hn Hh Ht Hi) as [Q D].
    destruct (Hqk' n h t i Hn Hh Ht Hi) as [Q' D'].
    rewrite Q, D, Q', D'. split.
    + apply (ref_dq_agree _ _ (Ag n h)); [cbn; lia|exact Hi].
    + apply (ref_dk_agree _ _ (Ag n h)); [cbn; lia|exact Hi].
  - intros n h t j Hn Hh Ht Hj. unfold bos.
    rewrite (Hdv n h t j Hn Hh Ht Hj), (Hdv' n h t j Hn Hh Ht Hj).
    apply (ref_dv_agree _ _ (Ag n h)); [cbn; lia|exact Hj].
  - destruct dh0 as [g0|], dh0' as [g0'|].
    + destruct Hdh0 as (_ & Hg). destruct Hdh0' as (_ & Hg').
      intros n h i j Hn Hh Hi Hj.
      rewrite (Hg n h i j Hn Hh Hi Hj), (Hg' n h i j Hn Hh Hi Hj).
      apply (ref_dh0_agree _ _ (Ag n h)); assumption.
    + destruct Hdh0 as ((h0 & Eh & Eg & _) & _). congruence.
    + destruct Hdh0' as ((h0 & Eh & Eg & _) & _). congruence.
    + exact I.
Qed.

Lemma absent_final_state_gradient_is_zero_witness :
  exists dq dk dv db dh0 dq' dk' dv' db' dh0',
    fused_recurrent_delta_rule_bwd (plain_runtime 0)
      (of_list [1; 2; 1; 1] [1; 2]) (of_list [1; 2; 1; 1] [1; 3])
      (of_list [1; 2; 1; 1] [4; 5]) (of_list [1; 2; 1] [1; 2]) None
      (of_list [1; 2; 1; 1] [1; 1]) 1 None None
    = Ok (dq, dk, dv, db, dh0) /\
    fused_recurrent_delta_rule_bwd (plain_runtime 0)
      (of_list [1; 2; 1; 1] [1; 2]) (of_list [1; 2; 1; 1] [1; 3])
      (of_list [1; 2; 1; 1] [4; 5]) (of_list [1; 2; 1] [1; 2])
      (Some (full [1; 1; 1; 1] 0))
      (of_list [1; 2; 1; 1] [1; 1]) 1 None None
    = Ok (dq', dk', dv', db', dh0') /\
    data dq' 1 = data dq 1 /\ data dk' 1 = data dk 1.
Proof.
  destruct (absent_final_state_gradient_is_zero Z ArithZ ArithLawsZ
              (plain_runtime 0) (plain_runtime 0)
              (of_list [1; 2; 1; 1] [1; 2]) (of_list [1; 2; 1; 1] [1; 3])
              (of_list [1; 2; 1; 1] [4; 5]) (of_list [1; 2; 1] [1; 2])
              (of_list [1; 2; 1; 1] [1; 1]) (full [1; 1; 1; 1] 0) 1 None None
              1 2 1 1 1 (plain_runtime_fair 0) (plain_runtime_fair 0)
              eq_refl eq_refl eq_refl
              ltac:(lia) ltac:(lia) ltac:(lia) ltac:(lia) I ltac:(cbn; lia)
              eq_refl (fun _ => eq_refl))
    as (dq & dk & dv & db & dh0 & dq' & dk' & dv' & db' & dh0' & E & E' & Hqk & _).
  exists dq, dk, dv, db, dh0, dq', dk', dv', db', dh0'.
  split; [exact E|]. split; [exact E'|].
  exact (Hqk 0 0 1 0 ltac:(cbn; lia) ltac:(lia) ltac:(cbn; lia) ltac:(lia)).
Defined.

(** * Properties of the configuration of the RWKV7 model *)

(** A configuration that is built has one value dimension per layer, each
    at least the hidden size and a multiple of it, whichever of the three
    forms [value_dim] was given in. *)
Theorem config_value_dim_per_layer :
  forall (F : Type) (float_10000 : F) (a : config_args) (cfg : RWKV7Config),
    RWKV7Config_init float_10000 a = Ok cfg ->
    len (self_value_dim cfg) = Z.max 0 (num_hidden_layers a) /\
    Forall (fun v => hidden_size a <= v /\ exists m, v = m * hidden_size a)
      (self_value_dim cfg).
Proof.
  intros F c a cfg. unfold RWKV7Config_init.
  match goal with |- bind ?x _ = _ -> _ => destruct x as [heads|e] end;
    cbn [bind]; [|discriminate].
  destruct (value_dim a) as [|v|l].
  - cbn [bind].
    match goal with |- bind ?x _ = _ -> _ => destruct x as [at_|e] end;
      cbn [bind]; [|discriminate].
    intros E. inversion E. cbn [self_value_dim]. split.
    + apply len_py_repeat.
    + apply Forall_py_repeat. split; [lia|]. exists 1. lia.
  - destruct (check_value_dim (hidden_size a) v) as [[]|e] eqn:Ev; cbn [bind];
      [|discriminate].
    match goal with |- bind ?x _ = _ -> _ => destruct x as [at_|e] end;
      cbn [bind]; [|discriminate].
    intros E. inversion E. cbn [self_value_dim]. split.
    + apply len_py_repeat.
    + apply Forall_py_repeat. apply check_value_dim_ok. exact Ev.
  - unfold py_assert at 1.
    destruct (Z.eqb_spec (len l) (num_hidden_layers a)) as [El|_]; cbn [bind];
      [|discriminate].
    destruct (check_value_dims (hidden_size a) l) as [[]|e] eqn:Ev; cbn [bind];
      [|discriminate].
    match goal with |- bind ?x _ = _ -> _ => destruct x as [at_|e] end;
      cbn [bind]; [|discriminate].
    intros E. inversion E. cbn [self_value_dim]. split.
    + unfold len in *. lia.
    + apply check_value_dims_ok. exact Ev.
Qed.

Lemma config_value_dim_per_layer_witness :
  exists cfg,
    RWKV7Config_init 10000 (args_with (Some 64) None (VDInt 4096) None) = Ok cfg /\
    len (self_value_dim cfg) = 24 /\
    Forall (fun v => 2048 <= v /\ exists m, v = m * 2048) (self_value_dim cfg).
Proof.
  eexists. split; [reflexivity|].
  apply (config_value_dim_per_layer Z 10000
           (args_with (Some 64) None (VDInt 4096) None)).
  reflexivity.
Defined.

(** When one of [head_dim] and [num_heads] is given, the other is the floor
    of the hidden size by it, so that their product falls short of the hidden
    size by less than the one given; when both or none are given they are
    stored as they are. *)
Theorem config_heads_derived :
  forall (F : Type) (float_10000 : F) (a : config_args) (cfg : RWKV7Config),
    RWKV7Config_init float_10000 a = Ok cfg ->
    match head_dim a, num_heads a with
    | Some h, None =>
        h <> 0 /\ self_head_dim cfg = Some h /\
        self_num_heads cfg = Some (hidden_size a / h) /\
        (0 < h -> 0 <= hidden_size a - h * (hidden_size a / h) < h)
    | None, Some n =>
        n <> 0 /\ self_num_heads cfg = Some n /\
        self_head_dim cfg = Some (hidden_size a / n) /\
        (0 < n -> 0 <= hidden_size a - n * (hidden_size a / n) < n)
    | h, n => self_head_dim cfg = h /\ self_num_heads cfg = n
    end.
Proof.
  intros F c a cfg. unfold RWKV7Config_init, py_floordiv.
  destruct (head_dim a) as [h|], (num_heads a) as [n|].
  - cbn [bind].
    match goal with |- bind ?x _ = _ -> _ => destruct x as [vd|e] end;
      cbn [bind]; [|discriminate].
    match goal with |- bind ?x _ = _ -> _ => destruct x as [at_|e] end;
      cbn [bind]; [|discriminate].
    intros E. inversion E. split; reflexivity.
  - destruct (Z.eqb_spec h 0) as [_|Hh]; cbn [bind]; [discriminate|].
    match goal with |- bind ?x _ = _ -> _ => destruct x as [vd|e] end;
      cbn [bind]; [|discriminate].
    match goal with |- bind ?x _ = _ -> _ => destruct x as [at_|e] end;
      cbn [bind]; [|discriminate].
    intros E. inversion E. cbn [self_head_dim self_num_heads fst snd].
    repeat split; try reflexivity; try assumption;
      pose proof (Z.div_mod (hidden_size a) h Hh);
      pose proof (Z.mod_pos_bound (hidden_size a) h ltac:(assumption)); lia.
  - destruct (Z.eqb_spec n 0) as [_|Hn]; cbn [bind]; [discriminate|].
    match goal with |- bind ?x _ = _ -> _ => destruct x as [vd|e] end;
      cbn [bind]; [|discriminate].
    match goal with |- bind ?x _ = _ -> _ => destruct x as [at_|e] end;
      cbn [bind]; [|discriminate].
    intros E. inversion E. cbn [self_head_dim self_num_heads fst snd].
    repeat split; try reflexivity; try assumption;
      pose proof (Z.div_mod (hidden_size a) n Hn);
      pose proof (Z.mod_pos_bound (hidden_size a) n ltac:(assumption)); lia.
  - cbn [bind].
    match goal with |- bind ?x _ = _ -> _ => destruct x as [vd|e] end;
      cbn [bind]; [|discriminate].
    match goal with |- bind ?x _ = _ -> _ => destruct x as [at_|e] end;
      cbn [bind]; [|discriminate].
    intros E. inversion E. split; reflexivity.
Qed.

Lemma config_heads_derived_witness :
  exists cfg,
    RWKV7Config_init 10000 (args_with (Some 100) None VDNone None) = Ok cfg /\
    self_num_heads cfg = Some 20 /\
    0 <= 2048 - 100 * 20 < 100.
Proof.
  eexists. split; [reflexivity|].
  pose proof (config_heads_derived Z 10000
                (args_with (Some 100) None VDNone None) _ eq_refl) as H.
  cbn [head_dim num_heads args_with hidden_size] in H.
  destruct H as (_ & _ & Hn & Hb). split; [exact Hn|]. apply Hb. lia.
Defined.

(** The options of the hybrid attention layers: a configuration is built
    from a dictionary only if it holds the layers and the number of heads;
    the dictionary stored then holds every entry that was given, unchanged,
    and the four options that default, and completing it again changes
    nothing. *)
Theorem config_attn_completed :
  forall (F : Type) (float_10000 : F) (a : config_args) (cfg : RWKV7Config)
         (d : dict),
    RWKV7Config_init float_10000 a = Ok cfg ->
    attn a = Some (ADict d) ->
    exists layers n d',
      dict_get d "layers" = Some layers /\ dict_get d "num_heads" = Some n /\
      self_attn cfg = Some d' /\
      (forall key, dict_get d key <> None -> dict_get d' key = dict_get d key) /\
      dict_get d' "num_kv_heads" = Some (dict_get_default d "num_kv_heads" n) /\
      dict_get d' "qkv_bias" = Some (dict_get_default d "qkv_bias" (PyBool false)) /\
      dict_get d' "window_size" = Some (dict_get_default d "window_size" PyNone) /\
      dict_get d' "rope_theta"
        = Some (dict_get_default d "rope_theta" (PyFloat float_10000)) /\
      attn_defaults float_10000 d' n = d'.
Proof.
  intros F c a cfg d. unfold RWKV7Config_init. intros E Ha. rewrite Ha in E.
  match type of E with bind ?x _ = _ => destruct x as [heads|e] end;
    cbn [bind] in E; [|discriminate].
  match type of E with bind ?x _ = _ => destruct x as [vd|e] end;
    cbn [bind] in E; [|discriminate].
  destruct (dict_get d "layers") as [layers|] eqn:El; cbn [bind] in E;
    [|discriminate].
  destruct (dict_get d "num_heads") as [n|] eqn:En; cbn [bind] in E;
    [|discriminate].
  inversion E. cbn [self_attn].
  exists layers, n, (attn_defaults c d n).
  split; [reflexivity|]. split; [reflexivity|]. split; [reflexivity|].
  set (d1 := dict_set d "num_kv_heads" (dict_get_default d "num_kv_heads" n)).
  set (d2 := dict_set d1 "qkv_bias" (dict_get_default d1 "qkv_bias" (PyBool false))).
  set (d3 := dict_set d2 "window_size" (dict_get_default d2 "window_size" PyNone)).
  assert (E4 : attn_defaults c d n
               = dict_set d3 "rope_theta"
                   (dict_get_default d3 "rope_theta" (PyFloat c))) by reflexivity.
  assert (K1 : forall key, dict_get d key <> None -> dict_get d1 key = dict_get d key)
    by (intros key Hk; apply dict_get_complete_kept; exact Hk).
  assert (K2 : forall key, dict_get d1 key <> None -> dict_get d2 key = dict_get d1 key)
    by (intros key Hk; apply dict_get_complete_kept; exact Hk).
  assert (K3 : forall key, dict_get d2 key <> None -> dict_get d3 key = dict_get d2 key)
    by (intros key Hk; apply dict_get_complete_kept; exact Hk).
  assert (K4 : forall key, dict_get d3 key <> None ->
                 dict_get (attn_defaults c d n) key = dict_get d3 key)
    by (intros key Hk; rewrite E4; apply dict_get_complete_kept; exact Hk).
  assert (G1 : dict_get d1 "num_kv_heads" = Some (dict_get_default d "num_kv_heads" n))
    by (unfold d1; rewrite dict_get_set; reflexivity).
  assert (G2 : dict_get d2 "qkv_bias" = Some (dict_get_default d "qkv_bias" (PyBool false))).
  { unfold d2. rewrite dict_get_set. cbn [String.eqb Ascii.eqb Bool.eqb].
    f_equal. unfold dict_get_default, d1. rewrite dict_get_set. reflexivity. }
  assert (G3 : dict_get d3 "window_size" = Some (dict_get_default d "window_size" PyNone)).
  { unfold d3. rewrite dict_get_set. cbn [String.eqb Ascii.eqb Bool.eqb].
    f_equal. unfold dict_get_default, d2, d1. rewrite !dict_get_set. reflexivity. }
  assert (G4 : dict_get (attn_defaults c d n) "rope_theta"
               = Some (dict_get_default d "rope_theta" (PyFloat c))).
  { rewrite E4, dict_get_set. cbn [String.eqb Ascii.eqb Bool.eqb].
    f_equal. unfold dict_get_default, d3, d2, d1. rewrite !dict_get_set. reflexivity. }
  assert (Kall : forall key, dict_get d key <> None ->
                   dict_get (attn_defaults c d n) key = dict_get d key).
  { intros key Hk.
    assert (H1 : dict_get d1 key = dict_get d key) by (apply K1; exact Hk).
    assert (H2 : dict_get d2 key = dict_get d1 key)
      by (apply K2; rewrite H1; exact Hk).
    assert (H3 : dict_get d3 key = dict_get d2 key)
      by (apply K3; rewrite H2, H1; exact Hk).
    rewrite K4 by (rewrite H3, H2, H1; exact Hk). congruence. }
  assert (P1 : dict_get (attn_defaults c d n) "num_kv_heads"
               = Some (dict_get_default d "num_kv_heads" n)).
  { assert (H2 : dict_get d2 "num_kv_heads" = dict_get d1 "num_kv_heads")
      by (apply K2; rewrite G1; discriminate).
    assert (H3 : dict_get d3 "num_kv_heads" = dict_get d2 "num_kv_heads")
      by (apply K3; rewrite H2, G1; discriminate).
    rewrite K4 by (rewrite H3, H2, G1; discriminate). congruence. }
  assert (P2 : dict_get (attn_defaults c d n) "qkv_bias"
               = Some (dict_get_default d "qkv_bias" (PyBool false))).
  { assert (H3 : dict_get d3 "qkv_bias" = dict_get d2 "qkv_bias")
      by (apply K3; rewrite G2; discriminate).
    rewrite K4 by (rewrite H3, G2; discriminate). congruence. }
  assert (P3 : dict_get (attn_defaults c d n) "window_size"
               = Some (dict_get_default d "window_size" PyNone)).
  { rewrite K4 by (rewrite G3; discriminate). exact G3. }
  split; [exact Kall|]. split; [exact P1|]. split; [exact P2|].
  split; [exact P3|]. split; [exact G4|].
  unfold attn_defaults at 1. cbv zeta.
  rewrite (dict_complete_present _ "num_kv_heads" _ _ P1).
  rewrite (dict_complete_present _ "qkv_bias" _ _ P2).
  rewrite (dict_complete_present _ "window_size" _ _ P3).
  rewrite (dict_complete_present _ "rope_theta" _ _ G4).
  reflexivity.
Qed.

Lemma config_attn_completed_witness :
  exists cfg d',
    RWKV7Config_init 10000
      (args_with (Some 64) None VDNone
         (Some (ADict [("layers"%string, PyList [1; 3]); ("num_heads"%string, PyInt 8);
                       ("window_size"%string, PyInt 512)])))
    = Ok cfg /\
    self_attn cfg = Some d' /\
    dict_get d' "num_kv_heads" = Some (PyInt 8) /\
    dict_get d' "window_size" = Some (PyInt 512) /\
    dict_get d' "qkv_bias" = Some (PyBool false).
Proof.
  pose (d := [("layers"%string, PyList [1; 3]); ("num_heads"%string, PyInt 8);
              ("window_size"%string, PyInt 512)] : dict (F := Z)).
  destruct (config_attn_completed Z 10000
              (args_with (Some 64) None VDNone (Some (ADict d))) _ d
              eq_refl eq_refl)
    as (layers & n & d' & El & En & Ea & _ & Hkv & Hq & Hw & _).
  eexists. exists d'. split; [reflexivity|]. split; [exact Ea|].
  inversion En. subst n.
  split; [exact Hkv|]. split; [exact Hw|exact Hq].
Defined.

(** [causal_conv1d_update], with a cache, shifts the cache of every channel
    by one column, dropping the oldest input, and puts the new input in the
    last column; the cache it returns is the one it was given, updated in
    place.  No law of arithmetic is used. *)
Theorem conv_update_shifts_cache :
  forall (R : Type) (A : Arith R) (sigmoid : R -> R) (rt : runtime R)
         (x w c0 : tensor R) (residual bias : option (tensor R))
         (activation : option string) (B T D W : Z),
    fair rt -> shape x = [B; T; D] -> shape w = [D; W] -> 1 <= D -> 1 <= W ->
    exists y c',
      causal_conv1d_update sigmoid rt x (Some c0) residual (Some w) bias activation
        = Ok (y, Some c') /\
      shape y = shape x /\ shape c' = shape c0 /\
      forall n d c, 0 <= n < B * T -> 0 <= d < D -> 0 <= c < W ->
        data c' (n * D * W + d * W + c)
        = if c <? W - 1 then data c0 (n * D * W + d * W + c + 1)
          else data x (n * D + d).
Proof.
  intros R A sigmoid rt x w c0 residual bias activation B T D W
    Hf Sx Sw HD HW.
  exact (conv_update_cache_spec R A sigmoid rt x w c0 residual bias activation
           B T D W Hf Sx Sw HD HW).
Qed.

Lemma conv_update_shifts_cache_witness :
  exists y c',
    causal_conv1d_update (fun z => z) (plain_runtime 0)
      (of_list [1; 1; 2] [5; 7]) (Some (of_list [1; 2; 3] [10; 20; 30; 40; 50; 60]))
      None (Some (of_list [2; 3] [1; 2; 3; 4; 5; 6])) None None
      = Ok (y, Some c') /\
    data c' 0 = 20 /\ data c' 1 = 30 /\ data c' 2 = 5 /\
    data c' 3 = 50 /\ data c' 4 = 60 /\ data c' 5 = 7.
Proof.
  destruct (conv_update_shifts_cache Z ArithZ (fun z => z) (plain_runtime 0)
              (of_list [1; 1; 2] [5; 7]) (of_list [2; 3] [1; 2; 3; 4; 5; 6])
              (of_list [1; 2; 3] [10; 20; 30; 40; 50; 60]) None None None
              1 1 2 3 (plain_runtime_fair 0) eq_refl eq_refl
              ltac:(lia) ltac:(lia))
    as (y & c' & E & _ & _ & Hc).
  exists y, c'. split; [exact E|].
  pose proof (Hc 0 0 0 ltac:(lia) ltac:(lia) ltac:(lia)) as H0.
  pose proof (Hc 0 0 1 ltac:(lia) ltac:(lia) ltac:(lia)) as H1.
  pose proof (Hc 0 0 2 ltac:(lia) ltac:(lia) ltac:(lia)) as H2.
  pose proof (Hc 0 1 0 ltac:(lia) ltac:(lia) ltac:(lia)) as H3.
  pose proof (Hc 0 1 1 ltac:(lia) ltac:(lia) ltac:(lia)) as H4.
  pose proof (Hc 0 1 2 ltac:(lia) ltac:(lia) ltac:(lia)) as H5.
  repeat split; assumption.
Defined.

(** The output of [causal_conv1d_update] at a channel is the sum over the
    columns of the updated cache times the weights of the channel, then the
    bias, the activation and the residual. *)
Theorem conv_update_output :
  forall (R : Type) (A : Arith R) (L : ArithLaws R) (sigmoid : R -> R)
         (rt : runtime R) (x w c0 : tensor R) (residual bias : option (tensor R))
         (activation : option string) (B T D W : Z),
    fair rt -> shape x = [B; T; D] -> shape w = [D; W] -> 1 <= D -> 1 <= W ->
    exists y c',
      causal_conv1d_update sigmoid rt x (Some c0) residual (Some w) bias activation
        = Ok (y, Some c') /\
      forall n d, 0 <= n < B * T -> 0 <= d < D ->
        data y (n * D + d)
        = conv_epilogue sigmoid (option_map data residual) (option_map data bias)
            activation D n d
            (tl_sum W (fun c =>
               mul (data c' (n * D * W + d * W + c)) (data w (d * W + c)))).
Proof.
  intros R A L sigmoid rt x w c0 residual bias activation B T D W
    Hf Sx Sw HD HW.
  destruct (conv_update_spec sigmoid rt x w (Some c0) residual bias activation
              B T D W Hf Sx Sw HD HW c0 eq_refl)
    as (y & c' & E & _ & _ & Hnd).
  exists y, c'. split; [exact E|].
  intros n d Hn Hd. destruct (Hnd n d Hn Hd) as [Hc Hy].
  rewrite Hy. f_equal. apply tl_sum_ext. intros c Hc'.
  rewrite (Hc c Hc'). reflexivity.
Qed.

Lemma conv_update_output_witness :
  exists y c',
    causal_conv1d_update (fun z => z) (plain_runtime 0)
      (of_list [1; 1; 2] [5; 7]) (Some (of_list [1; 2; 3] [10; 20; 30; 40; 50; 60]))
      (Some (of_list [1; 1; 2] [1000; 2000])) (Some (of_list [2; 3] [1; 2; 3; 4; 5; 6]))
      (Some (of_list [2] [100; 200])) None
      = Ok (y, Some c') /\
    data y 0
    = conv_epilogue (fun z => z) (Some (data (of_list [1; 1; 2] [1000; 2000])))
        (Some (data (of_list [2] [100; 200]))) None 2 0 0
        (tl_sum 3 (fun c =>
           data c' (0 * 2 * 3 + 0 * 3 + c)
           * data (of_list [2; 3] [1; 2; 3; 4; 5; 6]) (0 * 3 + c))).
Proof.
  destruct (conv_update_output Z ArithZ ArithLawsZ (fun z => z) (plain_runtime 0)
              (of_list [1; 1; 2] [5; 7]) (of_list [2; 3] [1; 2; 3; 4; 5; 6])
              (of_list [1; 2; 3] [10; 20; 30; 40; 50; 60])
              (Some (of_list [1; 1; 2] [1000; 2000]))
              (Some (of_list [2] [100; 200])) None
              1 1 2 3 (plain_runtime_fair 0) eq_refl eq_refl
              ltac:(lia) ltac:(lia))
    as (y & c' & E & Hy).
  exists y, c'. split; [exact E|].
  exact (Hy 0 0 ltac:(lia) ltac:(lia)).
Defined.

(** Without a cache [causal_conv1d_update] does not use its input: the block
    of the cache is zero, so the output is what the bias, the activation and
    the residual make of zero, and two inputs of the same shape give the same
    outputs. *)
Theorem conv_update_without_cache_ignores_input :
  forall (R : Type) (A : Arith R) (L : ArithLaws R) (sigmoid : R -> R)
         (rt rt' : runtime R) (x x' w : tensor R)
         (residual bias : option (tensor R))
         (activation : option string) (B T D W : Z),
    fair rt -> fair rt' ->
    shape x = [B; T; D] -> shape x' = [B; T; D] -> shape w = [D; W] ->
    1 <= D -> 1 <= W ->
    exists y y',
      causal_conv1d_update sigmoid rt x None residual (Some w) bias activation
        = Ok (y, None) /\
      causal_conv1d_update sigmoid rt' x' None residual (Some w) bias activation
        = Ok (y', None) /\
      forall n d, 0 <= n < B * T -> 0 <= d < D ->
        data y (n * D + d)
        = conv_epilogue sigmoid (option_map data residual) (option_map data bias)
            activation D n d zero /\
        data y' (n * D + d) = data y (n * D + d).
Proof.
  intros R A L sigmoid rt rt' x x' w residual bias activation B T D W
    Hf Hf' Sx Sx' Sw HD HW.
  destruct (conv_update_spec_no_cache sigmoid rt x w None residual bias activation
              B T D W Hf Sx Sw HD HW eq_refl) as (y & E & _ & Hy).
  destruct (conv_update_spec_no_cache sigmoid rt' x' w None residual bias activation
              B T D W Hf' Sx' Sw HD HW eq_refl) as (y' & E' & _ & Hy').
  exists y, y'. split; [exact E|]. split; [exact E'|].
  intros n d Hn Hd. split; [exact (Hy n d Hn Hd)|].
  rewrite (Hy n d Hn Hd), (Hy' n d Hn Hd). reflexivity.
Qed.

Lemma conv_update_without_cache_ignores_input_witness :
  exists y y',
    causal_conv1d_update (fun z => z) (plain_runtime 0)
      (of_list [1; 1; 2] [5; 7]) None None
      (Some (of_list [2; 3] [1; 2; 3; 4; 5; 6])) (Some (of_list [2] [100; 200]))
      (Some "silu"%string)
      = Ok (y, None) /\
    causal_conv1d_update (fun z => z) (plain_runtime 9)
      (of_list [1; 1; 2] [11; 13]) None None
      (Some (of_list [2; 3] [1; 2; 3; 4; 5; 6])) (Some (of_list [2] [100; 200]))
      (Some "silu"%string)
      = Ok (y', None) /\
    data y 1 = 40000 /\ data y' 1 = data y 1.
Proof.
  destruct (conv_update_without_cache_ignores_input Z ArithZ ArithLawsZ (fun z => z)
              (plain_runtime 0) (plain_runtime 9)
              (of_list [1; 1; 2] [5; 7]) (of_list [1; 1; 2] [11; 13])
              (of_list [2; 3] [1; 2; 3; 4; 5; 6]) None
              (Some (of_list [2] [100; 200])) (Some "silu"%string)
              1 1 2 3 (plain_runtime_fair 0) (plain_runtime_fair 9)
              eq_refl eq_refl eq_refl ltac:(lia) ltac:(lia))
    as (y & y' & E & E' & H).
  exists y, y'. split; [exact E|]. split; [exact E'|].
  exact (H 0 1 ltac:(lia) ltac:(lia)).
Defined.

(** [causal_conv1d_update] cannot be called without weights, though the
    parameter defaults to [None] and the kernel has a branch for it: the
    block width is [next_power_of_2(W)] with [W = None], which raises. *)
Theorem conv_update_needs_weight :
  forall (R : Type) (A : Arith R) (sigmoid : R -> R) (rt : runtime R)
         (x : tensor R) (cache residual bias : option (tensor R))
         (activation : option string) (D : Z),
    unpack_last (shape x) = Ok D -> D <> 0 ->
    causal_conv1d_update sigmoid rt x cache residual None bias activation
    = Raise TypeError.
Proof.
  intros R A sigmoid rt x cache residual bias activation D HD Hnz.
  unfold causal_conv1d_update. cbn [bind]. rewrite HD. cbn [bind].
  unfold py_floordiv. destruct (Z.eqb_spec D 0) as [E|_]; [contradiction|].
  reflexivity.
Qed.

Lemma conv_update_needs_weight_witness :
  causal_conv1d_update (fun z => z) (plain_runtime 0)
    (of_list [1; 1; 2] [5; 7]) (Some (of_list [1; 2; 3] [10; 20; 30; 40; 50; 60]))
    None None None None
  = Raise TypeError.
Proof.
  apply (conv_update_needs_weight Z ArithZ (fun z => z) (plain_runtime 0)
           (of_list [1; 1; 2] [5; 7])
           (Some (of_list [1; 2; 3] [10; 20; 30; 40; 50; 60])) None None None 2
           eq_refl ltac:(discriminate)).
Defined.

(** Two updates in a row shift the cache by two columns: the two inputs end
    up in the last two columns, the older one first. *)
Theorem conv_update_twice :
  forall (R : Type) (A : Arith R) (sigmoid : R -> R) (rt rt' : runtime R)
         (x1 x2 w c0 : tensor R) (residual residual' bias : option (tensor R))
         (activation : option string) (B T D W : Z),
    fair rt -> fair rt' ->
    shape x1 = [B; T; D] -> shape x2 = [B; T; D] -> shape w = [D; W] ->
    1 <= D -> 1 <= W ->
    exists y1 c1 y2 c2,
      causal_conv1d_update sigmoid rt x1 (Some c0) residual (Some w) bias activation
        = Ok (y1, Some c1) /\
      causal_conv1d_update sigmoid rt' x2 (Some c1) residual' (Some w) bias activation
        = Ok (y2, Some c2) /\
      forall n d c, 0 <= n < B * T -> 0 <= d < D -> 0 <= c < W ->
        data c2 (n * D * W + d * W + c)
        = if c <? W - 2 then data c0 (n * D * W + d * W + c + 2)
          else if c <? W - 1 then data x1 (n * D + d)
          else data x2 (n * D + d).
Proof.
  intros R A sigmoid rt rt' x1 x2 w c0 residual residual' bias activation B T D W
    Hf Hf' S1 S2 Sw HD HW.
  destruct (conv_update_cache_spec R A sigmoid rt x1 w c0 residual bias
              activation B T D W Hf S1 Sw HD HW)
    as (y1 & c1 & E1 & _ & _ & H1).
  destruct (conv_update_cache_spec R A sigmoid rt' x2 w c1 residual' bias
              activation B T D W Hf' S2 Sw HD HW)
    as (y2 & c2 & E2 & _ & _ & H2).
  exists y1, c1, y2, c2. split; [exact E1|]. split; [exact E2|].
  intros n d c Hn Hd Hc. rewrite (H2 n d c Hn Hd Hc).
  destruct (Z.ltb_spec c (W - 1)) as [Hlt|Hge].
  - replace (n * D * W + d * W + c + 1) with (n * D * W + d * W + (c + 1)) by lia.
    rewrite (H1 n d (c + 1) Hn Hd ltac:(lia)).
    destruct (Z.ltb_spec (c + 1) (W - 1)), (Z.ltb_spec c (W - 2)); try lia.
    + f_equal. lia.
    + reflexivity.
  - destruct (Z.ltb_spec c (W - 2)); [lia|reflexivity].
Qed.

Lemma conv_update_twice_witness :
  exists y1 c1 y2 c2,
    causal_conv1d_update (fun z => z) (plain_runtime 0)
      (of_list [1; 1; 2] [5; 7]) (Some (of_list [1; 2; 3] [10; 20; 30; 40; 50; 60]))
      None (Some (of_list [2; 3] [1; 2; 3; 4; 5; 6])) None None
      = Ok (y1, Some c1) /\
    causal_conv1d_update (fun z => z) (plain_runtime 0)
      (of_list [1; 1; 2] [11; 13]) (Some c1)
      None (Some (of_list [2; 3] [1; 2; 3; 4; 5; 6])) None None
      = Ok (y2, Some c2) /\
    data c2 0 = 30 /\ data c2 1 = 5 /\ data c2 2 = 11 /\
    data c2 3 = 60 /\ data c2 4 = 7 /\ data c2 5 = 13.
Proof.
  destruct (conv_update_twice Z ArithZ (fun z => z)
              (plain_runtime 0) (plain_runtime 0)
              (of_list [1; 1; 2] [5; 7]) (of_list [1; 1; 2] [11; 13])
              (of_list [2; 3] [1; 2; 3; 4; 5; 6])
              (of_list [1; 2; 3] [10; 20; 30; 40; 50; 60]) None None None None
              1 1 2 3 (plain_runtime_fair 0) (plain_runtime_fair 0)
              eq_refl eq_refl eq_refl ltac:(lia) ltac:(lia))
    as (y1 & c1 & y2 & c2 & E1 & E2 & Hc).
  exists y1, c1, y2, c2. split; [exact E1|]. split; [exact E2|].
  pose proof (Hc 0 0 0 ltac:(lia) ltac:(lia) ltac:(lia)) as H0.
  pose proof (Hc 0 0 1 ltac:(lia) ltac:(lia) ltac:(lia)) as H1.
  pose proof (Hc 0 0 2 ltac:(lia) ltac:(lia) ltac:(lia)) as H2.
  pose proof (Hc 0 1 0 ltac:(lia) ltac:(lia) ltac:(lia)) as H3.
  pose proof (Hc 0 1 1 ltac:(lia) ltac:(lia) ltac:(lia)) as H4.
  pose proof (Hc 0 1 2 ltac:(lia) ltac:(lia) ltac:(lia)) as H5.
  repeat split; assumption.
Defined.

(** When the last dimension of the input is not the number of channels of
    the weights, [causal_conv1d_update] works on the input with its trailing
    dimensions flattened, and gives the output the shape the input had. *)
Theorem conv_update_flattens_trailing_dimensions :
  forall (R : Type) (A : Arith R) (sigmoid : R -> R) (rt : runtime R)
         (x w : tensor R) (cache residual bias : option (tensor R))
         (activation : option string) (b t l D : Z) (rest ws : list Z),
    shape x = b :: t :: rest -> shape_last (shape x) = Ok l ->
    shape w = D :: ws -> l <> D ->
    causal_conv1d_update sigmoid rt x cache residual (Some w) bias activation
    = match
        causal_conv1d_update sigmoid rt
          {| shape := [b; t; numel rest]; data := data x;
             requires_grad := requires_grad x |}
          cache residual (Some w) bias activation
      with
      | Ok (y, c) =>
          Ok ({| shape := shape x; data := data y;
                 requires_grad := requires_grad y |}, c)
      | Raise e => Raise e
      end.
Proof.
  intros R A sigmoid rt x w cache residual bias activation b t l D rest ws
    Sx Sl Sw Hne.
  unfold causal_conv1d_update at 1. rewrite Sl, Sw. cbn [shape_first bind].
  destruct (Z.eqb_spec l D) as [E|_]; [contradiction|]. cbn [negb].
  unfold rearrange_flatten at 1. rewrite Sx. cbn [bind].
  unfold causal_conv1d_update. cbn [shape data requires_grad].
  rewrite Sw. cbn [shape_first shape_last rev app bind].
  assert (Ex : (if negb (numel rest =? D)
                then rearrange_flatten
                       {| shape := [b; t; numel rest]; data := data x;
                          requires_grad := requires_grad x |}
                else Ok {| shape := [b; t; numel rest]; data := data x;
                           requires_grad := requires_grad x |})
               = Ok {| shape := [b; t; numel rest]; data := data x;
                       requires_grad := requires_grad x |}).
  { destruct (negb (numel rest =? D)); [|reflexivity].
    unfold rearrange_flatten. cbn [shape data requires_grad numel fold_right].
    rewrite Z.mul_1_r. reflexivity. }
  rewrite Ex. cbn [bind shape data requires_grad unpack_last rev app].
  destruct (py_floordiv _ _) as [N|e]; [|reflexivity]. cbn [bind].
  destruct (shape_second _) as [W|e]; [|reflexivity]. cbn [bind].
  destruct (cdiv _ _) as [ND|e]; [|reflexivity]. cbn [bind].
  reflexivity.
Qed.

Lemma conv_update_flattens_trailing_dimensions_witness :
  causal_conv1d_update (fun z => z) (plain_runtime 0)
    (of_list [1; 1; 2; 1] [5; 7]) (Some (of_list [1; 2; 3] [10; 20; 30; 40; 50; 60]))
    None (Some (of_list [2; 3] [1; 2; 3; 4; 5; 6])) None None
  = match
      causal_conv1d_update (fun z => z) (plain_runtime 0)
        {| shape := [1; 1; numel [2; 1]];
           data := data (of_list [1; 1; 2; 1] [5; 7]);
           requires_grad := false |}
        (Some (of_list [1; 2; 3] [10; 20; 30; 40; 50; 60]))
        None (Some (of_list [2; 3] [1; 2; 3; 4; 5; 6])) None None
    with
    | Ok (y, c) =>
        Ok ({| shape := [1; 1; 2; 1]; data := data y;
               requires_grad := requires_grad y |}, c)
    | Raise e => Raise e
    end.
Proof.
  apply (conv_update_flattens_trailing_dimensions Z ArithZ (fun z => z)
           (plain_runtime 0) (of_list [1; 1; 2; 1] [5; 7])
           (of_list [2; 3] [1; 2; 3; 4; 5; 6])
           (Some (of_list [1; 2; 3] [10; 20; 30; 40; 50; 60])) None None None
           1 1 1 2 [2; 1] [3] eq_refl eq_refl eq_refl ltac:(discriminate)).
Defined.
